(** * KXKextManager: version chains, dependency splicing, load orchestration

    A shallow embedding of [kext.subproj/KXKextManager.c].

    Kext objects live in a heap addressed by handles ([KXKextRef]); the
    [priorVersionKext] and [duplicateVersionKext] pointers of the C structure
    are optional handles, so the in-place relinking done by the manager is
    modelled with its aliasing.  The manager structure, the kext heap and a
    ghost trace of the calls made to collaborators form one [World] that is
        threaded through every operation.  Loops that follow pointers are bounded
    by a [fuel] argument, for which the entry points of the manager take one
    more than the number of kext objects: a chain without a cycle meets each
    kext at most once (on a cyclic one the C loop would not end).

    CoreFoundation allocations are taken to succeed. *)

From stdpp Require Import gmap strings list fin_maps sorting.

Local Open Scope Z_scope.

(** ** Error codes *)

Inductive KXKextManagerError : Type :=
  | kKXKextManagerErrorNone
  | kKXKextManagerErrorUnspecified
  | kKXKextManagerErrorInvalidArgument
  | kKXKextManagerErrorNoMemory
  | kKXKextManagerErrorFileAccess
  | kKXKextManagerErrorNotADirectory
  | kKXKextManagerErrorDiskFull
  | kKXKextManagerErrorSerialization
  | kKXKextManagerErrorCompression
  | kKXKextManagerErrorIPC
  | kKXKextManagerErrorChildTask
  | kKXKextManagerErrorUserAbort
  | kKXKextManagerErrorKernelResource
  | kKXKextManagerErrorKernelPermission
  | kKXKextManagerErrorKextNotFound
  | kKXKextManagerErrorURLNotInRepository
  | kKXKextManagerErrorNotABundle
  | kKXKextManagerErrorNotAKext
  | kKXKextManagerErrorValidation
  | kKXKextManagerErrorBootLevel
  | kKXKextManagerErrorDisabled
  | kKXKextManagerErrorAuthentication
  | kKXKextManagerErrorDependency
  | kKXKextManagerErrorDependencyLoop
  | kKXKextManagerErrorCache
  | kKXKextManagerErrorAlreadyLoaded
  | kKXKextManagerErrorLoadedVersionDiffers
  | kKXKextManagerErrorDependencyLoadedVersionDiffers
  | kKXKextManagerErrorLoadExecutableBad
  | kKXKextManagerErrorLoadExecutableNoArch
  | kKXKextManagerErrorLinkLoad.

#[global] Instance KXKextManagerError_eq_dec : EqDecision KXKextManagerError.
Proof. solve_decision. Defined.

(** ** Kext objects *)

Abbreviation KXKextRef := nat.

(** Modelled from the spec: the kext structure is declared in KXKext.c, which
    is not part of the sources.  The fields are the ones section 3 of the
    specification lists and the manager reads or writes through accessors. *)
Record KXKext : Type := mkKXKext {
  bundleIdentifier : string;
  version : Z;
  repository : nat;
  isValid : bool;
  isEnabled : bool;
  isEligibleDuringSafeBoot : bool;
  isAuthentic : bool;
  loadFailed : bool;
  isLoaded : bool;
  otherVersionIsLoaded : bool;
  hasAllDependencies : bool;
  startAddress : Z;
  priorVersionKext : option KXKextRef;
  duplicateVersionKext : option KXKextRef
}.

Definition set_priorVersionKext (p : option KXKextRef) (k : KXKext) : KXKext :=
  mkKXKext (bundleIdentifier k) (version k) (repository k) (isValid k)
    (isEnabled k) (isEligibleDuringSafeBoot k) (isAuthentic k) (loadFailed k)
    (isLoaded k) (otherVersionIsLoaded k) (hasAllDependencies k)
    (startAddress k) p (duplicateVersionKext k).

Definition set_duplicateVersionKext (d : option KXKextRef) (k : KXKext) : KXKext :=
  mkKXKext (bundleIdentifier k) (version k) (repository k) (isValid k)
    (isEnabled k) (isEligibleDuringSafeBoot k) (isAuthentic k) (loadFailed k)
    (isLoaded k) (otherVersionIsLoaded k) (hasAllDependencies k)
    (startAddress k) (priorVersionKext k) d.

Definition set_isAuthentic (b : bool) (k : KXKext) : KXKext :=
  mkKXKext (bundleIdentifier k) (version k) (repository k) (isValid k)
    (isEnabled k) (isEligibleDuringSafeBoot k) b (loadFailed k)
    (isLoaded k) (otherVersionIsLoaded k) (hasAllDependencies k)
    (startAddress k) (priorVersionKext k) (duplicateVersionKext k).

Definition set_loadFailed (b : bool) (k : KXKext) : KXKext :=
  mkKXKext (bundleIdentifier k) (version k) (repository k) (isValid k)
    (isEnabled k) (isEligibleDuringSafeBoot k) (isAuthentic k) b
    (isLoaded k) (otherVersionIsLoaded k) (hasAllDependencies k)
    (startAddress k) (priorVersionKext k) (duplicateVersionKext k).

Definition set_isLoaded (b : bool) (k : KXKext) : KXKext :=
  mkKXKext (bundleIdentifier k) (version k) (repository k) (isValid k)
    (isEnabled k) (isEligibleDuringSafeBoot k) (isAuthentic k) (loadFailed k)
    b (otherVersionIsLoaded k) (hasAllDependencies k)
    (startAddress k) (priorVersionKext k) (duplicateVersionKext k).

Definition set_otherVersionIsLoaded (b : bool) (k : KXKext) : KXKext :=
  mkKXKext (bundleIdentifier k) (version k) (repository k) (isValid k)
    (isEnabled k) (isEligibleDuringSafeBoot k) (isAuthentic k) (loadFailed k)
    (isLoaded k) b (hasAllDependencies k)
    (startAddress k) (priorVersionKext k) (duplicateVersionKext k).

Definition set_hasAllDependencies (b : bool) (k : KXKext) : KXKext :=
  mkKXKext (bundleIdentifier k) (version k) (repository k) (isValid k)
    (isEnabled k) (isEligibleDuringSafeBoot k) (isAuthentic k) (loadFailed k)
    (isLoaded k) (otherVersionIsLoaded k) b
    (startAddress k) (priorVersionKext k) (duplicateVersionKext k).

Definition set_startAddress (a : Z) (k : KXKext) : KXKext :=
  mkKXKext (bundleIdentifier k) (version k) (repository k) (isValid k)
    (isEnabled k) (isEligibleDuringSafeBoot k) (isAuthentic k) (loadFailed k)
    (isLoaded k) (otherVersionIsLoaded k) (hasAllDependencies k)
    a (priorVersionKext k) (duplicateVersionKext k).

(** The accessors of KXKext.h, reading through a handle.  A handle that does
    not name a kext reads as the null object: flags false, no links. *)
Section accessors.
Variable heap : gmap nat KXKext.

Definition KXKextGetBundleIdentifier (k : KXKextRef) : string :=
  from_option bundleIdentifier EmptyString (heap !! k).
Definition _KXKextGetVersion (k : KXKextRef) : Z :=
  from_option version 0 (heap !! k).
Definition KXKextGetRepository (k : KXKextRef) : nat :=
  from_option repository 0%nat (heap !! k).
Definition KXKextIsValid (k : KXKextRef) : bool :=
  from_option isValid false (heap !! k).
Definition KXKextIsEnabled (k : KXKextRef) : bool :=
  from_option isEnabled false (heap !! k).
Definition KXKextIsEligibleDuringSafeBoot (k : KXKextRef) : bool :=
  from_option isEligibleDuringSafeBoot false (heap !! k).
Definition KXKextIsAuthentic (k : KXKextRef) : bool :=
  from_option isAuthentic false (heap !! k).
Definition KXKextGetLoadFailed (k : KXKextRef) : bool :=
  from_option loadFailed false (heap !! k).
Definition KXKextIsLoaded (k : KXKextRef) : bool :=
  from_option isLoaded false (heap !! k).
Definition KXKextOtherVersionIsLoaded (k : KXKextRef) : bool :=
  from_option otherVersionIsLoaded false (heap !! k).
Definition KXKextGetHasAllDependencies (k : KXKextRef) : bool :=
  from_option hasAllDependencies false (heap !! k).
Definition KXKextGetPriorVersionKext (k : KXKextRef) : option KXKextRef :=
  heap !! k ≫= priorVersionKext.
Definition KXKextGetDuplicateVersionKext (k : KXKextRef) : option KXKextRef :=
  heap !! k ≫= duplicateVersionKext.
End accessors.

Definition _KXKextSetPriorVersionKext (k : KXKextRef) (p : option KXKextRef)
    (heap : gmap nat KXKext) : gmap nat KXKext :=
  alter (set_priorVersionKext p) k heap.
Definition _KXKextSetDuplicateVersionKext (k : KXKextRef) (d : option KXKextRef)
    (heap : gmap nat KXKext) : gmap nat KXKext :=
  alter (set_duplicateVersionKext d) k heap.
Definition _KXKextSetIsLoaded (k : KXKextRef) (b : bool)
    (heap : gmap nat KXKext) : gmap nat KXKext :=
  alter (set_isLoaded b) k heap.
Definition _KXKextSetOtherVersionIsLoaded (k : KXKextRef) (b : bool)
    (heap : gmap nat KXKext) : gmap nat KXKext :=
  alter (set_otherVersionIsLoaded b) k heap.
Definition _KXKextSetStartAddress (k : KXKextRef) (a : Z)
    (heap : gmap nat KXKext) : gmap nat KXKext :=
  alter (set_startAddress a) k heap.
Definition KXKextSetLoadFailed (k : KXKextRef) (b : bool)
    (heap : gmap nat KXKext) : gmap nat KXKext :=
  alter (set_loadFailed b) k heap.

(** ** The manager *)

(** What the manager reads of a repository: its candidate kexts and its bad
    kexts ([_KXKextRepositoryGetCandidateKexts], [_KXKextRepositoryGetBadKexts]). *)
Record KXKextRepository : Type := mkRepository {
  repoCandidateKexts : list KXKextRef;
  repoBadKexts : list KXKextRef
}.

(** Ghost events: the calls the manager makes that the claims speak about. *)
Inductive Event : Type :=
  | EvClearRelationships (disableCount : Z)
  | EvResolveDependencies (k : KXKextRef)
  | EvAuthenticate (k : KXKextRef)
  | EvDisqualify (k : KXKextRef)
  | EvKmodGetInfo.

#[global] Instance Event_eq_dec : EqDecision Event.
Proof. solve_decision. Defined.

(** [struct __KXKextManager] (the logging hooks and the receipt array play no
    role in the operations below), with the kext heap and the ghost trace. *)
Record World : Type := mkWorld {
  kexts : gmap nat KXKext;
  repositoryList : list KXKextRepository;
  candidateKexts : gmap string nat;
  clearRelationshipsDisableCount : Z;
  needsClearRelationships : bool;
  needsCalculateRelationships : bool;
  performsFullTests : bool;
  performLoadsInTask : bool;
  safeBoot : bool;
  kextsWithMissingDependencies : list KXKextRef;
  trace : list Event
}.

Definition set_kexts (h : gmap nat KXKext) (w : World) : World :=
  mkWorld h (repositoryList w) (candidateKexts w)
    (clearRelationshipsDisableCount w) (needsClearRelationships w)
    (needsCalculateRelationships w) (performsFullTests w)
    (performLoadsInTask w) (safeBoot w) (kextsWithMissingDependencies w)
    (trace w).

Definition set_repositoryList (r : list KXKextRepository) (w : World) : World :=
  mkWorld (kexts w) r (candidateKexts w)
    (clearRelationshipsDisableCount w) (needsClearRelationships w)
    (needsCalculateRelationships w) (performsFullTests w)
    (performLoadsInTask w) (safeBoot w) (kextsWithMissingDependencies w)
    (trace w).

Definition set_candidateKexts (c : gmap string nat) (w : World) : World :=
  mkWorld (kexts w) (repositoryList w) c
    (clearRelationshipsDisableCount w) (needsClearRelationships w)
    (needsCalculateRelationships w) (performsFullTests w)
    (performLoadsInTask w) (safeBoot w) (kextsWithMissingDependencies w)
    (trace w).

Definition set_clearRelationshipsDisableCount (n : Z) (w : World) : World :=
  mkWorld (kexts w) (repositoryList w) (candidateKexts w)
    n (needsClearRelationships w)
    (needsCalculateRelationships w) (performsFullTests w)
    (performLoadsInTask w) (safeBoot w) (kextsWithMissingDependencies w)
    (trace w).

Definition set_needsClearRelationships (b : bool) (w : World) : World :=
  mkWorld (kexts w) (repositoryList w) (candidateKexts w)
    (clearRelationshipsDisableCount w) b
    (needsCalculateRelationships w) (performsFullTests w)
    (performLoadsInTask w) (safeBoot w) (kextsWithMissingDependencies w)
    (trace w).

Definition set_needsCalculateRelationships (b : bool) (w : World) : World :=
  mkWorld (kexts w) (repositoryList w) (candidateKexts w)
    (clearRelationshipsDisableCount w) (needsClearRelationships w)
    b (performsFullTests w)
    (performLoadsInTask w) (safeBoot w) (kextsWithMissingDependencies w)
    (trace w).

Definition set_kextsWithMissingDependencies (l : list KXKextRef) (w : World) : World :=
  mkWorld (kexts w) (repositoryList w) (candidateKexts w)
    (clearRelationshipsDisableCount w) (needsClearRelationships w)
    (needsCalculateRelationships w) (performsFullTests w)
    (performLoadsInTask w) (safeBoot w) l
    (trace w).

Definition emit (e : Event) (w : World) : World :=
  mkWorld (kexts w) (repositoryList w) (candidateKexts w)
    (clearRelationshipsDisableCount w) (needsClearRelationships w)
    (needsCalculateRelationships w) (performsFullTests w)
    (performLoadsInTask w) (safeBoot w) (kextsWithMissingDependencies w)
    (trace w ++ [e]).

(** The C [int] of the disable counter: 32 bits, two's complement. *)
Definition int_wrap (z : Z) : Z := (z + 2 ^ 31) mod 2 ^ 32 - 2 ^ 31.

(** ** Repository collaborators *)

Definition repoKexts (r : KXKextRepository) : list KXKextRef :=
  repoCandidateKexts r ++ repoBadKexts r.

Definition clearVersionRelationships (k : KXKext) : KXKext :=
  set_duplicateVersionKext None (set_priorVersionKext None k).

(** Modelled from the spec: [_KXKextRepositoryClearRelationships] is defined
    in KXKextRepository.c (absent).  Section 6 names it [clearRelationships()]
    and section 4.4 describes the teardown as freeing all chain links: every
    kext of the repository loses its prior-version and duplicate links. *)
Definition _KXKextRepositoryClearRelationships (r : KXKextRepository)
    (heap : gmap nat KXKext) : gmap nat KXKext :=
  foldr (alter clearVersionRelationships) heap (repoKexts r).

(** Modelled from the spec: [_KXKextRepositoryClearDependencyRelationships]
    (absent) discards the dependency-resolution state of the repository's
    kexts (section 4.3, step 3). *)
Definition _KXKextRepositoryClearDependencyRelationships
    (r : KXKextRepository) (heap : gmap nat KXKext) : gmap nat KXKext :=
  foldr (alter (set_hasAllDependencies false)) heap (repoKexts r).

Definition markNotLoaded (k : KXKext) : KXKext :=
  set_otherVersionIsLoaded false (set_isLoaded false k).

(** Modelled from the spec: [_KXKextRepositoryMarkKextsNotLoaded] (absent),
    [markNotLoaded()] in section 6: every kext of the repository is marked
    not loaded, for its own version and for other versions. *)
Definition _KXKextRepositoryMarkKextsNotLoaded (r : KXKextRepository)
    (heap : gmap nat KXKext) : gmap nat KXKext :=
  foldr (alter markNotLoaded) heap (repoKexts r).

(** ** Clearing relationships and the disable counter *)

Definition __KXKextManagerClearRelationships (w : World) : World :=
  let w := emit (EvClearRelationships (clearRelationshipsDisableCount w)) w in
  let w := set_kexts
    (fold_left (fun heap r => _KXKextRepositoryClearRelationships r heap)
       (repositoryList w) (kexts w)) w in
  let w := set_candidateKexts ∅ w in
  let w := set_kextsWithMissingDependencies [] w in
  let w := set_needsClearRelationships false w in
  set_needsCalculateRelationships true w.

Definition __KXKextManagerClearDependencyRelationships (w : World) : World :=
  let w := set_kexts
    (fold_left
       (fun heap r => _KXKextRepositoryClearDependencyRelationships r heap)
       (repositoryList w) (kexts w)) w in
  set_kextsWithMissingDependencies [] w.

Definition KXKextManagerClearRelationships (w : World) : World :=
  if clearRelationshipsDisableCount w >? 0 then
    let w := set_needsClearRelationships true w in
    set_needsCalculateRelationships true w
  else
    let w := __KXKextManagerClearRelationships w in
    set_kexts
      (fold_left (fun heap r => _KXKextRepositoryClearRelationships r heap)
         (repositoryList w) (kexts w)) w.

Definition KXKextManagerEnableClearRelationships (w : World) : World :=
  let w :=
    if clearRelationshipsDisableCount w >? 0 then
      set_clearRelationshipsDisableCount
        (clearRelationshipsDisableCount w - 1) w
    else w in
  if needsClearRelationships w then KXKextManagerClearRelationships w else w.

Definition KXKextManagerDisableClearRelationships (w : World) : World :=
  set_clearRelationshipsDisableCount
    (int_wrap (clearRelationshipsDisableCount w + 1)) w.

(** Sequences of calls to the three entry points of the controller. *)
Inductive ControllerCall : Type :=
  | CallDisable
  | CallClear
  | CallEnable.

#[global] Instance ControllerCall_eq_dec : EqDecision ControllerCall.
Proof. solve_decision. Defined.

Definition controller_call (c : ControllerCall) (w : World) : World :=
  match c with
  | CallDisable => KXKextManagerDisableClearRelationships w
  | CallClear => KXKextManagerClearRelationships w
  | CallEnable => KXKextManagerEnableClearRelationships w
  end.

Definition controller_run (cs : list ControllerCall) (w : World) : World :=
  fold_left (fun w c => controller_call c w) cs w.

(** The disable counts at which the structural clears of a trace ran. *)
Definition structural_clears (t : list Event) : list Z :=
  omap (fun e => match e with
                 | EvClearRelationships d => Some d
                 | _ => None
                 end) t.

(** The bound on the pointer-following loops. *)
Definition enoughFuel (heap : gmap nat KXKext) : nat := S (size heap).

(** ** Collaborators

    The dependency resolver, the authenticator, the version parser, the
    compatibility test and the kernel's module table are outside this file;
    the operations below are parameterised by them. *)

(** One [kmod_info_t] of the table returned by [kmod_get_info]; [kmod_next]
    is the [next] pointer, 0 when null. *)
Record kmod_info : Type := mkKmod {
  kmod_name : string;
  kmod_version : string;
  kmod_address : Z;
  kmod_next : Z
}.

Section manager.

(** [VERS_parse_string] of vers_rsrc.h: negative when the string is not a
    version. *)
Variable VERS_parse_string : string -> Z.

(** [_KXKextIsCompatibleWithVersionNumber], on the kext object. *)
Variable isCompatibleWithVersionNumber : KXKext -> Z -> bool.

(** The dependency-graph collaborator behind [KXKextResolveDependencies],
    the transitive dependency list of [KXKextCopyAllDependencies] (null
    when there is none) and the authenticator behind [KXKextAuthenticate]. *)
Variable resolveDependencies : World -> KXKextRef -> KXKextManagerError.
Variable copyAllDependencies : World -> KXKextRef -> option (list KXKextRef).
Variable authenticate : World -> KXKextRef -> KXKextManagerError.

(** The answer of [kmod_get_info]: [None] when the call fails. *)
Variable kmod_get_info : option (list kmod_info).

Definition _KXKextIsCompatibleWithVersionNumber (heap : gmap nat KXKext)
    (k : KXKextRef) (v : Z) : bool :=
  from_option (fun x => isCompatibleWithVersionNumber x v) false (heap !! k).

(** Modelled from the spec: [KXKextResolveDependencies] (KXKext.c, absent)
    invokes the dependency-graph collaborator to compute
    [hasAllDependencies] (section 4.2, pass 1) and returns its result. *)
Definition KXKextResolveDependencies (w : World) (k : KXKextRef)
    : KXKextManagerError * World :=
  let r := resolveDependencies w k in
  let w := emit (EvResolveDependencies k) w in
  (r, set_kexts
        (alter (set_hasAllDependencies
                  (bool_decide (r = kKXKextManagerErrorNone))) k (kexts w)) w).

(** Modelled from the spec: [KXKextAuthenticate] (KXKext.c, absent) invokes
    the authentication collaborator; a kext that passes is marked authentic
    and is not checked again (section 4.3, step 4). *)
Definition KXKextAuthenticate (w : World) (k : KXKextRef)
    : KXKextManagerError * World :=
  let r := authenticate w k in
  let w := emit (EvAuthenticate k) w in
  (r, set_kexts
        (alter (set_isAuthentic
                  (bool_decide (r = kKXKextManagerErrorNone))) k (kexts w)) w).

(** *** Version chains *)

(** Modelled from the spec: [__KXKextAddDuplicateVersionKext] (KXKext.c,
    absent) hangs the new kext at the end of the duplicate chain of the
    node that has its version. *)
Fixpoint addDuplicateVersionKext (fuel : nat) (aKext newKext : KXKextRef)
    (heap : gmap nat KXKext) : gmap nat KXKext :=
  match fuel with
  | O => heap
  | S fuel =>
      match KXKextGetDuplicateVersionKext heap aKext with
      | None => _KXKextSetDuplicateVersionKext aKext (Some newKext) heap
      | Some dupKext => addDuplicateVersionKext fuel dupKext newKext heap
      end
  end.

(** Modelled from the spec: [_KXKextAddPriorOrDuplicateVersionKext]
    (KXKext.c, absent).  Section 4.1: the new kext is attached to the
    duplicate chain of the node that matches it by version, or else linked
    into the descending [priorVersion] chain at its position. *)
Fixpoint addPriorOrDuplicateVersionKext (fuel : nat)
    (thisKext : KXKextRef) (lastKext : option KXKextRef)
    (priorKext : KXKextRef) (heap : gmap nat KXKext) : gmap nat KXKext :=
  match fuel with
  | O => heap
  | S fuel' =>
      if _KXKextGetVersion heap priorKext =? _KXKextGetVersion heap thisKext
      then addDuplicateVersionKext fuel thisKext priorKext heap
      else if _KXKextGetVersion heap priorKext >? _KXKextGetVersion heap thisKext
      then
        let heap :=
          match lastKext with
          | Some l => _KXKextSetPriorVersionKext l (Some priorKext) heap
          | None => heap
          end in
        _KXKextSetPriorVersionKext priorKext (Some thisKext) heap
      else
        match KXKextGetPriorVersionKext heap thisKext with
        | None => _KXKextSetPriorVersionKext thisKext (Some priorKext) heap
        | Some nextKext =>
            addPriorOrDuplicateVersionKext fuel' nextKext (Some thisKext)
              priorKext heap
        end
  end.

Definition _KXKextAddPriorOrDuplicateVersionKext (fuel : nat)
    (aKext priorKext : KXKextRef) (heap : gmap nat KXKext)
    : gmap nat KXKext :=
  addPriorOrDuplicateVersionKext fuel aKext None priorKext heap.

(** The body of the inner loop of
    [KXKextManagerCalculateVersionRelationships]. *)
Definition calculateKext (w : World) (thisKext : KXKextRef) : World :=
  let thisKextID := KXKextGetBundleIdentifier (kexts w) thisKext in
  if negb (KXKextIsValid (kexts w) thisKext) then w
  else if KXKextGetLoadFailed (kexts w) thisKext then w
  else if safeBoot w
          && negb (KXKextIsEligibleDuringSafeBoot (kexts w) thisKext) then w
  else if negb (KXKextIsEnabled (kexts w) thisKext) then w
  else
    match candidateKexts w !! thisKextID with
    | None =>
        set_candidateKexts (<[thisKextID := thisKext]> (candidateKexts w)) w
    | Some alreadyKext =>
        if _KXKextGetVersion (kexts w) thisKext
           >? _KXKextGetVersion (kexts w) alreadyKext
        then
          let w := set_kexts
            (_KXKextSetPriorVersionKext thisKext (Some alreadyKext)
               (kexts w)) w in
          set_candidateKexts
            (<[thisKextID := thisKext]> (candidateKexts w)) w
        else
          set_kexts
            (_KXKextAddPriorOrDuplicateVersionKext (enoughFuel (kexts w))
               alreadyKext thisKext (kexts w)) w
    end.

Definition KXKextManagerCalculateVersionRelationships (w : World) : World :=
  let w := __KXKextManagerClearRelationships w in
  let w := __KXKextManagerClearDependencyRelationships w in
  let w :=
    fold_left
      (fun w thisRepository =>
         fold_left calculateKext
           (repoCandidateKexts thisRepository) w)
      (repositoryList w) w in
  set_needsCalculateRelationships false w.

(** *** Resolving all dependencies *)

(** First pass: every kext of the two-way tree resolves its dependencies. *)
Fixpoint resolveDuplicates (fuel : nat) (dupKext : option KXKextRef)
    (w : World) : World :=
  match dupKext, fuel with
  | Some d, S fuel =>
      let w := snd (KXKextResolveDependencies w d) in
      resolveDuplicates fuel (KXKextGetDuplicateVersionKext (kexts w) d) w
  | _, _ => w
  end.

Fixpoint resolveChain (fuel : nat) (thisKext : option KXKextRef)
    (w : World) : World :=
  match thisKext, fuel with
  | Some k, S fuel' =>
      let w := snd (KXKextResolveDependencies w k) in
      let w :=
        resolveDuplicates fuel (KXKextGetDuplicateVersionKext (kexts w) k) w in
      resolveChain fuel' (KXKextGetPriorVersionKext (kexts w) k) w
  | _, _ => w
  end.

Definition appendMissingDependencies (k : KXKextRef) (w : World) : World :=
  set_kextsWithMissingDependencies (kextsWithMissingDependencies w ++ [k]) w.

(** Second pass, the peek-ahead loop over the duplicates of a kext that
    passed: [dupKext] is the last duplicate kept, [peekDupKext] the one
    being looked at. *)
Fixpoint peekDuplicates (fuel : nat) (dupKext : KXKextRef)
    (peekDupKext : option KXKextRef) (w : World) : World :=
  match peekDupKext, fuel with
  | Some peek, S fuel =>
      if negb (KXKextGetHasAllDependencies (kexts w) peek) then
        let w := appendMissingDependencies peek w in
        let w := set_kexts
          (_KXKextSetDuplicateVersionKext dupKext
             (KXKextGetDuplicateVersionKext (kexts w) peek) (kexts w)) w in
        peekDuplicates fuel dupKext
          (KXKextGetDuplicateVersionKext (kexts w) peek) w
      else
        peekDuplicates fuel peek
          (KXKextGetDuplicateVersionKext (kexts w) peek) w
  | _, _ => w
  end.

(** Second pass, the [while (thisKext)] loop for the dictionary entry
    [id]. *)
Fixpoint spliceChain (fuel : nat) (id : string)
    (thisKext prevKext : option KXKextRef) (w : World) : World :=
  match thisKext, fuel with
  | Some this, S fuel =>
      let nextKext := KXKextGetPriorVersionKext (kexts w) this in
      let dupKext := KXKextGetDuplicateVersionKext (kexts w) this in
      if negb (KXKextGetHasAllDependencies (kexts w) this) then
        let w := appendMissingDependencies this w in
        match dupKext with
        | None =>
            let w :=
              match prevKext, nextKext with
              | Some prev, _ =>
                  set_kexts
                    (_KXKextSetPriorVersionKext prev nextKext (kexts w)) w
              | None, Some next =>
                  set_candidateKexts (<[id := next]> (candidateKexts w)) w
              | None, None =>
                  set_candidateKexts (delete id (candidateKexts w)) w
              end in
            spliceChain fuel id nextKext prevKext w
        | Some dup =>
            let w :=
              match prevKext with
              | Some prev =>
                  let w := set_kexts
                    (_KXKextSetPriorVersionKext prev (Some dup) (kexts w)) w in
                  set_kexts
                    (_KXKextSetPriorVersionKext dup nextKext (kexts w)) w
              | None =>
                  let w := set_candidateKexts
                    (<[id := dup]> (candidateKexts w)) w in
                  set_kexts
                    (_KXKextSetPriorVersionKext dup nextKext (kexts w)) w
              end in
            spliceChain fuel id (Some dup) prevKext w
        end
      else
        let w :=
          match dupKext with
          | Some dup =>
              peekDuplicates fuel dup
                (KXKextGetDuplicateVersionKext (kexts w) dup) w
          | None => w
          end in
        spliceChain fuel id nextKext (Some this) w
  | _, _ => w
  end.

(** Modelled from the spec: [KXKextRepositoryResolveBadKextDependencies]
    (absent); in full-tests mode the bad kexts are asked to resolve their
    dependencies too, for reporting (section 4.2, last paragraph). *)
Definition KXKextRepositoryResolveBadKextDependencies
    (r : KXKextRepository) (w : World) : World :=
  fold_left (fun w k => snd (KXKextResolveDependencies w k))
    (repoBadKexts r) w.

Definition KXKextManagerResolveAllKextDependencies (w : World) : World :=
  let fuel := enoughFuel (kexts w) in
  let entries := map_to_list (candidateKexts w) in
  let w :=
    fold_left (fun w e => resolveChain fuel (Some (snd e)) w) entries w in
  let w :=
    fold_left (fun w e => spliceChain fuel (fst e) (Some (snd e)) None w)
      entries w in
  if performsFullTests w then
    fold_left (fun w r => KXKextRepositoryResolveBadKextDependencies r w)
      (repositoryList w) w
  else w.

(** *** Looking kexts up *)

Fixpoint findVersion (fuel : nat) (heap : gmap nat KXKext)
    (foundKext : option KXKextRef) (versionNumber : Z) : option KXKextRef :=
  match foundKext, fuel with
  | Some k, S fuel =>
      if _KXKextGetVersion heap k =? versionNumber then Some k
      else findVersion fuel heap (KXKextGetPriorVersionKext heap k)
             versionNumber
  | _, _ => None
  end.

Definition __KXKextManagerGetKextWithIdentifierAndVersionNumber
    (w : World) (identifier : string)
    (versionNumber : option Z) : option KXKextRef * World :=
  let w :=
    if needsClearRelationships w then __KXKextManagerClearRelationships w
    else w in
  let w :=
    if needsCalculateRelationships w
    then KXKextManagerCalculateVersionRelationships w
    else w in
  let foundKext := candidateKexts w !! identifier in
  match versionNumber with
  | None => (foundKext, w)
  | Some v => (findVersion (enoughFuel (kexts w)) (kexts w) foundKext v, w)
  end.

Definition KXKextManagerGetKextWithIdentifier (w : World)
    (identifier : string) : option KXKextRef * World :=
  __KXKextManagerGetKextWithIdentifierAndVersionNumber w identifier None.

(** The [while (scanKext)] loop of
    [__KXKextManagerGetKextWithIdentifierCompatibleWithVersionNumber]. *)
Fixpoint scanCompatible (fuel : nat) (heap : gmap nat KXKext)
    (scanKext foundKext : option KXKextRef) (versionNumber : Z)
    : option KXKextRef :=
  match scanKext, fuel with
  | Some k, S fuel =>
      if _KXKextIsCompatibleWithVersionNumber heap k versionNumber then
        if KXKextIsLoaded heap k then Some k
        else
          scanCompatible fuel heap (KXKextGetPriorVersionKext heap k)
            (match foundKext with None => Some k | Some _ => foundKext end)
            versionNumber
      else
        scanCompatible fuel heap (KXKextGetPriorVersionKext heap k)
          foundKext versionNumber
  | _, _ => foundKext
  end.

Definition __KXKextManagerGetKextWithIdentifierCompatibleWithVersionNumber
    (w : World) (identifier : string)
    (versionNumber : option Z) : option KXKextRef * World :=
  let w :=
    if needsClearRelationships w then __KXKextManagerClearRelationships w
    else w in
  let w :=
    if needsCalculateRelationships w
    then KXKextManagerCalculateVersionRelationships w
    else w in
  let scanKext := candidateKexts w !! identifier in
  match versionNumber with
  | None => (scanKext, w)
  | Some v =>
      (scanCompatible (enoughFuel (kexts w)) (kexts w) scanKext None v, w)
  end.

(** [CFStringGetCString] into a buffer of [bufferSize] bytes succeeds when
    the bytes of the string and the terminating null fit. *)
Definition fitsCString (bufferSize : nat) (s : string) : bool :=
  (String.length s <? bufferSize)%nat.

(** [__versionNumberForString]: the parsed version, or failure.  The
    string is first copied into [vers_buffer], with 31 bytes to use. *)
Definition __versionNumberForString (aVersionString : string) : option Z :=
  if negb (fitsCString 31 aVersionString) then None
  else
    let version := VERS_parse_string aVersionString in
    if version <? 0 then None else Some version.

Definition KXKextManagerGetKextWithIdentifierCompatibleWithVersionString
    (w : World) (identifier : string)
    (versionString : option string) : option KXKextRef * World :=
  match versionString with
  | Some s =>
      match __versionNumberForString s with
      | None => (None, w)
      | Some v =>
          __KXKextManagerGetKextWithIdentifierCompatibleWithVersionNumber
            w identifier (Some v)
      end
  | None =>
      __KXKextManagerGetKextWithIdentifierCompatibleWithVersionNumber
        w identifier None
  end.

(** [KXKextManagerCopyAllKexts]: the heads, the kexts below them with their
    duplicates, then the bad kexts of every repository. *)
Fixpoint copyDuplicates (fuel : nat) (heap : gmap nat KXKext)
    (dupKext : KXKextRef) : list KXKextRef :=
  match fuel with
  | O => []
  | S fuel =>
      match KXKextGetDuplicateVersionKext heap dupKext with
      | Some d => d :: copyDuplicates fuel heap d
      | None => []
      end
  end.

Fixpoint copyPriorVersions (fuel : nat) (heap : gmap nat KXKext)
    (thisKext : KXKextRef) : list KXKextRef :=
  match fuel with
  | O => []
  | S fuel' =>
      match KXKextGetPriorVersionKext heap thisKext with
      | Some k =>
          k :: copyDuplicates fuel heap k ++ copyPriorVersions fuel' heap k
      | None => []
      end
  end.

Definition KXKextManagerCopyAllKexts (w : World) : list KXKextRef :=
  flat_map
    (fun e =>
       snd e :: copyPriorVersions (enoughFuel (kexts w)) (kexts w) (snd e))
    (map_to_list (candidateKexts w))
  ++ flat_map repoBadKexts (repositoryList w).

(** *** Which kexts are loaded *)

Fixpoint markDuplicates (fuel : nat) (dupKext : option KXKextRef)
    (address kmod_vers : Z) (heap : gmap nat KXKext) : gmap nat KXKext :=
  match dupKext, fuel with
  | Some d, S fuel =>
      let heap := _KXKextSetStartAddress d address heap in
      let heap :=
        if _KXKextGetVersion heap d =? kmod_vers
        then _KXKextSetIsLoaded d true heap
        else _KXKextSetOtherVersionIsLoaded d true heap in
      markDuplicates fuel (KXKextGetDuplicateVersionKext heap d)
        address kmod_vers heap
  | _, _ => heap
  end.

Fixpoint markChain (fuel : nat) (thisKext : option KXKextRef)
    (address kmod_vers : Z) (heap : gmap nat KXKext) : gmap nat KXKext :=
  match thisKext, fuel with
  | Some k, S fuel' =>
      let heap := markDuplicates fuel (Some k) address kmod_vers heap in
      markChain fuel' (KXKextGetPriorVersionKext heap k) address kmod_vers
        heap
  | _, _ => heap
  end.

(** The loop over the module table; it stops after the first entry whose
    [next] pointer is null. *)
Fixpoint checkLoadedModules (loaded_modules : list kmod_info) (w : World)
    : World :=
  match loaded_modules with
  | [] => w
  | this_kmod :: rest =>
      let kmod_vers := VERS_parse_string (kmod_version this_kmod) in
      if kmod_vers <? 0 then checkLoadedModules rest w
      else
        let '(thisKext, w) :=
          KXKextManagerGetKextWithIdentifier w (kmod_name this_kmod) in
        let w := set_kexts
          (markChain (enoughFuel (kexts w)) thisKext (kmod_address this_kmod)
           kmod_vers (kexts w)) w in
        if kmod_next this_kmod =? 0 then w
        else checkLoadedModules rest w
  end.

Definition KXKextManagerCheckForLoadedKexts (w : World)
    : KXKextManagerError * World :=
  let w := set_kexts
    (fold_left (fun heap r => _KXKextRepositoryMarkKextsNotLoaded r heap)
       (repositoryList w) (kexts w)) w in
  let w := emit EvKmodGetInfo w in
  match kmod_get_info with
  | None => (kKXKextManagerErrorUnspecified, w)
  | Some loaded_modules =>
      (kKXKextManagerErrorNone, checkLoadedModules loaded_modules w)
  end.

Fixpoint findLoaded (fuel : nat) (heap : gmap nat KXKext)
    (checkKext foundKext : option KXKextRef) : option KXKextRef :=
  match checkKext, fuel with
  | Some k, S fuel =>
      if KXKextIsLoaded heap k then Some k
      else findLoaded fuel heap (KXKextGetPriorVersionKext heap k) foundKext
  | _, _ => foundKext
  end.

Definition KXKextManagerGetLoadedOrLatestKextWithIdentifier (w : World)
    (identifier : string) : option KXKextRef * World :=
  let w :=
    if needsClearRelationships w then __KXKextManagerClearRelationships w
    else w in
  let w :=
    if needsCalculateRelationships w
    then KXKextManagerCalculateVersionRelationships w
    else w in
  let w := snd (KXKextManagerCheckForLoadedKexts w) in
  let foundKext := candidateKexts w !! identifier in
  (findLoaded (enoughFuel (kexts w)) (kexts w) foundKext foundKext, w).

(** *** Disqualifying a kext *)

(** Modelled from the spec: [_KXKextRepositoryDisqualifyKext]
    (KXKextRepository.c, absent) moves the kext from the candidates of its
    repository to its bad kexts (section 4.3, step 4) and, the set of
    candidates having changed, asks the manager to clear the relationships
    (section 5). *)
Definition _KXKextRepositoryDisqualifyKext (r : nat) (aKext : KXKextRef)
    (w : World) : World :=
  let w :=
    match repositoryList w !! r with
    | Some repo =>
        set_repositoryList
          (<[r := mkRepository
                    (filter (fun k => k ≠ aKext) (repoCandidateKexts repo))
                    (repoBadKexts repo ++ [aKext])]> (repositoryList w)) w
    | None => w
    end in
  KXKextManagerClearRelationships w.

Definition KXKextManagerDisqualifyKext (w : World) (aKext : KXKextRef)
    : World :=
  let w := emit (EvDisqualify aKext) w in
  _KXKextRepositoryDisqualifyKext (KXKextGetRepository (kexts w) aKext)
    aKext w.

(** *** Preparing a kext for loading *)

(** The authentication loop over the kext and its dependencies; leaving the
    recursion early is the [break] of the source. *)
Fixpoint authenticateKexts (kextList : list KXKextRef)
    (result : KXKextManagerError)
    (inauthenticKexts : option (list KXKextRef)) (w : World)
    : KXKextManagerError * option (list KXKextRef) * World :=
  match kextList with
  | [] => (result, inauthenticKexts, w)
  | thisKext :: rest =>
      let otherVersion := KXKextOtherVersionIsLoaded (kexts w) thisKext in
      let result :=
        if otherVersion then
          if bool_decide
               (result = kKXKextManagerErrorNone
                ∨ result = kKXKextManagerErrorDependencyLoadedVersionDiffers)
          then kKXKextManagerErrorDependencyLoadedVersionDiffers
          else kKXKextManagerErrorUnspecified
        else result in
      if otherVersion && negb (performsFullTests w)
      then (result, inauthenticKexts, w)
      else if negb (KXKextIsAuthentic (kexts w) thisKext) then
        let '(auth_result, w) := KXKextAuthenticate w thisKext in
        let result :=
          if bool_decide (auth_result = kKXKextManagerErrorNone) then result
          else if bool_decide
                    (result = kKXKextManagerErrorNone ∨ result = auth_result)
          then auth_result
          else kKXKextManagerErrorUnspecified in
        if bool_decide (auth_result = kKXKextManagerErrorAuthentication) then
          match inauthenticKexts with
          | Some l => authenticateKexts rest result (Some (l ++ [thisKext])) w
          | None =>
              let w := KXKextManagerDisqualifyKext w thisKext in
              if negb (performsFullTests w)
              then (result, inauthenticKexts, w)
              else authenticateKexts rest result inauthenticKexts w
          end
        else authenticateKexts rest result inauthenticKexts w
      else authenticateKexts rest result inauthenticKexts w
  end.

Definition _KXKextManagerPrepareKextForLoading (w : World)
    (aKext : KXKextRef) (check_loaded_for_dependencies do_load : bool)
    (inauthenticKexts : option (list KXKextRef))
    : KXKextManagerError * option (list KXKextRef) * World :=
  if negb (KXKextIsValid (kexts w) aKext)
  then (kKXKextManagerErrorValidation, inauthenticKexts, w)
  else if safeBoot w && negb (KXKextIsEligibleDuringSafeBoot (kexts w) aKext)
  then (kKXKextManagerErrorBootLevel, inauthenticKexts, w)
  else if negb (KXKextIsEnabled (kexts w) aKext)
  then (kKXKextManagerErrorDisabled, inauthenticKexts, w)
  else
    let w :=
      if needsClearRelationships w
      then __KXKextManagerClearDependencyRelationships
             (__KXKextManagerClearRelationships w)
      else w in
    let w :=
      if needsCalculateRelationships w
      then KXKextManagerCalculateVersionRelationships w
      else w in
    let '(result, w) :=
      if negb check_loaded_for_dependencies
      then (kKXKextManagerErrorNone, w)
      else
        let '(result, w) := KXKextManagerCheckForLoadedKexts w in
        if bool_decide (result = kKXKextManagerErrorNone) then
          if do_load then
            if KXKextIsLoaded (kexts w) aKext
            then (kKXKextManagerErrorAlreadyLoaded, w)
            else if KXKextOtherVersionIsLoaded (kexts w) aKext
            then (kKXKextManagerErrorLoadedVersionDiffers, w)
            else (kKXKextManagerErrorNone, w)
          else (kKXKextManagerErrorNone, w)
        else (result, w) in
    if bool_decide (result = kKXKextManagerErrorNone) then
      let w := __KXKextManagerClearDependencyRelationships w in
      let '(result, w) := KXKextResolveDependencies w aKext in
      if bool_decide (result = kKXKextManagerErrorNone) then
        let w := KXKextManagerDisableClearRelationships w in
        let kextList := default [] (copyAllDependencies w aKext) ++ [aKext] in
        let '(result, inauthenticKexts, w) :=
          authenticateKexts kextList result inauthenticKexts w in
        let w := KXKextManagerEnableClearRelationships w in
        (result, inauthenticKexts, w)
      else (result, inauthenticKexts, appendMissingDependencies aKext w)
    else (result, inauthenticKexts, w).

(** *** Loading *)

(** What [waitpid] reports about the forked task. *)
Inductive WaitStatus : Type :=
  | WExited (status : KXKextManagerError)
  | WSignaled
  | WStopped
  | WUnknown.

Inductive ForkResult : Type :=
  | ForkFailed
  | ForkChild
  | ForkParent (status : WaitStatus).

(** The outcomes of the collaborators of one load: whether
    [_KXKextCreateDgraph] gave a graph, the result of fixing up the entries
    of the graph and of setting the load addresses
    ([kKXKextManagerErrorNone] when the step passes or is not taken), what
    [fork] returned, and the result of [kload_load_dgraph]. *)
Record LoadCollaborators : Type := mkLoadCollaborators {
  createDgraph : bool;
  fixupEntries : KXKextManagerError;
  loadAddresses : KXKextManagerError;
  forkResult : ForkResult;
  kload_load_dgraph : KXKextManagerError
}.

(** The function returns to its caller, or, in a forked child, exits. *)
Inductive LoadReturn : Type :=
  | Returned (result : KXKextManagerError) (w : World)
  | ChildExit (status : KXKextManagerError).

(** The code at the [finish] label, outside a forked child. *)
Definition loadFinish (aKext : KXKextRef) (result : KXKextManagerError)
    (w : World) : LoadReturn :=
  if bool_decide (result ≠ kKXKextManagerErrorNone
                  ∧ result ≠ kKXKextManagerErrorAlreadyLoaded)
  then
    let w := set_kexts (KXKextSetLoadFailed aKext true (kexts w)) w in
    Returned result (KXKextManagerClearRelationships w)
  else Returned result w.

Definition _KXKextManagerLoadKextUsingOptions (w : World)
    (aKext : KXKextRef) (env : LoadCollaborators) : LoadReturn :=
  if negb (createDgraph env) then
    loadFinish aKext kKXKextManagerErrorUnspecified
      (KXKextManagerDisqualifyKext w aKext)
  else if bool_decide (fixupEntries env ≠ kKXKextManagerErrorNone) then
    loadFinish aKext (fixupEntries env) w
  else if bool_decide (loadAddresses env ≠ kKXKextManagerErrorNone) then
    loadFinish aKext (loadAddresses env) w
  else if negb (performLoadsInTask w) then
    match forkResult env with
    | ForkFailed => loadFinish aKext kKXKextManagerErrorUnspecified w
    | ForkChild => ChildExit (kload_load_dgraph env)
    | ForkParent (WExited status) => loadFinish aKext status w
    | ForkParent _ => loadFinish aKext kKXKextManagerErrorChildTask w
    end
  else loadFinish aKext (kload_load_dgraph env) w.

Definition KXKextManagerLoadKextUsingOptions (w : World)
    (aKext : KXKextRef) (check_loaded_for_dependencies do_load : bool)
    (env : LoadCollaborators) : LoadReturn :=
  let '(result, _, w) :=
    _KXKextManagerPrepareKextForLoading w aKext
      check_loaded_for_dependencies do_load None in
  if bool_decide (result = kKXKextManagerErrorNone)
  then _KXKextManagerLoadKextUsingOptions w aKext env
  else Returned result w.
End manager.

(** ** Example worlds *)

Definition exampleKext (id : string) (v : Z) (p d : option KXKextRef)
    : KXKext :=
  mkKXKext id v 0%nat true true true false false false false true 0 p d.

(** One repository holding versions 5 to 1 of one driver, chained from the
    newest to the oldest. *)
Definition chain54321 : World :=
  mkWorld
    (list_to_map
       [(5%nat, exampleKext "com.example.driver" 5 (Some 4%nat) None);
        (4%nat, exampleKext "com.example.driver" 4 (Some 3%nat) None);
        (3%nat, exampleKext "com.example.driver" 3 (Some 2%nat) None);
        (2%nat, exampleKext "com.example.driver" 2 (Some 1%nat) None);
        (1%nat, exampleKext "com.example.driver" 1 None None)])
    [mkRepository [5; 4; 3; 2; 1]%nat []]
    {[ "com.example.driver" := 5%nat ]}
    0 false false false true false [] [].

(** Version 4 of the driver twice: kext 40 holds the place in the chain and
    kext 41 hangs off it as its duplicate; once below version 5, once at the
    head of the chain. *)
Definition duplicateBelow5 : World :=
  mkWorld
    (list_to_map
       [(5%nat, exampleKext "com.example.driver" 5 (Some 40%nat) None);
        (40%nat, exampleKext "com.example.driver" 4 (Some 3%nat) (Some 41%nat));
        (41%nat, exampleKext "com.example.driver" 4 None None);
        (3%nat, exampleKext "com.example.driver" 3 None None)])
    [mkRepository [5; 40; 3]%nat []; mkRepository [41%nat] []]
    {[ "com.example.driver" := 5%nat ]}
    0 false false false true false [] [].

Definition duplicateAtHead : World :=
  mkWorld
    (list_to_map
       [(40%nat, exampleKext "com.example.driver" 4 (Some 3%nat) (Some 41%nat));
        (41%nat, exampleKext "com.example.driver" 4 None None);
        (3%nat, exampleKext "com.example.driver" 3 None None)])
    [mkRepository [40; 3]%nat []; mkRepository [41%nat] []]
    {[ "com.example.driver" := 40%nat ]}
    0 false false false true false [] [].

(** A dependency resolver for which exactly the kext [missing] lacks
    dependencies. *)
Definition resolveAllBut (missing : KXKextRef) (w : World) (k : KXKextRef)
    : KXKextManagerError :=
  if decide (k = missing) then kKXKextManagerErrorDependency
  else kKXKextManagerErrorNone.

(** ** Reading the chains *)

(** [linkChain next heap k l]: following the pointer [next] from [k] meets
    exactly the kexts [l], in this order, and ends in a null pointer. *)
Inductive linkChain (next : KXKext → option KXKextRef)
    (heap : gmap nat KXKext) : option KXKextRef → list KXKextRef → Prop :=
  | linkChain_nil : linkChain next heap None []
  | linkChain_cons k x l :
      heap !! k = Some x →
      linkChain next heap (next x) l →
      linkChain next heap (Some k) (k :: l).

Abbreviation priorChain := (linkChain priorVersionKext).
Abbreviation duplicateChain := (linkChain duplicateVersionKext).

(** The versions go down strictly along the list. *)
Definition descending (heap : gmap nat KXKext) (l : list KXKextRef) : Prop :=
  Sorted (fun a b => _KXKextGetVersion heap b < _KXKextGetVersion heap a) l.

(** ** Relating heaps *)

(** [heap_rel R h h']: the two heaps hold kexts under the same handles, and
    the kexts under each handle are related by [R]. *)
Definition heap_rel (R : KXKext → KXKext → Prop) (h h' : gmap nat KXKext)
    : Prop :=
  ∀ k, match h !! k, h' !! k with
       | Some x, Some y => R x y
       | None, None => True
       | _, _ => False
       end.

(** What no operation of the manager changes except
    [KXKextSetLoadFailed]: identifier, version, repository and the flags that
    decide whether a kext is a candidate. *)
Definition same_static (x y : KXKext) : Prop :=
  bundleIdentifier x = bundleIdentifier y
  ∧ version x = version y
  ∧ repository x = repository y
  ∧ isValid x = isValid y
  ∧ isEnabled x = isEnabled y
  ∧ isEligibleDuringSafeBoot x = isEligibleDuringSafeBoot y
  ∧ loadFailed x = loadFailed y.

Definition same_links (x y : KXKext) : Prop :=
  priorVersionKext x = priorVersionKext y
  ∧ duplicateVersionKext x = duplicateVersionKext y.

Definition same_shape (x y : KXKext) : Prop :=
  same_links x y ∧ same_static x y.

Definition same_loaded (x y : KXKext) : Prop :=
  isLoaded x = isLoaded y
  ∧ otherVersionIsLoaded x = otherVersionIsLoaded y.

(** ** Reading the trace *)

(** Events other than calls to the dependency resolver, to the authenticator
    and to disqualification: structural clears and queries of the kernel. *)
Definition quiet (e : Event) : Prop :=
  match e with
  | EvClearRelationships _ | EvKmodGetInfo => True
  | _ => False
  end.

(** [quietly w w']: from [w] to [w'] the trace has only grown, and only by
    quiet events. *)
Definition quietly (w w' : World) : Prop :=
  ∃ t, trace w' = trace w ++ t ∧ Forall quiet t.

(** A load in the task itself in which the link/load step fails. *)
Definition linkLoadFails : LoadCollaborators :=
  mkLoadCollaborators true kKXKextManagerErrorNone kKXKextManagerErrorNone
    ForkFailed kKXKextManagerErrorLinkLoad.

(** A version parser for the examples: the strings "1" to "5" are versions,
    nothing else is. *)
Definition parseExampleVersion (s : string) : Z :=
  if decide (s = "1") then 1
  else if decide (s = "2") then 2
  else if decide (s = "3") then 3
  else if decide (s = "4") then 4
  else if decide (s = "5") then 5
  else -1.

(** A kernel in which version 4 of the driver is loaded. *)
Definition version4Loaded : list kmod_info :=
  [mkKmod "com.example.driver" "4" 4096 0].

(** An authenticator that rejects exactly the kext [bad]. *)
Definition authenticateAllBut (bad : KXKextRef) (w : World) (k : KXKextRef)
    : KXKextManagerError :=
  if decide (k = bad) then kKXKextManagerErrorAuthentication
  else kKXKextManagerErrorNone.

Definition noDependencies (w : World) (k : KXKextRef)
    : option (list KXKextRef) := None.

(** The stale-relationship check that opens every lookup: clear if a clear is
    pending, then rebuild if needed. *)
Definition relationshipsChecked (w : World) : World :=
  let w :=
    if needsClearRelationships w then __KXKextManagerClearRelationships w
    else w in
  if needsCalculateRelationships w
  then KXKextManagerCalculateVersionRelationships w
  else w.

(** [kextTree heap k ll]: the two-way structure under [k].  Following
    [priorVersionKext] from [k] meets one kext per element of [ll]; each
    element of [ll] is that kext followed by its chain of duplicates. *)
Inductive kextTree (heap : gmap nat KXKext)
    : option KXKextRef → list (list KXKextRef) → Prop :=
  | kextTree_nil : kextTree heap None []
  | kextTree_cons k x dl ll :
      heap !! k = Some x →
      duplicateChain heap (Some k) dl →
      kextTree heap (priorVersionKext x) ll →
      kextTree heap (Some k) (dl :: ll).

(** The kexts of all repositories, and the candidates among them. *)
Definition allKexts (w : World) : list KXKextRef :=
  flat_map repoKexts (repositoryList w).
Definition allCandidates (w : World) : list KXKextRef :=
  flat_map repoCandidateKexts (repositoryList w).

(** A kext is a member of the candidate structure when it is met under some
    entry of the candidate set. *)
Definition memberUnder (w : World) (id : string) (k : KXKextRef) : Prop :=
  ∃ head ll,
    candidateKexts w !! id = Some head
    ∧ kextTree (kexts w) (Some head) ll
    ∧ k ∈ concat ll.

Definition candidateMember (w : World) (k : KXKextRef) : Prop :=
  ∃ id, memberUnder w id k.

(** The candidate structure as the manager builds it: under every entry a
    tree that meets no kext twice, whose kexts carry the identifier of the
    entry and belong to the repositories. *)
Definition candidatesWellFormed (w : World) : Prop :=
  ∀ id head,
    candidateKexts w !! id = Some head →
    ∃ ll,
      kextTree (kexts w) (Some head) ll
      ∧ NoDup (concat ll)
      ∧ ∀ k, k ∈ concat ll →
          KXKextGetBundleIdentifier (kexts w) k = id ∧ k ∈ allKexts w.

(** What [KXKextManagerCheckForLoadedKexts] does to one kext for one entry of
    the module table. *)
Definition markKext (address kmod_vers : Z) (x : KXKext) : KXKext :=
  let x := set_startAddress address x in
  if version x =? kmod_vers then set_isLoaded true x
  else set_otherVersionIsLoaded true x.

Section module_table.
Variable VERS_parse_string : string → Z.

(** The entries of the module table that the loop of
    [KXKextManagerCheckForLoadedKexts] uses: those whose version parses, up to
    and including the first of them whose [next] pointer is null. *)
Fixpoint readModules (loaded_modules : list kmod_info) : list kmod_info :=
  match loaded_modules with
  | [] => []
  | m :: rest =>
      if VERS_parse_string (kmod_version m) <? 0 then readModules rest
      else if kmod_next m =? 0 then [m]
      else m :: readModules rest
  end.

(** The claim C9 as it is stated, for the kexts of the repositories: the
    flags say exactly what the table of the query holds. *)
Definition loadedFlagsMatchTable (loaded_modules : list kmod_info)
    (w w' : World) : Prop :=
  ∀ k, k ∈ allKexts w →
    (KXKextIsLoaded (kexts w') k = true
     ↔ ∃ m, m ∈ loaded_modules
            ∧ kmod_name m = KXKextGetBundleIdentifier (kexts w) k
            ∧ VERS_parse_string (kmod_version m) = _KXKextGetVersion (kexts w) k)
    ∧ (KXKextOtherVersionIsLoaded (kexts w') k = true
       ↔ ∃ m, m ∈ loaded_modules
              ∧ kmod_name m = KXKextGetBundleIdentifier (kexts w) k
              ∧ VERS_parse_string (kmod_version m)
                ≠ _KXKextGetVersion (kexts w) k).
End module_table.

(** Version 4 of the driver twice: kext 4 is a candidate, kext 7 is among the
    bad kexts of the repository. *)
Definition candidateAndBadKext : World :=
  mkWorld
    (list_to_map
       [(4%nat, exampleKext "com.example.driver" 4 None None);
        (7%nat, exampleKext "com.example.driver" 4 None None)])
    [mkRepository [4%nat] [7%nat]]
    {[ "com.example.driver" := 4%nat ]}
    0 false false false true false [] [].

(** The five versions of the driver after a query of a kernel in which
    version 4 is loaded. *)
Definition version4Marked : World :=
  (KXKextManagerCheckForLoadedKexts parseExampleVersion (Some version4Loaded)
     chain54321).2.

(** A compatibility test for the examples: a kext is compatible with the
    versions from 3 up to its own. *)
Definition compatibleFrom3 (x : KXKext) (v : Z) : bool :=
  (3 <=? v) && (v <=? version x).

(** ** Further entry points of the manager *)

Definition KXKextManagerErrorStringForError (error : KXKextManagerError)
    : string :=
  match error with
  | kKXKextManagerErrorNone => "no error"
  | kKXKextManagerErrorUnspecified => "unspecified error"
  | kKXKextManagerErrorInvalidArgument => "invalid argument"
  | kKXKextManagerErrorNoMemory => "no memory"
  | kKXKextManagerErrorFileAccess => "file access/permissions"
  | kKXKextManagerErrorNotADirectory => "not a directory"
  | kKXKextManagerErrorDiskFull => "disk full"
  | kKXKextManagerErrorSerialization => "serialization error"
  | kKXKextManagerErrorCompression => "compression error"
  | kKXKextManagerErrorIPC => "IPC error"
  | kKXKextManagerErrorChildTask => "forked task exited abnormally"
  | kKXKextManagerErrorUserAbort => "user canceled load"
  | kKXKextManagerErrorKernelResource => "kernel resources unavailable"
  | kKXKextManagerErrorKernelPermission => "kernel access denied"
  | kKXKextManagerErrorKextNotFound =>
      "requested kernel extention could not be found"
  | kKXKextManagerErrorURLNotInRepository =>
      "URL for extension does not lie within repository"
  | kKXKextManagerErrorNotABundle => "not a bundle"
  | kKXKextManagerErrorNotAKext => "not a kernel extension"
  | kKXKextManagerErrorValidation => "validation error"
  | kKXKextManagerErrorBootLevel => "not eligible for boot level (safe boot)"
  | kKXKextManagerErrorDisabled => "extension is disabled"
  | kKXKextManagerErrorAuthentication => "authentication error"
  | kKXKextManagerErrorDependency => "error resolving dependencies"
  | kKXKextManagerErrorDependencyLoop => "possible loop in dependencies"
  | kKXKextManagerErrorCache =>
      "cached extension info dictionary doesn't match actual"
  | kKXKextManagerErrorAlreadyLoaded => "extension is already loaded"
  | kKXKextManagerErrorLoadExecutableBad => "bad executable"
  | kKXKextManagerErrorLoadExecutableNoArch =>
      "exectuable doesn't contain code for this computer"
  | kKXKextManagerErrorLinkLoad => "link/load error"
  | _ => "unknown error"
  end.

(** [KXKextManagerInit]: the arrays and the dictionary are created empty. *)
Definition KXKextManagerInit (loadInTaskFlag safeBootFlag : bool) (w : World)
    : KXKextManagerError * World :=
  (kKXKextManagerErrorNone,
   mkWorld (kexts w) [] ∅ 0 false true false loadInTaskFlag safeBootFlag []
     (trace w)).

Section manager_entry_points.
Variable VERS_parse_string : string -> Z.
Variable resolveDependencies : World -> KXKextRef -> KXKextManagerError.
Variable copyAllDependencies : World -> KXKextRef -> option (list KXKextRef).
Variable authenticate : World -> KXKextRef -> KXKextManagerError.
Variable kmod_get_info : option (list kmod_info).

(** The loop of [KXKextManagerCopyKextsWithIdentifier]: each version followed
    by its duplicates. *)
Fixpoint copyVersions (fuel : nat) (heap : gmap nat KXKext)
    (thisKext : option KXKextRef) : list KXKextRef :=
  match thisKext, fuel with
  | Some k, S fuel' =>
      k :: copyDuplicates fuel heap k
        ++ copyVersions fuel' heap (KXKextGetPriorVersionKext heap k)
  | _, _ => []
  end.

Definition KXKextManagerCopyKextsWithIdentifier (w : World)
    (identifier : string) : list KXKextRef * World :=
  let '(thisKext, w) := KXKextManagerGetKextWithIdentifier w identifier in
  (copyVersions (enoughFuel (kexts w)) (kexts w) thisKext, w).

Definition KXKextManagerGetKextsWithMissingDependencies (w : World)
    : list KXKextRef :=
  kextsWithMissingDependencies w.

Definition KXKextManagerLoadKext (w : World) (aKext : KXKextRef)
    (env : LoadCollaborators) : LoadReturn :=
  KXKextManagerLoadKextUsingOptions VERS_parse_string resolveDependencies
    copyAllDependencies authenticate kmod_get_info w aKext true true env.

Definition KXKextManagerLoadKextWithIdentifier (w : World)
    (identifier : string) (env : LoadCollaborators) : LoadReturn :=
  let '(theKext, w) := KXKextManagerGetKextWithIdentifier w identifier in
  match theKext with
  | None => Returned kKXKextManagerErrorKextNotFound w
  | Some k => KXKextManagerLoadKext w k env
  end.
End manager_entry_points.

(** ** Fields an operation leaves alone *)

(** [sameSettings w w']: the repositories, the disable count and the mode
    flags of the manager are the same in both worlds. *)
Definition sameSettings (w w' : World) : Prop :=
  repositoryList w' = repositoryList w
  ∧ clearRelationshipsDisableCount w' = clearRelationshipsDisableCount w
  ∧ performsFullTests w' = performsFullTests w
  ∧ performLoadsInTask w' = performLoadsInTask w
  ∧ safeBoot w' = safeBoot w.

(** The prior-version chain of an identifier in the candidate set. *)
Definition chainOf (w : World) (identifier : string) (l : list KXKextRef)
    : Prop :=
  priorChain (kexts w) (candidateKexts w !! identifier) l.

(** The tree of an identifier in the candidate set. *)
Definition treeOf (w : World) (identifier : string)
    (ll : list (list KXKextRef)) : Prop :=
  kextTree (kexts w) (candidateKexts w !! identifier) ll.

(** [sameModes w w']: the disable count and the mode flags are the same. *)
Definition sameModes (w w' : World) : Prop :=
  clearRelationshipsDisableCount w' = clearRelationshipsDisableCount w
  ∧ performsFullTests w' = performsFullTests w
  ∧ performLoadsInTask w' = performLoadsInTask w
  ∧ safeBoot w' = safeBoot w.

(** [steady w w']: from [w] to [w'] no kext has changed its identifier, its
    version, its repository or the flags that make it a candidate, and the
    repositories and the settings of the manager are the same. *)
Definition steady (w w' : World) : Prop :=
  heap_rel same_static (kexts w) (kexts w') ∧ sameSettings w w'.

(** [grows P w w']: from [w] to [w'] the trace has only grown, by events that
    satisfy [P]. *)
Definition grows (P : Event → Prop) (w w' : World) : Prop :=
  ∃ t, trace w' = trace w ++ t ∧ Forall P t.

Definition isClear (e : Event) : Prop :=
  match e with EvClearRelationships _ => True | _ => False end.

(** The events a call of [_KXKextManagerPrepareKextForLoading] may add: the
    kernel is queried only when asked to, the resolver is called for the
    kext of the request only, and kexts are disqualified only when there is
    no container for the inauthentic ones. *)
Definition prepareEvent (aKext : KXKextRef) (check_loaded_for_dependencies : bool)
    (inauthenticKexts : option (list KXKextRef)) (e : Event) : Prop :=
  match e with
  | EvClearRelationships _ => True
  | EvKmodGetInfo => check_loaded_for_dependencies = true
  | EvResolveDependencies k => k = aKext
  | EvAuthenticate _ => True
  | EvDisqualify _ => inauthenticKexts = None
  end.

(** The events the authentication loop over [kextList] may add: the
    authenticator is called for kexts of the list only, and a kext of the
    list is disqualified only when there is no container for the inauthentic
    ones. *)
Definition walkEvent (kextList : list KXKextRef)
    (inauthenticKexts : option (list KXKextRef)) (e : Event) : Prop :=
  match e with
  | EvClearRelationships _ => True
  | EvAuthenticate k => k ∈ kextList
  | EvDisqualify k => k ∈ kextList ∧ inauthenticKexts = None
  | _ => False
  end.
(** What not even a failed load changes of a kext: identifier, version,
    repository and the flags of validity, of being enabled and of safe
    boot. *)
Definition same_identity (x y : KXKext) : Prop :=
  bundleIdentifier x = bundleIdentifier y
  ∧ version x = version y
  ∧ repository x = repository y
  ∧ isValid x = isValid y
  ∧ isEnabled x = isEnabled y
  ∧ isEligibleDuringSafeBoot x = isEligibleDuringSafeBoot y.

(** The events the link/load step may add: the target is disqualified only
    when no dependency graph could be made for it. *)
Definition loadEvent (aKext : KXKextRef) (env : LoadCollaborators)
    (e : Event) : Prop :=
  match e with
  | EvClearRelationships _ => True
  | EvDisqualify k => k = aKext ∧ createDgraph env = false
  | _ => False
  end.


(** The tests of [KXKextManagerCalculateVersionRelationships]: what a kext
    has to pass to enter the candidate set. *)
Definition passesTests (w : World) (k : KXKextRef) : bool :=
  KXKextIsValid (kexts w) k
  && negb (KXKextGetLoadFailed (kexts w) k)
  && negb (safeBoot w && negb (KXKextIsEligibleDuringSafeBoot (kexts w) k))
  && KXKextIsEnabled (kexts w) k.

(** [headOf w id done k]: of the kexts [done], [k] is one that passes the
    tests and has the identifier [id], and none of them that does has a
    higher version. *)
Definition headOf (w : World) (id : string) (done : list KXKextRef)
    (k : KXKextRef) : Prop :=
  k ∈ done ∧ passesTests w k = true
  ∧ KXKextGetBundleIdentifier (kexts w) k = id
  ∧ ∀ k', k' ∈ done → passesTests w k' = true →
      KXKextGetBundleIdentifier (kexts w) k' = id →
      _KXKextGetVersion (kexts w) k' ≤ _KXKextGetVersion (kexts w) k.
(** The relationships are stale: the next lookup rebuilds them. *)
Definition stale (w : World) : Prop :=
  needsClearRelationships w = true ∨ needsCalculateRelationships w = true.

(** The example chain, not yet built. *)
Definition chain54321Stale : World :=
  set_needsCalculateRelationships true chain54321.

(** The two kexts are the same but for the link to the prior version. *)
Definition same_but_prior (x y : KXKext) : Prop :=
  y = set_priorVersionKext (priorVersionKext y) x.

(** The two kexts are the same but for the flag of the dependencies. *)
Definition same_but_dependencies (x y : KXKext) : Prop :=
  y = set_hasAllDependencies (hasAllDependencies y) x.

(** The bad kexts of all repositories. *)
Definition allBadKexts (w : World) : list KXKextRef :=
  flat_map repoBadKexts (repositoryList w).

Definition isResolve (e : Event) : Prop :=
  match e with EvResolveDependencies _ => True | _ => False end.

(** [onlyResolved w w']: from [w] to [w'] nothing has happened but calls of
    the resolver: kexts differ in their dependency flag at most. *)
Definition onlyResolved (w w' : World) : Prop :=
  heap_rel same_but_dependencies (kexts w) (kexts w')
  ∧ candidateKexts w' = candidateKexts w
  ∧ kextsWithMissingDependencies w' = kextsWithMissingDependencies w
  ∧ sameSettings w w'
  ∧ needsClearRelationships w' = needsClearRelationships w
  ∧ needsCalculateRelationships w' = needsCalculateRelationships w
  ∧ grows isResolve w w'.

(** The two kexts are the same but for the links to the prior version and
    to the duplicate. *)
Definition same_but_links (x y : KXKext) : Prop :=
  y = set_duplicateVersionKext (duplicateVersionKext y)
        (set_priorVersionKext (priorVersionKext y) x).

(** What the second pass of [KXKextManagerResolveAllKextDependencies] makes
    of one version with its duplicates, [dl], when [has] tells which kexts
    have their dependencies: the kexts at the front that lack them are taken
    out; the first kext that has them holds the place of the version, the
    duplicate after it stays whatever [has] says of it, and of the
    duplicates further on those that have their dependencies stay. *)
Fixpoint keptLevel (has : KXKextRef → bool) (dl : list KXKextRef)
    : list KXKextRef :=
  match dl with
  | [] => []
  | k :: ds =>
      if has k then
        k :: match ds with
             | [] => []
             | d :: rest => d :: filter (fun j => has j = true) rest
             end
      else keptLevel has ds
  end.

(** The kexts of [dl] that are taken out, in the order in which they are
    recorded as missing dependencies. *)
Fixpoint droppedLevel (has : KXKextRef → bool) (dl : list KXKextRef)
    : list KXKextRef :=
  match dl with
  | [] => []
  | k :: ds =>
      if has k then
        match ds with
        | [] => []
        | d :: rest => filter (fun j => has j = false) rest
        end
      else k :: droppedLevel has ds
  end.

(** The tree that is left: the versions of which a kext stays. *)
Definition keptTree (has : KXKextRef → bool) (ll : list (list KXKextRef))
    : list (list KXKextRef) :=
  filter (fun dl => dl ≠ []) (map (keptLevel has) ll).

(** [splicedTree id prevKext ll w w']: what the [while (thisKext)] loop of
    the second pass has made of the tree [ll] under the identifier [id],
    from [w] to [w'], [prevKext] being the kext above the tree. *)
Definition splicedTree (id : string) (prevKext : option KXKextRef)
    (ll : list (list KXKextRef)) (w w' : World) : Prop :=
  let has := KXKextGetHasAllDependencies (kexts w) in
  let keep := keptTree has ll in
  kextsWithMissingDependencies w'
  = kextsWithMissingDependencies w ++ flat_map (droppedLevel has) ll
  ∧ heap_rel same_but_links (kexts w) (kexts w')
  ∧ (∀ j, j ∉ concat ll → prevKext ≠ Some j → kexts w' !! j = kexts w !! j)
  ∧ (∀ p, prevKext = Some p →
       KXKextGetDuplicateVersionKext (kexts w') p
       = KXKextGetDuplicateVersionKext (kexts w) p)
  ∧ kextTree (kexts w') (head (concat keep)) keep
  ∧ match prevKext with
    | Some p =>
        KXKextGetPriorVersionKext (kexts w') p = head (concat keep)
        ∧ candidateKexts w' = candidateKexts w
    | None =>
        candidateKexts w' !! id = head (concat keep)
        ∧ ∀ id', id' ≠ id →
            candidateKexts w' !! id' = candidateKexts w !! id'
    end
  ∧ sameSettings w w'
  ∧ trace w' = trace w
  ∧ needsClearRelationships w' = needsClearRelationships w
  ∧ needsCalculateRelationships w' = needsCalculateRelationships w.

(** Version 4 twice at the head of the chain, kext 40 lacking
    dependencies. *)
Definition duplicateAtHeadWithout40 : World :=
  set_kexts
    (alter (set_hasAllDependencies false) 40%nat (kexts duplicateAtHead))
    duplicateAtHead.

Definition isDisqualify (e : Event) : Prop :=
  match e with EvDisqualify _ => True | _ => False end.

(** ** The mode flags *)

Definition KXKextManagerGetSafeBootMode (w : World) : bool := safeBoot w.

Definition KXKextManagerSetSafeBootMode (w : World) (flag : bool) : World :=
  mkWorld (kexts w) (repositoryList w) (candidateKexts w)
    (clearRelationshipsDisableCount w) (needsClearRelationships w)
    (needsCalculateRelationships w) (performsFullTests w)
    (performLoadsInTask w) flag (kextsWithMissingDependencies w)
    (trace w).

Definition KXKextManagerGetPerformLoadsInTask (w : World) : bool :=
  performLoadsInTask w.

Definition KXKextManagerSetPerformLoadsInTask (w : World) (flag : bool)
    : World :=
  mkWorld (kexts w) (repositoryList w) (candidateKexts w)
    (clearRelationshipsDisableCount w) (needsClearRelationships w)
    (needsCalculateRelationships w) (performsFullTests w)
    flag (safeBoot w) (kextsWithMissingDependencies w)
    (trace w).

Definition KXKextManagerPerformsFullTests (w : World) : bool :=
  performsFullTests w.

Definition KXKextManagerSetPerformsFullTests (w : World) (flag : bool)
    : World :=
  mkWorld (kexts w) (repositoryList w) (candidateKexts w)
    (clearRelationshipsDisableCount w) (needsClearRelationships w)
    (needsCalculateRelationships w) flag
    (performLoadsInTask w) (safeBoot w) (kextsWithMissingDependencies w)
    (trace w).

(** A driver for debugging, not eligible during safe boot, as the one kext
    of its identifier, the relationships built outside safe boot. *)
Definition debugDriver : World :=
  mkWorld
    {[ 9%nat := mkKXKext "com.example.debug" 1 0%nat true true false false
                  false false false true 0 None None ]}
    [mkRepository [9%nat] []]
    {[ "com.example.debug" := 9%nat ]}
    0 false false false true false [] [].

(** ** Personalities and the catalogue *)

(** Of a personality only the [IOKitDebug] entry is read in this file: the
    entry is absent, or it is there and [CFNumberGetValue] gives its value
    as a long long, or fails to. *)
Inductive DebugValue : Type :=
  | DebugAbsent
  | DebugNotANumber
  | DebugNumber (n : Z).

#[global] Instance DebugValue_eq_dec : EqDecision DebugValue.
Proof. solve_decision. Defined.

Record Personality : Type := mkPersonality {
  personalityLabel : string;
  IOKitDebug : DebugValue
}.

Definition __KXKextManagerCheckPersonalityForSafeBoot
    (aPersonality : Personality) : Z :=
  match IOKitDebug aPersonality with
  | DebugAbsent => 1
  | DebugNotANumber => 0
  | DebugNumber numValue => if numValue =? 0 then 1 else 0
  end.

(** What [KXKextManagerSendKextPersonalitiesToCatalog] has done when it
    returns: its result, the names it asked the user about, in this order,
    and what it handed to [KXKextManagerSendPersonalitiesToCatalog], if it
    got there. *)
Record SendOutcome : Type := mkSendOutcome {
  sendResult : KXKextManagerError;
  asked : list string;
  sent : option (list Personality)
}.

Section catalogue.
(** [KXKextCopyPersonalities] of KXKext.c (absent);
    [CFDictionaryGetKeysAndValues], which gives the entries of a dictionary
    in an order of its own; [CFStringGetCString] into the buffer of 255
    bytes, as whether it succeeds; the veto function of the user, which an
    interactive request needs to be set; and the result of
    [KXKextManagerSendPersonalitiesToCatalog], which serializes the array
    and sends it to the kernel.  Allocations succeed. *)
Variable KXKextCopyPersonalities : KXKextRef → option (gmap string Personality).
Variable CFDictionaryGetKeysAndValues
  : gmap string Personality → list (string * Personality).
Variable CFStringGetCString : string → bool.
Variable user_veto_func : string → Z.
Variable KXKextManagerSendPersonalitiesToCatalog
  : list Personality → KXKextManagerError.

(** The personalities asked for by name, as the loop over
    [personalityNames] stores them.  A name the kext has no personality for
    makes the loop store a null value, which Core Foundation does not
    allow: the model has no outcome then. *)
Fixpoint namedPersonalities (kextPersonalities : gmap string Personality)
    (personalityNames : list string)
    (candidatePersonalities : gmap string Personality)
    : option (gmap string Personality) :=
  match personalityNames with
  | [] => Some candidatePersonalities
  | thisName :: rest =>
      match kextPersonalities !! thisName with
      | Some thisPersonality =>
          namedPersonalities kextPersonalities rest
            (<[thisName := thisPersonality]> candidatePersonalities)
      | None => None
      end
  end.

(** The loop over the candidate personalities: [inl] is the early exit
    through [finish] with its result, [inr] the personalities to send. *)
Fixpoint choosePersonalities (interactive safeBoot : bool)
    (entries : list (string * Personality))
    (personalitiesToSend : list Personality) (names : list string)
    : (KXKextManagerError + list Personality) * list string :=
  match entries with
  | [] => (inr personalitiesToSend, names)
  | (thisKey, thisPersonality) :: rest =>
      if negb (CFStringGetCString thisKey)
      then (inl kKXKextManagerErrorUnspecified, names)
      else
        let ok :=
          if safeBoot
          then __KXKextManagerCheckPersonalityForSafeBoot thisPersonality
          else 1 in
        let '(ok, names) :=
          if negb (ok =? 0) && interactive
          then (user_veto_func thisKey, names ++ [thisKey])
          else (ok, names) in
        if ok >? 0 then
          choosePersonalities interactive safeBoot rest
            (personalitiesToSend ++ [thisPersonality]) names
        else if ok <? 0 then (inl kKXKextManagerErrorUnspecified, names)
        else choosePersonalities interactive safeBoot rest
               personalitiesToSend names
  end.

Definition KXKextManagerSendKextPersonalitiesToCatalog (aKext : KXKextRef)
    (personalityNames : option (list string)) (interactive safeBoot : bool)
    : option SendOutcome :=
  match KXKextCopyPersonalities aKext with
  | None => Some (mkSendOutcome kKXKextManagerErrorInvalidArgument [] None)
  | Some kextPersonalities =>
      let candidatePersonalities :=
        match personalityNames with
        | Some (thisName :: rest) =>
            namedPersonalities kextPersonalities (thisName :: rest) ∅
        | _ => Some kextPersonalities
        end in
      match candidatePersonalities with
      | None => None
      | Some candidatePersonalities =>
          match choosePersonalities interactive safeBoot
                  (CFDictionaryGetKeysAndValues candidatePersonalities)
                  [] [] with
          | (inl result, names) => Some (mkSendOutcome result names None)
          | (inr [], names) =>
              Some (mkSendOutcome kKXKextManagerErrorNone names None)
          | (inr personalitiesToSend, names) =>
              Some (mkSendOutcome
                      (KXKextManagerSendPersonalitiesToCatalog
                         personalitiesToSend)
                      names (Some personalitiesToSend))
          end
      end
  end.

End catalogue.

(** [KXKextManagerCopyAllKextPersonalities]: the relationships are checked,
    then the personalities of the kexts of the candidate set are put
    together, in the order in which [CFDictionaryGetKeysAndValues] gives
    the kexts.  [KXKextCopyPersonalitiesArray] is of KXKext.c (absent).
    Allocations succeed. *)
Definition KXKextManagerCopyAllKextPersonalities
    (CFDictionaryGetValues : gmap string KXKextRef → list KXKextRef)
    (KXKextCopyPersonalitiesArray : KXKextRef → option (list Personality))
    (w : World) : list Personality * World :=
  let w :=
    if needsClearRelationships w then __KXKextManagerClearRelationships w
    else w in
  let w :=
    if needsCalculateRelationships w
    then KXKextManagerCalculateVersionRelationships w
    else w in
  (flat_map (fun thisKext =>
               match KXKextCopyPersonalitiesArray thisKext with
               | Some personalities => personalities
               | None => []
               end)
     (CFDictionaryGetValues (candidateKexts w)), w).

(** A personality may be sent in safe boot. *)
Definition safeForSafeBoot (p : Personality) : Prop :=
  IOKitDebug p = DebugAbsent ∨ IOKitDebug p = DebugNumber 0.

(** An entry the user is asked about, and one that is to be sent: safe boot
    does not exclude it, and the user, when asked, agrees. *)
Definition askedAbout (interactive safeBoot : bool)
    (e : string * Personality) : Prop :=
  interactive = true ∧ (safeBoot = true → safeForSafeBoot e.2).

Definition chosen (user_veto_func : string → Z) (interactive safeBoot : bool)
    (e : string * Personality) : Prop :=
  (safeBoot = true → safeForSafeBoot e.2)
  ∧ (interactive = true → 0 < user_veto_func e.1).

#[global] Instance askedAbout_dec interactive safeBoot e
  : Decision (askedAbout interactive safeBoot e).
Proof. unfold askedAbout, safeForSafeBoot. apply _. Defined.

#[global] Instance chosen_dec user_veto_func interactive safeBoot e
  : Decision (chosen user_veto_func interactive safeBoot e).
Proof. unfold chosen, safeForSafeBoot. apply _. Defined.

(** The names a request is about: those given, or all when none is given. *)
Definition wanted (personalityNames : option (list string))
    (name : string) : Prop :=
  match personalityNames with
  | Some (thisName :: rest) => name ∈ thisName :: rest
  | _ => True
  end.

(** The values of a dictionary in the order of its keys. *)
Definition valuesInKeyOrder (m : gmap string KXKextRef) : list KXKextRef :=
  (map_to_list m).*2.

(** A kext with a driver personality and a debugging one. *)
Definition examplePersonalities (k : KXKextRef)
    : option (gmap string Personality) :=
  Some {[ "Driver" := mkPersonality "Driver" DebugAbsent;
          "Debug" := mkPersonality "Debug" (DebugNumber 65535) ]}.

Definition examplePersonalitiesArray (k : KXKextRef)
    : option (list Personality) :=
  if (k =? 5)%nat then Some [mkPersonality "Driver" DebugAbsent]
  else Some [mkPersonality "Old driver" DebugAbsent].

(** [KXKextManagerResolveAllKextDependencies] with the order in which
    [CFDictionaryGetKeysAndValues] gives the entries of the candidate set
    as a parameter: both passes go through the entries in this order. *)
Definition resolveAllInOrder
    (resolveDependencies : World → KXKextRef → KXKextManagerError)
    (entries : list (string * KXKextRef)) (w : World) : World :=
  let fuel := enoughFuel (kexts w) in
  let w :=
    fold_left
      (fun w e => resolveChain resolveDependencies fuel (Some (snd e)) w)
      entries w in
  let w :=
    fold_left (fun w e => spliceChain fuel (fst e) (Some (snd e)) None w)
      entries w in
  if performsFullTests w then
    fold_left
      (fun w r =>
         KXKextRepositoryResolveBadKextDependencies resolveDependencies r w)
      (repositoryList w) w
  else w.

(** Two drivers of one version each, and a resolver for which every kext
    lacks dependencies. *)
Definition twoDrivers : World :=
  mkWorld
    (list_to_map
       [(1%nat, exampleKext "com.example.a" 1 None None);
        (2%nat, exampleKext "com.example.b" 1 None None)])
    [mkRepository [1; 2]%nat []]
    (<["com.example.a" := 1%nat]> {[ "com.example.b" := 2%nat ]})
    0 false false false true false [] [].

Definition twoTrees (id : string) : list (list KXKextRef) :=
  if decide (id = "com.example.a") then [[1%nat]]
  else if decide (id = "com.example.b") then [[2%nat]]
  else [].

Definition resolveNothing (w : World) (k : KXKextRef) : KXKextManagerError :=
  kKXKextManagerErrorDependency.

(** The events of [_KXKextManagerPrepareKextForLoading] before the resolver
    is called: the query of the kernel, when the request asks for it, and
    structural clears, when the relationships were stale. *)
Definition beforeResolver (w : World) (check_loaded_for_dependencies : bool)
    (e : Event) : Prop :=
  match e with
  | EvKmodGetInfo => check_loaded_for_dependencies = true
  | EvClearRelationships _ => stale w
  | _ => False
  end.

(** The events of the authentication loop while clearing is disabled. *)
Definition isWalkStep (e : Event) : Prop :=
  match e with
  | EvAuthenticate _ | EvDisqualify _ => True
  | _ => False
  end.

#[global] Instance isDisqualify_decision (e : Event)
  : Decision (isDisqualify e).
Proof. destruct e; cbn; apply _. Defined.

#[global] Instance isClear_decision (e : Event) : Decision (isClear e).
Proof. destruct e; cbn; apply _. Defined.

(** [linksWithin P heap]: the links of the kexts in [P] lead to kexts in
    [P]. *)
Definition linksWithin (P : KXKextRef → Prop) (heap : gmap nat KXKext)
    : Prop :=
  ∀ k x, P k → heap !! k = Some x →
    (∀ p, priorVersionKext x = Some p → P p)
    ∧ (∀ d, duplicateVersionKext x = Some d → P d).

(** The entries of the candidate set and whatever hangs off them is in
    [P]. *)
Definition structureWithin (P : KXKextRef → Prop) (w : World) : Prop :=
  (∀ id head, candidateKexts w !! id = Some head → P head)
  ∧ linksWithin P (kexts w).

(** [shrunk rs rs']: from the repositories [rs] to [rs'] kexts have at most
    moved from the candidates of a repository to its bad kexts. *)
Definition shrunk (rs rs' : list KXKextRepository) : Prop :=
  length rs' = length rs
  ∧ ∀ i repo repo', rs !! i = Some repo → rs' !! i = Some repo' →
      repoCandidateKexts repo' ⊆ repoCandidateKexts repo
      ∧ repoBadKexts repo ⊆ repoBadKexts repo'.

(** [linked heap k j]: following prior-version and duplicate links from [k]
    leads to [j], in any number of steps. *)
Inductive linked (heap : gmap nat KXKext) : KXKextRef → KXKextRef → Prop :=
  | linked_here k : linked heap k k
  | linked_prior k x p j :
      heap !! k = Some x → priorVersionKext x = Some p →
      linked heap p j → linked heap k j
  | linked_duplicate k x d j :
      heap !! k = Some x → duplicateVersionKext x = Some d →
      linked heap d j → linked heap k j.

(** A kext is in the candidate structure when the links lead to it from an
    entry of the candidate set. *)
Definition reachable (w : World) (k : KXKextRef) : Prop :=
  ∃ id head, candidateKexts w !! id = Some head ∧ linked (kexts w) head k.

(** The example chain after a structural clear. *)
Definition chain54321Cleared : World :=
  KXKextManagerClearRelationships chain54321.

(** The cleared example chain after a query of a kernel in which version 4
    is loaded, as the query leaves it. *)
Definition version4MarkedAfterClear : World :=
  Eval vm_compute in
    (KXKextManagerCheckForLoadedKexts parseExampleVersion
       (Some version4Loaded) chain54321Cleared).2.

(** * Verification *)

(** ** The relationship invalidation controller *)

Lemma int_wrap_id (z : Z) : - 2 ^ 31 ≤ z < 2 ^ 31 → int_wrap z = z.
Proof.
  intros Hz. unfold int_wrap.
  rewrite Z.mod_small by lia. lia.
Qed.

Lemma clear_pending (w : World) :
  0 < clearRelationshipsDisableCount w →
  KXKextManagerClearRelationships w
  = set_needsCalculateRelationships true (set_needsClearRelationships true w).
Proof.
  intros Hd. unfold KXKextManagerClearRelationships.
  destruct (Z.gtb_spec (clearRelationshipsDisableCount w) 0); [done | lia].
Qed.

Lemma clear_structural (w : World) :
  clearRelationshipsDisableCount w ≤ 0 →
  let w' := KXKextManagerClearRelationships w in
  trace w' = trace w ++ [EvClearRelationships (clearRelationshipsDisableCount w)]
  ∧ candidateKexts w' = ∅
  ∧ kextsWithMissingDependencies w' = []
  ∧ needsClearRelationships w' = false
  ∧ needsCalculateRelationships w' = true
  ∧ clearRelationshipsDisableCount w' = clearRelationshipsDisableCount w.
Proof.
  intros Hd. unfold KXKextManagerClearRelationships.
  destruct (Z.gtb_spec (clearRelationshipsDisableCount w) 0); [lia |].
  by cbn.
Qed.

Lemma enable_pending (w : World) :
  1 < clearRelationshipsDisableCount w →
  needsClearRelationships w = true →
  KXKextManagerEnableClearRelationships w
  = set_needsCalculateRelationships true
      (set_needsClearRelationships true
         (set_clearRelationshipsDisableCount
            (clearRelationshipsDisableCount w - 1) w)).
Proof.
  intros Hd Hn. unfold KXKextManagerEnableClearRelationships.
  destruct (Z.gtb_spec (clearRelationshipsDisableCount w) 0); [| lia].
  cbn. rewrite Hn. apply clear_pending. cbn. lia.
Qed.

Lemma enable_fires (w : World) :
  clearRelationshipsDisableCount w = 1 →
  needsClearRelationships w = true →
  KXKextManagerEnableClearRelationships w
  = KXKextManagerClearRelationships
      (set_clearRelationshipsDisableCount 0 w).
Proof.
  intros Hd Hn. unfold KXKextManagerEnableClearRelationships.
  rewrite Hd. cbn. by rewrite Hn.
Qed.

(** Whatever the call and the world, the events a controller call adds are
    structural clears that ran at a disable count that is not positive. *)
Lemma controller_call_trace (c : ControllerCall) (w : World) :
  ∃ t, trace (controller_call c w) = trace w ++ t
       ∧ Forall (fun e => ∃ d, e = EvClearRelationships d ∧ d ≤ 0) t.
Proof.
  assert (Hclear : ∀ v : World,
    ∃ t, trace (KXKextManagerClearRelationships v) = trace v ++ t
         ∧ Forall (fun e => ∃ d, e = EvClearRelationships d ∧ d ≤ 0) t).
  { intros v. destruct (Z.gtb_spec (clearRelationshipsDisableCount v) 0) as [Hp | Hn].
    - exists []. rewrite clear_pending by done. cbn. by rewrite app_nil_r.
    - destruct (clear_structural v Hn) as [Ht _]. eexists. split; [exact Ht |].
      repeat constructor. by eexists. }
  destruct c; cbn.
  - exists []. by rewrite app_nil_r.
  - apply Hclear.
  - unfold KXKextManagerEnableClearRelationships.
    set (v := if clearRelationshipsDisableCount w >? 0 then _ else w).
    assert (Hv : trace v = trace w) by (subst v; by case_match).
    destruct (needsClearRelationships v).
    + rewrite <- Hv. apply Hclear.
    + exists []. by rewrite app_nil_r.
Qed.

Lemma controller_run_trace (cs : list ControllerCall) (w : World) :
  ∃ t, trace (controller_run cs w) = trace w ++ t
       ∧ Forall (fun e => ∃ d, e = EvClearRelationships d ∧ d ≤ 0) t.
Proof.
  revert w. induction cs as [| c cs IH]; intros w; cbn.
  - exists []. by rewrite app_nil_r.
  - destruct (controller_call_trace c w) as (t1 & Ht1 & Hf1).
    destruct (IH (controller_call c w)) as (t2 & Ht2 & Hf2).
    exists (t1 ++ t2). split.
    + unfold controller_run in Ht2. by rewrite Ht2, Ht1, app_assoc.
    + by apply Forall_app.
Qed.

(** While fewer calls to enable have been made than the disable count, no
    call of the controller tears anything down. *)
Lemma controller_run_disabled (cs : list ControllerCall) (w : World) :
  Z.of_nat (count_occ ControllerCall_eq_dec cs CallEnable)
    < clearRelationshipsDisableCount w →
  clearRelationshipsDisableCount w + Z.of_nat (length cs) < 2 ^ 31 →
  let w' := controller_run cs w in
  trace w' = trace w
  ∧ kexts w' = kexts w
  ∧ candidateKexts w' = candidateKexts w
  ∧ kextsWithMissingDependencies w' = kextsWithMissingDependencies w.
Proof.
  revert w. induction cs as [| c cs IH]; intros w Hen Hlen; [done |].
  cbn [controller_run fold_left]. fold (controller_run cs (controller_call c w)).
  cbn [length] in Hlen.
  destruct c; cbn [controller_call].
  - rewrite count_occ_cons_neq in Hen by done.
    destruct (IH (KXKextManagerDisableClearRelationships w)) as (-> & -> & -> & ->);
      [| | done]; cbn; rewrite int_wrap_id; lia.
  - rewrite count_occ_cons_neq in Hen by done.
    rewrite clear_pending by lia.
    destruct (IH (set_needsCalculateRelationships true
                    (set_needsClearRelationships true w)))
      as (-> & -> & -> & ->); [cbn; lia | cbn; lia | done].
  - rewrite count_occ_cons_eq in Hen by done.
    unfold KXKextManagerEnableClearRelationships.
    destruct (Z.gtb_spec (clearRelationshipsDisableCount w) 0); [| lia].
    set (v := set_clearRelationshipsDisableCount _ w).
    assert (Hv : clearRelationshipsDisableCount v
                 = clearRelationshipsDisableCount w - 1) by done.
    destruct (needsClearRelationships v).
    + rewrite clear_pending by lia.
      destruct (IH (set_needsCalculateRelationships true
                      (set_needsClearRelationships true v)))
        as (-> & -> & -> & ->); [cbn; lia | cbn; lia | done].
    + destruct (IH v) as (-> & -> & -> & ->); [lia | lia | done].
Qed.

(** C1.  From a world whose disable count is 0: a call to disable, then a
    request to clear, then a call to enable tear the structure down exactly
    once; nothing is torn down by the first two calls (the request is only
    recorded), and the one structural clear is made by the call to enable, at
    disable count 0, leaving the candidate set and the missing-dependency list
    empty.  In every sequence of controller calls, from every world, each
    structural clear runs at a disable count that is not positive.  After two
    calls to disable, no sequence of calls with fewer than two calls to enable
    tears anything down, and with a request pending the second call to enable
    does. *)
Theorem C1_deferred_invalidation (w : World) :
  clearRelationshipsDisableCount w = 0 →
  let w1 := KXKextManagerDisableClearRelationships w in
  let w2 := KXKextManagerClearRelationships w1 in
  let w3 := KXKextManagerEnableClearRelationships w2 in
  (trace w1 = trace w ∧ trace w2 = trace w
   ∧ kexts w2 = kexts w
   ∧ candidateKexts w2 = candidateKexts w
   ∧ kextsWithMissingDependencies w2 = kextsWithMissingDependencies w
   ∧ needsClearRelationships w2 = true)
  ∧ (trace w3 = trace w ++ [EvClearRelationships 0]
     ∧ structural_clears (trace w3) = structural_clears (trace w) ++ [0]
     ∧ candidateKexts w3 = ∅
     ∧ kextsWithMissingDependencies w3 = []
     ∧ needsClearRelationships w3 = false
     ∧ clearRelationshipsDisableCount w3 = 0)
  ∧ (∀ (cs : list ControllerCall) (v : World),
       ∃ t, trace (controller_run cs v) = trace v ++ t
            ∧ Forall (fun d => d ≤ 0) (structural_clears t)
            ∧ length (structural_clears t) = length t)
  ∧ (∀ cs : list ControllerCall,
       (count_occ ControllerCall_eq_dec cs CallEnable < 2)%nat →
       Z.of_nat (length cs) < 2 ^ 31 - 2 →
       let v := controller_run (CallDisable :: CallDisable :: cs) w in
       trace v = trace w
       ∧ candidateKexts v = candidateKexts w
       ∧ kextsWithMissingDependencies v = kextsWithMissingDependencies w)
  ∧ (trace (controller_run [CallDisable; CallDisable; CallClear; CallEnable] w)
     = trace w
     ∧ trace (controller_run
                [CallDisable; CallDisable; CallClear; CallEnable; CallEnable] w)
       = trace w ++ [EvClearRelationships 0]).
Proof.
  intros H0 w1 w2 w3.
  assert (H1 : clearRelationshipsDisableCount w1 = 1).
  { subst w1. cbn. rewrite H0. done. }
  assert (E2 : w2 = set_needsCalculateRelationships true
                      (set_needsClearRelationships true w1)).
  { subst w2. apply clear_pending. lia. }
  split; [by rewrite E2 | split]; [| split; [| split]].
  - subst w3. unfold KXKextManagerEnableClearRelationships.
    rewrite E2. cbn [clearRelationshipsDisableCount set_needsCalculateRelationships
      set_needsClearRelationships needsClearRelationships
      set_clearRelationshipsDisableCount].
    rewrite H1. cbn [Z.gtb Z.compare Z.sub Z.add Z.opp Z.pos_sub].
    set (v := set_clearRelationshipsDisableCount _ _).
    replace (needsClearRelationships v) with true by done.
    destruct (clear_structural v) as (Ht & Hc & Hm & Hn & _ & Hd); [by cbn |].
    rewrite Ht, Hc, Hm, Hn, Hd. cbn.
    unfold structural_clears. rewrite omap_app. done.
  - intros cs v. destruct (controller_run_trace cs v) as (t & Ht & Hf).
    exists t. split; [done |]. clear Ht.
    induction Hf as [| e t (d & -> & Hd) _ [IH1 IH2]]; [done |].
    cbn. split; [by constructor | by f_equal].
  - intros cs Hen Hlen v.
    assert (Hw2 : clearRelationshipsDisableCount
              (controller_run [CallDisable; CallDisable] w) = 2).
    { cbn. rewrite H0. done. }
    destruct (controller_run_disabled cs
                (controller_run [CallDisable; CallDisable] w))
      as (Ht & _ & Hc & Hm); [lia | lia |].
    subst v. change (controller_run (CallDisable :: CallDisable :: cs) w)
      with (controller_run cs (controller_run [CallDisable; CallDisable] w)).
    by rewrite Ht, Hc, Hm.
  - assert (Hv2 : clearRelationshipsDisableCount
              (KXKextManagerDisableClearRelationships w1) = 2).
    { cbn. rewrite H0. done. }
    cbn [controller_run fold_left controller_call]. fold w1.
    rewrite (clear_pending (KXKextManagerDisableClearRelationships w1))
      by lia.
    set (v3 := set_needsCalculateRelationships true _).
    rewrite (enable_pending v3) by (done || (subst v3; cbn in *; lia)).
    split; [done |].
    set (v4 := set_needsCalculateRelationships true _).
    rewrite (enable_fires v4);
      [| subst v4 v3; cbn in *; lia | done].
    match goal with |- context [KXKextManagerClearRelationships ?v] =>
      destruct (clear_structural v) as (Ht & _); [by cbn |]; rewrite Ht
    end.
    done.
Qed.

Lemma C1_deferred_invalidation_witness :
  clearRelationshipsDisableCount chain54321 = 0
  ∧ candidateKexts
      (KXKextManagerEnableClearRelationships
         (KXKextManagerClearRelationships
            (KXKextManagerDisableClearRelationships chain54321))) = ∅.
Proof.
  split; [reflexivity |].
  exact (proj1 (proj2 (proj2 (proj1 (proj2
    (C1_deferred_invalidation chain54321 eq_refl)))))).
Defined.

(** ** Splicing out kexts with missing dependencies *)

(** C4.  Versions 5, 4, 3, 2, 1 of one identifier, no duplicates, and a
    resolver for which only version 3 lacks dependencies: after
    [KXKextManagerResolveAllKextDependencies]
    the chain from the head of the candidate set is 5, 4, 2, 1 in
    [priorVersionKext] order, and version 3 is in the list of kexts with
    missing dependencies exactly once. *)
Theorem C4_splice_preserves_order :
  let w :=
    KXKextManagerResolveAllKextDependencies (resolveAllBut 3) chain54321 in
  candidateKexts w !! "com.example.driver" = Some 5%nat
  ∧ priorChain (kexts w) (candidateKexts w !! "com.example.driver")
      [5; 4; 2; 1]%nat
  ∧ map (_KXKextGetVersion (kexts w)) [5; 4; 2; 1]%nat = [5; 4; 2; 1]
  ∧ map (KXKextGetHasAllDependencies (kexts w)) [5; 4; 3; 2; 1]%nat
    = [true; true; false; true; true]
  ∧ kextsWithMissingDependencies w = [3%nat]
  ∧ count_occ Nat.eq_dec (kextsWithMissingDependencies w) 3%nat = 1%nat.
Proof.
  vm_compute.
  repeat split.
    repeat (eapply linkChain_cons; [vm_compute; reflexivity |]; cbn).
  apply linkChain_nil.
Qed.

(** C5.  Version 4 present twice, kext 40 in the chain with kext 41 as its
    duplicate, and only kext 40 lacking dependencies.  Below version 5:
    after the pass, kext 41 is what the [priorVersionKext] link of version 5
    points to.  At the head: kext 41 is the entry of the candidate set.  In
    both cases the [priorVersionKext] link of kext 41 is the link kext 40
    had (to version 3), and kext 40 is recorded as missing dependencies. *)
Theorem C5_duplicate_promotion :
  (let w0 := duplicateBelow5 in
   let w :=
     KXKextManagerResolveAllKextDependencies (resolveAllBut 40) w0 in
   KXKextGetPriorVersionKext (kexts w) 5 = Some 41%nat
   ∧ KXKextGetPriorVersionKext (kexts w) 41
     = KXKextGetPriorVersionKext (kexts w0) 40
   ∧ priorChain (kexts w) (candidateKexts w !! "com.example.driver")
       [5; 41; 3]%nat
   ∧ kextsWithMissingDependencies w = [40%nat])
  ∧ (let w0 := duplicateAtHead in
     let w :=
       KXKextManagerResolveAllKextDependencies (resolveAllBut 40) w0 in
     candidateKexts w !! "com.example.driver" = Some 41%nat
     ∧ KXKextGetPriorVersionKext (kexts w) 41
       = KXKextGetPriorVersionKext (kexts w0) 40
     ∧ priorChain (kexts w) (candidateKexts w !! "com.example.driver")
         [41; 3]%nat
     ∧ kextsWithMissingDependencies w = [40%nat]).
Proof.
  vm_compute.
  repeat split;
    repeat (eapply linkChain_cons; [vm_compute; reflexivity |]; cbn);
    apply linkChain_nil.
Qed.

(** ** Heaps related field by field *)

#[local] Instance same_static_refl : Reflexive same_static.
Proof. by intros x. Qed.
#[local] Instance same_static_trans : Transitive same_static.
Proof.
  intros x y z (? & ? & ? & ? & ? & ? & ?) (? & ? & ? & ? & ? & ? & ?).
  repeat split; congruence.
Qed.
#[local] Instance same_links_refl : Reflexive same_links.
Proof. by intros x. Qed.
#[local] Instance same_links_trans : Transitive same_links.
Proof. intros x y z [? ?] [? ?]. split; congruence. Qed.
#[local] Instance same_loaded_refl : Reflexive same_loaded.
Proof. by intros x. Qed.
#[local] Instance same_loaded_trans : Transitive same_loaded.
Proof. intros x y z [? ?] [? ?]. split; congruence. Qed.

Section heap_rel.
Context (R : KXKext → KXKext → Prop) `{!Reflexive R} `{!Transitive R}.

Lemma heap_rel_refl (h : gmap nat KXKext) : heap_rel R h h.
Proof. intros k. by destruct (h !! k). Qed.

Lemma heap_rel_trans (h1 h2 h3 : gmap nat KXKext) :
  heap_rel R h1 h2 → heap_rel R h2 h3 → heap_rel R h1 h3.
Proof.
  intros H12 H23 k. specialize (H12 k). specialize (H23 k).
  destruct (h1 !! k), (h2 !! k), (h3 !! k); try done. by etrans.
Qed.

Lemma heap_rel_alter (f : KXKext → KXKext) (k : nat) (h : gmap nat KXKext) :
  (∀ x, R x (f x)) → heap_rel R h (alter f k h).
Proof.
  intros Hf j. destruct (decide (k = j)) as [-> | Hne].
  - rewrite lookup_alter_eq. destruct (h !! j); cbn; [apply Hf | done].
  - rewrite lookup_alter_ne by done. by destruct (h !! j).
Qed.

Lemma heap_rel_foldr_alter (f : KXKext → KXKext) (l : list nat)
    (h : gmap nat KXKext) :
  (∀ x, R x (f x)) → heap_rel R h (foldr (alter f) h l).
Proof.
  intros Hf. induction l as [| k l IH]; cbn.
  - apply heap_rel_refl.
  - eapply heap_rel_trans; [exact IH |]. by apply heap_rel_alter.
Qed.

Lemma heap_rel_fold_left {A} (g : gmap nat KXKext → A → gmap nat KXKext)
    (l : list A) (h : gmap nat KXKext) :
  (∀ h a, heap_rel R h (g h a)) → heap_rel R h (fold_left g l h).
Proof.
  intros Hg. revert h. induction l as [| a l IH]; intros h; cbn.
  - apply heap_rel_refl.
  - eapply heap_rel_trans; [apply Hg | apply IH].
Qed.

Lemma heap_rel_lookup (h h' : gmap nat KXKext) (k : nat) (x : KXKext) :
  heap_rel R h h' → h !! k = Some x → ∃ y, h' !! k = Some y ∧ R x y.
Proof.
  intros H Hk. specialize (H k). rewrite Hk in H.
  destruct (h' !! k) as [y |]; [by exists y | done].
Qed.

Lemma heap_rel_lookup_r (h h' : gmap nat KXKext) (k : nat) (y : KXKext) :
  heap_rel R h h' → h' !! k = Some y → ∃ x, h !! k = Some x ∧ R x y.
Proof.
  intros H Hk. specialize (H k). rewrite Hk in H.
  destruct (h !! k) as [x |]; [by exists x | done].
Qed.

Lemma heap_rel_None (h h' : gmap nat KXKext) (k : nat) :
  heap_rel R h h' → h !! k = None → h' !! k = None.
Proof.
  intros H Hk. specialize (H k). rewrite Hk in H.
  by destruct (h' !! k).
Qed.
End heap_rel.

Lemma heap_rel_and (R1 R2 : KXKext → KXKext → Prop) (h h' : gmap nat KXKext) :
  heap_rel R1 h h' → heap_rel R2 h h' →
  heap_rel (fun x y => R1 x y ∧ R2 x y) h h'.
Proof.
  intros H1 H2 k. specialize (H1 k). specialize (H2 k).
  by destruct (h !! k), (h' !! k).
Qed.

Lemma heap_rel_static_getters (h h' : gmap nat KXKext) (k : nat) :
  heap_rel same_static h h' →
  KXKextGetBundleIdentifier h' k = KXKextGetBundleIdentifier h k
  ∧ _KXKextGetVersion h' k = _KXKextGetVersion h k
  ∧ KXKextGetRepository h' k = KXKextGetRepository h k
  ∧ KXKextIsValid h' k = KXKextIsValid h k
  ∧ KXKextIsEnabled h' k = KXKextIsEnabled h k
  ∧ KXKextIsEligibleDuringSafeBoot h' k = KXKextIsEligibleDuringSafeBoot h k
  ∧ KXKextGetLoadFailed h' k = KXKextGetLoadFailed h k.
Proof.
  intros H. specialize (H k).
  unfold KXKextGetBundleIdentifier, _KXKextGetVersion, KXKextGetRepository,
    KXKextIsValid, KXKextIsEnabled, KXKextIsEligibleDuringSafeBoot,
    KXKextGetLoadFailed.
    destruct (h !! k), (h' !! k); try done.
  destruct H as (? & ? & ? & ? & ? & ? & ?). cbn. by repeat split.
Qed.

Lemma clear_repositories_static (rs : list KXKextRepository)
    (h : gmap nat KXKext) :
  heap_rel same_static h
    (fold_left (fun heap r => _KXKextRepositoryClearRelationships r heap) rs h).
Proof.
  apply heap_rel_fold_left; [apply _ ..|]. intros h0 r.
  by apply heap_rel_foldr_alter; [apply _ ..|].
Qed.

Lemma KXKextManagerClearRelationships_static (w : World) :
  heap_rel same_static (kexts w) (kexts (KXKextManagerClearRelationships w)).
Proof.
  unfold KXKextManagerClearRelationships. case_match; cbn.
  - apply heap_rel_refl; apply _.
  - eapply heap_rel_trans; [apply _ | apply clear_repositories_static ..].
Qed.

Lemma KXKextManagerClearRelationships_stale (w : World) :
  let w' := KXKextManagerClearRelationships w in
  needsCalculateRelationships w' = true
  ∧ (needsClearRelationships w' = true
     ∨ candidateKexts w' = ∅ ∧ kextsWithMissingDependencies w' = []).
Proof.
  unfold KXKextManagerClearRelationships. case_match; cbn; auto.
Qed.

Lemma KXKextManagerDisqualifyKext_static (w : World) (k : KXKextRef) :
  heap_rel same_static (kexts w) (kexts (KXKextManagerDisqualifyKext w k)).
Proof.
  unfold KXKextManagerDisqualifyKext, _KXKextRepositoryDisqualifyKext.
  match goal with |- context [KXKextManagerClearRelationships ?v] =>
    assert (E : kexts v = kexts w) by (by case_match);
    rewrite <- E; apply KXKextManagerClearRelationships_static
  end.
Qed.

(** ** Loading *)

Lemma loadFinish_failed (aKext : KXKextRef) (result : KXKextManagerError)
    (w w' : World) :
  is_Some (kexts w !! aKext) →
  result ≠ kKXKextManagerErrorNone →
  result ≠ kKXKextManagerErrorAlreadyLoaded →
  loadFinish aKext result w = Returned result w' →
  KXKextGetLoadFailed (kexts w') aKext = true
  ∧ needsCalculateRelationships w' = true
  ∧ (needsClearRelationships w' = true
     ∨ candidateKexts w' = ∅ ∧ kextsWithMissingDependencies w' = []).
Proof.
  intros [x Hx] Hn Ha. unfold loadFinish.
  rewrite bool_decide_eq_true_2 by done.
  intros [= <-]. split; [| apply KXKextManagerClearRelationships_stale].
  set (v := set_kexts _ w).
  destruct (heap_rel_static_getters (kexts v)
              (kexts (KXKextManagerClearRelationships v)) aKext
              (KXKextManagerClearRelationships_static v))
    as (_ & _ & _ & _ & _ & _ & ->).
  subst v. cbn. unfold KXKextGetLoadFailed, KXKextSetLoadFailed.
  by rewrite lookup_alter_eq, Hx.
Qed.

(** C7.  Whenever [_KXKextManagerLoadKextUsingOptions] returns a result that
    is neither success nor "already loaded", the kext has its [loadFailed]
    flag set and the relationships are stale: [needsCalculateRelationships]
    is set, and the structure has either been cleared (empty candidate set
    and missing-dependency list) or, clearing being disabled, is flagged to
    be cleared. *)
Theorem C7_failed_load_invalidates (w w' : World) (aKext : KXKextRef)
    (env : LoadCollaborators) (result : KXKextManagerError) :
  is_Some (kexts w !! aKext) →
  _KXKextManagerLoadKextUsingOptions w aKext env = Returned result w' →
  result ≠ kKXKextManagerErrorNone →
  result ≠ kKXKextManagerErrorAlreadyLoaded →
  KXKextGetLoadFailed (kexts w') aKext = true
  ∧ needsCalculateRelationships w' = true
  ∧ (needsClearRelationships w' = true
     ∨ candidateKexts w' = ∅ ∧ kextsWithMissingDependencies w' = []).
Proof.
  intros Hk Hret Hn Ha. unfold _KXKextManagerLoadKextUsingOptions in Hret.
  assert (Hfin : ∀ r v, is_Some (kexts v !! aKext) →
            loadFinish aKext r v = Returned result w' →
            KXKextGetLoadFailed (kexts w') aKext = true
            ∧ needsCalculateRelationships w' = true
            ∧ (needsClearRelationships w' = true
               ∨ candidateKexts w' = ∅ ∧ kextsWithMissingDependencies w' = [])).
  { intros r v Hv Hr.
    assert (r = result) as ->.
    { unfold loadFinish in Hr. by case_match; inversion Hr. }
    by eapply loadFinish_failed. }
  repeat case_match; try done; try (by eapply Hfin).
  eapply Hfin; [| done].
  destruct Hk as [x Hx].
  destruct (heap_rel_lookup same_static _ _ _ _
              (KXKextManagerDisqualifyKext_static w aKext) Hx) as (y & Hy & _).
  by exists y.
Qed.

Lemma C7_failed_load_invalidates_witness :
  ∃ w', _KXKextManagerLoadKextUsingOptions chain54321 5 linkLoadFails
        = Returned kKXKextManagerErrorLinkLoad w'
        ∧ KXKextGetLoadFailed (kexts w') 5 = true
        ∧ needsCalculateRelationships w' = true.
Proof.
  eexists. split; [reflexivity |].
  pose proof (C7_failed_load_invalidates chain54321 _ 5 linkLoadFails
                kKXKextManagerErrorLinkLoad
                ltac:(vm_compute; eauto) eq_refl
                ltac:(discriminate) ltac:(discriminate)) as (H1 & H2 & _).
  split; [exact H1 | exact H2].
Defined.

(** ** What the rebuild and the kernel query leave in the trace *)

Lemma quietly_refl (w : World) : quietly w w.
Proof. exists []. by rewrite app_nil_r. Qed.

Lemma quietly_trans (w1 w2 w3 : World) :
  quietly w1 w2 → quietly w2 w3 → quietly w1 w3.
Proof.
  intros (t1 & E1 & F1) (t2 & E2 & F2). exists (t1 ++ t2).
  split; [by rewrite E2, E1, app_assoc | by apply Forall_app].
Qed.


Lemma quietly_fold_left {A} (g : World → A → World) (l : list A) (w : World) :
  (∀ v a, quietly v (g v a)) → quietly w (fold_left g l w).
Proof.
  intros Hg. revert w. induction l as [| a l IH]; intros w; cbn.
  - apply quietly_refl.
  - eapply quietly_trans; [apply Hg | apply IH].
Qed.


Section quiet_operations.
Context (VERS_parse_string : string → Z)
  (kmod_get_info : option (list kmod_info)).

Lemma fold_left_trace {A} (g : World → A → World) (l : list A) (w : World) :
  (∀ v a, trace (g v a) = trace v) → trace (fold_left g l w) = trace w.
Proof.
  intros Hg. revert w. induction l as [| a l IH]; intros w; [done |].
  cbn. by rewrite IH.
Qed.

Lemma calculateKext_trace (w : World) (k : KXKextRef) :
  trace (calculateKext w k) = trace w.
Proof. unfold calculateKext. by repeat case_match. Qed.





End quiet_operations.

(** ** Rejecting a kext that is already loaded *)

Section load_rejection_flags.
Context (VERS_parse_string : string → Z)
  (resolveDependencies : World → KXKextRef → KXKextManagerError)
  (copyAllDependencies : World → KXKextRef → option (list KXKextRef))
  (authenticate : World → KXKextRef → KXKextManagerError)
  (loaded_modules : list kmod_info).


End load_rejection_flags.

(** ** The authentication walk *)

Lemma KXKextManagerDisqualifyKext_spec (w : World) (k : KXKextRef) :
  let w' := KXKextManagerDisqualifyKext w k in
  let r := KXKextGetRepository (kexts w) k in
  (∀ repo, repositoryList w !! r = Some repo →
     repositoryList w' !! r
     = Some (mkRepository
               (filter (fun x => x ≠ k) (repoCandidateKexts repo))
               (repoBadKexts repo ++ [k])))
  ∧ (∀ r', r' ≠ r → repositoryList w' !! r' = repositoryList w !! r')
  ∧ performsFullTests w' = performsFullTests w
  ∧ needsCalculateRelationships w' = true
  ∧ (needsClearRelationships w' = true
     ∨ candidateKexts w' = ∅ ∧ kextsWithMissingDependencies w' = [])
  ∧ ∃ t, trace w' = trace w ++ EvDisqualify k :: t ∧ Forall quiet t.
Proof.
  cbv zeta.
  unfold KXKextManagerDisqualifyKext, _KXKextRepositoryDisqualifyKext.
  cbn [kexts emit].
  set (r := KXKextGetRepository (kexts w) k).
  set (v := match repositoryList (emit (EvDisqualify k) w) !! r with
            | Some _ => _ | None => _ end).
  assert (Hv : (∀ repo, repositoryList w !! r = Some repo →
              repositoryList v !! r
              = Some (mkRepository
                        (filter (fun x => x ≠ k) (repoCandidateKexts repo))
                        (repoBadKexts repo ++ [k])))
           ∧ (∀ r', r' ≠ r → repositoryList v !! r' = repositoryList w !! r')
           ∧ performsFullTests v = performsFullTests w
           ∧ trace v = trace w ++ [EvDisqualify k]).
  { subst v. cbn [repositoryList emit].
    destruct (repositoryList w !! r) as [repo |] eqn:Hr; cbn.
    - repeat split; try done.
      + intros ? [= <-]. apply list_lookup_insert_eq.
        by eapply lookup_lt_Some.
      + intros r' Hne. by apply list_lookup_insert_ne.
    - repeat split; done. }
  destruct Hv as (Hv1 & Hv2 & Hv3 & Hv4).
  assert (Hc : repositoryList (KXKextManagerClearRelationships v)
               = repositoryList v
             ∧ performsFullTests (KXKextManagerClearRelationships v)
               = performsFullTests v).
  { unfold KXKextManagerClearRelationships. by case_match. }
  destruct Hc as [-> ->].
  repeat split; try done; try apply KXKextManagerClearRelationships_stale.
  unfold KXKextManagerClearRelationships. case_match; cbn.
  - exists []. by rewrite Hv4.
  - eexists [_]. rewrite Hv4, <- app_assoc. split; [done |].
    by repeat constructor.
Qed.

(** ** Chains of kexts *)

Section linkChain.
Context (next : KXKext → option KXKextRef).

Lemma linkChain_functional (heap : gmap nat KXKext) (o : option KXKextRef)
    (l l' : list KXKextRef) :
  linkChain next heap o l → linkChain next heap o l' → l = l'.
Proof.
  intros H. revert l'. induction H as [| k x l Hk _ IH]; intros l' H'.
  - by inversion H'.
  - inversion H' as [| k' x' l'' Hk' Hl']; subst.
    rewrite Hk in Hk'. injection Hk' as <-. f_equal. by apply IH.
Qed.

Lemma linkChain_elem (heap : gmap nat KXKext) (o : option KXKextRef)
    (l : list KXKextRef) (k : KXKextRef) :
  linkChain next heap o l → k ∈ l →
  ∃ l1 l2, l = l1 ++ k :: l2 ∧ linkChain next heap (Some k) (k :: l2).
Proof.
  intros H. induction H as [| k' x l Hk Hl IH]; intros Hin.
  - by apply elem_of_nil in Hin.
  - apply elem_of_cons in Hin as [-> | Hin].
    + exists [], l. split; [done |]. by econstructor.
        + destruct (IH Hin) as (l1 & l2 & E & Hc). subst l.
      by exists (k' :: l1), l2.
Qed.

Lemma linkChain_lookup (heap : gmap nat KXKext) (o : option KXKextRef)
    (l : list KXKextRef) (k : KXKextRef) :
  linkChain next heap o l → k ∈ l → is_Some (heap !! k).
Proof.
    intros H Hin. destruct (linkChain_elem _ _ _ _ H Hin) as (l1 & l2 & _ & Hc).
  inversion Hc; subst. by eexists.
Qed.

Lemma linkChain_NoDup (heap : gmap nat KXKext) (o : option KXKextRef)
    (l : list KXKextRef) :
  linkChain next heap o l → NoDup l.
Proof.
  intros H. induction H as [| k x l Hk Hl IH]; constructor; [| done].
  intros Hin.
    destruct (linkChain_elem _ _ _ _ Hl Hin) as (l1 & l2 & E & Hc). subst l.
  assert (Hfull : linkChain next heap (Some k) (k :: l1 ++ k :: l2))
    by (by econstructor).
  pose proof (linkChain_functional _ _ _ _ Hc Hfull) as E.
  apply (f_equal length) in E. cbn in E. rewrite length_app in E. cbn in E.
  lia.
Qed.

Lemma linkChain_length (heap : gmap nat KXKext) (o : option KXKextRef)
    (l : list KXKextRef) :
  linkChain next heap o l → (length l ≤ size heap)%nat.
Proof.
  intros H.
  assert (Hsub : l ⊆+ (map_to_list heap).*1).
  { apply NoDup_submseteq; [by eapply linkChain_NoDup |].
    intros k Hin. destruct (linkChain_lookup _ _ _ _ H Hin) as [x Hx].
    apply list_elem_of_fmap. exists (k, x). split; [done |].
    by apply elem_of_map_to_list. }
  apply submseteq_length in Hsub.
  by rewrite length_fmap, length_map_to_list in Hsub.
Qed.

(** A chain depends on the heap only through the links of its kexts. *)
Lemma linkChain_heap_rel (heap heap' : gmap nat KXKext)
    (o : option KXKextRef) (l : list KXKextRef) :
  heap_rel (fun x y => next x = next y) heap heap' →
  linkChain next heap o l → linkChain next heap' o l.
Proof.
  intros Hrel H. induction H as [| k x l Hk Hl IH]; [constructor |].
  specialize (Hrel k). rewrite Hk in Hrel.
  destruct (heap' !! k) as [y |] eqn:Hy; [| done].
  econstructor; [done |]. by rewrite <- Hrel.
Qed.
End linkChain.

(** ** Looking up a compatible kext *)

Lemma find_first_of_sorted {A} (R : A → A → Prop) (f : A → bool) (l : list A)
    (r : A) :
  StronglySorted R l → find f l = Some r →
  ∀ k, k ∈ l → f k = true → k = r ∨ R r k.
Proof.
  intros Hs. induction Hs as [| a l Hs IH Hall]; intros Hf k Hin Hk.
  - by apply elem_of_nil in Hin.
  - cbn in Hf. destruct (f a) eqn:Ha.
    + injection Hf as <-. apply elem_of_cons in Hin as [-> | Hin]; [by left |].
            right. rewrite Forall_forall in Hall. by apply Hall.
    + apply elem_of_cons in Hin as [-> | Hin]; [congruence |]. by apply IH.
Qed.

Lemma find_none_all {A} (f : A → bool) (l : list A) :
  (∀ k, k ∈ l → f k = false) → find f l = None.
Proof.
  intros Hall. induction l as [| a l IH]; [done |].
  cbn. rewrite (Hall a) by apply list_elem_of_here.
  apply IH. intros k Hin. apply Hall. by apply list_elem_of_further.
Qed.

Section compatible_lookup.
Context (VERS_parse_string : string → Z)
  (isCompatibleWithVersionNumber : KXKext → Z → bool).

Abbreviation compatible heap v :=
  (fun k => _KXKextIsCompatibleWithVersionNumber isCompatibleWithVersionNumber
              heap k v).

Lemma scanCompatible_spec (heap : gmap nat KXKext) (v : Z)
    (o : option KXKextRef) (l : list KXKextRef) :
  priorChain heap o l →
  ∀ (fuel : nat) (foundKext : option KXKextRef),
    (length l ≤ fuel)%nat →
    scanCompatible isCompatibleWithVersionNumber fuel heap o foundKext v
    = match find (fun k => compatible heap v k && KXKextIsLoaded heap k) l with
      | Some k => Some k
      | None =>
          match foundKext with
          | Some f => Some f
          | None => find (compatible heap v) l
          end
      end.
Proof.
  intros H. induction H as [| k x l Hk Hl IH]; intros fuel foundKext Hfuel.
  - cbn. destruct fuel; by destruct foundKext.
  - destruct fuel as [| fuel]; [cbn in Hfuel; lia |].
    cbn [scanCompatible find].
    assert (Hnext : KXKextGetPriorVersionKext heap k = priorVersionKext x)
      by (unfold KXKextGetPriorVersionKext; by rewrite Hk).
    rewrite Hnext.
    destruct (_KXKextIsCompatibleWithVersionNumber _ heap k v) eqn:Hc; cbn.
    + destruct (KXKextIsLoaded heap k) eqn:Hload; [done |].
      rewrite IH by (cbn in Hfuel; lia).
      by destruct (find _ l), foundKext.
    + apply IH. cbn in Hfuel. lia.
Qed.

(** C10.  [KXKextManagerGetKextWithIdentifierCompatibleWithVersionString] on
    a version string.  When the string does not fit the buffer of the parser
    or does not parse, the result is null (and nothing is rebuilt).  When it
    fits and parses to [v], the relationships are checked
    first; with [l] the [priorVersionKext] chain of the identifier in the
    candidate set, the result is the first kext of [l] that is compatible with
    [v] and loaded, if there is one; otherwise the first kext of [l]
    compatible with [v], which in a chain of descending versions has the
    highest version of the compatible kexts; and null when no kext of [l] is
    compatible. *)
Theorem C10_compatible_with_version_string (w : World) (identifier : string)
    (versionString : string) :
  let v := VERS_parse_string versionString in
  let result :=
    KXKextManagerGetKextWithIdentifierCompatibleWithVersionString
      VERS_parse_string isCompatibleWithVersionNumber w identifier
      (Some versionString) in
  (fitsCString 31 versionString = false ∨ v < 0 → result = (None, w))
  ∧ (fitsCString 31 versionString = true → 0 ≤ v →
     let w' := relationshipsChecked w in
     result.2 = w'
     ∧ ∀ l, priorChain (kexts w') (candidateKexts w' !! identifier) l →
         let loadedCompatible :=
           find (fun k => compatible (kexts w') v k
                          && KXKextIsLoaded (kexts w') k) l in
         let firstCompatible := find (compatible (kexts w') v) l in
         (∀ k, loadedCompatible = Some k → result.1 = Some k)
         ∧ (loadedCompatible = None → result.1 = firstCompatible)
         ∧ (loadedCompatible = None → descending (kexts w') l →
            ∀ r, result.1 = Some r →
              ∀ k, k ∈ l → compatible (kexts w') v k = true →
                _KXKextGetVersion (kexts w') k
                ≤ _KXKextGetVersion (kexts w') r)
         ∧ ((∀ k, k ∈ l → compatible (kexts w') v k = false) →
            result.1 = None)).
Proof.
  intros v result. subst result.
  unfold KXKextManagerGetKextWithIdentifierCompatibleWithVersionString,
    __versionNumberForString. fold v.
  split.
  - intros [-> | Hv]; [done |].
    destruct (fitsCString 31 versionString); [| done]. cbn [negb].
    destruct (Z.ltb_spec v 0); [done | lia].
  - intros -> Hv. cbn [negb]. destruct (Z.ltb_spec v 0); [lia |].
    unfold __KXKextManagerGetKextWithIdentifierCompatibleWithVersionNumber.
    fold (relationshipsChecked w). set (w' := relationshipsChecked w).
    cbn [fst snd].
    split; [done |]. intros l Hl.
    rewrite (scanCompatible_spec _ _ _ _ Hl)
      by (apply linkChain_length in Hl; unfold enoughFuel; lia).
    set (loadedCompatible := find (fun k => _ && _) l).
    set (firstCompatible := find _ l).
    split; [| split; [| split]].
    + by intros k ->.
    + by intros ->.
        + intros Hnl Hdesc r Hr k Hin Hk. rewrite Hnl in Hr.
      apply Sorted_StronglySorted in Hdesc; [| intros a b c ? ?; lia].
      destruct (find_first_of_sorted _ _ _ _ Hdesc Hr k Hin Hk) as [-> | Hlt];
        lia.
    + intros Hnone.
            assert (Hnc : firstCompatible = None) by (by apply find_none_all).
      assert (Hnl : loadedCompatible = None).
      { apply find_none_all. intros k Hin. by rewrite (Hnone k Hin). }
      by rewrite Hnl, Hnc.
Qed.
End compatible_lookup.

(** ** Which kexts are marked loaded *)

Lemma heap_rel_sym (R : KXKext → KXKext → Prop) (h h' : gmap nat KXKext) :
  (∀ x y, R x y → R y x) → heap_rel R h h' → heap_rel R h' h.
Proof.
  intros Hsym H k. specialize (H k).
  destruct (h !! k), (h' !! k); try done. by apply Hsym.
Qed.

Lemma heap_rel_impl (R R' : KXKext → KXKext → Prop) (h h' : gmap nat KXKext) :
  (∀ x y, R x y → R' x y) → heap_rel R h h' → heap_rel R' h h'.
Proof.
  intros Himpl H k. specialize (H k).
  destruct (h !! k), (h' !! k); try done. by apply Himpl.
Qed.

Lemma kextTree_heap_rel (heap heap' : gmap nat KXKext)
    (o : option KXKextRef) (ll : list (list KXKextRef)) :
  heap_rel same_links heap heap' → kextTree heap o ll → kextTree heap' o ll.
Proof.
  intros Hrel H. induction H as [| k x dl ll Hk Hdl Hll IH]; [constructor |].
  pose proof (Hrel k) as Hrk. rewrite Hk in Hrk.
  destruct (heap' !! k) as [y |] eqn:Hy; [| done].
  destruct Hrk as [Hp Hd].
  econstructor; [done | |].
  - eapply linkChain_heap_rel; [| done].
    eapply heap_rel_impl; [| done]. by intros ? ? [_ ?].
  - by rewrite <- Hp.
Qed.

Lemma kextTree_functional (heap : gmap nat KXKext) (o : option KXKextRef)
    (ll ll' : list (list KXKextRef)) :
  kextTree heap o ll → kextTree heap o ll' → ll = ll'.
Proof.
  intros H. revert ll'. induction H as [| k x dl ll Hk Hdl Hll IH]; intros ll' H'.
  - by inversion H'.
  - inversion H' as [| k' x' dl' ll'' Hk' Hdl' Hll']; subst.
    rewrite Hk in Hk'. injection Hk' as <-.
    f_equal; [by eapply linkChain_functional | by apply IH].
Qed.

Lemma lookup_fold_left_alter (f : KXKext → KXKext) (ks : list nat)
    (heap : gmap nat KXKext) (k : nat) :
  (∀ x, f (f x) = f x) →
  fold_left (fun h j => alter f j h) ks heap !! k
  = if decide (k ∈ ks) then f <$> heap !! k else heap !! k.
Proof.
  intros Hidem. revert heap. induction ks as [| j ks IH]; intros heap; cbn.
  - by rewrite decide_False by apply not_elem_of_nil.
  - rewrite IH. destruct (decide (j = k)) as [-> | Hne].
    + rewrite lookup_alter_eq.
      rewrite (decide_True (P := k ∈ k :: ks)) by apply list_elem_of_here.
      case_decide; [| done].
      destruct (heap !! k); cbn; [by rewrite Hidem | done].
    + rewrite lookup_alter_ne by done.
      destruct (decide (k ∈ ks)).
      * by rewrite decide_True by (by apply list_elem_of_further).
      * rewrite decide_False; [done |].
        intros [-> | ?]%elem_of_cons; done.
Qed.

Lemma markKext_links (a v : Z) (x : KXKext) : same_links x (markKext a v x).
Proof. unfold markKext. by case_match. Qed.

Lemma markKext_static (a v : Z) (x : KXKext) : same_static x (markKext a v x).
Proof. unfold markKext. by case_match. Qed.

Lemma markKext_idem (a v : Z) (x : KXKext) :
  markKext a v (markKext a v x) = markKext a v x.
Proof.
  unfold markKext. cbn. destruct (version x =? v) eqn:E; cbn; by rewrite E.
Qed.

Lemma fold_left_markKext_links (a v : Z) (ks : list nat)
    (heap : gmap nat KXKext) :
  heap_rel same_links heap
    (fold_left (fun h j => alter (markKext a v) j h) ks heap).
Proof.
  apply heap_rel_fold_left; [apply _ ..|]. intros h j.
  apply heap_rel_alter; [apply _ | apply markKext_links].
Qed.

Lemma markDuplicates_spec (a v : Z) (dl : list KXKextRef) :
  ∀ (heap : gmap nat KXKext) (o : option KXKextRef) (fuel : nat),
    duplicateChain heap o dl → (length dl ≤ fuel)%nat →
    markDuplicates fuel o a v heap
    = fold_left (fun h j => alter (markKext a v) j h) dl heap.
Proof.
  induction dl as [| k dl IH]; intros heap o fuel H Hfuel.
  - inversion H; subst. by destruct fuel.
  - inversion H as [| k' x dl' Hk Hdl]; subst.
    destruct fuel as [| fuel]; [cbn in Hfuel; lia |].
    cbn [markDuplicates fold_left].
    assert (Hmark :
      (if _KXKextGetVersion (_KXKextSetStartAddress k a heap) k =? v
       then _KXKextSetIsLoaded k true (_KXKextSetStartAddress k a heap)
       else _KXKextSetOtherVersionIsLoaded k true
              (_KXKextSetStartAddress k a heap))
      = alter (markKext a v) k heap).
    { unfold _KXKextGetVersion, _KXKextSetStartAddress, _KXKextSetIsLoaded,
        _KXKextSetOtherVersionIsLoaded.
      rewrite lookup_alter_eq, Hk. cbn.
      apply map_eq. intros j. destruct (decide (k = j)) as [-> | Hne].
      - case_match; rewrite !lookup_alter_eq, Hk; cbn; unfold markKext; cbn;
          by case_match.
      - case_match; by rewrite !lookup_alter_ne. }
    rewrite Hmark.
    assert (Hnext : KXKextGetDuplicateVersionKext
                      (alter (markKext a v) k heap) k
                    = duplicateVersionKext x).
    { unfold KXKextGetDuplicateVersionKext. rewrite lookup_alter_eq, Hk. cbn.
      symmetry. apply markKext_links. }
    rewrite Hnext. apply IH; [| cbn in Hfuel; lia].
    eapply linkChain_heap_rel; [| exact Hdl].
    apply heap_rel_alter; [by intros ? | intros y; apply markKext_links].
Qed.

Lemma markChain_spec (a v : Z) (ll : list (list KXKextRef)) :
  ∀ (heap : gmap nat KXKext) (o : option KXKextRef) (fuel : nat),
    kextTree heap o ll → (length (concat ll) ≤ fuel)%nat →
    markChain fuel o a v heap
    = fold_left (fun h j => alter (markKext a v) j h) (concat ll) heap.
Proof.
  induction ll as [| dl ll IH]; intros heap o fuel H Hfuel.
  - inversion H; subst. by destruct fuel.
  - inversion H as [| k x dl' ll' Hk Hdl Hll]; subst.
    assert (Hdl1 : (1 ≤ length dl)%nat) by (inversion Hdl; cbn; lia).
    cbn [concat] in *. rewrite length_app in Hfuel.
    destruct fuel as [| fuel]; [lia |].
    cbn [markChain]. rewrite fold_left_app.
    rewrite (markDuplicates_spec a v dl heap (Some k)) by (done || lia).
    set (heap' := fold_left _ dl heap).
    assert (Hrel : heap_rel same_links heap heap')
      by apply fold_left_markKext_links.
    assert (Hnext : KXKextGetPriorVersionKext heap' k = priorVersionKext x).
    { unfold KXKextGetPriorVersionKext.
      destruct (heap_rel_lookup same_links _ _ _ _ Hrel Hk) as (y & -> & [E _]).
      by cbn. }
    rewrite Hnext. apply IH; [| lia].
    by eapply kextTree_heap_rel.
Qed.

#[local] Instance same_shape_refl : Reflexive same_shape.
Proof. by intros x. Qed.
#[local] Instance same_shape_trans : Transitive same_shape.
Proof. intros x y z [? ?] [? ?]. split; by etrans. Qed.

Lemma same_shape_sym (x y : KXKext) : same_shape x y → same_shape y x.
Proof.
  intros [[? ?] (? & ? & ? & ? & ? & ? & ?)]. by repeat split.
Qed.

Lemma kextTree_lookup (heap : gmap nat KXKext) (o : option KXKextRef)
    (ll : list (list KXKextRef)) (k : KXKextRef) :
  kextTree heap o ll → k ∈ concat ll → is_Some (heap !! k).
Proof.
  intros H. induction H as [| k' x dl ll Hk Hdl Hll IH]; cbn; intros Hin.
  - by apply elem_of_nil in Hin.
  - apply elem_of_app in Hin as [Hin | Hin]; [| by apply IH].
    by eapply linkChain_lookup.
Qed.

Lemma NoDup_length_size (heap : gmap nat KXKext) (l : list nat) :
  NoDup l → (∀ k, k ∈ l → is_Some (heap !! k)) → (length l ≤ size heap)%nat.
Proof.
  intros Hnd Hin.
  assert (Hsub : l ⊆+ (map_to_list heap).*1).
  { apply NoDup_submseteq; [done |].
    intros k Hk. destruct (Hin k Hk) as [x Hx].
    apply list_elem_of_fmap. exists (k, x). split; [done |].
    by apply elem_of_map_to_list. }
  apply submseteq_length in Hsub.
  by rewrite length_fmap, length_map_to_list in Hsub.
Qed.

Lemma memberUnder_heap_rel (w w' : World) (id : string) (k : KXKextRef) :
  heap_rel same_shape (kexts w) (kexts w') →
  candidateKexts w' = candidateKexts w →
  memberUnder w id k ↔ memberUnder w' id k.
Proof.
  intros Hrel Hc.
  assert (Hl : heap_rel same_links (kexts w) (kexts w'))
    by (eapply heap_rel_impl; [| done]; by intros ? ? [? _]).
  assert (Hl' : heap_rel same_links (kexts w') (kexts w)).
  { apply heap_rel_sym; [| done]. by intros ? ? [? ?]. }
  split; intros (head & ll & Hh & Ht & Hin); exists head, ll.
  - rewrite Hc. split; [done |]. split; [by eapply kextTree_heap_rel | done].
  - rewrite <- Hc. split; [done |].
    split; [by eapply kextTree_heap_rel | done].
Qed.

Lemma candidatesWellFormed_heap_rel (w w' : World) :
  heap_rel same_shape (kexts w) (kexts w') →
  candidateKexts w' = candidateKexts w →
  repositoryList w' = repositoryList w →
  candidatesWellFormed w → candidatesWellFormed w'.
Proof.
  intros Hrel Hc Hr Hwf id head Hh. rewrite Hc in Hh.
  destruct (Hwf id head Hh) as (ll & Ht & Hnd & Hall).
  exists ll. split; [| split; [done |]].
  - eapply kextTree_heap_rel; [| done].
    eapply heap_rel_impl; [| done]. by intros ? ? [? _].
  - intros k Hin. destruct (Hall k Hin) as [Hid Hrepo].
    assert (Hs : heap_rel same_static (kexts w) (kexts w'))
      by (eapply heap_rel_impl; [| done]; by intros ? ? [_ ?]).
    destruct (heap_rel_static_getters _ _ k Hs) as (-> & _).
    split; [done |]. unfold allKexts. by rewrite Hr.
Qed.

(** One entry of the module table: the kexts under its name are marked, the
    others are left as they are. *)
Lemma markChain_candidates (w : World) (name : string) (a v : Z) :
  candidatesWellFormed w →
  let heap' :=
    markChain (enoughFuel (kexts w)) (candidateKexts w !! name) a v (kexts w) in
  heap_rel same_shape (kexts w) heap'
  ∧ ∀ k x, kexts w !! k = Some x →
      (memberUnder w name k ∧ heap' !! k = Some (markKext a v x))
      ∨ (¬ memberUnder w name k ∧ heap' !! k = Some x).
Proof.
  intros Hwf heap'. subst heap'.
  destruct (candidateKexts w !! name) as [head |] eqn:Hh.
  - destruct (Hwf name head Hh) as (ll & Ht & Hnd & Hall).
    rewrite (markChain_spec a v ll) by
      (done || (unfold enoughFuel;
                pose proof (NoDup_length_size (kexts w) (concat ll) Hnd
                              (fun k => kextTree_lookup _ _ _ k Ht)); lia)).
    split.
    + apply heap_rel_fold_left; [apply _ ..|]. intros h j.
      apply heap_rel_alter; [apply _ |]. intros y.
      split; [apply markKext_links | apply markKext_static].
    + intros k x Hk.
      rewrite lookup_fold_left_alter by apply markKext_idem. rewrite Hk.
      destruct (decide (k ∈ concat ll)) as [Hin | Hnin]; cbn.
      * left. split; [by exists head, ll | done].
      * right. split; [| done]. intros (head' & ll' & Hh' & Ht' & Hin').
        rewrite Hh in Hh'. injection Hh' as <-.
        by rewrite (kextTree_functional _ _ _ _ Ht Ht') in Hnin.
  - assert (E : markChain (enoughFuel (kexts w)) None a v (kexts w) = kexts w)
      by done.
    rewrite E. split; [apply heap_rel_refl; apply _ |].
    intros k x Hk. right. split; [| done].
    intros (head & ll & Hh' & _). by rewrite Hh in Hh'.
Qed.

Lemma markKext_flags (a v : Z) (x : KXKext) :
  (isLoaded (markKext a v x) = true ↔ isLoaded x = true ∨ v = version x)
  ∧ (otherVersionIsLoaded (markKext a v x) = true
     ↔ otherVersionIsLoaded x = true ∨ v ≠ version x).
Proof.
  unfold markKext. cbn. destruct (Z.eqb_spec (version x) v) as [E | E]; cbn.
    - split; [split; [intros _; by right | done] |].
    split; [by left | intros [? | ?]; [done | congruence]].
  - split; [| split; [intros _; by right | done]].
    split; [by left | intros [? | ?]; [done | congruence]].
Qed.

Section loaded_kexts.
Context (VERS_parse_string : string → Z).

Lemma KXKextManagerGetKextWithIdentifier_fresh (w : World) (id : string) :
  needsClearRelationships w = false →
  needsCalculateRelationships w = false →
  KXKextManagerGetKextWithIdentifier w id = (candidateKexts w !! id, w).
Proof.
  intros Hc Hn.
  unfold KXKextManagerGetKextWithIdentifier,
    __KXKextManagerGetKextWithIdentifierAndVersionNumber.
  by rewrite Hc, Hn.
Qed.

Lemma checkLoadedModules_spec (mods : list kmod_info) :
  ∀ w : World,
    needsClearRelationships w = false →
    needsCalculateRelationships w = false →
    candidatesWellFormed w →
        let w' := checkLoadedModules VERS_parse_string mods w in
    heap_rel same_shape (kexts w) (kexts w')
    ∧ ∀ k x, kexts w !! k = Some x →
      ∃ x', kexts w' !! k = Some x'
        ∧ (isLoaded x' = true
           ↔ isLoaded x = true
             ∨ ∃ m, m ∈ readModules VERS_parse_string mods
                    ∧ memberUnder w (kmod_name m) k
                    ∧ VERS_parse_string (kmod_version m) = version x)
        ∧ (otherVersionIsLoaded x' = true
           ↔ otherVersionIsLoaded x = true
             ∨ ∃ m, m ∈ readModules VERS_parse_string mods
                    ∧ memberUnder w (kmod_name m) k
                    ∧ VERS_parse_string (kmod_version m) ≠ version x).
Proof.
    induction mods as [| m mods IH]; intros w Hc Hn Hwf w'; subst w';
    cbn [checkLoadedModules readModules].
  - split; [apply heap_rel_refl; apply _ |]. intros k x Hk.
    exists x. split; [done |].
    split; (split; [by left | intros [? | (m & Hm & _)]; [done |]]);
      by apply elem_of_nil in Hm.
  - destruct (VERS_parse_string (kmod_version m) <? 0); [by apply IH |].
    rewrite KXKextManagerGetKextWithIdentifier_fresh by done.
    set (v := VERS_parse_string (kmod_version m)).
    destruct (markChain_candidates w (kmod_name m) (kmod_address m) v Hwf)
      as [Hrel Hstep].
        set (w1 := set_kexts _ w).
    assert (Hwf1 : candidatesWellFormed w1)
      by (by eapply candidatesWellFormed_heap_rel).
    split.
    { destruct (kmod_next m =? 0); [done |].
      eapply heap_rel_trans; [apply _ | exact Hrel |].
      by apply (IH w1 Hc Hn Hwf1). }
    intros k x Hk.
    assert (Hk1 : ∃ x1, kexts w1 !! k = Some x1
              ∧ version x1 = version x
              ∧ (isLoaded x1 = true
                 ↔ isLoaded x = true
                   ∨ memberUnder w (kmod_name m) k ∧ v = version x)
              ∧ (otherVersionIsLoaded x1 = true
                 ↔ otherVersionIsLoaded x = true
                   ∨ memberUnder w (kmod_name m) k ∧ v ≠ version x)).
    { destruct (Hstep k x Hk) as [[Hmem Hx1] | [Hmem Hx1]].
      - exists (markKext (kmod_address m) v x). split; [done |].
        destruct (markKext_flags (kmod_address m) v x) as [Hl Ho].
        split; [symmetry; apply markKext_static |].
        rewrite Hl, Ho. tauto.
      - exists x. split; [done |]. tauto. }
    destruct Hk1 as (x1 & Hx1 & Hv1 & Hl1 & Ho1).
    destruct (kmod_next m =? 0).
    + exists x1. split; [done |]. rewrite Hl1, Ho1.
      split; (split; [intros [? | [? ?]]; [by left |];
                       right; exists m; split; [apply list_elem_of_here | done]
                     | intros [? | (m' & Hm' & ? & ?)]; [by left |];
                       apply list_elem_of_singleton in Hm' as ->; by right]).
        + destruct (IH w1 Hc Hn Hwf1) as [_ IHk].
      destruct (IHk k x1 Hx1) as (x' & Hx' & Hl & Ho).
      exists x'. split; [done |]. rewrite Hl, Ho, Hl1, Ho1, Hv1.
      assert (Hmem : ∀ id, memberUnder w1 id k ↔ memberUnder w id k)
        by (intros id; symmetry; by apply memberUnder_heap_rel).
      split; (split;
        [ intros [[? | [? ?]] | (m' & Hm' & Hu & ?)];
            [ by left
            | right; exists m; split; [apply list_elem_of_here | done]
            | right; exists m'; split; [by apply list_elem_of_further |];
              split; [by apply Hmem | done] ]
        | intros [? | (m' & Hm' & Hu & ?)]; [by left; left |];
          apply elem_of_cons in Hm' as [-> | Hm'];
            [ left; by right
            | right; exists m'; split; [done |];
              split; [by apply Hmem | done] ] ]).
Qed.
Lemma markKextsNotLoaded_shape (rs : list KXKextRepository)
    (heap : gmap nat KXKext) :
  heap_rel same_shape heap
    (fold_left (fun heap r => _KXKextRepositoryMarkKextsNotLoaded r heap)
       rs heap).
Proof.
  apply heap_rel_fold_left; [apply _ ..|]. intros h r.
  by apply heap_rel_foldr_alter; [apply _ ..|].
Qed.

Lemma markKextsNotLoaded_repository (r : KXKextRepository)
    (heap : gmap nat KXKext) (k : KXKextRef) (x' : KXKext) :
  k ∈ repoKexts r
  ∨ (∀ x, heap !! k = Some x →
       isLoaded x = false ∧ otherVersionIsLoaded x = false) →
  _KXKextRepositoryMarkKextsNotLoaded r heap !! k = Some x' →
  isLoaded x' = false ∧ otherVersionIsLoaded x' = false.
Proof.
  unfold _KXKextRepositoryMarkKextsNotLoaded.
  generalize (repoKexts r). intros l. revert x'.
  induction l as [| j l IH]; intros x' Hin; cbn.
  - destruct Hin as [Hin | Hheap]; [by apply elem_of_nil in Hin | by apply Hheap].
  - destruct (decide (j = k)) as [-> | Hne].
    + rewrite lookup_alter_eq. destruct (foldr _ heap l !! k); [| done].
      by intros [= <-].
    + rewrite lookup_alter_ne by done. apply IH.
      destruct Hin as [Hin | Hheap]; [| by right].
      apply elem_of_cons in Hin as [-> | Hin]; [done | by left].
Qed.

Lemma markKextsNotLoaded_all (rs : list KXKextRepository) :
  ∀ (heap : gmap nat KXKext) (k : KXKextRef) (x' : KXKext),
    k ∈ flat_map repoKexts rs
    ∨ (∀ x, heap !! k = Some x →
         isLoaded x = false ∧ otherVersionIsLoaded x = false) →
    fold_left (fun heap r => _KXKextRepositoryMarkKextsNotLoaded r heap)
      rs heap !! k = Some x' →
    isLoaded x' = false ∧ otherVersionIsLoaded x' = false.
Proof.
  induction rs as [| r rs IH]; intros heap k x' Hin; cbn.
  - destruct Hin as [Hin | Hheap]; [by apply elem_of_nil in Hin | by apply Hheap].
  - apply IH. destruct Hin as [Hin | Hheap].
    + cbn in Hin. apply elem_of_app in Hin as [Hin | Hin]; [| by left].
      right. intros x. apply markKextsNotLoaded_repository. by left.
    + right. intros x. apply markKextsNotLoaded_repository. by right.
Qed.


(** C9, the claim as stated, fails: kext 7, a bad kext of the repository, has
    the identifier and the version of the one entry of the module table, and
    is not marked loaded when [KXKextManagerCheckForLoadedKexts] returns. *)
Lemma C9_bad_kext_not_marked :
  (KXKextManagerCheckForLoadedKexts parseExampleVersion (Some version4Loaded)
     candidateAndBadKext).1 = kKXKextManagerErrorNone
  ∧ ¬ loadedFlagsMatchTable parseExampleVersion version4Loaded
        candidateAndBadKext
        (KXKextManagerCheckForLoadedKexts parseExampleVersion
           (Some version4Loaded) candidateAndBadKext).2.
Proof.
  split; [reflexivity |]. intros H.
  destruct (H 7%nat) as [[_ Hloaded] _].
  { vm_compute. right. left. }
  assert (Hm : ∃ m, m ∈ version4Loaded
             ∧ kmod_name m
               = KXKextGetBundleIdentifier (kexts candidateAndBadKext) 7
             ∧ parseExampleVersion (kmod_version m)
               = _KXKextGetVersion (kexts candidateAndBadKext) 7).
  { eexists. split; [apply list_elem_of_here |]. split; reflexivity. }
  specialize (Hloaded Hm). vm_compute in Hloaded. discriminate.
Qed.
End loaded_kexts.


Lemma C10_compatible_with_version_string_witness :
  (KXKextManagerGetKextWithIdentifierCompatibleWithVersionString
     parseExampleVersion compatibleFrom3 version4Marked "com.example.driver"
     (Some "3")).1 = Some 4%nat
  ∧ (KXKextManagerGetKextWithIdentifierCompatibleWithVersionString
       parseExampleVersion compatibleFrom3 chain54321 "com.example.driver"
       (Some "3")).1 = Some 5%nat
  ∧ KXKextManagerGetKextWithIdentifierCompatibleWithVersionString
      parseExampleVersion compatibleFrom3 chain54321 "com.example.driver"
      (Some "3.x") = (None, chain54321).
Proof.
  split; [| split].
  - pose proof (C10_compatible_with_version_string parseExampleVersion
                  compatibleFrom3 version4Marked "com.example.driver" "3")
      as [_ H].
    destruct (H eq_refl ltac:(vm_compute; discriminate)) as [_ Hl].
    destruct (Hl [5; 4; 3; 2; 1]%nat) as [Hfound _].
    { repeat (eapply linkChain_cons; [vm_compute; reflexivity |]; cbn).
      apply linkChain_nil. }
    apply Hfound. vm_compute. reflexivity.
  - pose proof (C10_compatible_with_version_string parseExampleVersion
                  compatibleFrom3 chain54321 "com.example.driver" "3")
      as [_ H].
    destruct (H eq_refl ltac:(vm_compute; discriminate)) as [_ Hl].
    destruct (Hl [5; 4; 3; 2; 1]%nat) as (_ & Hfirst & _).
    { repeat (eapply linkChain_cons; [vm_compute; reflexivity |]; cbn).
      apply linkChain_nil. }
    rewrite Hfirst; vm_compute; reflexivity.
  - exact (proj1 (C10_compatible_with_version_string parseExampleVersion
                    compatibleFrom3 chain54321 "com.example.driver" "3.x")
             (or_intror eq_refl)).
Defined.

(** * Further properties of the manager *)

(** ** Error messages *)

(** X1.  Two error codes to which [KXKextManagerErrorStringForError] gives
    the same message are the same code, unless the message is the fallback
    "unknown error".  The fallback is what
    [kKXKextManagerErrorLoadedVersionDiffers] and
    [kKXKextManagerErrorDependencyLoadedVersionDiffers] read as: the
    function has no case for them. *)
Theorem errorString_distinct (e1 e2 : KXKextManagerError) :
  (e1 = kKXKextManagerErrorLoadedVersionDiffers
   ∨ e1 = kKXKextManagerErrorDependencyLoadedVersionDiffers →
   KXKextManagerErrorStringForError e1 = "unknown error")
  ∧ (KXKextManagerErrorStringForError e1 = KXKextManagerErrorStringForError e2 →
     e1 = e2 ∨ KXKextManagerErrorStringForError e1 = "unknown error").
Proof.
  split.
  - by intros [-> | ->].
  - destruct e1; destruct e2; cbn; intros H;
      first [by left | by right | discriminate H].
Qed.

Lemma errorString_distinct_witness :
  KXKextManagerErrorStringForError kKXKextManagerErrorLoadedVersionDiffers
  = "unknown error".
Proof.
  apply (errorString_distinct kKXKextManagerErrorLoadedVersionDiffers
           kKXKextManagerErrorNone).
  left. reflexivity.
Defined.

(** ** Rebuilding leaves the relationships up to date *)

Lemma sameSettings_refl (w : World) : sameSettings w w.
Proof. by repeat split. Qed.

Lemma sameSettings_trans (w1 w2 w3 : World) :
  sameSettings w1 w2 → sameSettings w2 w3 → sameSettings w1 w3.
Proof.
  intros (? & ? & ? & ? & ?) (? & ? & ? & ? & ?).
  repeat split; congruence.
Qed.

Lemma sameSettings_fold_left {A} (g : World → A → World) (l : list A)
    (w : World) :
  (∀ v a, sameSettings v (g v a)) → sameSettings w (fold_left g l w).
Proof.
  intros Hg. revert w. induction l as [| a l IH]; intros w; cbn.
  - apply sameSettings_refl.
  - eapply sameSettings_trans; [apply Hg | apply IH].
Qed.

Lemma calculateKext_fields (w : World) (k : KXKextRef) :
  let w' := calculateKext w k in
  sameSettings w w'
  ∧ needsClearRelationships w' = needsClearRelationships w
  ∧ needsCalculateRelationships w' = needsCalculateRelationships w
  ∧ kextsWithMissingDependencies w' = kextsWithMissingDependencies w.
Proof. unfold calculateKext. by repeat case_match. Qed.

Lemma calculate_fold_fields (ks : list KXKextRef) (w : World) :
  let w' := fold_left calculateKext ks w in
  sameSettings w w'
  ∧ needsClearRelationships w' = needsClearRelationships w
  ∧ needsCalculateRelationships w' = needsCalculateRelationships w
  ∧ kextsWithMissingDependencies w' = kextsWithMissingDependencies w.
Proof.
  revert w. induction ks as [| k ks IH]; intros w; cbn.
  - split; [apply sameSettings_refl | done].
  - destruct (IH (calculateKext w k)) as (Hs & -> & -> & ->).
    destruct (calculateKext_fields w k) as (Hs' & -> & -> & ->).
    split; [by eapply sameSettings_trans | done].
Qed.

Lemma calculate_repositories_fields (rs : list KXKextRepository) (w : World) :
  let w' :=
    fold_left
      (fun w r => fold_left calculateKext (repoCandidateKexts r) w) rs w in
  sameSettings w w'
  ∧ needsClearRelationships w' = needsClearRelationships w
  ∧ needsCalculateRelationships w' = needsCalculateRelationships w
  ∧ kextsWithMissingDependencies w' = kextsWithMissingDependencies w.
Proof.
  revert w. induction rs as [| r rs IH]; intros w; cbn.
  - split; [apply sameSettings_refl | done].
  - destruct (IH (fold_left calculateKext (repoCandidateKexts r) w))
      as (Hs & -> & -> & ->).
    destruct (calculate_fold_fields (repoCandidateKexts r) w)
      as (Hs' & -> & -> & ->).
    split; [by eapply sameSettings_trans | done].
Qed.

Lemma KXKextManagerCalculateVersionRelationships_fields (w : World) :
  let w' := KXKextManagerCalculateVersionRelationships w in
  sameSettings w w'
  ∧ needsClearRelationships w' = false
  ∧ needsCalculateRelationships w' = false
  ∧ kextsWithMissingDependencies w' = [].
Proof.
  unfold KXKextManagerCalculateVersionRelationships. cbv zeta.
  set (v := __KXKextManagerClearDependencyRelationships _).
  destruct (calculate_repositories_fields (repositoryList v) v)
    as (Hs & Hc & _ & Hm).
  unfold set_needsCalculateRelationships.
  cbn [needsClearRelationships needsCalculateRelationships
       kextsWithMissingDependencies].
  rewrite Hc, Hm. split; [| done].
  destruct Hs as (? & ? & ? & ? & ?). by repeat split.
Qed.

Lemma relationshipsChecked_fields (w : World) :
  let w' := relationshipsChecked w in
  sameSettings w w'
  ∧ needsClearRelationships w' = false
  ∧ needsCalculateRelationships w' = false.
Proof.
  unfold relationshipsChecked. cbv zeta.
  destruct (needsClearRelationships w) eqn:Hc.
  - cbn [needsCalculateRelationships __KXKextManagerClearRelationships
         set_needsCalculateRelationships].
    destruct (KXKextManagerCalculateVersionRelationships_fields
                (__KXKextManagerClearRelationships w)) as (Hs & ? & ? & _).
    split; [| done]. eapply sameSettings_trans; [| exact Hs]. by repeat split.
  - destruct (needsCalculateRelationships w) eqn:Hn; [| by repeat split].
    destruct (KXKextManagerCalculateVersionRelationships_fields w)
      as (Hs & ? & ? & _).
    by split.
Qed.

Lemma relationshipsChecked_fresh (w : World) :
  needsClearRelationships w = false →
  needsCalculateRelationships w = false →
  relationshipsChecked w = w.
Proof. intros Hc Hn. unfold relationshipsChecked. by rewrite Hc, Hn. Qed.

(** X2.  A lookup by identifier and version leaves the relationships up to
    date, without touching the repositories, the disable count or the mode
    flags; asked again, it answers the same and changes nothing: the second
    lookup does not rebuild. *)
Theorem lookup_leaves_relationships_fresh (w : World) (identifier : string)
    (versionNumber : option Z) :
  let r :=
    __KXKextManagerGetKextWithIdentifierAndVersionNumber w identifier
      versionNumber in
  needsClearRelationships r.2 = false
  ∧ needsCalculateRelationships r.2 = false
  ∧ sameSettings w r.2
  ∧ __KXKextManagerGetKextWithIdentifierAndVersionNumber r.2 identifier
      versionNumber = r.
Proof.
  intros r. subst r.
  unfold __KXKextManagerGetKextWithIdentifierAndVersionNumber.
  fold (relationshipsChecked w).
  destruct (relationshipsChecked_fields w) as (Hs & Hc & Hn).
  assert (Hw : ∀ o : option KXKextRef,
            (o, relationshipsChecked w).2 = relationshipsChecked w) by done.
  destruct versionNumber as [v |]; rewrite Hw;
    (split; [done | split; [done | split; [done |]]]);
    fold (relationshipsChecked (relationshipsChecked w));
    by rewrite (relationshipsChecked_fresh _ Hc Hn).
Qed.

(** ** Lookups along the chain of an identifier *)

Lemma findVersion_spec (heap : gmap nat KXKext) (v : Z)
    (o : option KXKextRef) (l : list KXKextRef) :
  priorChain heap o l →
  ∀ fuel : nat,
    (length l ≤ fuel)%nat →
    findVersion fuel heap o v
    = find (fun k => _KXKextGetVersion heap k =? v) l.
Proof.
  intros H. induction H as [| k x l Hk Hl IH]; intros fuel Hfuel.
  - by destruct fuel.
  - destruct fuel as [| fuel]; [cbn in Hfuel; lia |].
    cbn [findVersion find].
    destruct (_KXKextGetVersion heap k =? v); [done |].
    assert (Hnext : KXKextGetPriorVersionKext heap k = priorVersionKext x)
      by (unfold KXKextGetPriorVersionKext; by rewrite Hk).
    rewrite Hnext. apply IH. cbn in Hfuel. lia.
Qed.

(** X3.  [__KXKextManagerGetKextWithIdentifierAndVersionNumber] with a
    version: once the relationships are checked, the result is the first
    kext of the prior-version chain of the identifier whose version is
    exactly the one asked for.  So a kext that is returned is on the chain
    and has that version, and null is returned exactly when no kext of the
    chain has it; duplicates hanging off the chain are not looked at. *)
Theorem lookup_exact_version (w : World) (identifier : string) (v : Z)
    (l : list KXKextRef) :
  let w' := relationshipsChecked w in
  let r :=
    __KXKextManagerGetKextWithIdentifierAndVersionNumber w identifier
      (Some v) in
  chainOf w' identifier l →
  r.2 = w'
  ∧ r.1 = find (fun k => _KXKextGetVersion (kexts w') k =? v) l
  ∧ (∀ k, r.1 = Some k → k ∈ l ∧ _KXKextGetVersion (kexts w') k = v)
  ∧ (r.1 = None ↔ ∀ k, k ∈ l → _KXKextGetVersion (kexts w') k ≠ v).
Proof.
  intros w' r Hl. subst r.
  unfold __KXKextManagerGetKextWithIdentifierAndVersionNumber.
  fold (relationshipsChecked w). fold w'. cbn [fst snd].
  rewrite (findVersion_spec _ _ _ _ Hl)
    by (apply linkChain_length in Hl; unfold enoughFuel; lia).
  split; [done | split; [done | split]].
  - intros k Hf. apply find_some in Hf as [Hin Hv].
    split; [by apply list_elem_of_In | by apply Z.eqb_eq].
  - split.
        + intros Hn k Hin Hv. apply list_elem_of_In in Hin.
      pose proof (find_none _ _ Hn k Hin) as Hf. cbn beta in Hf.
      apply Z.eqb_neq in Hf. done.
    + intros Hall. apply find_none_all. intros k Hin.
      apply Z.eqb_neq. by apply Hall.
Qed.

Lemma findLoaded_spec (heap : gmap nat KXKext) (o found : option KXKextRef)
    (l : list KXKextRef) :
  priorChain heap o l →
  ∀ fuel : nat,
    (length l ≤ fuel)%nat →
    findLoaded fuel heap o found
    = match find (KXKextIsLoaded heap) l with
      | Some k => Some k
      | None => found
      end.
Proof.
  intros H. induction H as [| k x l Hk Hl IH]; intros fuel Hfuel.
  - by destruct fuel.
  - destruct fuel as [| fuel]; [cbn in Hfuel; lia |].
    cbn [findLoaded find].
    destruct (KXKextIsLoaded heap k); [done |].
    assert (Hnext : KXKextGetPriorVersionKext heap k = priorVersionKext x)
      by (unfold KXKextGetPriorVersionKext; by rewrite Hk).
    rewrite Hnext. apply IH. cbn in Hfuel. lia.
Qed.

Section loaded_or_latest_lookup.
Context (VERS_parse_string : string → Z)
  (kmod_get_info : option (list kmod_info)).

(** X4.  [KXKextManagerGetLoadedOrLatestKextWithIdentifier] checks the
    relationships, then queries the kernel, whose failure it ignores.  In
    the world that results, it returns the first kext of the prior-version
    chain of the identifier that is marked loaded, and the head of the chain
    when none is; so it returns null only when the identifier has no entry
    in the candidate set. *)
Theorem loaded_or_latest (w : World) (identifier : string)
    (l : list KXKextRef) :
  let w' :=
    (KXKextManagerCheckForLoadedKexts VERS_parse_string kmod_get_info
       (relationshipsChecked w)).2 in
  let r :=
    KXKextManagerGetLoadedOrLatestKextWithIdentifier VERS_parse_string
      kmod_get_info w identifier in
  chainOf w' identifier l →
  r.2 = w'
  ∧ r.1 = match find (KXKextIsLoaded (kexts w')) l with
          | Some k => Some k
          | None => candidateKexts w' !! identifier
          end
  ∧ (r.1 = None ↔ candidateKexts w' !! identifier = None).
Proof.
  intros w' r Hl. subst r.
  unfold KXKextManagerGetLoadedOrLatestKextWithIdentifier.
  fold (relationshipsChecked w). fold w'. cbn [fst snd].
  rewrite (findLoaded_spec _ _ _ _ Hl)
    by (apply linkChain_length in Hl; unfold enoughFuel; lia).
  split; [done | split; [done |]].
  unfold chainOf in Hl.
  destruct (candidateKexts w' !! identifier) as [head |] eqn:Hh.
  - split; [| done]. by destruct (find _ l).
  - inversion Hl; subst. by cbn.
Qed.
End loaded_or_latest_lookup.

(** ** Listing the kexts *)

Lemma copyDuplicates_spec (heap : gmap nat KXKext) (k : KXKextRef)
    (dl : list KXKextRef) :
  duplicateChain heap (Some k) dl →
  ∀ fuel : nat, (length dl ≤ fuel)%nat →
    k :: copyDuplicates fuel heap k = dl.
Proof.
  remember (Some k) as o eqn:Ho. intros H. revert k Ho.
  induction H as [| k' x l Hk Hl IH]; intros k Ho fuel Hfuel; [done |].
  injection Ho as ->. f_equal.
  destruct fuel as [| fuel]; [cbn in Hfuel; lia |].
  cbn [copyDuplicates]. unfold KXKextGetDuplicateVersionKext.
  rewrite Hk. cbn.
  destruct (duplicateVersionKext x) as [d |] eqn:Hd.
  - apply IH; [done | cbn in Hfuel; lia].
  - by inversion Hl.
Qed.

Lemma kextTree_head (heap : gmap nat KXKext) (k : KXKextRef)
    (dl : list KXKextRef) (ll : list (list KXKextRef)) :
  kextTree heap (Some k) (dl :: ll) → ∃ tl, dl = k :: tl.
Proof.
  intros H. inversion H as [| k' x dl' ll' Hk Hdl Hll]; subst.
  inversion Hdl; subst. by eexists.
Qed.

Lemma copyVersions_spec (heap : gmap nat KXKext) (o : option KXKextRef)
    (ll : list (list KXKextRef)) :
  kextTree heap o ll →
  ∀ fuel : nat, (length (concat ll) ≤ fuel)%nat →
    copyVersions fuel heap o = concat ll.
Proof.
  intros H. induction H as [| k x dl ll Hk Hdl Hll IH]; intros fuel Hfuel.
  - by destruct fuel.
  - cbn [concat] in *. rewrite length_app in Hfuel.
    assert (Hdl1 : (1 ≤ length dl)%nat) by (inversion Hdl; cbn; lia).
    destruct fuel as [| fuel]; [lia |].
    cbn [copyVersions]. rewrite app_comm_cons.
    rewrite (copyDuplicates_spec heap k dl Hdl) by lia.
    f_equal. unfold KXKextGetPriorVersionKext. rewrite Hk. cbn.
    apply IH. lia.
Qed.

Lemma copyPriorVersions_spec (heap : gmap nat KXKext) (k : KXKextRef)
    (x : KXKext) (ll : list (list KXKextRef)) :
  heap !! k = Some x →
  kextTree heap (priorVersionKext x) ll →
  ∀ fuel : nat, (length (concat ll) ≤ fuel)%nat →
    copyPriorVersions fuel heap k = concat ll.
Proof.
    intros Hk H. revert k x Hk H.
  induction ll as [| dl ll IH]; intros k x Hk Ht fuel Hfuel.
  - inversion Ht as [Hnone |]; subst.
    destruct fuel; cbn; [done |].
    unfold KXKextGetPriorVersionKext. rewrite Hk. cbn. by rewrite <- Hnone.
  - inversion Ht as [| k' x' dl' ll' Hk' Hdl Hll Hsome]; subst.
    cbn [concat] in *. rewrite length_app in Hfuel.
    assert (Hdl1 : (1 ≤ length dl)%nat) by (inversion Hdl; cbn; lia).
    destruct fuel as [| fuel]; [lia |].
    cbn [copyPriorVersions]. unfold KXKextGetPriorVersionKext at 1.
            rewrite Hk. cbn [mbind option_bind]. rewrite <- Hsome. cbv beta iota.
    rewrite app_comm_cons.
    rewrite (copyDuplicates_spec heap k' dl Hdl) by lia.
    f_equal. eapply IH; [done | done | lia].
Qed.

Lemma kextTree_fuel (heap : gmap nat KXKext) (o : option KXKextRef)
    (ll : list (list KXKextRef)) :
  kextTree heap o ll → NoDup (concat ll) →
  (length (concat ll) ≤ enoughFuel heap)%nat.
Proof.
  intros Ht Hnd. unfold enoughFuel.
  pose proof (NoDup_length_size heap (concat ll) Hnd
                (fun k => kextTree_lookup _ _ _ k Ht)).
  lia.
Qed.

(** X5.  [KXKextManagerCopyKextsWithIdentifier] checks the relationships and
    returns the whole tree of the identifier: every version from the newest
    to the oldest, each followed by its duplicates; the empty array when the
    identifier has no entry. *)
Theorem copyKextsWithIdentifier_tree (w : World) (identifier : string)
    (ll : list (list KXKextRef)) :
  let w' := relationshipsChecked w in
  treeOf w' identifier ll →
  NoDup (concat ll) →
  KXKextManagerCopyKextsWithIdentifier w identifier = (concat ll, w')
  ∧ (candidateKexts w' !! identifier = None →
     (KXKextManagerCopyKextsWithIdentifier w identifier).1 = []).
Proof.
  intros w' Ht Hnd.
  unfold KXKextManagerCopyKextsWithIdentifier,
    KXKextManagerGetKextWithIdentifier,
    __KXKextManagerGetKextWithIdentifierAndVersionNumber.
  fold (relationshipsChecked w). fold w'.
  rewrite (copyVersions_spec _ _ _ Ht) by (by eapply kextTree_fuel).
  split; [done |]. intros Hnone. unfold treeOf in Ht. rewrite Hnone in Ht.
  by inversion Ht.
Qed.

(** X6.  [KXKextManagerCopyAllKexts] reads the candidate set as it stands;
    for an entry whose head carries a tree [dl :: ll], what it lists is the
    head followed by the lower versions with their duplicates: the
    duplicates of the head itself ([dl] without the head) are not listed.
    The bad kexts of all repositories come last. *)
Theorem copyAllKexts_lists (w : World) :
  (∀ id head, candidateKexts w !! id = Some head →
     ∃ dl ll, kextTree (kexts w) (Some head) (dl :: ll)
              ∧ NoDup (concat (dl :: ll))) →
  ∀ k, k ∈ KXKextManagerCopyAllKexts w
       ↔ (∃ id, candidateKexts w !! id = Some k)
         ∨ (∃ id head dl ll,
              candidateKexts w !! id = Some head
              ∧ kextTree (kexts w) (Some head) (dl :: ll)
              ∧ k ∈ concat ll)
         ∨ k ∈ flat_map repoBadKexts (repositoryList w).
Proof.
  intros Hwf k. unfold KXKextManagerCopyAllKexts.
  rewrite elem_of_app.
  assert (Hentry : ∀ id head dl ll,
    candidateKexts w !! id = Some head →
    kextTree (kexts w) (Some head) (dl :: ll) →
    copyPriorVersions (enoughFuel (kexts w)) (kexts w) head = concat ll).
  { intros id head dl ll Hh Ht.
    destruct (Hwf id head Hh) as (dl' & ll' & Ht' & Hnd).
    pose proof (kextTree_functional _ _ _ _ Ht Ht') as E.
    injection E as <- <-.
    inversion Ht as [| k' x dl'' ll'' Hk Hdl Hll]; subst.
    eapply copyPriorVersions_spec; [done | done |].
    pose proof (kextTree_fuel _ _ _ Ht Hnd) as Hfuel.
    cbn [concat] in Hfuel. rewrite length_app in Hfuel. lia. }
  split.
  - intros [Hin | Hin]; [| by right; right].
    apply list_elem_of_In, in_flat_map in Hin as ([id head] & He & Hin).
    apply list_elem_of_In, elem_of_map_to_list in He.
    destruct (Hwf id head He) as (dl & ll & Ht & _).
    cbn [snd] in Hin. rewrite (Hentry id head dl ll He Ht) in Hin.
    destruct Hin as [<- | Hin]; [left; by exists id |].
    right; left. exists id, head, dl, ll. by rewrite list_elem_of_In.
  - intros [(id & Hh) | [(id & head & dl & ll & Hh & Ht & Hin) | Hin]];
      [left | left | by right].
    + apply list_elem_of_In, in_flat_map. exists (id, k).
      split; [by apply list_elem_of_In, elem_of_map_to_list | by left].
    + apply list_elem_of_In, in_flat_map. exists (id, head).
      split; [by apply list_elem_of_In, elem_of_map_to_list |].
      cbn [snd]. rewrite (Hentry id head dl ll Hh Ht).
      right. by apply list_elem_of_In.
Qed.

Lemma chain54321_chain (heap : gmap nat KXKext) :
  heap = kexts chain54321 ∨ heap = kexts version4Marked →
  priorChain heap (Some 5%nat) [5; 4; 3; 2; 1]%nat.
Proof.
  intros [-> | ->];
    repeat (eapply linkChain_cons; [vm_compute; reflexivity |]; cbn);
    apply linkChain_nil.
Qed.

Lemma lookup_exact_version_witness :
  (__KXKextManagerGetKextWithIdentifierAndVersionNumber chain54321
     "com.example.driver" (Some 3)).1 = Some 3%nat.
Proof.
  pose proof (lookup_exact_version chain54321 "com.example.driver" 3
                [5; 4; 3; 2; 1]%nat (chain54321_chain _ (or_introl eq_refl)))
    as (_ & H & _).
  rewrite H. vm_compute. reflexivity.
Defined.

Lemma loaded_or_latest_witness :
  (KXKextManagerGetLoadedOrLatestKextWithIdentifier parseExampleVersion
     (Some version4Loaded) chain54321 "com.example.driver").1 = Some 4%nat
  ∧ (KXKextManagerGetLoadedOrLatestKextWithIdentifier parseExampleVersion
       None chain54321 "com.example.driver").1 = Some 5%nat.
Proof.
  split.
  - pose proof (loaded_or_latest parseExampleVersion (Some version4Loaded)
                  chain54321 "com.example.driver" [5; 4; 3; 2; 1]%nat
                  (chain54321_chain _ (or_intror eq_refl))) as (_ & H & _).
    rewrite H. vm_compute. reflexivity.
  - assert (Hc : chainOf
              (KXKextManagerCheckForLoadedKexts parseExampleVersion None
                 (relationshipsChecked chain54321)).2
              "com.example.driver" [5; 4; 3; 2; 1]%nat).
    { repeat (eapply linkChain_cons; [vm_compute; reflexivity |]; cbn).
      apply linkChain_nil. }
    pose proof (loaded_or_latest parseExampleVersion None chain54321
                  "com.example.driver" [5; 4; 3; 2; 1]%nat Hc) as (_ & H & _).
    rewrite H. vm_compute. reflexivity.
Defined.

Lemma duplicateBelow5_tree :
  kextTree (kexts duplicateBelow5) (Some 5%nat) [[5]; [40; 41]; [3]]%nat.
Proof.
  eapply kextTree_cons; [vm_compute; reflexivity | | cbn].
  { eapply linkChain_cons; [vm_compute; reflexivity | cbn; apply linkChain_nil]. }
  eapply kextTree_cons; [vm_compute; reflexivity | | cbn].
  { eapply linkChain_cons; [vm_compute; reflexivity | cbn].
    eapply linkChain_cons; [vm_compute; reflexivity | cbn; apply linkChain_nil]. }
  eapply kextTree_cons; [vm_compute; reflexivity | | cbn; apply kextTree_nil].
  eapply linkChain_cons; [vm_compute; reflexivity | cbn; apply linkChain_nil].
Qed.

Lemma duplicateAtHead_tree :
  kextTree (kexts duplicateAtHead) (Some 40%nat) [[40; 41]; [3]]%nat.
Proof.
  eapply kextTree_cons; [vm_compute; reflexivity | | cbn].
  { eapply linkChain_cons; [vm_compute; reflexivity | cbn].
    eapply linkChain_cons; [vm_compute; reflexivity | cbn; apply linkChain_nil]. }
  eapply kextTree_cons; [vm_compute; reflexivity | | cbn; apply kextTree_nil].
  eapply linkChain_cons; [vm_compute; reflexivity | cbn; apply linkChain_nil].
Qed.

Lemma copyKextsWithIdentifier_tree_witness :
  KXKextManagerCopyKextsWithIdentifier duplicateBelow5 "com.example.driver"
  = ([5; 40; 41; 3]%nat, duplicateBelow5).
Proof.
  refine (proj1 (copyKextsWithIdentifier_tree duplicateBelow5
                   "com.example.driver" [[5]; [40; 41]; [3]]%nat
                   duplicateBelow5_tree _)).
  cbn. apply NoDup_ListNoDup. repeat constructor; cbn; lia.
Defined.

Lemma copyAllKexts_lists_witness :
  3%nat ∈ KXKextManagerCopyAllKexts duplicateAtHead.
Proof.
  apply copyAllKexts_lists.
  - intros id head H.
    change (candidateKexts duplicateAtHead)
      with ({[ "com.example.driver" := 40%nat ]} : gmap string nat) in H.
    apply lookup_singleton_Some in H as [<- <-].
    exists [40; 41]%nat, [[3%nat]]. split; [apply duplicateAtHead_tree |].
    cbn. apply NoDup_ListNoDup. repeat constructor; cbn; lia.
  - right; left.
    exists "com.example.driver", 40%nat, [40; 41]%nat, [[3%nat]].
    split; [reflexivity |]. split; [apply duplicateAtHead_tree |].
    cbn. apply list_elem_of_here.
Defined.

(** ** What the operations leave alone *)

Lemma steady_refl (w : World) : steady w w.
Proof. split; [apply heap_rel_refl; apply _ | apply sameSettings_refl]. Qed.

Lemma steady_trans (w1 w2 w3 : World) :
  steady w1 w2 → steady w2 w3 → steady w1 w3.
Proof.
  intros [H1 S1] [H2 S2]. split.
  - eapply heap_rel_trans; [apply _ | done ..].
  - by eapply sameSettings_trans.
Qed.

Lemma steady_fold_left {A} (g : World → A → World) (l : list A) (w : World) :
  (∀ v a, steady v (g v a)) → steady w (fold_left g l w).
Proof.
  intros Hg. revert w. induction l as [| a l IH]; intros w; cbn.
  - apply steady_refl.
  - eapply steady_trans; [apply Hg | apply IH].
Qed.

Lemma steady_set_kexts (w : World) (heap : gmap nat KXKext) :
  heap_rel same_static (kexts w) heap → steady w (set_kexts heap w).
Proof. intros H. split; [done | by repeat split]. Qed.

Lemma sameSettings_sameModes (w w' : World) :
  sameSettings w w' → sameModes w w'.
Proof. intros (_ & ? & ? & ? & ?). by repeat split. Qed.

Lemma sameModes_trans (w1 w2 w3 : World) :
  sameModes w1 w2 → sameModes w2 w3 → sameModes w1 w3.
Proof.
  intros (? & ? & ? & ?) (? & ? & ? & ?). repeat split; congruence.
Qed.

Lemma addDuplicateVersionKext_static (fuel : nat) :
  ∀ (aKext newKext : KXKextRef) (heap : gmap nat KXKext),
    heap_rel same_static heap (addDuplicateVersionKext fuel aKext newKext heap).
Proof.
  induction fuel as [| fuel IH]; intros aKext newKext heap; cbn.
  - apply heap_rel_refl; apply _.
  - case_match; [apply IH |]. by apply heap_rel_alter; [apply _ |].
Qed.

Lemma addPriorOrDuplicateVersionKext_static (fuel : nat) :
  ∀ (thisKext : KXKextRef) (lastKext : option KXKextRef)
    (priorKext : KXKextRef) (heap : gmap nat KXKext),
    heap_rel same_static heap
      (addPriorOrDuplicateVersionKext fuel thisKext lastKext priorKext heap).
Proof.
  induction fuel as [| fuel IH]; intros thisKext lastKext priorKext heap;
    cbn [addPriorOrDuplicateVersionKext].
  - apply heap_rel_refl; apply _.
  - repeat case_match; try apply IH.
    + apply addDuplicateVersionKext_static.
    + eapply heap_rel_trans; [apply _ | |];
        by apply heap_rel_alter; [apply _ |].
    + by apply heap_rel_alter; [apply _ |].
    + by apply heap_rel_alter; [apply _ |].
Qed.

Lemma calculateKext_steady (w : World) (k : KXKextRef) :
  steady w (calculateKext w k).
Proof.
  split; [| apply calculateKext_fields].
    unfold calculateKext, _KXKextAddPriorOrDuplicateVersionKext.
  repeat case_match; cbn [kexts set_kexts set_candidateKexts];
    try (apply heap_rel_refl; apply _).
  - by apply heap_rel_alter; [apply _ |].
  - apply addPriorOrDuplicateVersionKext_static.
Qed.

Lemma clear_dependencies_static (rs : list KXKextRepository)
    (h : gmap nat KXKext) :
  heap_rel same_static h
    (fold_left
       (fun heap r => _KXKextRepositoryClearDependencyRelationships r heap)
       rs h).
Proof.
  apply heap_rel_fold_left; [apply _ ..|]. intros h0 r.
  by apply heap_rel_foldr_alter; [apply _ ..|].
Qed.

Lemma __KXKextManagerClearRelationships_steady (w : World) :
  steady w (__KXKextManagerClearRelationships w).
Proof.
  split; [apply clear_repositories_static | by repeat split].
Qed.

Lemma __KXKextManagerClearDependencyRelationships_steady (w : World) :
  steady w (__KXKextManagerClearDependencyRelationships w).
Proof.
  split; [apply clear_dependencies_static | by repeat split].
Qed.

Lemma KXKextManagerCalculateVersionRelationships_steady (w : World) :
  steady w (KXKextManagerCalculateVersionRelationships w).
Proof.
  unfold KXKextManagerCalculateVersionRelationships. cbv zeta.
  eapply steady_trans; [apply __KXKextManagerClearRelationships_steady |].
  eapply steady_trans;
    [apply __KXKextManagerClearDependencyRelationships_steady |].
  set (v := __KXKextManagerClearDependencyRelationships _).
  eapply steady_trans; [| split; [apply heap_rel_refl; apply _
                                 | by repeat split]].
  generalize (repositoryList v). intros rs.
  apply steady_fold_left. intros u r.
  apply steady_fold_left. apply calculateKext_steady.
Qed.

Lemma relationshipsChecked_steady (w : World) :
  steady w (relationshipsChecked w).
Proof.
  unfold relationshipsChecked. cbv zeta.
  destruct (needsClearRelationships w).
  - eapply steady_trans; [apply __KXKextManagerClearRelationships_steady |].
    case_match; [apply KXKextManagerCalculateVersionRelationships_steady
                | apply steady_refl].
  - case_match; [apply KXKextManagerCalculateVersionRelationships_steady
                | apply steady_refl].
Qed.

Lemma markDuplicates_static (fuel : nat) :
  ∀ (o : option KXKextRef) (a v : Z) (heap : gmap nat KXKext),
    heap_rel same_static heap (markDuplicates fuel o a v heap).
Proof.
  induction fuel as [| fuel IH]; intros o a v heap; destruct o as [d |];
    cbn [markDuplicates]; try (apply heap_rel_refl; apply _).
  eapply heap_rel_trans; [apply _ | | apply IH].
  eapply heap_rel_trans; [apply _ | |].
  - by apply (heap_rel_alter _ (set_startAddress a) d).
  - case_match; by apply heap_rel_alter; [apply _ |].
Qed.

Lemma markChain_static (fuel : nat) :
  ∀ (o : option KXKextRef) (a v : Z) (heap : gmap nat KXKext),
    heap_rel same_static heap (markChain fuel o a v heap).
Proof.
  induction fuel as [| fuel IH]; intros o a v heap; destruct o as [k |];
    cbn [markChain]; try (apply heap_rel_refl; apply _).
  eapply heap_rel_trans; [apply _ | apply markDuplicates_static | apply IH].
Qed.

Section steady_operations.
Context (VERS_parse_string : string → Z)
  (resolveDependencies : World → KXKextRef → KXKextManagerError)
  (authenticate : World → KXKextRef → KXKextManagerError)
  (kmod_get_info : option (list kmod_info)).

Lemma checkLoadedModules_steady (mods : list kmod_info) (w : World) :
  steady w (checkLoadedModules VERS_parse_string mods w).
Proof.
  revert w. induction mods as [| m mods IH]; intros w;
    cbn [checkLoadedModules].
  - apply steady_refl.
  - destruct (VERS_parse_string (kmod_version m) <? 0); [apply IH |].
    unfold KXKextManagerGetKextWithIdentifier,
      __KXKextManagerGetKextWithIdentifierAndVersionNumber.
    fold (relationshipsChecked w).
    eapply steady_trans; [apply relationshipsChecked_steady |].
    set (v := relationshipsChecked w).
    eapply steady_trans;
      [apply (steady_set_kexts v), markChain_static |].
    destruct (kmod_next m =? 0); [apply steady_refl | apply IH].
Qed.

Lemma KXKextManagerCheckForLoadedKexts_steady (w : World) :
  steady w
    (KXKextManagerCheckForLoadedKexts VERS_parse_string kmod_get_info w).2.
Proof.
  unfold KXKextManagerCheckForLoadedKexts.
  set (w0 := emit EvKmodGetInfo _).
  assert (H0 : steady w w0).
  { split; [| by repeat split]. cbn.
    eapply heap_rel_impl; [| apply markKextsNotLoaded_shape].
    by intros ? ? [_ ?]. }
  destruct kmod_get_info as [mods |]; cbn [snd]; [| done].
  eapply steady_trans; [exact H0 | apply checkLoadedModules_steady].
Qed.

Lemma KXKextResolveDependencies_steady (w : World) (k : KXKextRef) :
  steady w (KXKextResolveDependencies resolveDependencies w k).2.
Proof.
  split; [| by repeat split]. cbn.
  by apply heap_rel_alter; [apply _ |].
Qed.

Lemma KXKextAuthenticate_steady (w : World) (k : KXKextRef) :
  steady w (KXKextAuthenticate authenticate w k).2.
Proof.
  split; [| by repeat split]. cbn.
  by apply heap_rel_alter; [apply _ |].
Qed.
End steady_operations.

(** ** The events an operation may add *)

Lemma grows_refl (P : Event → Prop) (w : World) : grows P w w.
Proof. exists []. by rewrite app_nil_r. Qed.

Lemma grows_trans (P : Event → Prop) (w1 w2 w3 : World) :
  grows P w1 w2 → grows P w2 w3 → grows P w1 w3.
Proof.
  intros (t1 & E1 & F1) (t2 & E2 & F2). exists (t1 ++ t2).
  split; [by rewrite E2, E1, app_assoc | by apply Forall_app].
Qed.

Lemma grows_impl (P Q : Event → Prop) (w w' : World) :
  (∀ e, P e → Q e) → grows P w w' → grows Q w w'.
Proof.
  intros Himpl (t & E & F). exists t. split; [done |].
  eapply Forall_impl; [exact F | exact Himpl].
Qed.

Lemma grows_same_trace (P : Event → Prop) (w w' : World) :
  trace w' = trace w → grows P w w'.
Proof. intros E. exists []. by rewrite app_nil_r. Qed.

Lemma grows_emit (P : Event → Prop) (e : Event) (w : World) :
  P e → grows P w (emit e w).
Proof. intros He. exists [e]. split; [done | by repeat constructor]. Qed.

Lemma grows_fold_left {A} (P : Event → Prop) (g : World → A → World)
    (l : list A) (w : World) :
  (∀ v a, grows P v (g v a)) → grows P w (fold_left g l w).
Proof.
  intros Hg. revert w. induction l as [| a l IH]; intros w; cbn.
  - apply grows_refl.
  - eapply grows_trans; [apply Hg | apply IH].
Qed.

Lemma grows_elem (P : Event → Prop) (w w' : World) (e : Event) :
  grows P w w' → e ∈ trace w' → e ∈ trace w ∨ P e.
Proof.
  intros (t & E & F) Hin. rewrite E in Hin.
  apply elem_of_app in Hin as [Hin | Hin]; [by left |].
  right. rewrite Forall_forall in F. by apply F.
Qed.

Lemma __KXKextManagerClearRelationships_grows (w : World) :
  grows isClear w (__KXKextManagerClearRelationships w).
Proof. eexists. split; [reflexivity |]. by repeat constructor. Qed.

Lemma KXKextManagerClearRelationships_grows (w : World) :
  grows isClear w (KXKextManagerClearRelationships w).
Proof.
  unfold KXKextManagerClearRelationships. case_match.
  - by apply grows_same_trace.
  - eapply grows_trans; [apply __KXKextManagerClearRelationships_grows |].
    by apply grows_same_trace.
Qed.

Lemma KXKextManagerCalculateVersionRelationships_grows (w : World) :
  grows isClear w (KXKextManagerCalculateVersionRelationships w).
Proof.
  unfold KXKextManagerCalculateVersionRelationships.
  eapply grows_trans; [apply __KXKextManagerClearRelationships_grows |].
  apply grows_same_trace.
  unfold set_needsCalculateRelationships. cbn [trace].
  rewrite fold_left_trace; [done |].
  intros v r. apply fold_left_trace. apply calculateKext_trace.
Qed.

Lemma relationshipsChecked_grows (w : World) :
  grows isClear w (relationshipsChecked w).
Proof.
  unfold relationshipsChecked. cbv zeta.
  destruct (needsClearRelationships w).
  - eapply grows_trans; [apply __KXKextManagerClearRelationships_grows |].
    case_match; [apply KXKextManagerCalculateVersionRelationships_grows
                | apply grows_refl].
  - case_match; [apply KXKextManagerCalculateVersionRelationships_grows
                | apply grows_refl].
Qed.

Lemma KXKextManagerEnableClearRelationships_grows (w : World) :
  grows isClear w (KXKextManagerEnableClearRelationships w).
Proof.
  unfold KXKextManagerEnableClearRelationships.
  set (v := if clearRelationshipsDisableCount w >? 0 then _ else w).
  assert (Hv : grows isClear w v)
    by (apply grows_same_trace; subst v; by case_match).
  destruct (needsClearRelationships v); [| done].
  eapply grows_trans; [exact Hv | apply KXKextManagerClearRelationships_grows].
Qed.

(** ** A failed query of the kernel *)

(** X7.  When [kmod_get_info] fails, [KXKextManagerCheckForLoadedKexts]
    returns [kKXKextManagerErrorUnspecified]; by then every kext of every
    repository has been marked not loaded, so what an earlier query had
    found is lost.  Nothing else has happened: no rebuild, the candidate set
    and the other fields of the kexts unchanged. *)
Theorem checkForLoadedKexts_query_failure (VERS_parse_string : string → Z)
    (w : World) :
  let r := KXKextManagerCheckForLoadedKexts VERS_parse_string None w in
  r.1 = kKXKextManagerErrorUnspecified
  ∧ (∀ k, k ∈ allKexts w →
       KXKextIsLoaded (kexts r.2) k = false
       ∧ KXKextOtherVersionIsLoaded (kexts r.2) k = false)
  ∧ heap_rel same_shape (kexts w) (kexts r.2)
  ∧ candidateKexts r.2 = candidateKexts w
  ∧ needsClearRelationships r.2 = needsClearRelationships w
  ∧ needsCalculateRelationships r.2 = needsCalculateRelationships w
  ∧ trace r.2 = trace w ++ [EvKmodGetInfo].
Proof.
  cbn. split; [done |]. split; [| split; [apply markKextsNotLoaded_shape | done]].
  intros k Hin. unfold KXKextIsLoaded, KXKextOtherVersionIsLoaded.
  destruct (fold_left _ (repositoryList w) (kexts w) !! k) as [x' |] eqn:Hk;
    [| done].
  apply (markKextsNotLoaded_all (repositoryList w) (kexts w) k x'
           (or_introl Hin) Hk).
Qed.

(** ** The authentication walk as a whole *)

Lemma KXKextManagerClearRelationships_modes (w : World) :
  sameModes w (KXKextManagerClearRelationships w)
  ∧ repositoryList (KXKextManagerClearRelationships w) = repositoryList w.
Proof. unfold KXKextManagerClearRelationships. by case_match. Qed.

Lemma KXKextManagerDisqualifyKext_modes (w : World) (k : KXKextRef) :
  sameModes w (KXKextManagerDisqualifyKext w k).
Proof.
  unfold KXKextManagerDisqualifyKext, _KXKextRepositoryDisqualifyKext.
  match goal with |- context [KXKextManagerClearRelationships ?v] =>
    eapply (sameModes_trans _ v);
      [| apply KXKextManagerClearRelationships_modes]
  end.
  cbn. by destruct (_ !! _).
Qed.

Lemma KXKextManagerDisqualifyKext_grows (w : World) (k : KXKextRef) :
  grows (fun e => e = EvDisqualify k ∨ isClear e) w
    (KXKextManagerDisqualifyKext w k).
Proof.
  unfold KXKextManagerDisqualifyKext, _KXKextRepositoryDisqualifyKext.
  match goal with |- context [KXKextManagerClearRelationships ?v] =>
    apply (grows_trans _ w v);
      [| eapply grows_impl; [| apply KXKextManagerClearRelationships_grows];
         by right]
  end.
  exists [EvDisqualify k]. split; [cbn; by destruct (_ !! _) |].
  constructor; [by left | constructor].
Qed.

Lemma walkEvent_further (thisKext : KXKextRef) (rest : list KXKextRef)
    (inauth : option (list KXKextRef)) (e : Event) :
  walkEvent rest inauth e → walkEvent (thisKext :: rest) inauth e.
Proof.
  destruct e; cbn; try done.
  - apply list_elem_of_further.
  - intros [? ?]. split; [by apply list_elem_of_further | done].
Qed.

Section walk.
Context (authenticate : World → KXKextRef → KXKextManagerError).

Lemma authenticateKexts_frame (kextList : list KXKextRef) :
  ∀ (result : KXKextManagerError) (inauth : option (list KXKextRef))
    (w : World),
    let r := authenticateKexts authenticate kextList result inauth w in
    heap_rel same_static (kexts w) (kexts r.2)
    ∧ sameModes w r.2
    ∧ grows (walkEvent kextList inauth) w r.2
    ∧ (r.1.1 = kKXKextManagerErrorNone → result = kKXKextManagerErrorNone)
    ∧ (inauth = None → r.1.2 = None)
    ∧ (∀ l, inauth = Some l →
         repositoryList r.2 = repositoryList w
         ∧ ∃ l2, r.1.2 = Some (l ++ l2) ∧ l2 ⊆ kextList).
Proof.
  induction kextList as [| thisKext rest IH]; intros result inauth w r;
    subst r.
  - cbn. split; [apply heap_rel_refl; apply _ |].
    split; [by repeat split |]. split; [apply grows_refl |].
    split; [done |]. split; [done |].
    intros l ->. split; [done |]. exists []. by rewrite app_nil_r.
  - cbn [authenticateKexts].
    set (result1 := if KXKextOtherVersionIsLoaded (kexts w) thisKext
                    then _ else result).
    assert (Hr1 : result1 = kKXKextManagerErrorNone →
                  result = kKXKextManagerErrorNone).
    { subst result1. destruct (KXKextOtherVersionIsLoaded _ _); [| done].
      by case_bool_decide. }
    assert (Hsub : ∀ l2 : list KXKextRef, l2 ⊆ rest → l2 ⊆ thisKext :: rest)
      by (intros l2 H x Hx; apply list_elem_of_further; by apply H).
    assert (Hgo : ∀ (result2 : KXKextManagerError)
                    (i : option (list KXKextRef)) (v : World),
      (result2 = kKXKextManagerErrorNone →
       result = kKXKextManagerErrorNone) →
      steady w v ∨ (heap_rel same_static (kexts w) (kexts v) ∧ sameModes w v
                    ∧ inauth = None) →
      grows (walkEvent (thisKext :: rest) inauth) w v →
      (i = inauth ∨ ∃ l, inauth = Some l ∧ i = Some (l ++ [thisKext])) →
      let r := authenticateKexts authenticate rest result2 i v in
      heap_rel same_static (kexts w) (kexts r.2)
      ∧ sameModes w r.2
      ∧ grows (walkEvent (thisKext :: rest) inauth) w r.2
      ∧ (r.1.1 = kKXKextManagerErrorNone → result = kKXKextManagerErrorNone)
      ∧ (inauth = None → r.1.2 = None)
      ∧ (∀ l, inauth = Some l →
           repositoryList r.2 = repositoryList w
           ∧ ∃ l2, r.1.2 = Some (l ++ l2) ∧ l2 ⊆ thisKext :: rest)).
    { intros result2 i v Hr2 Hv Hgv Hi r. subst r.
      destruct (IH result2 i v) as (H1 & H2 & H3 & H4 & H5 & H6).
      assert (Hheap : heap_rel same_static (kexts w) (kexts v))
        by (destruct Hv as [[? _] | [? _]]; done).
      assert (Hmodes : sameModes w v).
      { destruct Hv as [[_ ?] | (_ & ? & _)];
          [by apply sameSettings_sameModes | done]. }
      split; [eapply heap_rel_trans; [apply _ | done ..] |].
      split; [by eapply sameModes_trans |].
      split.
      { eapply grows_trans; [exact Hgv |].
        eapply grows_impl; [| exact H3].
        intros e He. apply walkEvent_further.
        destruct e; cbn in *; try done.
        destruct He as [? Hn]. split; [done |].
        destruct Hi as [-> | (l & Hl & ->)]; done. }
      split; [by intros ?%H4%Hr2 |].
      split.
      { intros Hn. apply H5. destruct Hi as [-> | (l & Hl & _)]; congruence. }
      intros l Hl.
      assert (Hrepo : repositoryList v = repositoryList w).
      { destruct Hv as [[_ (? & _)] | (_ & _ & ?)]; [done | congruence]. }
      destruct Hi as [-> | (l' & Hl' & ->)].
      - destruct (H6 l Hl) as (? & l2 & ? & ?).
        split; [congruence |]. exists l2. split; [done | by apply Hsub].
      - rewrite Hl in Hl'. injection Hl' as <-.
        destruct (H6 (l ++ [thisKext]) eq_refl) as (? & l2 & Hl2 & ?).
        split; [congruence |]. exists (thisKext :: l2).
        split; [by rewrite Hl2, <- app_assoc |].
        intros x [-> | Hx]%elem_of_cons;
          [apply list_elem_of_here | apply list_elem_of_further; auto]. }
    assert (Hstop : ∀ (result2 : KXKextManagerError) (v : World),
      heap_rel same_static (kexts w) (kexts v) → sameModes w v →
      grows (walkEvent (thisKext :: rest) inauth) w v →
      (result2 = kKXKextManagerErrorNone →
       result = kKXKextManagerErrorNone) →
      (∀ l, inauth = Some l → v = w) →
      heap_rel same_static (kexts w) (kexts v)
      ∧ sameModes w v
      ∧ grows (walkEvent (thisKext :: rest) inauth) w v
      ∧ (result2 = kKXKextManagerErrorNone →
         result = kKXKextManagerErrorNone)
      ∧ (inauth = None → inauth = None)
      ∧ (∀ l, inauth = Some l →
           repositoryList v = repositoryList w
           ∧ ∃ l2, inauth = Some (l ++ l2) ∧ l2 ⊆ thisKext :: rest)).
    { intros result2 v ? ? ? ? Hsame. repeat (split; [done |]).
      intros l Hl. rewrite (Hsame l Hl). split; [done |].
      exists []. split; [by rewrite app_nil_r | apply list_subseteq_nil]. }
    destruct (KXKextOtherVersionIsLoaded (kexts w) thisKext
              && negb (performsFullTests w)).
    { apply Hstop; try done; [apply heap_rel_refl; apply _ | apply grows_refl]. }
    destruct (negb (KXKextIsAuthentic (kexts w) thisKext)).
    2:{ apply Hgo; [done | left; apply steady_refl | apply grows_refl
                    | by left]. }
    unfold KXKextAuthenticate.
    set (auth_result := authenticate w thisKext).
    set (w1 := set_kexts _ (emit (EvAuthenticate thisKext) w)).
    assert (Hw1 : steady w w1)
      by apply (KXKextAuthenticate_steady authenticate w thisKext).
    assert (Hg1 : grows (walkEvent (thisKext :: rest) inauth) w w1).
    { exists [EvAuthenticate thisKext]. split; [done |].
      constructor; [| constructor]. apply list_elem_of_here. }
    set (result2 := if bool_decide (auth_result = kKXKextManagerErrorNone)
                    then result1 else _).
    assert (Hr2 : result2 = kKXKextManagerErrorNone →
                  result = kKXKextManagerErrorNone).
    { subst result2. case_bool_decide; [done |].
      case_bool_decide as Hd; [| done]. intros E. rewrite E in *. done. }
    destruct (bool_decide (auth_result = kKXKextManagerErrorAuthentication)).
    2:{ apply Hgo; [done | by left | done | by left]. }
    destruct inauth as [l |].
    { apply Hgo; [done | by left | done |]. right. by exists l. }
    set (w2 := KXKextManagerDisqualifyKext w1 thisKext).
    assert (Hw2 : heap_rel same_static (kexts w) (kexts w2)
                  ∧ sameModes w w2).
    { split.
      - eapply heap_rel_trans; [apply _ | apply Hw1 |].
        apply KXKextManagerDisqualifyKext_static.
      - eapply sameModes_trans;
          [apply sameSettings_sameModes, Hw1
          | apply KXKextManagerDisqualifyKext_modes]. }
    assert (Hg2 : grows (walkEvent (thisKext :: rest) None) w w2).
    { eapply grows_trans; [exact Hg1 |].
      eapply grows_impl; [| apply KXKextManagerDisqualifyKext_grows].
      intros e [-> | Hc]; [split; [apply list_elem_of_here | done] |].
      by destruct e. }
    destruct Hw2 as [? ?].
    destruct (negb (performsFullTests w2)).
    + by apply Hstop.
    + apply Hgo; [done | by right | done | by left].
Qed.
End walk.

(** X10.  The authentication loop of [_KXKextManagerPrepareKextForLoading]
    as a whole: the authenticator is called for kexts of the list only; a
    kext is disqualified only when there is no container for the inauthentic
    ones, and then it is one of the list; an error the loop started with is
    never turned into success; with a container the repositories are
    unchanged and the container grows by kexts of the list; without one
    none is returned. *)
Theorem authentication_loop_frame
    (authenticate : World → KXKextRef → KXKextManagerError)
    (kextList : list KXKextRef) (result : KXKextManagerError)
    (inauth : option (list KXKextRef)) (w : World) :
  let r := authenticateKexts authenticate kextList result inauth w in
  grows (walkEvent kextList inauth) w r.2
  ∧ (r.1.1 = kKXKextManagerErrorNone → result = kKXKextManagerErrorNone)
  ∧ (inauth = None → r.1.2 = None)
  ∧ (∀ l, inauth = Some l →
       repositoryList r.2 = repositoryList w
       ∧ ∃ l2, r.1.2 = Some (l ++ l2) ∧ l2 ⊆ kextList).
Proof.
  intros r.
  destruct (authenticateKexts_frame authenticate kextList result inauth w)
    as (_ & _ & H).
  exact H.
Qed.
(** ** Preparing a kext for loading: what is left alone *)

Lemma KXKextManagerClearRelationships_steady (w : World) :
  steady w (KXKextManagerClearRelationships w).
Proof.
  split; [apply KXKextManagerClearRelationships_static |].
  unfold KXKextManagerClearRelationships. by case_match.
Qed.

Lemma KXKextManagerEnableClearRelationships_static (w : World) :
  heap_rel same_static (kexts w)
    (kexts (KXKextManagerEnableClearRelationships w))
  ∧ repositoryList (KXKextManagerEnableClearRelationships w)
    = repositoryList w
  ∧ performsFullTests (KXKextManagerEnableClearRelationships w)
    = performsFullTests w
  ∧ performLoadsInTask (KXKextManagerEnableClearRelationships w)
    = performLoadsInTask w
  ∧ safeBoot (KXKextManagerEnableClearRelationships w) = safeBoot w
  ∧ clearRelationshipsDisableCount (KXKextManagerEnableClearRelationships w)
    = (if clearRelationshipsDisableCount w >? 0
       then clearRelationshipsDisableCount w - 1
       else clearRelationshipsDisableCount w).
Proof.
  unfold KXKextManagerEnableClearRelationships.
  set (v := if clearRelationshipsDisableCount w >? 0 then _ else w).
  assert (Hv : kexts v = kexts w ∧ repositoryList v = repositoryList w
               ∧ performsFullTests v = performsFullTests w
               ∧ performLoadsInTask v = performLoadsInTask w
               ∧ safeBoot v = safeBoot w
               ∧ clearRelationshipsDisableCount v
                 = (if clearRelationshipsDisableCount w >? 0
                    then clearRelationshipsDisableCount w - 1
                    else clearRelationshipsDisableCount w))
    by (subst v; by case_match).
  destruct Hv as (Hk & Hr & Hf & Ht & Hs & Hc).
  destruct (needsClearRelationships v).
  - destruct (KXKextManagerClearRelationships_steady v)
      as [H1 (H2 & H3 & H4 & H5 & H6)].
    rewrite Hk in H1. split; [done |]. rewrite H2, H3, H4, H5, H6.
    done.
  - rewrite Hk. split; [apply heap_rel_refl; apply _ | done].
Qed.

Section prepare.
Context (VERS_parse_string : string → Z)
  (resolveDependencies : World → KXKextRef → KXKextManagerError)
  (copyAllDependencies : World → KXKextRef → option (list KXKextRef))
  (authenticate : World → KXKextRef → KXKextManagerError)
  (kmod_get_info : option (list kmod_info)).

Lemma checkLoadedModules_grows (mods : list kmod_info) (w : World) :
  grows isClear w (checkLoadedModules VERS_parse_string mods w).
Proof.
  revert w. induction mods as [| m mods IH]; intros w;
    cbn [checkLoadedModules].
  - apply grows_refl.
  - destruct (VERS_parse_string (kmod_version m) <? 0); [apply IH |].
    unfold KXKextManagerGetKextWithIdentifier,
      __KXKextManagerGetKextWithIdentifierAndVersionNumber.
    fold (relationshipsChecked w).
    eapply grows_trans; [apply relationshipsChecked_grows |].
    set (v := relationshipsChecked w).
    match goal with |- context [set_kexts ?h v] =>
      apply (grows_trans _ _ (set_kexts h v));
        [by apply grows_same_trace |]
    end.
    destruct (kmod_next m =? 0); [apply grows_refl | apply IH].
Qed.

Lemma KXKextManagerCheckForLoadedKexts_grows (w : World) :
  grows (fun e => e = EvKmodGetInfo ∨ isClear e) w
    (KXKextManagerCheckForLoadedKexts VERS_parse_string kmod_get_info w).2.
Proof.
  unfold KXKextManagerCheckForLoadedKexts.
  set (w0 := emit EvKmodGetInfo _).
  assert (H0 : grows (fun e => e = EvKmodGetInfo ∨ isClear e) w w0).
  { exists [EvKmodGetInfo]. split; [done |].
    constructor; [by left | constructor]. }
  destruct kmod_get_info as [mods |]; cbn [snd]; [| done].
  eapply grows_trans; [exact H0 |].
  eapply grows_impl; [| apply checkLoadedModules_grows]. by right.
Qed.

(** The start of [_KXKextManagerPrepareKextForLoading], to the call of the
    resolver. *)
Lemma prepare_checks (w : World) (aKext : KXKextRef) (check : bool)
    (inauth : option (list KXKextRef)) :
  let w1 :=
    if needsClearRelationships w
    then __KXKextManagerClearDependencyRelationships
           (__KXKextManagerClearRelationships w)
    else w in
  let w2 :=
    if needsCalculateRelationships w1
    then KXKextManagerCalculateVersionRelationships w1
    else w1 in
  let w3 :=
    if negb check then w2
    else (KXKextManagerCheckForLoadedKexts VERS_parse_string kmod_get_info
            w2).2 in
  steady w w2 ∧ grows (prepareEvent aKext check inauth) w w2
  ∧ steady w w3 ∧ grows (prepareEvent aKext check inauth) w w3.
Proof.
  intros w1 w2 w3.
  assert (Hc : ∀ e, isClear e → prepareEvent aKext check inauth e)
    by (by intros []).
  assert (H1 : steady w w1 ∧ grows (prepareEvent aKext check inauth) w w1).
  { subst w1. destruct (needsClearRelationships w);
      [| split; [apply steady_refl | apply grows_refl]].
    split.
    - eapply steady_trans; [apply __KXKextManagerClearRelationships_steady |].
      apply __KXKextManagerClearDependencyRelationships_steady.
    - eapply grows_trans;
        [eapply grows_impl; [exact Hc |];
         apply __KXKextManagerClearRelationships_grows |].
      by apply grows_same_trace. }
  destruct H1 as [S1 G1].
  assert (H2 : steady w w2 ∧ grows (prepareEvent aKext check inauth) w w2).
  { subst w2. destruct (needsCalculateRelationships w1); [| done].
    split.
    - eapply steady_trans; [exact S1 |].
      apply KXKextManagerCalculateVersionRelationships_steady.
    - eapply grows_trans; [exact G1 |].
      eapply grows_impl; [exact Hc |].
      apply KXKextManagerCalculateVersionRelationships_grows. }
  destruct H2 as [S2 G2]. split; [done |]. split; [done |].
  subst w3. destruct check; cbn [negb]; [| done].
  split.
  - eapply steady_trans; [exact S2 |].
    apply KXKextManagerCheckForLoadedKexts_steady.
  - eapply grows_trans; [exact G2 |].
    eapply grows_impl; [| apply KXKextManagerCheckForLoadedKexts_grows].
    intros e [-> | He]; [done | by apply Hc].
Qed.

Lemma prepare_spec (w : World) (aKext : KXKextRef) (check do_load : bool)
    (inauth : option (list KXKextRef)) :
  let r := _KXKextManagerPrepareKextForLoading VERS_parse_string
             resolveDependencies copyAllDependencies authenticate
             kmod_get_info w aKext check do_load inauth in
  heap_rel same_static (kexts w) (kexts r.2)
  ∧ performsFullTests r.2 = performsFullTests w
  ∧ performLoadsInTask r.2 = performLoadsInTask w
  ∧ safeBoot r.2 = safeBoot w
  ∧ (0 ≤ clearRelationshipsDisableCount w < 2 ^ 31 - 1 →
     clearRelationshipsDisableCount r.2 = clearRelationshipsDisableCount w)
  ∧ grows (prepareEvent aKext check inauth) w r.2
  ∧ (inauth = None → r.1.2 = None)
  ∧ (∀ l, inauth = Some l →
       repositoryList r.2 = repositoryList w
       ∧ ∃ l2, r.1.2 = Some (l ++ l2)).
Proof.
  assert (Hstop : ∀ (result : KXKextManagerError) (v : World),
    steady w v → grows (prepareEvent aKext check inauth) w v →
    let r := (result, inauth, v) in
    heap_rel same_static (kexts w) (kexts r.2)
    ∧ performsFullTests r.2 = performsFullTests w
    ∧ performLoadsInTask r.2 = performLoadsInTask w
    ∧ safeBoot r.2 = safeBoot w
    ∧ (0 ≤ clearRelationshipsDisableCount w < 2 ^ 31 - 1 →
       clearRelationshipsDisableCount r.2 = clearRelationshipsDisableCount w)
    ∧ grows (prepareEvent aKext check inauth) w r.2
    ∧ (inauth = None → r.1.2 = None)
    ∧ (∀ l, inauth = Some l →
         repositoryList r.2 = repositoryList w
         ∧ ∃ l2, r.1.2 = Some (l ++ l2))).
  { intros result v [Hh (Hr & Hc & Hf & Ht & Hs)] Hg. cbn.
    do 7 (split; [done |]). intros l ->. split; [done |].
    exists []. by rewrite app_nil_r. }
  unfold _KXKextManagerPrepareKextForLoading.
  destruct (negb (KXKextIsValid (kexts w) aKext));
    [apply Hstop; [apply steady_refl | apply grows_refl] |].
  destruct (safeBoot w && negb (KXKextIsEligibleDuringSafeBoot (kexts w) aKext));
    [apply Hstop; [apply steady_refl | apply grows_refl] |].
  destruct (negb (KXKextIsEnabled (kexts w) aKext));
    [apply Hstop; [apply steady_refl | apply grows_refl] |].
  destruct (prepare_checks w aKext check inauth) as (_ & _ & S3 & G3).
  set (w1 := if needsClearRelationships w then _ else w) in *.
  set (w2 := if needsCalculateRelationships w1 then _ else w1) in *.
  set (w3 := if negb check then w2 else _) in *.
  set (p := if negb check then (kKXKextManagerErrorNone, w2) else _).
  assert (Hp : p.2 = w3).
  { subst p w3. destruct (negb check); [done |].
    destruct (KXKextManagerCheckForLoadedKexts _ _ w2) as [res v].
    cbn [snd]. repeat case_match; done. }
  clearbody w3 p. clear w1 w2. destruct p as [res v]. cbn in Hp. subst v.
  cbv beta iota zeta.
  destruct (bool_decide (res = kKXKextManagerErrorNone)); [| by apply Hstop].
  set (w4 := __KXKextManagerClearDependencyRelationships w3).
  unfold KXKextResolveDependencies.
  set (res5 := resolveDependencies w4 aKext).
  set (w5 := set_kexts _ (emit (EvResolveDependencies aKext) w4)).
  assert (S5 : steady w w5).
  { eapply steady_trans; [exact S3 |].
    eapply steady_trans;
      [apply __KXKextManagerClearDependencyRelationships_steady |].
    apply (KXKextResolveDependencies_steady resolveDependencies w4 aKext). }
  assert (G5 : grows (prepareEvent aKext check inauth) w w5).
  { eapply grows_trans; [exact G3 |].
    exists [EvResolveDependencies aKext]. split; [done |].
    by constructor; [| constructor]. }
  destruct (bool_decide (res5 = kKXKextManagerErrorNone)).
  2:{ apply Hstop; [| exact G5].
      eapply steady_trans; [exact S5 |].
      split; [apply heap_rel_refl; apply _ | by repeat split]. }
  set (w6 := KXKextManagerDisableClearRelationships w5).
  set (kextList := default [] (copyAllDependencies w6 aKext) ++ [aKext]).
  destruct (authenticateKexts_frame authenticate kextList res5 inauth w6)
    as (H1 & H2 & H3 & _ & H5 & H6).
  destruct (authenticateKexts authenticate kextList res5 inauth w6)
    as [[res7 inauth7] w7].
  cbn [fst snd] in *.
  destruct (KXKextManagerEnableClearRelationships_static w7)
    as (E1 & E2 & E3 & E4 & E5 & E6).
  destruct S5 as [Hh5 (Hr5 & Hc5 & Hf5 & Ht5 & Hs5)].
  destruct H2 as (Hc7 & Hf7 & Ht7 & Hs7).
  split.
  { eapply heap_rel_trans; [apply _ | exact Hh5 |].
    eapply heap_rel_trans; [apply _ | exact H1 | exact E1]. }
  split; [rewrite E3, Hf7; exact Hf5 |].
  split; [rewrite E4, Ht7; exact Ht5 |].
  split; [rewrite E5, Hs7; exact Hs5 |].
  split.
  { intros Hrange. rewrite E6, Hc7. subst w6.
    change (clearRelationshipsDisableCount
              (KXKextManagerDisableClearRelationships w5))
      with (int_wrap (clearRelationshipsDisableCount w5 + 1)).
    rewrite Hc5, int_wrap_id by lia.
    destruct (Z.gtb_spec (clearRelationshipsDisableCount w + 1) 0); lia. }
  split.
  { eapply grows_trans; [exact G5 |].
    apply (grows_trans _ _ w6); [by apply grows_same_trace |].
    eapply grows_trans.
    - eapply grows_impl; [| exact H3].
      intros e He. destruct e; cbn in *; try done. by destruct He.
    - eapply grows_impl; [| apply KXKextManagerEnableClearRelationships_grows].
      by intros []. }
  split; [exact H5 |].
  intros l Hl. destruct (H6 l Hl) as (Hr7 & l2 & Hl2 & _).
  split; [rewrite E2, Hr7; exact Hr5 |]. by exists l2.
Qed.

(** X8.  [_KXKextManagerPrepareKextForLoading] leaves the manager as it
    found it in these respects, whatever it returns: no kext has changed its
    identifier, version, repository, or its validity, enabled, safe-boot or
    load-failed flag; the mode flags are the same; and the count of disabled
    clears, raised around the authentication loop, is back at its value
    (the count being a C int that is not negative and can be
    incremented). *)
Theorem prepare_restores (w : World) (aKext : KXKextRef)
    (check do_load : bool) (inauth : option (list KXKextRef)) :
  0 ≤ clearRelationshipsDisableCount w < 2 ^ 31 - 1 →
  let r := _KXKextManagerPrepareKextForLoading VERS_parse_string
             resolveDependencies copyAllDependencies authenticate
             kmod_get_info w aKext check do_load inauth in
  heap_rel same_static (kexts w) (kexts r.2) ∧ sameModes w r.2.
Proof.
  intros Hrange r.
  destruct (prepare_spec w aKext check do_load inauth)
    as (H1 & H2 & H3 & H4 & H5 & _).
  split; [exact H1 |]. repeat split; auto.
Qed.

(** X9.  What [_KXKextManagerPrepareKextForLoading] does to the world
    outside the kexts: it queries the kernel only when asked to check for
    loaded kexts, calls the resolver for no kext but the one of the
    request, and disqualifies a kext only when the caller gave no container
    for the inauthentic ones.  With a container the repositories are
    unchanged and the container has only grown; without one none is
    returned. *)
Theorem prepare_events (w : World) (aKext : KXKextRef)
    (check do_load : bool) (inauth : option (list KXKextRef)) :
  let r := _KXKextManagerPrepareKextForLoading VERS_parse_string
             resolveDependencies copyAllDependencies authenticate
             kmod_get_info w aKext check do_load inauth in
  grows (prepareEvent aKext check inauth) w r.2
  ∧ (inauth = None → r.1.2 = None)
  ∧ (∀ l, inauth = Some l →
       repositoryList r.2 = repositoryList w
       ∧ ∃ l2, r.1.2 = Some (l ++ l2)).
Proof.
  intros r.
  destruct (prepare_spec w aKext check do_load inauth)
    as (_ & _ & _ & _ & _ & H).
  exact H.
Qed.
End prepare.
(** ** The link/load step: what is left alone *)

Lemma same_static_identity (x y : KXKext) :
  same_static x y → same_identity x y.
Proof. intros (? & ? & ? & ? & ? & ? & ?). by repeat split. Qed.

#[local] Instance same_identity_refl : Reflexive same_identity.
Proof. by repeat split. Qed.
#[local] Instance same_identity_trans : Transitive same_identity.
Proof.
  intros x y z (? & ? & ? & ? & ? & ?) (? & ? & ? & ? & ? & ?).
  repeat split; congruence.
Qed.

(** What the link/load step and a whole load request leave alone, from [w]
    to [w'], when the kext of the request is [aKext]. *)
Lemma loadFinish_frame (aKext : KXKextRef) (r result : KXKextManagerError)
    (v w' : World) :
  loadFinish aKext r v = Returned result w' →
  result = r
  ∧ (result = kKXKextManagerErrorNone
     ∨ result = kKXKextManagerErrorAlreadyLoaded → w' = v)
  ∧ heap_rel same_identity (kexts v) (kexts w')
  ∧ (∀ k, k ≠ aKext →
       KXKextGetLoadFailed (kexts w') k = KXKextGetLoadFailed (kexts v) k)
  ∧ sameSettings v w'
  ∧ grows isClear v w'.
Proof.
  unfold loadFinish. case_bool_decide as Hd.
  - intros [= <- <-]. split; [done |].
    split; [intros [? | ?]; by destruct Hd |].
    set (u := set_kexts _ v).
    destruct (KXKextManagerClearRelationships_steady u) as [Hh Hs].
    assert (Hu : heap_rel same_identity (kexts v) (kexts u))
      by (by apply heap_rel_alter; [apply _ |]).
    split.
    { eapply heap_rel_trans; [apply _ | exact Hu |].
      eapply heap_rel_impl; [| exact Hh]. apply same_static_identity. }
    split.
    { intros k Hk.
      destruct (heap_rel_static_getters _ _ k Hh)
        as (_ & _ & _ & _ & _ & _ & ->).
      subst u. cbn. unfold KXKextGetLoadFailed, KXKextSetLoadFailed.
      by rewrite lookup_alter_ne. }
    split; [exact Hs |].
    apply (grows_trans _ v u); [by apply grows_same_trace |].
    apply KXKextManagerClearRelationships_grows.
  - intros [= <- <-]. split; [done |]. split; [done |].
    split; [apply heap_rel_refl; apply _ |]. split; [done |].
    split; [apply sameSettings_refl | apply grows_refl].
Qed.

(** The frame of the link/load step, for the theorems below. *)
Lemma loadStep_frame (w w' : World) (aKext : KXKextRef)
    (env : LoadCollaborators) (result : KXKextManagerError) :
  _KXKextManagerLoadKextUsingOptions w aKext env = Returned result w' →
  (result = kKXKextManagerErrorNone
   ∨ result = kKXKextManagerErrorAlreadyLoaded → w' = w)
  ∧ heap_rel same_identity (kexts w) (kexts w')
  ∧ (∀ k, k ≠ aKext →
       KXKextGetLoadFailed (kexts w') k = KXKextGetLoadFailed (kexts w) k)
  ∧ sameModes w w'
  ∧ (createDgraph env = true → repositoryList w' = repositoryList w)
  ∧ grows (loadEvent aKext env) w w'.
Proof.
  intros Hret. unfold _KXKextManagerLoadKextUsingOptions in Hret.
  assert (Hclear : ∀ e, isClear e → loadEvent aKext env e) by (by intros []).
  assert (Hfin : ∀ r,
    loadFinish aKext r w = Returned result w' →
    (result = kKXKextManagerErrorNone
     ∨ result = kKXKextManagerErrorAlreadyLoaded → w' = w)
    ∧ heap_rel same_identity (kexts w) (kexts w')
    ∧ (∀ k, k ≠ aKext →
         KXKextGetLoadFailed (kexts w') k = KXKextGetLoadFailed (kexts w) k)
    ∧ sameModes w w'
    ∧ (createDgraph env = true → repositoryList w' = repositoryList w)
    ∧ grows (loadEvent aKext env) w w').
  { intros r Hr.
    destruct (loadFinish_frame _ _ _ _ _ Hr) as (_ & H1 & H2 & H3 & H4 & H5).
    repeat (split; [done |]).
    split; [by apply sameSettings_sameModes |].
    split; [intros _; apply H4 |].
    eapply grows_impl; [exact Hclear | exact H5]. }
  destruct (createDgraph env) eqn:Hgraph; cbn [negb] in Hret.
  { repeat case_match; try done; by eapply Hfin. }
  set (v := KXKextManagerDisqualifyKext w aKext) in Hret.
  destruct (loadFinish_frame _ _ _ _ _ Hret) as (-> & _ & H2 & H3 & H4 & H5).
  split; [by intros [? | ?] |].
  split.
  { eapply heap_rel_trans; [apply _ | | exact H2].
    eapply heap_rel_impl; [| apply KXKextManagerDisqualifyKext_static].
    apply same_static_identity. }
  split.
  { intros k Hk. rewrite (H3 k Hk). subst v.
    by destruct (heap_rel_static_getters _ _ k
                   (KXKextManagerDisqualifyKext_static w aKext))
      as (_ & _ & _ & _ & _ & _ & ->). }
  split.
  { eapply sameModes_trans; [apply KXKextManagerDisqualifyKext_modes |].
    by apply sameSettings_sameModes. }
  split; [done |].
  eapply grows_trans.
  - eapply grows_impl; [| apply KXKextManagerDisqualifyKext_grows].
    intros e [-> | He]; [done | by apply Hclear].
  - eapply grows_impl; [exact Hclear | exact H5].
Qed.

(** X11.  The link/load step changes little.  When it returns success or
    "already loaded" the manager is exactly as it was: a successful load is
    not recorded in the kexts.  Whatever it returns, no kext has changed its
    identifier, version, repository or its validity, enabled or safe-boot
    flag, no kext other than the one of the request has changed its
    load-failed flag, and the disable count and the mode flags are the same;
    the repositories are the same unless no dependency graph could be made,
    which is also the only case in which the kext is disqualified. *)
Theorem load_step_frame (w w' : World) (aKext : KXKextRef)
    (env : LoadCollaborators) (result : KXKextManagerError) :
  _KXKextManagerLoadKextUsingOptions w aKext env = Returned result w' →
  (result = kKXKextManagerErrorNone
   ∨ result = kKXKextManagerErrorAlreadyLoaded → w' = w)
  ∧ heap_rel same_identity (kexts w) (kexts w')
  ∧ (∀ k, k ≠ aKext →
       KXKextGetLoadFailed (kexts w') k = KXKextGetLoadFailed (kexts w) k)
  ∧ sameModes w w'
  ∧ (createDgraph env = true → repositoryList w' = repositoryList w)
  ∧ grows (loadEvent aKext env) w w'.
Proof.
  intros Hret.
  destruct (loadStep_frame w w' aKext env result Hret)
    as (H1 & H2 & H3 & H4 & H5 & H6).
  repeat (split; [assumption |]). exact H6.
Qed.

Lemma load_step_frame_witness :
  ∃ w', _KXKextManagerLoadKextUsingOptions chain54321 5 linkLoadFails
        = Returned kKXKextManagerErrorLinkLoad w'
        ∧ sameModes chain54321 w'
        ∧ KXKextGetLoadFailed (kexts w') 4 = false.
Proof.
  eexists. split; [reflexivity |].
  pose proof (load_step_frame chain54321 _ 5 linkLoadFails
                kKXKextManagerErrorLinkLoad eq_refl)
    as (_ & _ & H1 & H2 & _).
  split; [exact H2 | exact (H1 4%nat ltac:(discriminate))].
Defined.

Section load_request.
Context (VERS_parse_string : string → Z)
  (resolveDependencies : World → KXKextRef → KXKextManagerError)
  (copyAllDependencies : World → KXKextRef → option (list KXKextRef))
  (authenticate : World → KXKextRef → KXKextManagerError)
  (kmod_get_info : option (list kmod_info)).

(** X12.  A whole load request, [KXKextManagerLoadKextUsingOptions], that
    returns: no kext has changed its identifier, version, repository or its
    validity, enabled or safe-boot flag; only the kext of the request can
    have changed its load-failed flag, and not when the request succeeded;
    the disable count and the mode flags are as before; and the kernel was
    queried only if the caller asked for the check of loaded kexts. *)
Theorem load_request_frame (w w' : World) (aKext : KXKextRef)
    (check do_load : bool) (env : LoadCollaborators)
    (result : KXKextManagerError) :
  0 ≤ clearRelationshipsDisableCount w < 2 ^ 31 - 1 →
  KXKextManagerLoadKextUsingOptions VERS_parse_string resolveDependencies
    copyAllDependencies authenticate kmod_get_info w aKext check do_load env
  = Returned result w' →
  heap_rel same_identity (kexts w) (kexts w')
  ∧ (∀ k, k ≠ aKext →
       KXKextGetLoadFailed (kexts w') k = KXKextGetLoadFailed (kexts w) k)
  ∧ (result = kKXKextManagerErrorNone →
     KXKextGetLoadFailed (kexts w') aKext
     = KXKextGetLoadFailed (kexts w) aKext)
  ∧ sameModes w w'
  ∧ grows (prepareEvent aKext check None) w w'.
Proof.
  intros Hrange. unfold KXKextManagerLoadKextUsingOptions.
  destruct (prepare_spec VERS_parse_string resolveDependencies
              copyAllDependencies authenticate kmod_get_info
              w aKext check do_load None)
    as (P1 & P2 & P3 & P4 & P5 & P6 & _).
  destruct (_KXKextManagerPrepareKextForLoading _ _ _ _ _ w aKext check
              do_load None) as [[res l] v].
  cbn [fst snd] in *. specialize (P5 Hrange).
  assert (Hm : sameModes w v) by done.
  assert (Hget : ∀ k, KXKextGetLoadFailed (kexts v) k
                      = KXKextGetLoadFailed (kexts w) k).
  { intros k. by destruct (heap_rel_static_getters _ _ k P1)
      as (_ & _ & _ & _ & _ & _ & ->). }
  case_bool_decide as Hres.
  - intros Hret.
    destruct (loadStep_frame _ _ _ _ _ Hret) as (L1 & L2 & L3 & L4 & _ & L6).
    split.
    { eapply heap_rel_trans; [apply _ | | exact L2].
      eapply heap_rel_impl; [| exact P1]. apply same_static_identity. }
    split; [intros k Hk; by rewrite (L3 k Hk) |].
    split; [intros ->; rewrite L1 by (by left); apply Hget |].
    split; [by eapply sameModes_trans |].
    eapply grows_trans; [exact P6 |].
    eapply grows_impl; [| exact L6].
    intros e He. destruct e; cbn in *; done.
  - intros [= <- <-].
    split; [eapply heap_rel_impl; [| exact P1]; apply same_static_identity |].
    split; [intros k _; apply Hget |].
    split; [intros _; apply Hget |]. done.
Qed.

End load_request.

Lemma prepare_restores_witness :
  0 ≤ clearRelationshipsDisableCount chain54321 < 2 ^ 31 - 1
  ∧ sameModes chain54321
      (_KXKextManagerPrepareKextForLoading parseExampleVersion
         (resolveAllBut 1) noDependencies (authenticateAllBut 3) None
         chain54321 3 false true None).2.
Proof.
  assert (H : 0 ≤ clearRelationshipsDisableCount chain54321 < 2 ^ 31 - 1)
    by (cbn; lia).
  split; [exact H |].
  exact (proj2 (prepare_restores parseExampleVersion (resolveAllBut 1)
                  noDependencies (authenticateAllBut 3) None
                  chain54321 3 false true None H)).
Defined.

Lemma load_request_frame_witness :
  ∃ w', KXKextManagerLoadKextUsingOptions parseExampleVersion
          (resolveAllBut 1) noDependencies (authenticateAllBut 3)
          (Some []) chain54321 5 true true linkLoadFails
        = Returned kKXKextManagerErrorLinkLoad w'
        ∧ sameModes chain54321 w'
        ∧ KXKextGetLoadFailed (kexts w') 4 = false.
Proof.
  eexists. split; [vm_compute; reflexivity |].
  pose proof (load_request_frame parseExampleVersion
                (resolveAllBut 1) noDependencies (authenticateAllBut 3)
                (Some []) chain54321 _ 5 true true linkLoadFails
                kKXKextManagerErrorLinkLoad
                ltac:(cbn; lia) ltac:(vm_compute; reflexivity))
    as (_ & H1 & _ & H2 & _).
  split; [exact H2 | exact (H1 4%nat ltac:(discriminate))].
Defined.

(** ** The heads of the candidate set *)

Lemma fold_left_flat_map {A B C} (f : A → C → A) (g : B → list C)
    (l : list B) (a : A) :
  fold_left (fun a b => fold_left f (g b) a) l a
  = fold_left f (flat_map g l) a.
Proof.
  revert a. induction l as [| b l IH]; intros a; cbn; [done |].
  by rewrite fold_left_app, IH.
Qed.

Lemma passesTests_steady (w v : World) (k : KXKextRef) :
  steady w v → passesTests v k = passesTests w k.
Proof.
  intros [Hh (_ & _ & _ & _ & Hs)]. unfold passesTests.
  destruct (heap_rel_static_getters _ _ k Hh)
    as (_ & _ & _ & -> & -> & -> & ->).
  by rewrite Hs.
Qed.

Lemma calculateKext_passes (w : World) (k : KXKextRef) :
  passesTests w k = false → calculateKext w k = w.
Proof.
  unfold passesTests, calculateKext.
  destruct (KXKextIsValid (kexts w) k); [| done].
  destruct (KXKextGetLoadFailed (kexts w) k); [done |].
  destruct (safeBoot w && negb (KXKextIsEligibleDuringSafeBoot (kexts w) k));
    [done |].
  by destruct (KXKextIsEnabled (kexts w) k).
Qed.

(** One step of the loop, for a kext that passes the tests: the entry of its
    identifier is the kext itself if it is the first of its identifier or
    has a higher version than the entry, and is left as it is otherwise; no
    other entry changes. *)
Lemma calculateKext_candidates (w : World) (k : KXKextRef) :
  passesTests w k = true →
  candidateKexts (calculateKext w k)
  = match candidateKexts w !! KXKextGetBundleIdentifier (kexts w) k with
    | None =>
        <[KXKextGetBundleIdentifier (kexts w) k := k]> (candidateKexts w)
    | Some alreadyKext =>
        if _KXKextGetVersion (kexts w) k
           >? _KXKextGetVersion (kexts w) alreadyKext
        then <[KXKextGetBundleIdentifier (kexts w) k := k]> (candidateKexts w)
        else candidateKexts w
    end.
Proof.
  unfold passesTests, calculateKext.
  destruct (KXKextIsValid (kexts w) k); [| done].
  destruct (KXKextGetLoadFailed (kexts w) k); [done |].
  destruct (safeBoot w && negb (KXKextIsEligibleDuringSafeBoot (kexts w) k));
    [done |].
  destruct (KXKextIsEnabled (kexts w) k); [| done]. intros _. cbn [negb].
  destruct (candidateKexts w !! _) as [alreadyKext |]; [| done].
  by destruct (_ >? _).
Qed.

Lemma calculate_fold_heads (w : World) (ks : list KXKextRef) :
  ∀ (done : list KXKextRef) (u : World),
    steady w u →
    (∀ id k, candidateKexts u !! id = Some k → headOf w id done k) →
    (∀ k, k ∈ done → passesTests w k = true →
          is_Some (candidateKexts u !! KXKextGetBundleIdentifier (kexts w) k)) →
    let u' := fold_left calculateKext ks u in
    (∀ id k, candidateKexts u' !! id = Some k → headOf w id (done ++ ks) k)
    ∧ (∀ k, k ∈ done ++ ks → passesTests w k = true →
         is_Some (candidateKexts u' !! KXKextGetBundleIdentifier (kexts w) k)).
Proof.
  induction ks as [| thisKext ks IH]; intros done u Hs Hhead Hall; cbn.
  { by rewrite app_nil_r. }
  replace (done ++ thisKext :: ks) with ((done ++ [thisKext]) ++ ks)
    by (by rewrite <- app_assoc).
  assert (Hs' : steady w (calculateKext u thisKext))
    by (eapply steady_trans; [exact Hs | apply calculateKext_steady]).
  assert (Hgrow : ∀ id k, headOf w id done k →
            (passesTests w thisKext = true →
             KXKextGetBundleIdentifier (kexts w) thisKext = id →
             _KXKextGetVersion (kexts w) thisKext
             ≤ _KXKextGetVersion (kexts w) k) →
            headOf w id (done ++ [thisKext]) k).
  { intros id k (H1 & H2 & H3 & H4) Hle.
    split; [apply elem_of_app; by left |]. split; [done |]. split; [done |].
    intros k' [Hk' | ->%list_elem_of_singleton]%elem_of_app; auto. }
  destruct (heap_rel_static_getters _ _ thisKext (proj1 Hs))
    as (Eid & Ever & _).
  apply IH; [exact Hs' | |].
  - (* the entries *)
    destruct (passesTests w thisKext) eqn:Hp.
    2:{ rewrite calculateKext_passes
          by (by rewrite (passesTests_steady w u thisKext Hs)).
        intros id k Hk. apply Hgrow; [by apply Hhead | done]. }
    rewrite calculateKext_candidates
      by (by rewrite (passesTests_steady w u thisKext Hs)).
    rewrite Eid, Ever.
    assert (Hnew : ∀ id, KXKextGetBundleIdentifier (kexts w) thisKext = id →
              (∀ k', k' ∈ done → passesTests w k' = true →
                 KXKextGetBundleIdentifier (kexts w) k' = id →
                 _KXKextGetVersion (kexts w) k'
                 ≤ _KXKextGetVersion (kexts w) thisKext) →
              headOf w id (done ++ [thisKext]) thisKext).
    { intros id Hid Hle.
      split; [apply elem_of_app; right; apply list_elem_of_here |].
      split; [done |]. split; [done |].
      intros k' [Hk' | ->%list_elem_of_singleton]%elem_of_app; [auto | lia]. }
    destruct (candidateKexts u !! KXKextGetBundleIdentifier (kexts w) thisKext)
      as [alreadyKext |] eqn:Halready.
    + destruct (heap_rel_static_getters _ _ alreadyKext (proj1 Hs))
        as (_ & -> & _).
      pose proof (Hhead _ _ Halready) as Ha.
      destruct (Z.gtb_spec (_KXKextGetVersion (kexts w) thisKext)
                  (_KXKextGetVersion (kexts w) alreadyKext)) as [Hgt | Hle].
      * intros id k.
        destruct (decide (KXKextGetBundleIdentifier (kexts w) thisKext = id))
          as [Hid | Hid].
        -- rewrite <- Hid, lookup_insert_eq. intros [= <-].
           apply Hnew; [done |]. intros k' Hk' Hp' Hid'.
           destruct Ha as (_ & _ & _ & Hmax).
           specialize (Hmax k' Hk' Hp' Hid'). lia.
        -- rewrite lookup_insert_ne by done. intros Hk.
           apply Hgrow; [by apply Hhead | done].
      * intros id k Hk. apply Hgrow; [by apply Hhead |].
        intros _ Hid. rewrite <- Hid, Halready in Hk.
        injection Hk as <-. exact Hle.
    + intros id k.
      destruct (decide (KXKextGetBundleIdentifier (kexts w) thisKext = id))
        as [Hid | Hid].
      * rewrite <- Hid, lookup_insert_eq. intros [= <-].
        apply Hnew; [done |]. intros k' Hk' Hp' Hid'.
        destruct (Hall k' Hk' Hp') as [x Hx]. congruence.
      * rewrite lookup_insert_ne by done. intros Hk.
        apply Hgrow; [by apply Hhead | done].
  - (* every kext that passes has an entry *)
    assert (Hkeep : ∀ id, is_Some (candidateKexts u !! id) →
              is_Some (candidateKexts (calculateKext u thisKext) !! id)).
    { intros id Hsome.
      destruct (passesTests u thisKext) eqn:Hp;
        [| by rewrite calculateKext_passes].
      rewrite calculateKext_candidates by done.
      repeat case_match; try done;
        (destruct (decide (KXKextGetBundleIdentifier (kexts u) thisKext = id))
           as [<- | Hne];
         [by rewrite lookup_insert_eq | by rewrite lookup_insert_ne]). }
    intros k [Hk | ->%list_elem_of_singleton]%elem_of_app Hp.
    + by apply Hkeep, Hall.
    + rewrite calculateKext_candidates
        by (by rewrite (passesTests_steady w u thisKext Hs)).
      rewrite Eid.
      repeat case_match; try done; by rewrite ?lookup_insert_eq.
Qed.

Lemma headOf_steady (w v : World) (id : string) (k : KXKextRef) :
  steady w v → headOf v id (allCandidates v) k →
  headOf w id (allCandidates w) k.
Proof.
  intros Hs (H1 & H2 & H3 & H4).
  assert (Hc : allCandidates v = allCandidates w)
    by (unfold allCandidates; by rewrite (proj1 (proj2 Hs))).
  assert (Hg : ∀ x, KXKextGetBundleIdentifier (kexts v) x
                    = KXKextGetBundleIdentifier (kexts w) x
                    ∧ _KXKextGetVersion (kexts v) x
                      = _KXKextGetVersion (kexts w) x).
  { intros x. by destruct (heap_rel_static_getters _ _ x (proj1 Hs))
      as (-> & -> & _). }
  rewrite Hc in *. split; [done |].
  split; [by rewrite <- (passesTests_steady w v k Hs) |].
  split; [by rewrite <- (proj1 (Hg k)) |].
  intros k' Hk' Hp' Hid'.
  rewrite <- (proj2 (Hg k)), <- (proj2 (Hg k')). apply H4; [done | |].
  - by rewrite (passesTests_steady w v k' Hs).
  - by rewrite (proj1 (Hg k')).
Qed.

(** The candidate set after a rebuild in [v], read in a world [w] from which
    [v] differs in nothing that the tests or the versions depend on. *)
Lemma rebuilt_heads (w v : World) (id : string) :
  steady w v →
  let w' := KXKextManagerCalculateVersionRelationships v in
  (∀ k, candidateKexts w' !! id = Some k → headOf w id (allCandidates w) k)
  ∧ (candidateKexts w' !! id = None →
     ∀ k, k ∈ allCandidates w → passesTests w k = true →
          KXKextGetBundleIdentifier (kexts w) k ≠ id).
Proof.
  intros Hwv.
  unfold KXKextManagerCalculateVersionRelationships. cbv zeta.
  set (u := __KXKextManagerClearDependencyRelationships
              (__KXKextManagerClearRelationships v)).
  assert (Hs : steady v u).
  { eapply steady_trans; [apply __KXKextManagerClearRelationships_steady |].
    apply __KXKextManagerClearDependencyRelationships_steady. }
  assert (Hr : repositoryList u = repositoryList v) by apply Hs.
  rewrite Hr, fold_left_flat_map. fold (allCandidates v).
  destruct (calculate_fold_heads v (allCandidates v) [] u Hs)
    as [H1 H2]; [done | by intros k ?%elem_of_nil |].
  cbn [app] in H1, H2.
  unfold set_needsCalculateRelationships. cbn [candidateKexts].
  split.
  - intros k Hk. eapply headOf_steady; [exact Hwv | by apply H1].
  - intros Hnone k Hk Hp.
    destruct (heap_rel_static_getters _ _ k (proj1 Hwv)) as (<- & _).
    intros Hid.
    destruct (H2 k) as [x Hx]; [| | congruence].
    + unfold allCandidates in *. by rewrite (proj1 (proj2 Hwv)).
    + by rewrite (passesTests_steady w v k Hwv).
Qed.

(** X13.  What [KXKextManagerCalculateVersionRelationships] leaves in the
    candidate set.  An identifier has an entry exactly when some candidate
    kext of a repository with this identifier passes the tests (valid, no
    failed load, eligible for safe boot when the manager is in safe boot,
    enabled); the entry is such a kext, and none of them has a higher
    version. *)
Theorem calculate_heads (w : World) (id : string) :
  let w' := KXKextManagerCalculateVersionRelationships w in
  (∀ k, candidateKexts w' !! id = Some k → headOf w id (allCandidates w) k)
  ∧ (candidateKexts w' !! id = None →
     ∀ k, k ∈ allCandidates w → passesTests w k = true →
          KXKextGetBundleIdentifier (kexts w) k ≠ id).
Proof.
  intros w'.
  destruct (rebuilt_heads w w id (steady_refl w)) as [H1 H2].
  split; [exact H1 | exact H2].
Qed.

Lemma relationshipsChecked_stale (w : World) :
  stale w →
  ∃ v, steady w v
       ∧ relationshipsChecked w = KXKextManagerCalculateVersionRelationships v.
Proof.
  intros Hstale. unfold relationshipsChecked. cbv zeta.
  destruct (needsClearRelationships w) eqn:Hc.
  - exists (__KXKextManagerClearRelationships w).
    split; [apply __KXKextManagerClearRelationships_steady | done].
  - destruct Hstale as [? | ->]; [congruence |].
    exists w. split; [apply steady_refl | done].
Qed.

(** The candidate set after the check of stale relationships. *)
Lemma stale_heads (w : World) (id : string) :
  stale w →
  (∀ k, candidateKexts (relationshipsChecked w) !! id = Some k →
        headOf w id (allCandidates w) k)
  ∧ (candidateKexts (relationshipsChecked w) !! id = None →
     ∀ k, k ∈ allCandidates w → passesTests w k = true →
          KXKextGetBundleIdentifier (kexts w) k ≠ id).
Proof.
  intros Hstale.
  destruct (relationshipsChecked_stale w Hstale) as (v & Hs & ->).
  apply (rebuilt_heads w v id Hs).
Qed.

(** X14.  A lookup by identifier on a manager whose relationships are stale
    rebuilds them and answers from the repositories: it returns a candidate
    kext with this identifier that passes the tests, no other such kext
    having a higher version, and returns none only if no candidate kext
    with this identifier passes the tests. *)
Theorem lookup_after_rebuild (w : World) (identifier : string) :
  stale w →
  let r := KXKextManagerGetKextWithIdentifier w identifier in
  (∀ k, r.1 = Some k → headOf w identifier (allCandidates w) k)
  ∧ (r.1 = None →
     ∀ k, k ∈ allCandidates w → passesTests w k = true →
          KXKextGetBundleIdentifier (kexts w) k ≠ identifier).
Proof.
  intros Hstale r. subst r.
  unfold KXKextManagerGetKextWithIdentifier,
    __KXKextManagerGetKextWithIdentifierAndVersionNumber.
  fold (relationshipsChecked w). cbn [fst].
  apply (stale_heads w identifier Hstale).
Qed.

Lemma lookup_after_rebuild_witness :
  stale chain54321Stale
  ∧ headOf chain54321Stale "com.example.driver"
      (allCandidates chain54321Stale) 5.
Proof.
  assert (H : stale chain54321Stale) by (by right).
  split; [exact H |].
  apply (proj1 (lookup_after_rebuild chain54321Stale "com.example.driver" H)).
  vm_compute. reflexivity.
Defined.

Section load_by_identifier.
Context (VERS_parse_string : string → Z)
  (resolveDependencies : World → KXKextRef → KXKextManagerError)
  (copyAllDependencies : World → KXKextRef → option (list KXKextRef))
  (authenticate : World → KXKextRef → KXKextManagerError)
  (kmod_get_info : option (list kmod_info)).

(** X15.  [KXKextManagerLoadKextWithIdentifier] on a manager whose
    relationships are stale, for an identifier that no candidate kext
    passing the tests has: the result is "kext not found", and all that has
    happened is the rebuild of the relationships; the kernel has not been
    queried and no kext has been resolved, authenticated or disqualified. *)
Theorem loadKextWithIdentifier_not_found (w : World) (identifier : string)
    (env : LoadCollaborators) :
  stale w →
  (∀ k, k ∈ allCandidates w → passesTests w k = true →
        KXKextGetBundleIdentifier (kexts w) k ≠ identifier) →
  KXKextManagerLoadKextWithIdentifier VERS_parse_string resolveDependencies
    copyAllDependencies authenticate kmod_get_info w identifier env
  = Returned kKXKextManagerErrorKextNotFound (relationshipsChecked w)
  ∧ steady w (relationshipsChecked w)
  ∧ grows isClear w (relationshipsChecked w).
Proof.
  intros Hstale Hnone.
  split; [| split; [apply relationshipsChecked_steady
                   | apply relationshipsChecked_grows]].
  unfold KXKextManagerLoadKextWithIdentifier,
    KXKextManagerGetKextWithIdentifier,
    __KXKextManagerGetKextWithIdentifierAndVersionNumber.
  fold (relationshipsChecked w).
  destruct (stale_heads w identifier Hstale) as [H1 _].
  destruct (candidateKexts (relationshipsChecked w) !! identifier)
    as [k |]; [| done].
  destruct (H1 k eq_refl) as (Hk & Hp & Hid & _).
  by destruct (Hnone k Hk Hp).
Qed.
End load_by_identifier.

Lemma loadKextWithIdentifier_not_found_witness :
  stale chain54321Stale
  ∧ KXKextManagerLoadKextWithIdentifier parseExampleVersion
      (resolveAllBut 1) noDependencies (authenticateAllBut 3) (Some [])
      chain54321Stale "com.example.other" linkLoadFails
    = Returned kKXKextManagerErrorKextNotFound
        (relationshipsChecked chain54321Stale).
Proof.
  assert (H : stale chain54321Stale) by (by right).
  split; [exact H |].
  apply (loadKextWithIdentifier_not_found parseExampleVersion
           (resolveAllBut 1) noDependencies (authenticateAllBut 3) (Some [])
           chain54321Stale "com.example.other" linkLoadFails H).
  intros k Hk _.
  assert (Hall : Forall (fun k => KXKextGetBundleIdentifier
                                    (kexts chain54321Stale) k
                                  ≠ "com.example.other")
                   (allCandidates chain54321Stale))
    by (vm_compute; repeat constructor; discriminate).
  rewrite Forall_forall in Hall. by apply Hall.
Defined.

(** ** The second pass of [KXKextManagerResolveAllKextDependencies] *)

#[local] Instance same_but_prior_refl : Reflexive same_but_prior.
Proof. by intros []. Qed.
#[local] Instance same_but_prior_trans : Transitive same_but_prior.
Proof.
  intros [] [] []. unfold same_but_prior, set_priorVersionKext. cbn.
  intros [=] [=]. by simplify_eq.
Qed.

Lemma same_but_prior_getters (h h' : gmap nat KXKext) (k : KXKextRef) :
  heap_rel same_but_prior h h' →
  KXKextGetHasAllDependencies h' k = KXKextGetHasAllDependencies h k
  ∧ KXKextGetDuplicateVersionKext h' k = KXKextGetDuplicateVersionKext h k.
Proof.
  intros H. specialize (H k).
  unfold KXKextGetHasAllDependencies, KXKextGetDuplicateVersionKext.
  destruct (h !! k) as [x |], (h' !! k) as [y |]; try done.
  unfold same_but_prior in H. rewrite H. by destruct x.
Qed.

Lemma linkChain_alter_notin (next : KXKext → option KXKextRef)
    (f : KXKext → KXKext) (heap : gmap nat KXKext) (j : KXKextRef)
    (o : option KXKextRef) (l : list KXKextRef) :
  j ∉ l → linkChain next heap o l → linkChain next (alter f j heap) o l.
Proof.
  intros Hj H. induction H as [| k x l Hk Hl IH]; [constructor |].
  apply not_elem_of_cons in Hj as [Hne Hj].
  econstructor; [by rewrite lookup_alter_ne | by apply IH].
Qed.

Lemma linkChain_agree (next : KXKext → option KXKextRef)
    (heap heap' : gmap nat KXKext) (o : option KXKextRef)
    (l : list KXKextRef) :
  (∀ k, k ∈ l → heap' !! k = heap !! k) →
  linkChain next heap o l → linkChain next heap' o l.
Proof.
  intros Hagree H. induction H as [| k x l Hk Hl IH]; [constructor |].
  econstructor.
  - rewrite Hagree; [done | apply list_elem_of_here].
  - apply IH. intros j Hj. apply Hagree. by apply list_elem_of_further.
Qed.

#[local] Instance same_but_dependencies_refl :
  Reflexive same_but_dependencies.
Proof. by intros []. Qed.
#[local] Instance same_but_dependencies_trans :
  Transitive same_but_dependencies.
Proof.
  intros [] [] []. unfold same_but_dependencies, set_hasAllDependencies. cbn.
  intros [=] [=]. by simplify_eq.
Qed.

Lemma same_but_dependencies_links (h h' : gmap nat KXKext) :
  heap_rel same_but_dependencies h h' → heap_rel same_links h h'.
Proof.
  apply heap_rel_impl. intros x y ->. by destruct x.
Qed.

Lemma filter_agree {A} (P Q : A → Prop) `{!∀ x, Decision (P x)}
    `{!∀ x, Decision (Q x)} (l : list A) :
  (∀ x, x ∈ l → P x ↔ Q x) → filter P l = filter Q l.
Proof.
  induction l as [| a l IH]; intros Hag; [done |].
  assert (Ha : P a ↔ Q a) by (apply Hag, list_elem_of_here).
  assert (Hl : filter P l = filter Q l)
    by (apply IH; intros x Hx; apply Hag; by apply list_elem_of_further).
  destruct (decide (P a)) as [Hp | Hp].
  - rewrite !filter_cons_True by tauto. by rewrite Hl.
  - rewrite !filter_cons_False by tauto. done.
Qed.

Lemma same_but_dependencies_static (h h' : gmap nat KXKext) :
  heap_rel same_but_dependencies h h' → heap_rel same_static h h'.
Proof. apply heap_rel_impl. intros x y ->. by destruct x. Qed.

(** ** The whole of [KXKextManagerResolveAllKextDependencies] *)

Lemma onlyResolved_refl (w : World) : onlyResolved w w.
Proof.
  split; [apply heap_rel_refl; apply _ |]. do 2 (split; [done |]).
  split; [apply sameSettings_refl |]. do 2 (split; [done |]).
  apply grows_refl.
Qed.

Lemma onlyResolved_trans (w1 w2 w3 : World) :
  onlyResolved w1 w2 → onlyResolved w2 w3 → onlyResolved w1 w3.
Proof.
  intros (A1 & A2 & A3 & A4 & A5 & A6 & A7) (B1 & B2 & B3 & B4 & B5 & B6 & B7).
  split; [eapply heap_rel_trans; [apply _ | done ..] |].
  split; [congruence |]. split; [congruence |].
  split; [by eapply sameSettings_trans |].
  split; [congruence |]. split; [congruence |]. by eapply grows_trans.
Qed.

Lemma onlyResolved_fold_left {A} (g : World → A → World) (l : list A)
    (w : World) :
  (∀ v a, onlyResolved v (g v a)) → onlyResolved w (fold_left g l w).
Proof.
  intros Hg. revert w. induction l as [| a l IH]; intros w; cbn.
  - apply onlyResolved_refl.
  - eapply onlyResolved_trans; [apply Hg | apply IH].
Qed.

Section resolve_all.
Context (resolveDependencies : World → KXKextRef → KXKextManagerError).

Lemma KXKextResolveDependencies_only (w : World) (k : KXKextRef) :
  onlyResolved w (KXKextResolveDependencies resolveDependencies w k).2
  ∧ ∀ j, j ≠ k →
      kexts (KXKextResolveDependencies resolveDependencies w k).2 !! j
      = kexts w !! j.
Proof.
  split.
  - split; [cbn; apply heap_rel_alter; [apply _ |]; by intros [] |].
    do 2 (split; [done |]). split; [by repeat split |].
    do 2 (split; [done |]).
    exists [EvResolveDependencies k]. split; [done |].
    by constructor; [| constructor].
  - intros j Hj. cbn. by rewrite lookup_alter_ne.
Qed.

Lemma resolveDuplicates_only (fuel : nat) :
  ∀ (o : option KXKextRef) (w : World),
    onlyResolved w (resolveDuplicates resolveDependencies fuel o w).
Proof.
  induction fuel as [| fuel IH]; intros [d |] w; cbn [resolveDuplicates];
    try apply onlyResolved_refl.
  eapply onlyResolved_trans;
    [apply (KXKextResolveDependencies_only w d) | apply IH].
Qed.

Lemma resolveChain_only (fuel : nat) :
  ∀ (o : option KXKextRef) (w : World),
    onlyResolved w (resolveChain resolveDependencies fuel o w).
Proof.
  induction fuel as [| fuel IH]; intros [k |] w; cbn [resolveChain];
    try apply onlyResolved_refl.
  eapply onlyResolved_trans;
    [apply (KXKextResolveDependencies_only w k) |].
  eapply onlyResolved_trans; [apply resolveDuplicates_only | apply IH].
Qed.

Lemma resolveBadKexts_only (l : list KXKextRef) (w : World) :
  let w' :=
    fold_left
      (fun w k => (KXKextResolveDependencies resolveDependencies w k).2)
      l w in
  onlyResolved w w' ∧ ∀ j, j ∉ l → kexts w' !! j = kexts w !! j.
Proof.
  revert w. induction l as [| k l IH]; intros w; cbn.
  - split; [apply onlyResolved_refl | done].
  - destruct (IH (KXKextResolveDependencies resolveDependencies w k).2)
      as [H1 H2].
    destruct (KXKextResolveDependencies_only w k) as [H3 H4].
    split; [by eapply onlyResolved_trans |].
    intros j [Hne Hj]%not_elem_of_cons. rewrite H2 by done. by apply H4.
Qed.

Lemma resolveAllBadKexts_only (rs : list KXKextRepository) (w : World) :
  let w' :=
    fold_left
      (fun w r =>
         KXKextRepositoryResolveBadKextDependencies resolveDependencies r w)
      rs w in
  onlyResolved w w'
  ∧ ∀ j, j ∉ flat_map repoBadKexts rs → kexts w' !! j = kexts w !! j.
Proof.
  revert w. induction rs as [| r rs IH]; intros w; cbn.
  - split; [apply onlyResolved_refl | done].
  - unfold KXKextRepositoryResolveBadKextDependencies at 2 4.
    destruct (resolveBadKexts_only (repoBadKexts r) w) as [H1 H2].
    match goal with |- context [fold_left _ rs ?v] =>
      destruct (IH v) as [H3 H4] end.
    split; [by eapply onlyResolved_trans |].
    intros j [Hj1 Hj2]%not_elem_of_app. rewrite H4 by done. by apply H2.
Qed.
End resolve_all.

(** *** A tree with duplicates *)

#[local] Instance same_but_links_refl : Reflexive same_but_links.
Proof. by intros []. Qed.
#[local] Instance same_but_links_trans : Transitive same_but_links.
Proof.
  intros [] [] [].
  unfold same_but_links, set_priorVersionKext, set_duplicateVersionKext. cbn.
  intros [=] [=]. by simplify_eq.
Qed.

Lemma same_but_links_getters (h h' : gmap nat KXKext) (k : KXKextRef) :
  heap_rel same_but_links h h' →
  KXKextGetHasAllDependencies h' k = KXKextGetHasAllDependencies h k.
Proof.
  intros H. specialize (H k). unfold KXKextGetHasAllDependencies.
  destruct (h !! k) as [x |], (h' !! k) as [y |]; try done.
  unfold same_but_links in H. rewrite H. by destruct x.
Qed.

Lemma same_but_links_static (h h' : gmap nat KXKext) :
  heap_rel same_but_links h h' → heap_rel same_static h h'.
Proof. apply heap_rel_impl. intros x y ->. by destruct x. Qed.

Lemma linkChain_getter (next : KXKext → option KXKextRef)
    (R : KXKext → KXKext → Prop) (heap heap' : gmap nat KXKext)
    (o : option KXKextRef) (l : list KXKextRef) :
  heap_rel R heap heap' →
  (∀ j, j ∈ l → heap' !! j ≫= next = heap !! j ≫= next) →
  linkChain next heap o l → linkChain next heap' o l.
Proof.
  intros Hrel Hagree H. induction H as [| k x l Hk Hl IH]; [constructor |].
  destruct (heap_rel_lookup _ _ _ _ _ Hrel Hk) as (y & Hy & _).
  pose proof (Hagree k (list_elem_of_here _ _)) as E.
  rewrite Hk, Hy in E. cbn in E.
  econstructor; [exact Hy |]. rewrite E.
  apply IH. intros j Hj. apply Hagree. by apply list_elem_of_further.
Qed.

Lemma peekDuplicates_spec (rest : list KXKextRef) :
  ∀ (fuel : nat) (dupKext : KXKextRef) (peek : option KXKextRef)
    (w : World),
    duplicateChain (kexts w) peek rest →
    dupKext ∉ rest →
    KXKextGetDuplicateVersionKext (kexts w) dupKext = peek →
    is_Some (kexts w !! dupKext) →
    (length rest ≤ fuel)%nat →
    let w' := peekDuplicates fuel dupKext peek w in
    let has := KXKextGetHasAllDependencies (kexts w) in
    let keep := filter (fun j => has j = true) rest in
    kextsWithMissingDependencies w'
    = kextsWithMissingDependencies w ++ filter (fun j => has j = false) rest
    ∧ heap_rel same_but_links (kexts w) (kexts w')
    ∧ (∀ j, j ≠ dupKext → j ∉ rest → kexts w' !! j = kexts w !! j)
    ∧ (∀ j, KXKextGetPriorVersionKext (kexts w') j
            = KXKextGetPriorVersionKext (kexts w) j)
    ∧ duplicateChain (kexts w') (head keep) keep
    ∧ KXKextGetDuplicateVersionKext (kexts w') dupKext = head keep
    ∧ candidateKexts w' = candidateKexts w
    ∧ sameSettings w w'
    ∧ trace w' = trace w
    ∧ needsClearRelationships w' = needsClearRelationships w
    ∧ needsCalculateRelationships w' = needsCalculateRelationships w.
Proof.
  induction rest as [| p rest IH]; intros fuel dupKext peek w Hchain Hnot
    Hdup Hsome Hfuel.
  { revert Hdup. inversion Hchain; subst. intros Hdup. cbn.
    assert (E : peekDuplicates fuel dupKext None w = w) by (by destruct fuel).
    rewrite E, app_nil_r. split; [done |].
    split; [apply heap_rel_refl; apply _ |]. split; [done |].
    split; [done |]. split; [constructor |]. split; [done |].
    split; [done |]. split; [apply sameSettings_refl | by repeat split]. }
  revert Hdup.
  inversion Hchain as [| p' x rest' Hp Hrest]; subst. intros Hdup.
  destruct fuel as [| fuel]; [cbn in Hfuel; lia |]. cbn in Hfuel.
  apply not_elem_of_cons in Hnot as [Hne Hnot].
  assert (Hnd : p ∉ rest).
  { pose proof (linkChain_NoDup _ _ _ _ Hchain) as Hn.
    by apply NoDup_cons in Hn as [? _]. }
  assert (Hpd : KXKextGetDuplicateVersionKext (kexts w) p
                = duplicateVersionKext x)
    by (unfold KXKextGetDuplicateVersionKext; by rewrite Hp).
  cbn [peekDuplicates].
  destruct (KXKextGetHasAllDependencies (kexts w) p) eqn:Hhas; cbn [negb].
  - (* the duplicate has its dependencies: it is the last one kept *)
    rewrite Hpd.
    destruct (IH fuel p (duplicateVersionKext x) w Hrest Hnd Hpd
                ltac:(by eexists) ltac:(lia))
      as (H1 & H2 & H3 & H4 & H5 & H6 & H7).
    set (w' := peekDuplicates fuel p (duplicateVersionKext x) w) in *.
    cbv zeta.
    rewrite (filter_cons_True
               (fun j => KXKextGetHasAllDependencies (kexts w) j = true))
      by exact Hhas.
    rewrite (filter_cons_False
               (fun j => KXKextGetHasAllDependencies (kexts w) j = false))
      by (by rewrite Hhas).
    cbn [head].
    split; [done |]. split; [done |].
    split.
    { intros j Hj Hjn. apply not_elem_of_cons in Hjn as [? ?]. by apply H3. }
    split; [done |].
    destruct (heap_rel_lookup _ _ _ _ _ H2 Hp) as (y & Hy & _).
    split.
    { econstructor; [exact Hy |].
      unfold KXKextGetDuplicateVersionKext in H6. rewrite Hy in H6.
      cbn in H6. by rewrite H6. }
    split; [| done].
    unfold KXKextGetDuplicateVersionKext in *.
    rewrite H3 by done. exact Hdup.
  - (* the duplicate lacks dependencies: it is unlinked *)
    set (w1 := set_kexts _ (appendMissingDependencies p w)).
    assert (Hrel : heap_rel same_but_links (kexts w) (kexts w1)).
    { subst w1. cbn. apply heap_rel_alter; [apply _ |]. by intros []. }
    assert (Hpd1 : KXKextGetDuplicateVersionKext (kexts w1) p
                   = duplicateVersionKext x).
    { subst w1. cbn.
      unfold KXKextGetDuplicateVersionKext, _KXKextSetDuplicateVersionKext.
      rewrite lookup_alter_ne by done. by rewrite Hp. }
    rewrite Hpd1.
    assert (Hrest1 : duplicateChain (kexts w1) (duplicateVersionKext x) rest).
    { subst w1. cbn. by apply linkChain_alter_notin. }
    assert (Hdup1 : KXKextGetDuplicateVersionKext (kexts w1) dupKext
                    = duplicateVersionKext x).
    { subst w1. cbn.
      unfold KXKextGetDuplicateVersionKext, _KXKextSetDuplicateVersionKext.
      rewrite lookup_alter_eq. destruct Hsome as [z ->]. cbn.
      fold (KXKextGetDuplicateVersionKext (kexts w) p). exact Hpd. }
    assert (Hsome1 : is_Some (kexts w1 !! dupKext)).
    { destruct Hsome as [z Hz].
      destruct (heap_rel_lookup _ _ _ _ _ Hrel Hz) as (y & Hy & _).
      by exists y. }
    destruct (IH fuel dupKext (duplicateVersionKext x) w1 Hrest1 Hnot Hdup1
                Hsome1 ltac:(lia))
      as (H1 & H2 & H3 & H4 & H5 & H6 & H7 & H8 & H9 & H10 & H11).
    set (w' := peekDuplicates fuel dupKext (duplicateVersionKext x) w1) in *.
    assert (Ehas : ∀ j, KXKextGetHasAllDependencies (kexts w1) j
                        = KXKextGetHasAllDependencies (kexts w) j)
      by (intros j; by apply same_but_links_getters).
    assert (Ef1 : filter (fun j => KXKextGetHasAllDependencies (kexts w1) j
                                   = true) rest
                  = filter (fun j => KXKextGetHasAllDependencies (kexts w) j
                                     = true) rest)
      by (apply list_filter_iff; intros j; by rewrite Ehas).
    assert (Ef2 : filter (fun j => KXKextGetHasAllDependencies (kexts w1) j
                                   = false) rest
                  = filter (fun j => KXKextGetHasAllDependencies (kexts w) j
                                     = false) rest)
      by (apply list_filter_iff; intros j; by rewrite Ehas).
    rewrite Ef1 in H5, H6. rewrite Ef2 in H1.
    cbv zeta.
    rewrite (filter_cons_False
               (fun j => KXKextGetHasAllDependencies (kexts w) j = true))
      by (by rewrite Hhas).
    rewrite (filter_cons_True
               (fun j => KXKextGetHasAllDependencies (kexts w) j = false))
      by exact Hhas.
    split; [rewrite H1; subst w1; cbn; by rewrite <- app_assoc |].
    split; [eapply heap_rel_trans; [apply _ | exact Hrel | exact H2] |].
    split.
    { intros j Hj Hjn. apply not_elem_of_cons in Hjn as [? ?].
      rewrite H3 by done. subst w1. cbn.
      unfold _KXKextSetDuplicateVersionKext. by rewrite lookup_alter_ne. }
    split.
    { intros j. rewrite H4. subst w1. cbn.
      unfold KXKextGetPriorVersionKext, _KXKextSetDuplicateVersionKext.
      destruct (decide (dupKext = j)) as [-> | Hj];
        [| by rewrite lookup_alter_ne].
      rewrite lookup_alter_eq. by destruct (kexts w !! j). }
    split; [done |]. split; [done |]. split; [done |].
    split; [eapply sameSettings_trans; [| exact H8]; by repeat split |].
    done.
Qed.

Lemma keptLevel_ext (f g : KXKextRef → bool) (dl : list KXKextRef) :
  (∀ k, f k = g k) →
  keptLevel f dl = keptLevel g dl ∧ droppedLevel f dl = droppedLevel g dl.
Proof.
  intros E. induction dl as [| k ds [IH1 IH2]]; [done |]. cbn.
  rewrite <- E, IH1, IH2.
  assert (E1 : ∀ l, filter (fun j => f j = true) l
                    = filter (fun j => g j = true) l)
    by (intros l; apply list_filter_iff; intros j; by rewrite E).
  assert (E2 : ∀ l, filter (fun j => f j = false) l
                    = filter (fun j => g j = false) l)
    by (intros l; apply list_filter_iff; intros j; by rewrite E).
  destruct (f k), ds as [| d rest]; try done; by rewrite ?E1, ?E2.
Qed.

Lemma keptTree_ext (f g : KXKextRef → bool) (ll : list (list KXKextRef)) :
  (∀ k, f k = g k) →
  keptTree f ll = keptTree g ll
  ∧ flat_map (droppedLevel f) ll = flat_map (droppedLevel g) ll.
Proof.
  intros E. unfold keptTree.
  induction ll as [| dl ll [IH1 IH2]]; [done |]. cbn [map flat_map].
  destruct (keptLevel_ext f g dl E) as [-> ->]. rewrite IH2. split; [| done].
  destruct (decide (keptLevel g dl ≠ [])).
  - rewrite !filter_cons_True by done. by rewrite IH1.
  - rewrite !filter_cons_False by done. done.
Qed.

Lemma keptLevel_subseteq (has : KXKextRef → bool) (dl : list KXKextRef) :
  keptLevel has dl ⊆ dl.
Proof.
  induction dl as [| k ds IH]; [done |]. cbn.
  destruct (has k).
  - destruct ds as [| d rest]; [done |].
    intros j [-> | [-> | Hj]%elem_of_cons]%elem_of_cons.
    + apply list_elem_of_here.
    + apply list_elem_of_further, list_elem_of_here.
    + do 2 apply list_elem_of_further.
      by apply list_elem_of_filter in Hj as [_ ?].
  - intros j Hj. apply list_elem_of_further. by apply IH.
Qed.

Lemma kextTree_agree (heap heap' : gmap nat KXKext) (o : option KXKextRef)
    (ll : list (list KXKextRef)) :
  (∀ j, j ∈ concat ll → heap' !! j = heap !! j) →
  kextTree heap o ll → kextTree heap' o ll.
Proof.
  intros Hagree H. induction H as [| k x dl ll Hk Hdl Hll IH]; [constructor |].
  cbn in Hagree.
  assert (Hin : k ∈ dl) by (inversion Hdl; apply list_elem_of_here).
  econstructor.
  - rewrite Hagree; [exact Hk | apply elem_of_app; by left].
  - eapply linkChain_agree; [| exact Hdl].
    intros j Hj. apply Hagree, elem_of_app. by left.
  - apply IH. intros j Hj. apply Hagree, elem_of_app. by right.
Qed.

Lemma kextTree_nonempty (heap : gmap nat KXKext) (o : option KXKextRef)
    (dl : list KXKextRef) (ll : list (list KXKextRef)) :
  kextTree heap o (dl :: ll) →
  ∃ k x ds, o = Some k ∧ dl = k :: ds ∧ heap !! k = Some x
            ∧ duplicateChain heap (duplicateVersionKext x) ds
            ∧ kextTree heap (priorVersionKext x) ll.
Proof.
  intros H. inversion H as [| k x dl' ll' Hk Hdl Hll]; subst.
  inversion Hdl as [| k' x' ds Hk' Hds]; subst.
  rewrite Hk in Hk'. injection Hk' as <-.
  by exists k, x, ds.
Qed.

Lemma splicedTree_nil (id : string) (prevKext : option KXKextRef)
    (thisKext : option KXKextRef) (w : World) :
  match prevKext with
  | Some p => KXKextGetPriorVersionKext (kexts w) p = None
  | None => candidateKexts w !! id = None
  end →
  splicedTree id prevKext [] w w.
Proof.
  intros Hprev. unfold splicedTree. cbn. rewrite app_nil_r.
  split; [done |]. split; [apply heap_rel_refl; apply _ |].
  split; [done |]. split; [done |]. split; [constructor |].
  split; [by destruct prevKext |].
  split; [apply sameSettings_refl | by repeat split].
Qed.

(** A step that takes no kext out or in but changes [w] to [w1], followed
    by the loop on the rest. *)
Lemma splicedTree_step (id : string) (prevKext : option KXKextRef)
    (ll ll1 : list (list KXKextRef)) (dropped : list KXKextRef)
    (w w1 w' : World) :
  splicedTree id prevKext ll1 w1 w' →
  heap_rel same_but_links (kexts w) (kexts w1) →
  kextsWithMissingDependencies w1
  = kextsWithMissingDependencies w ++ dropped →
  flat_map (droppedLevel (KXKextGetHasAllDependencies (kexts w))) ll
  = dropped
    ++ flat_map (droppedLevel (KXKextGetHasAllDependencies (kexts w))) ll1 →
  keptTree (KXKextGetHasAllDependencies (kexts w)) ll
  = keptTree (KXKextGetHasAllDependencies (kexts w)) ll1 →
  (∀ j, j ∉ concat ll → j ∉ concat ll1) →
  (∀ j, j ∉ concat ll → prevKext ≠ Some j → kexts w1 !! j = kexts w !! j) →
  (∀ p, prevKext = Some p →
     KXKextGetDuplicateVersionKext (kexts w1) p
     = KXKextGetDuplicateVersionKext (kexts w) p) →
  match prevKext with
  | Some p => candidateKexts w1 = candidateKexts w
  | None => ∀ id', id' ≠ id →
              candidateKexts w1 !! id' = candidateKexts w !! id'
  end →
  sameSettings w w1 → trace w1 = trace w →
  needsClearRelationships w1 = needsClearRelationships w →
  needsCalculateRelationships w1 = needsCalculateRelationships w →
  splicedTree id prevKext ll w w'.
Proof.
  intros (H1 & H2 & H3 & H4 & H5 & H6 & H7 & H8 & H9 & H10)
    Hrel Hmiss Hdrop Hkeep Hsub Hframe Hdup Hcand Hset Htr Hn1 Hn2.
  assert (Ehas : ∀ k, KXKextGetHasAllDependencies (kexts w1) k
                      = KXKextGetHasAllDependencies (kexts w) k)
    by (intros k; by apply same_but_links_getters).
  destruct (keptTree_ext _ _ ll1 Ehas) as [Ek Ed].
  rewrite Ek in H5, H6. rewrite Ed in H1.
  unfold splicedTree. rewrite Hkeep, Hdrop.
  split; [by rewrite H1, Hmiss, <- app_assoc |].
  split; [eapply heap_rel_trans; [apply _ | done ..] |].
  split.
  { intros j Hj Hp. rewrite H3; [by apply Hframe | by apply Hsub | done]. }
  split; [intros p Hp; rewrite (H4 p Hp); by apply Hdup |].
  split; [done |].
  split.
  { destruct prevKext as [p |].
    - destruct H6 as [? ?]. split; [done | congruence].
    - destruct H6 as [? H6]. split; [done |].
      intros id' Hid'. rewrite H6 by done. by apply Hcand. }
  split; [by eapply sameSettings_trans |].
  split; [congruence |]. split; congruence.
Qed.

Lemma spliceChain_tree (id : string) (fuel : nat) :
  ∀ (ll : list (list KXKextRef)) (thisKext prevKext : option KXKextRef)
    (w : World),
    kextTree (kexts w) thisKext ll →
    NoDup (concat ll) →
    (length (concat ll) ≤ fuel)%nat →
    match prevKext with
    | Some p =>
        (p ∉ concat ll) ∧ KXKextGetPriorVersionKext (kexts w) p = thisKext
    | None => candidateKexts w !! id = thisKext
    end →
    splicedTree id prevKext ll w (spliceChain fuel id thisKext prevKext w).
Proof.
  induction fuel as [| fuel IH]; intros ll thisKext prevKext w Htree Hnd
    Hfuel Hprev.
  { destruct ll as [| dl ll].
    - inversion Htree; subst. cbn. apply (splicedTree_nil id prevKext None).
      destruct prevKext as [p |]; [by destruct Hprev | done].
    - destruct (kextTree_nonempty _ _ _ _ Htree)
        as (k & x & ds & _ & -> & _). cbn in Hfuel. lia. }
  destruct ll as [| dl ll].
  { inversion Htree; subst. cbn. apply (splicedTree_nil id prevKext None).
    destruct prevKext as [p |]; [by destruct Hprev | done]. }
  destruct (kextTree_nonempty _ _ _ _ Htree)
    as (k & x & ds & -> & -> & Hk & Hds & Hll).
  cbn [concat] in Hnd, Hfuel. cbn [app] in Hnd, Hfuel.
  rewrite length_cons, length_app in Hfuel.
  apply NoDup_cons in Hnd as [Hknot Hnd].
  apply NoDup_app in Hnd as (Hnd1 & Hdisj & Hnd2).
  apply not_elem_of_app in Hknot as [Hkds Hkll].
  assert (Hnext : KXKextGetPriorVersionKext (kexts w) k = priorVersionKext x)
    by (unfold KXKextGetPriorVersionKext; by rewrite Hk).
  assert (Hdupk : KXKextGetDuplicateVersionKext (kexts w) k
                  = duplicateVersionKext x)
    by (unfold KXKextGetDuplicateVersionKext; by rewrite Hk).
  cbn [spliceChain]. rewrite Hnext, Hdupk.
  assert (Hpk : ∀ p, prevKext = Some p →
            p ≠ k ∧ (p ∉ ds) ∧ (p ∉ concat ll) ∧ is_Some (kexts w !! p)).
  { intros p ->. destruct Hprev as [Hp Hpp]. cbn in Hp.
    apply not_elem_of_cons in Hp as [? Hp].
    apply not_elem_of_app in Hp as [? ?]. repeat split; try done.
    unfold KXKextGetPriorVersionKext in Hpp.
    by destruct (kexts w !! p). }
  destruct (KXKextGetHasAllDependencies (kexts w) k) eqn:Hhas; cbn [negb].
  - (* the kext has its dependencies *)
    set (w1 := match duplicateVersionKext x with
               | Some dup => _ | None => w end).
    assert (Hlvl : ∃ tl, keptLevel (KXKextGetHasAllDependencies (kexts w))
                           (k :: ds) = k :: tl)
      by (cbn [keptLevel]; rewrite Hhas; by eexists).
    destruct Hlvl as [tl Hlvl].
    assert (Hw1 : kextsWithMissingDependencies w1
                  = kextsWithMissingDependencies w
                    ++ droppedLevel (KXKextGetHasAllDependencies (kexts w))
                         (k :: ds)
              ∧ heap_rel same_but_links (kexts w) (kexts w1)
              ∧ (∀ j, j ∉ ds → kexts w1 !! j = kexts w !! j)
              ∧ (∀ j, KXKextGetPriorVersionKext (kexts w1) j
                      = KXKextGetPriorVersionKext (kexts w) j)
              ∧ duplicateChain (kexts w1) (Some k) (k :: tl)
              ∧ candidateKexts w1 = candidateKexts w
              ∧ sameSettings w w1 ∧ trace w1 = trace w
              ∧ needsClearRelationships w1 = needsClearRelationships w
              ∧ needsCalculateRelationships w1
                = needsCalculateRelationships w).
    { subst w1. cbn [keptLevel droppedLevel] in *. rewrite Hhas in *.
      destruct ds as [| d rest].
      - assert (Edup : duplicateVersionKext x = None) by (by inversion Hds).
        rewrite Edup. rewrite app_nil_r. injection Hlvl as <-.
        split; [done |]. split; [apply heap_rel_refl; apply _ |].
        split; [done |]. split; [done |].
        split; [econstructor; [exact Hk | rewrite Edup; constructor] |].
        split; [done |]. split; [apply sameSettings_refl | by repeat split].
      - assert (Hdinfo : duplicateVersionKext x = Some d
                  ∧ ∃ xd, kexts w !! d = Some xd
                          ∧ duplicateChain (kexts w)
                              (duplicateVersionKext xd) rest)
          by (inversion Hds; subst; eauto).
        destruct Hdinfo as (Edup & xd & Hd & Hrest). rewrite Edup.
        apply NoDup_cons in Hnd1 as [Hdrest Hnd1].
        assert (Hdd : KXKextGetDuplicateVersionKext (kexts w) d
                      = duplicateVersionKext xd)
          by (unfold KXKextGetDuplicateVersionKext; by rewrite Hd).
        rewrite Hdd.
        destruct (peekDuplicates_spec rest fuel d (duplicateVersionKext xd) w
                    Hrest Hdrest Hdd ltac:(by eexists)
                    ltac:(cbn in Hfuel; lia))
          as (Q1 & Q2 & Q3 & Q4 & Q5 & Q6 & Q7 & Q8 & Q9 & Q10 & Q11).
        set (w1 := peekDuplicates fuel d (duplicateVersionKext xd) w) in *.
        injection Hlvl as <-.
        split; [done |]. split; [done |].
        split.
        { intros j Hj. apply not_elem_of_cons in Hj as [? ?]. by apply Q3. }
        split; [done |].
        split; [| done].
        assert (Hk1 : kexts w1 !! k = Some x).
        { rewrite Q3; [done | |].
          - intros ->. apply Hkds, list_elem_of_here.
          - intros Hin. apply Hkds. by apply list_elem_of_further. }
        econstructor; [exact Hk1 |]. rewrite Edup.
        destruct (heap_rel_lookup _ _ _ _ _ Q2 Hd) as (yd & Hyd & _).
        econstructor; [exact Hyd |].
        unfold KXKextGetDuplicateVersionKext in Q6. rewrite Hyd in Q6.
        cbn in Q6. by rewrite Q6. }
    clearbody w1.
    destruct Hw1 as (M1 & R1 & F1 & P1 & C1 & K1 & S1 & T1 & N1 & N2).
    assert (Htree1 : kextTree (kexts w1) (priorVersionKext x) ll).
    { eapply kextTree_agree; [| exact Hll].
      intros j Hj. apply F1. intros Hin. by apply (Hdisj j). }
    assert (Hprev1 : (k ∉ concat ll)
                     ∧ KXKextGetPriorVersionKext (kexts w1) k
                       = priorVersionKext x)
      by (split; [done | by rewrite P1]).
    destruct (IH ll (priorVersionKext x) (Some k) w1 Htree1 Hnd2
                ltac:(lia) Hprev1)
      as (I1 & I2 & I3 & I4 & I5 & [I6 I6'] & I7 & I8 & I9 & I10).
    set (w' := spliceChain fuel id (priorVersionKext x) (Some k) w1) in *.
    assert (Ehas : ∀ j, KXKextGetHasAllDependencies (kexts w1) j
                        = KXKextGetHasAllDependencies (kexts w) j)
      by (intros j; by apply same_but_links_getters).
    destruct (keptTree_ext _ _ ll Ehas) as [Ek Ed].
    rewrite Ek in I5, I6. rewrite Ed in I1.
    assert (Hsame : ∀ j, j ∉ k :: ds → j ∉ concat ll →
              kexts w' !! j = kexts w !! j).
    { intros j Hj1 Hj2. apply not_elem_of_cons in Hj1 as [? ?].
      rewrite I3; [by apply F1 | done | congruence]. }
    unfold splicedTree.
    assert (Ekeep : keptTree (KXKextGetHasAllDependencies (kexts w))
                      ((k :: ds) :: ll)
                    = (k :: tl)
                      :: keptTree (KXKextGetHasAllDependencies (kexts w)) ll).
    { unfold keptTree. cbn [map]. rewrite Hlvl.
      by rewrite filter_cons_True by done. }
    rewrite Ekeep. cbn [concat app head flat_map].
    split; [by rewrite I1, M1, <- app_assoc |].
    split; [eapply heap_rel_trans; [apply _ | done ..] |].
    split.
    { intros j Hj _. change (j ∉ (k :: ds) ++ concat ll) in Hj.
      apply not_elem_of_app in Hj as [? ?]. by apply Hsame. }
    assert (Hp' : ∀ p, prevKext = Some p → kexts w' !! p = kexts w !! p).
    { intros p Hp. destruct (Hpk p Hp) as (? & ? & ? & _).
      apply Hsame; [| done]. by apply not_elem_of_cons. }
    split.
    { intros p Hp. unfold KXKextGetDuplicateVersionKext.
      by rewrite (Hp' p Hp). }
    split.
    { destruct (heap_rel_lookup _ _ _ _ _ R1 Hk) as (y1 & Hy1 & _).
      destruct (heap_rel_lookup _ _ _ _ _ I2 Hy1) as (y' & Hy' & _).
      econstructor; [exact Hy' | |].
      - eapply (linkChain_getter duplicateVersionKext _ (kexts w1));
          [exact I2 | | exact C1].
        intros j [-> | Hj]%elem_of_cons.
        + apply (I4 k eq_refl).
        + assert (Hjds : j ∈ ds).
          { assert (Hjl : j ∈ k :: tl) by (by apply list_elem_of_further).
            rewrite <- Hlvl in Hjl.
            apply keptLevel_subseteq in Hjl.
            apply elem_of_cons in Hjl as [-> | ?]; [| done].
            pose proof (linkChain_NoDup _ _ _ _ C1) as Hn.
            apply NoDup_cons in Hn as [Hn _]. by destruct Hn. }
          rewrite I3; [done | by apply Hdisj |].
          intros [= <-]. by apply Hkds.
      - unfold KXKextGetPriorVersionKext in I6. rewrite Hy' in I6.
        cbn in I6. by rewrite I6. }
    split.
    { destruct prevKext as [p |].
      - destruct Hprev as [_ Hpp]. split; [| congruence].
        unfold KXKextGetPriorVersionKext in *.
        by rewrite (Hp' p eq_refl).
      - split; [by rewrite I6', K1 |]. intros id' _. by rewrite I6', K1. }
    split; [by eapply sameSettings_trans |].
    split; [congruence |]. split; congruence.
  - (* the kext lacks dependencies *)
    destruct ds as [| d rest].
    + (* no duplicate: the version is taken out *)
      assert (Edup : duplicateVersionKext x = None) by (by inversion Hds).
      rewrite Edup.
      set (w1 := match prevKext with Some prev => _ | None => _ end).
      assert (Hw1 : heap_rel same_but_links (kexts w) (kexts w1)
                ∧ kextsWithMissingDependencies w1
                  = kextsWithMissingDependencies w ++ [k]
                ∧ (∀ j, prevKext ≠ Some j → kexts w1 !! j = kexts w !! j)
                ∧ (∀ p, prevKext = Some p →
                     KXKextGetDuplicateVersionKext (kexts w1) p
                     = KXKextGetDuplicateVersionKext (kexts w) p)
                ∧ match prevKext with
                  | Some p =>
                      KXKextGetPriorVersionKext (kexts w1) p
                      = priorVersionKext x
                      ∧ candidateKexts w1 = candidateKexts w
                  | None =>
                      candidateKexts w1 !! id = priorVersionKext x
                      ∧ ∀ id', id' ≠ id →
                          candidateKexts w1 !! id' = candidateKexts w !! id'
                  end
                ∧ sameSettings w w1 ∧ trace w1 = trace w
                ∧ needsClearRelationships w1 = needsClearRelationships w
                ∧ needsCalculateRelationships w1
                  = needsCalculateRelationships w).
      { subst w1. destruct prevKext as [p |].
        - destruct (Hpk p eq_refl) as (_ & _ & _ & [z Hz]). cbn.
          unfold _KXKextSetPriorVersionKext.
          split; [apply heap_rel_alter; [apply _ |]; by intros [] |].
          split; [done |].
          split; [intros j Hj; rewrite lookup_alter_ne; [done | congruence] |].
          split.
          { intros ? [= <-]. unfold KXKextGetDuplicateVersionKext.
            rewrite lookup_alter_eq, Hz. done. }
          split; [| by repeat split].
          split; [| done]. unfold KXKextGetPriorVersionKext.
          by rewrite lookup_alter_eq, Hz.
        - destruct (priorVersionKext x) as [next |]; cbn.
          + split; [apply heap_rel_refl; apply _ |]. split; [done |].
            split; [done |]. split; [done |].
            split; [| by repeat split].
            split; [by rewrite lookup_insert_eq |].
            intros id' Hid'. by rewrite lookup_insert_ne.
          + split; [apply heap_rel_refl; apply _ |]. split; [done |].
            split; [done |]. split; [done |].
            split; [| by repeat split].
            split; [by rewrite lookup_delete_eq |].
            intros id' Hid'. by rewrite lookup_delete_ne. }
      clearbody w1.
      destruct Hw1 as (R1 & M1 & F1 & D1 & P1 & S1 & T1 & N1 & N2).
      assert (Htree1 : kextTree (kexts w1) (priorVersionKext x) ll).
      { eapply kextTree_agree; [| exact Hll].
        intros j Hj. apply F1. intros ->.
        by destruct (Hpk j eq_refl) as (_ & _ & ? & _). }
      eapply (splicedTree_step id prevKext _ ll [k] w w1).
      * apply IH; [done | done | lia |].
        destruct prevKext as [p |]; [| by destruct P1].
        destruct (Hpk p eq_refl) as (_ & _ & ? & _). by destruct P1.
      * done.
      * done.
      * cbn. by rewrite Hhas.
      * unfold keptTree. cbn [map keptLevel]. rewrite Hhas.
        by rewrite filter_cons_False by (intros Hn; by apply Hn).
      * intros j Hj. cbn in Hj. by apply not_elem_of_cons in Hj as [_ ?].
      * intros j _ Hj. by apply F1.
      * done.
      * destruct prevKext; by destruct P1.
      * done.
      * done.
      * done.
      * done.
    + (* a duplicate: it is promoted *)
      assert (Hdinfo : duplicateVersionKext x = Some d
                ∧ ∃ xd, kexts w !! d = Some xd
                        ∧ duplicateChain (kexts w) (duplicateVersionKext xd)
                            rest)
        by (inversion Hds; subst; eauto).
      destruct Hdinfo as (Edup & xd & Hd & Hrest). rewrite Edup.
      apply NoDup_cons in Hnd1 as [Hdrest Hnd1].
      assert (Hdll : d ∉ concat ll)
        by (apply Hdisj, list_elem_of_here).
      assert (Hdk : d ≠ k)
        by (intros ->; apply Hkds, list_elem_of_here).
      set (w1 := match prevKext with Some prev => _ | None => _ end).
      assert (Hw1 : heap_rel same_but_prior (kexts w) (kexts w1)
                ∧ kextsWithMissingDependencies w1
                  = kextsWithMissingDependencies w ++ [k]
                ∧ (∀ j, j ≠ d → prevKext ≠ Some j →
                     kexts w1 !! j = kexts w !! j)
                ∧ KXKextGetPriorVersionKext (kexts w1) d = priorVersionKext x
                ∧ match prevKext with
                  | Some p =>
                      KXKextGetPriorVersionKext (kexts w1) p = Some d
                      ∧ candidateKexts w1 = candidateKexts w
                  | None =>
                      candidateKexts w1 !! id = Some d
                      ∧ ∀ id', id' ≠ id →
                          candidateKexts w1 !! id' = candidateKexts w !! id'
                  end
                ∧ sameSettings w w1 ∧ trace w1 = trace w
                ∧ needsClearRelationships w1 = needsClearRelationships w
                ∧ needsCalculateRelationships w1
                  = needsCalculateRelationships w).
      { subst w1. destruct prevKext as [p |].
        - destruct (Hpk p eq_refl) as (_ & Hpds & _ & [z Hz]).
          assert (Hpd : p ≠ d)
            by (intros ->; apply Hpds, list_elem_of_here).
          cbn. unfold _KXKextSetPriorVersionKext.
          split.
          { eapply heap_rel_trans; [apply _ | |];
              (apply heap_rel_alter; [apply _ |]; by intros []). }
          split; [done |].
          split.
          { intros j Hj1 Hj2.
            rewrite !lookup_alter_ne; [done | congruence | congruence]. }
          split.
          { unfold KXKextGetPriorVersionKext.
            rewrite lookup_alter_eq, lookup_alter_ne, Hd by done. done. }
          split; [| by repeat split].
          split; [| done]. unfold KXKextGetPriorVersionKext.
          rewrite lookup_alter_ne, lookup_alter_eq, Hz by done. done.
        - cbn. unfold _KXKextSetPriorVersionKext.
          split; [apply heap_rel_alter; [apply _ |]; by intros [] |].
          split; [done |].
          split; [intros j Hj _; by rewrite lookup_alter_ne |].
          split.
          { unfold KXKextGetPriorVersionKext.
            rewrite lookup_alter_eq, Hd. done. }
          split; [| by repeat split].
          split; [by rewrite lookup_insert_eq |].
          intros id' Hid'. by rewrite lookup_insert_ne. }
      clearbody w1.
      destruct Hw1 as (R1 & M1 & F1 & Pd & P1 & S1 & T1 & N1 & N2).
      assert (R1' : heap_rel same_but_links (kexts w) (kexts w1)).
      { eapply heap_rel_impl; [| exact R1]. intros a b ->. by destruct a. }
      assert (Htree1 : kextTree (kexts w1) (Some d) ((d :: rest) :: ll)).
      { destruct (heap_rel_lookup _ _ _ _ _ R1 Hd) as (yd & Hyd & _).
        econstructor; [exact Hyd | |].
        - apply (linkChain_heap_rel duplicateVersionKext (kexts w));
            [| econstructor; [exact Hd | exact Hrest]].
          eapply heap_rel_impl; [| exact R1]. intros a b ->. by destruct a.
        - unfold KXKextGetPriorVersionKext in Pd. rewrite Hyd in Pd.
          cbn in Pd. rewrite Pd.
          eapply kextTree_agree; [| exact Hll].
          intros j Hj. apply F1; [congruence |]. intros ->.
          by destruct (Hpk j eq_refl) as (_ & _ & ? & _). }
      assert (Hnd' : NoDup (concat ((d :: rest) :: ll))).
      { cbn. apply NoDup_cons. split.
        - apply not_elem_of_app. by split.
        - apply NoDup_app. repeat split; [done | | done].
          intros j Hj. apply Hdisj. by apply list_elem_of_further. }
      eapply (splicedTree_step id prevKext _ ((d :: rest) :: ll) [k] w w1).
      * apply IH; [done | done | cbn; rewrite length_app; cbn in Hfuel; lia |].
        destruct prevKext as [p |]; [| by destruct P1].
        destruct (Hpk p eq_refl) as (_ & Hpds & Hpll & _).
        split; [| by destruct P1].
        change (p ∉ (d :: rest) ++ concat ll).
        intros [Hin | Hin]%elem_of_app; [by apply Hpds | by apply Hpll].
      * done.
      * done.
      * cbn [flat_map droppedLevel]. by rewrite Hhas.
      * unfold keptTree. cbn [map]. cbn [keptLevel]. by rewrite Hhas.
      * intros j Hj. cbn in Hj. cbn. by apply not_elem_of_cons in Hj as [_ ?].
      * intros j Hj Hp. apply F1; [| done]. intros ->. apply Hj. cbn.
        apply list_elem_of_further, list_elem_of_here.
      * intros p Hp. destruct (same_but_prior_getters _ _ p R1) as [_ E].
        exact E.
      * destruct prevKext; by destruct P1.
      * done.
      * done.
      * done.
      * done.
Qed.

(** X16.  The second pass of [KXKextManagerResolveAllKextDependencies] over
    the tree of one identifier, a tree that meets no kext twice.  Version by
    version, the kexts at the front of the duplicates that lack dependencies
    are taken out, the next duplicate taking the place in the chain; the
    first kext that has its dependencies holds the place of the version; the
    duplicate after it stays without being looked at, and of the further
    duplicates those that have their dependencies stay; a version of which
    no kext has them is gone.  The kexts taken out are appended to the list
    of kexts with missing dependencies in the order in which the pass meets
    them.  The entries of the other identifiers are untouched, no kext
    outside the tree changes, and no kext changes but in its links. *)
Theorem splice_tree (w : World) (id : string) (ll : list (list KXKextRef)) :
  treeOf w id ll →
  NoDup (concat ll) →
  let w' :=
    spliceChain (enoughFuel (kexts w)) id (candidateKexts w !! id) None w in
  let has := KXKextGetHasAllDependencies (kexts w) in
  treeOf w' id (keptTree has ll)
  ∧ kextsWithMissingDependencies w'
    = kextsWithMissingDependencies w ++ flat_map (droppedLevel has) ll
  ∧ (∀ id', id' ≠ id → candidateKexts w' !! id' = candidateKexts w !! id')
  ∧ heap_rel same_but_links (kexts w) (kexts w')
  ∧ (∀ j, j ∉ concat ll → kexts w' !! j = kexts w !! j).
Proof.
  intros Htree Hnd w' has.
  destruct (spliceChain_tree id (enoughFuel (kexts w)) ll
              (candidateKexts w !! id) None w Htree Hnd
              (kextTree_fuel _ _ _ Htree Hnd) eq_refl)
    as (H1 & H2 & H3 & _ & H5 & [H6 H7] & _).
  fold w' in H1, H2, H3, H5, H6, H7.
  split; [unfold treeOf; by rewrite H6 |].
  split; [done |]. split; [done |]. split; [done |].
  intros j Hj. by apply H3.
Qed.

Lemma splice_tree_witness :
  treeOf
    (spliceChain (enoughFuel (kexts duplicateAtHeadWithout40))
       "com.example.driver"
       (candidateKexts duplicateAtHeadWithout40 !! "com.example.driver")
       None duplicateAtHeadWithout40)
    "com.example.driver" [[41]; [3]]%nat.
Proof.
  assert (Htree : treeOf duplicateAtHeadWithout40 "com.example.driver"
                    [[40; 41]; [3]]%nat).
  { unfold treeOf.
    change (candidateKexts duplicateAtHeadWithout40 !! "com.example.driver")
      with (Some 40%nat).
    eapply kextTree_cons; [vm_compute; reflexivity | | cbn].
    { eapply linkChain_cons; [vm_compute; reflexivity | cbn].
      eapply linkChain_cons;
        [vm_compute; reflexivity | cbn; apply linkChain_nil]. }
    eapply kextTree_cons;
      [vm_compute; reflexivity | | cbn; apply kextTree_nil].
    eapply linkChain_cons;
      [vm_compute; reflexivity | cbn; apply linkChain_nil]. }
  assert (Hnd : NoDup (concat [[40; 41]; [3]]%nat)).
  { apply NoDup_ListNoDup. repeat constructor; cbn; intuition lia. }
  exact (proj1 (splice_tree duplicateAtHeadWithout40 "com.example.driver"
                  [[40; 41]; [3]]%nat Htree Hnd)).
Defined.

Lemma keptLevel_agree (f g : KXKextRef → bool) (dl : list KXKextRef) :
  (∀ k, k ∈ dl → f k = g k) →
  keptLevel f dl = keptLevel g dl ∧ droppedLevel f dl = droppedLevel g dl.
Proof.
  induction dl as [| k ds IH]; intros E; [done |]. cbn.
  rewrite <- (E k) by apply list_elem_of_here.
  destruct IH as [IH1 IH2];
    [intros j Hj; apply E; by apply list_elem_of_further |].
  rewrite IH1, IH2.
  destruct (f k), ds as [| d rest]; try done.
  assert (Er : ∀ j, j ∈ rest → f j = g j)
    by (intros j Hj; apply E; by do 2 apply list_elem_of_further).
  split; [f_equal; f_equal |];
    apply filter_agree; intros j Hj; by rewrite (Er j Hj).
Qed.

Lemma keptTree_agree (f g : KXKextRef → bool) (ll : list (list KXKextRef)) :
  (∀ k, k ∈ concat ll → f k = g k) →
  keptTree f ll = keptTree g ll
  ∧ flat_map (droppedLevel f) ll = flat_map (droppedLevel g) ll.
Proof.
  unfold keptTree. induction ll as [| dl ll IH]; intros E; [done |].
  cbn [map flat_map]. cbn in E.
  destruct (keptLevel_agree f g dl) as [-> ->];
    [intros k Hk; apply E, elem_of_app; by left |].
  destruct IH as [IH1 IH2];
    [intros k Hk; apply E, elem_of_app; by right |].
  rewrite IH2. split; [| done].
  destruct (decide (keptLevel g dl ≠ [])).
  - rewrite !filter_cons_True by done. by rewrite IH1.
  - rewrite !filter_cons_False by done. done.
Qed.

Lemma keptTree_subseteq (has : KXKextRef → bool)
    (ll : list (list KXKextRef)) :
  concat (keptTree has ll) ⊆ concat ll.
Proof.
  unfold keptTree. induction ll as [| dl ll IH]; [done |]. cbn [map].
  intros j Hj. cbn. apply elem_of_app.
  destruct (decide (keptLevel has dl ≠ [])).
  - rewrite filter_cons_True in Hj by done. cbn in Hj.
    apply elem_of_app in Hj as [Hj | Hj]; [left | right; by apply IH].
    by apply (keptLevel_subseteq has dl).
  - rewrite filter_cons_False in Hj by done. right. by apply IH.
Qed.

(** The second pass over the entries [todo], the trees apart from one
    another. *)
Lemma splice_entries_tree (trees : string → list (list KXKextRef))
    (has : KXKextRef → bool) (fuel : nat)
    (todo : list (string * KXKextRef)) :
  (∀ id, (length (concat (trees id)) ≤ fuel)%nat) →
  (∀ id, NoDup (concat (trees id))) →
  (∀ id id' k, k ∈ concat (trees id) → k ∈ concat (trees id') → id = id') →
  ∀ u : World,
    NoDup todo.*1 →
    (∀ k, KXKextGetHasAllDependencies (kexts u) k = has k) →
    (∀ id head, (id, head) ∈ todo →
       candidateKexts u !! id = Some head
       ∧ kextTree (kexts u) (Some head) (trees id)) →
    let u' :=
      fold_left (fun w e => spliceChain fuel e.1 (Some e.2) None w) todo u in
    (∀ id head, (id, head) ∈ todo → treeOf u' id (keptTree has (trees id)))
    ∧ kextsWithMissingDependencies u'
      = kextsWithMissingDependencies u
        ++ flat_map (fun e => flat_map (droppedLevel has) (trees e.1)) todo
    ∧ heap_rel same_but_links (kexts u) (kexts u')
    ∧ (∀ j, (∀ id head, (id, head) ∈ todo → j ∉ concat (trees id)) →
         kexts u' !! j = kexts u !! j)
    ∧ (∀ id', id' ∉ todo.*1 →
         candidateKexts u' !! id' = candidateKexts u !! id')
    ∧ sameSettings u u'
    ∧ trace u' = trace u
    ∧ needsClearRelationships u' = needsClearRelationships u
    ∧ needsCalculateRelationships u' = needsCalculateRelationships u.
Proof.
  intros Hfuel Hnodup Hapart.
  induction todo as [| [id head] todo IH]; intros u Hnd Hhas Hpre.
  { cbn. split; [by intros ? ? ?%elem_of_nil |].
    rewrite app_nil_r. split; [done |].
    split; [apply heap_rel_refl; apply _ |].
    split; [done |]. split; [done |].
    split; [apply sameSettings_refl | by repeat split]. }
  cbn [fold_left fst snd]. cbn in Hnd. apply NoDup_cons in Hnd as [Hid Hnd].
  destruct (Hpre id head (list_elem_of_here _ _)) as (Hc & Ht).
  destruct (spliceChain_tree id fuel (trees id) (Some head) None u Ht
              (Hnodup id) (Hfuel id) Hc)
    as (S1 & S2 & S3 & _ & S4 & [S5 S6] & S7 & S8 & S9 & S10).
  set (u1 := spliceChain fuel id (Some head) None u) in *.
  destruct (keptTree_ext _ has (trees id) Hhas) as [Ek Ed].
  rewrite Ek in S4, S5. rewrite Ed in S1.
  assert (Hother : ∀ id' head' k, (id', head') ∈ todo →
            k ∈ concat (trees id') → k ∉ concat (trees id)).
  { intros id' head' k Hin Hk' Hk.
    pose proof (Hapart _ _ _ Hk' Hk) as ->.
    apply Hid. apply list_elem_of_fmap. by exists (id, head'). }
  assert (Hhas1 : ∀ k, KXKextGetHasAllDependencies (kexts u1) k = has k)
    by (intros k; rewrite <- Hhas; by apply same_but_links_getters).
  assert (Hpre1 : ∀ id' head', (id', head') ∈ todo →
            candidateKexts u1 !! id' = Some head'
            ∧ kextTree (kexts u1) (Some head') (trees id')).
  { intros id' head' Hin.
    destruct (Hpre id' head' (list_elem_of_further _ _ _ Hin)) as (Hc' & Ht').
    assert (Hne : id' ≠ id).
    { intros ->. apply Hid. apply list_elem_of_fmap. by exists (id, head'). }
    split; [by rewrite S6 |].
    eapply kextTree_agree; [| exact Ht'].
    intros k Hin'. apply S3; [by eapply Hother | done]. }
  destruct (IH u1 Hnd Hhas1 Hpre1)
    as (I1 & I2 & I3 & I4 & I5 & I6 & I7 & I8 & I9).
  set (u' := fold_left _ todo u1) in *.
  split.
  { intros id' head' [[= -> ->] | Hin]%elem_of_cons;
      [| by apply (I1 id' head')].
    unfold treeOf. rewrite I5, S5 by done.
    eapply kextTree_agree; [| exact S4].
    intros k Hkeep. apply I4. intros id' head' Hin Hk'.
    apply (Hother id' head' k Hin Hk').
    by apply (keptTree_subseteq has). }
  split; [cbn [flat_map fst]; by rewrite I2, S1, <- app_assoc |].
  split; [eapply heap_rel_trans; [apply _ | done ..] |].
  split.
  { intros j Hj. rewrite I4.
    - apply S3; [| done]. by apply (Hj id head (list_elem_of_here _ _)).
    - intros id' head' Hin. apply (Hj id' head').
      by apply list_elem_of_further. }
  split.
  { intros id' Hid'. cbn in Hid'. apply not_elem_of_cons in Hid' as [? ?].
    rewrite I5 by done. by apply S6. }
  split; [by eapply sameSettings_trans |].
  split; [congruence |]. split; congruence.
Qed.

(** The order of the entries of the candidate set that the functions of
    this development take where none is given. *)
Lemma resolveAllInOrder_map_to_list
    (resolveDependencies : World → KXKextRef → KXKextManagerError)
    (w : World) :
  KXKextManagerResolveAllKextDependencies resolveDependencies w
  = resolveAllInOrder resolveDependencies (map_to_list (candidateKexts w)) w.
Proof. reflexivity. Qed.

(** X17.  [KXKextManagerResolveAllKextDependencies], whatever the order in
    which the entries of the candidate set are gone through, on a candidate
    set whose trees meet no kext twice and share no kext (in full-tests
    mode, no bad kext either).  The resolver having been asked, the tree
    that is left under every identifier is the old one from which, version
    by version, the kexts at the front of the duplicates that lack
    dependencies are gone; the first kext that has them holds the place of
    the version; the duplicate after it has stayed without being looked at,
    and of the further duplicates those that have their dependencies; a
    version of which no kext has them is gone.  The kexts taken out are
    appended to the list of kexts with missing dependencies, tree by tree
    in the order in which the entries are gone through.  Nothing is cleared
    or rebuilt and the stale flags are not read: they are as before, and
    the only events are calls of the resolver. *)
Theorem resolveAll_trees
    (resolveDependencies : World → KXKextRef → KXKextManagerError)
    (entries : list (string * KXKextRef)) (w : World)
    (trees : string → list (list KXKextRef)) :
  entries ≡ₚ map_to_list (candidateKexts w) →
  (∀ id, treeOf w id (trees id)) →
  (∀ id, NoDup (concat (trees id))) →
  (∀ id id' k, k ∈ concat (trees id) → k ∈ concat (trees id') → id = id') →
  (performsFullTests w = true →
   ∀ id k, k ∈ concat (trees id) → k ∉ allBadKexts w) →
  let w' := resolveAllInOrder resolveDependencies entries w in
  let has := KXKextGetHasAllDependencies (kexts w') in
  (∀ id, treeOf w' id (keptTree has (trees id)))
  ∧ kextsWithMissingDependencies w'
    = kextsWithMissingDependencies w
      ++ flat_map (fun e => flat_map (droppedLevel has) (trees e.1))
           entries
  ∧ heap_rel same_static (kexts w) (kexts w')
  ∧ needsClearRelationships w' = needsClearRelationships w
  ∧ needsCalculateRelationships w' = needsCalculateRelationships w
  ∧ grows isResolve w w'.
Proof.
  intros Hperm Htrees Hnodup Hapart Hbad.
  assert (Hentry : ∀ id head,
            (id, head) ∈ entries ↔ candidateKexts w !! id = Some head).
  { intros id head. rewrite Hperm. apply elem_of_map_to_list. }
  assert (Hkeys : NoDup entries.*1).
  { rewrite Hperm. apply NoDup_fst_map_to_list. }
  unfold resolveAllInOrder. cbv zeta.
  set (fuel := enoughFuel (kexts w)).
  set (w1 := fold_left (fun w e => resolveChain _ fuel (Some e.2) w)
               entries w).
  assert (R1 : onlyResolved w w1).
  { apply onlyResolved_fold_left. intros v e. apply resolveChain_only. }
  destruct R1 as (A1 & A2 & A3 & A4 & A5 & A6 & A7).
  assert (Hfuel : ∀ id, (length (concat (trees id)) ≤ fuel)%nat).
  { intros id. apply (kextTree_fuel _ _ _ (Htrees id) (Hnodup id)). }
  assert (Hpre : ∀ id head, (id, head) ∈ entries →
            candidateKexts w1 !! id = Some head
            ∧ kextTree (kexts w1) (Some head) (trees id)).
  { intros id head Hin. apply Hentry in Hin.
    split; [by rewrite A2 |].
    eapply kextTree_heap_rel; [apply same_but_dependencies_links, A1 |].
    pose proof (Htrees id) as Hc. unfold treeOf in Hc.
    by rewrite Hin in Hc. }
  destruct (splice_entries_tree trees
              (KXKextGetHasAllDependencies (kexts w1)) fuel entries
              Hfuel Hnodup Hapart w1 Hkeys
              (fun k => eq_refl) Hpre)
    as (S1 & S2 & S3 & S4 & S5 & S6 & S7 & S8 & S9).
  set (w2 := fold_left (fun w e => spliceChain fuel e.1 (Some e.2) None w)
               entries w1) in *.
  assert (Hfull : performsFullTests w2 = performsFullTests w).
  { destruct A4 as (_ & _ & <- & _). by destruct S6 as (_ & _ & -> & _). }
  assert (Hrepo : repositoryList w2 = repositoryList w).
  { destruct A4 as (<- & _). by destruct S6 as (-> & _). }
  set (w' := if performsFullTests w2 then _ else w2).
  assert (R3 : onlyResolved w2 w'
               ∧ ∀ id k, k ∈ concat (trees id) →
                   kexts w' !! k = kexts w2 !! k).
  { subst w'. rewrite Hfull, Hrepo.
    destruct (performsFullTests w) eqn:Hf;
      [| split; [apply onlyResolved_refl | done]].
    destruct (resolveAllBadKexts_only resolveDependencies
                (repositoryList w) w2) as [H1 H2].
    split; [done |]. intros id k Hk. apply H2. by apply (Hbad eq_refl id). }
  destruct R3 as [(B1 & B2 & B3 & B4 & B5 & B6 & B7) Hsame].
  assert (Hhas : ∀ id k, k ∈ concat (trees id) →
            KXKextGetHasAllDependencies (kexts w') k
            = KXKextGetHasAllDependencies (kexts w1) k).
  { intros id k Hk. unfold KXKextGetHasAllDependencies.
    rewrite (Hsame id k Hk).
    apply (same_but_links_getters _ _ k S3). }
  assert (Eagree : ∀ id,
            keptTree (KXKextGetHasAllDependencies (kexts w')) (trees id)
            = keptTree (KXKextGetHasAllDependencies (kexts w1)) (trees id)
            ∧ flat_map (droppedLevel
                          (KXKextGetHasAllDependencies (kexts w')))
                (trees id)
              = flat_map (droppedLevel
                            (KXKextGetHasAllDependencies (kexts w1)))
                  (trees id)).
  { intros id. apply keptTree_agree. intros k Hk. by apply (Hhas id). }
  split.
  { intros id. rewrite (proj1 (Eagree id)). unfold treeOf. rewrite B2.
    eapply kextTree_heap_rel; [apply same_but_dependencies_links, B1 |].
    destruct (candidateKexts w !! id) as [head |] eqn:Hhead.
    - apply (S1 id head). by apply Hentry.
    - pose proof (Htrees id) as Hc. unfold treeOf in Hc.
      rewrite Hhead in Hc. inversion Hc as [E |]. cbn.
      rewrite S5, A2, Hhead; [constructor |].
      intros ((id' & head) & Heq & Hin)%list_elem_of_fmap. cbn in Heq.
      subst id'. apply Hentry in Hin. congruence. }
  split.
  { rewrite B3, S2, A3. f_equal.
    apply flat_map_ext. intros e. by rewrite (proj2 (Eagree e.1)). }
  split.
  { eapply heap_rel_trans;
      [apply _ | apply same_but_dependencies_static, A1 |].
    eapply heap_rel_trans;
      [apply _ | apply same_but_links_static, S3
      | apply same_but_dependencies_static, B1]. }
  split; [congruence |]. split; [congruence |].
  eapply grows_trans; [exact A7 |].
  apply (grows_trans _ w1 w2); [by apply grows_same_trace | exact B7].
Qed.

Lemma resolveAll_trees_witness :
  kextsWithMissingDependencies
    (resolveAllInOrder resolveNothing
       [("com.example.b", 2%nat); ("com.example.a", 1%nat)] twoDrivers)
  = [2; 1]%nat
  ∧ treeOf
      (resolveAllInOrder resolveNothing
         [("com.example.b", 2%nat); ("com.example.a", 1%nat)] twoDrivers)
      "com.example.a" [].
Proof.
  assert (H0 : [("com.example.b", 2%nat); ("com.example.a", 1%nat)]
               ≡ₚ map_to_list (candidateKexts twoDrivers)).
  { vm_compute. first [reflexivity | apply perm_swap]. }
  assert (H1 : ∀ id, treeOf twoDrivers id (twoTrees id)).
  { intros id. unfold treeOf, twoTrees.
    change (candidateKexts twoDrivers)
      with (<["com.example.a" := 1%nat]>
              ({[ "com.example.b" := 2%nat ]} : gmap string nat)).
    destruct (decide (id = "com.example.a")) as [-> | Ha].
    { rewrite lookup_insert_eq.
      eapply kextTree_cons; [vm_compute; reflexivity | | constructor].
      eapply linkChain_cons; [vm_compute; reflexivity |]. constructor. }
    rewrite lookup_insert_ne by done.
    destruct (decide (id = "com.example.b")) as [-> | Hb].
    { rewrite lookup_singleton_eq.
      eapply kextTree_cons; [vm_compute; reflexivity | | constructor].
      eapply linkChain_cons; [vm_compute; reflexivity |]. constructor. }
    rewrite lookup_singleton_ne by done. constructor. }
  assert (H2 : ∀ id, NoDup (concat (twoTrees id))).
  { intros id. unfold twoTrees. repeat case_decide; cbn;
      repeat constructor; by intros ?%elem_of_nil. }
  assert (H3 : ∀ id id' k, k ∈ concat (twoTrees id) →
            k ∈ concat (twoTrees id') → id = id').
  { intros id id' k. unfold twoTrees.
    repeat case_decide; cbn; intros Hk Hk'; subst;
      repeat (apply elem_of_cons in Hk as [-> | Hk]);
      repeat (apply elem_of_cons in Hk' as [? | Hk']);
      try (by apply elem_of_nil in Hk); try (by apply elem_of_nil in Hk');
      done. }
  assert (H4 : performsFullTests twoDrivers = true →
            ∀ id k, k ∈ concat (twoTrees id) → k ∉ allBadKexts twoDrivers)
    by discriminate.
  destruct (resolveAll_trees resolveNothing _ twoDrivers twoTrees
              H0 H1 H2 H3 H4) as (T & M & _).
  split.
  - rewrite M. vm_compute. reflexivity.
  - specialize (T "com.example.a"). revert T.
    match goal with |- treeOf _ _ ?t → _ =>
      replace t with (@nil (list KXKextRef)) by (vm_compute; reflexivity)
    end.
    done.
Defined.

(** ** Disqualification and the deferred clear *)

Lemma disqualify_pending (w : World) (k : KXKextRef) :
  0 < clearRelationshipsDisableCount w →
  let w' := KXKextManagerDisqualifyKext w k in
  trace w' = trace w ++ [EvDisqualify k]
  ∧ candidateKexts w' = candidateKexts w
  ∧ kextsWithMissingDependencies w' = kextsWithMissingDependencies w
  ∧ clearRelationshipsDisableCount w' = clearRelationshipsDisableCount w
  ∧ needsClearRelationships w' = true
  ∧ needsCalculateRelationships w' = true.
Proof.
  intros Hd. unfold KXKextManagerDisqualifyKext,
    _KXKextRepositoryDisqualifyKext. cbv zeta.
  rewrite clear_pending by (cbn; by destruct (_ !! _)).
  cbn. by destruct (_ !! _).
Qed.

Section pending.
Context (authenticate : World → KXKextRef → KXKextManagerError).

(** While clearing is disabled the authentication loop tears nothing down:
    it adds no structural clear, and the candidate set is as it was; a
    disqualification leaves the request to clear pending. *)
Lemma authenticateKexts_pending (kextList : list KXKextRef) :
  ∀ (result : KXKextManagerError) (inauth : option (list KXKextRef))
    (w : World),
    0 < clearRelationshipsDisableCount w →
    let r := authenticateKexts authenticate kextList result inauth w in
    ∃ t, trace r.2 = trace w ++ t
         ∧ Forall (fun e => ¬ isClear e) t
         ∧ candidateKexts r.2 = candidateKexts w
         ∧ kextsWithMissingDependencies r.2 = kextsWithMissingDependencies w
         ∧ clearRelationshipsDisableCount r.2
           = clearRelationshipsDisableCount w
         ∧ (Exists isDisqualify t →
            needsClearRelationships r.2 = true
            ∧ needsCalculateRelationships r.2 = true)
         ∧ (needsClearRelationships w = true →
            needsCalculateRelationships w = true →
            needsClearRelationships r.2 = true
            ∧ needsCalculateRelationships r.2 = true)
         ∧ (¬ Exists isDisqualify t →
            needsClearRelationships r.2 = needsClearRelationships w
            ∧ needsCalculateRelationships r.2
              = needsCalculateRelationships w).
Proof.
  induction kextList as [| thisKext rest IH]; intros result inauth w Hd r;
    subst r.
  { cbn. exists []. rewrite app_nil_r.
    split; [done |]. split; [constructor |]. do 3 (split; [done |]).
    split; [by intros ?%Exists_nil |]. split; done. }
  assert (Hstop : ∃ t, trace w = trace w ++ t
         ∧ Forall (fun e => ¬ isClear e) t
         ∧ candidateKexts w = candidateKexts w
         ∧ kextsWithMissingDependencies w = kextsWithMissingDependencies w
         ∧ clearRelationshipsDisableCount w = clearRelationshipsDisableCount w
         ∧ (Exists isDisqualify t →
            needsClearRelationships w = true
            ∧ needsCalculateRelationships w = true)
         ∧ (needsClearRelationships w = true →
            needsCalculateRelationships w = true →
            needsClearRelationships w = true
            ∧ needsCalculateRelationships w = true)
         ∧ (¬ Exists isDisqualify t →
            needsClearRelationships w = needsClearRelationships w
            ∧ needsCalculateRelationships w = needsCalculateRelationships w)).
  { exists []. rewrite app_nil_r.
    split; [done |]. split; [constructor |]. do 3 (split; [done |]).
    split; [by intros ?%Exists_nil |]. split; done. }
  assert (Hgo : ∀ (result2 : KXKextManagerError)
                  (i : option (list KXKextRef)) (v : World) (t0 : list Event),
    trace v = trace w ++ t0 →
    Forall (fun e => ¬ isClear e) t0 →
    candidateKexts v = candidateKexts w →
    kextsWithMissingDependencies v = kextsWithMissingDependencies w →
    clearRelationshipsDisableCount v = clearRelationshipsDisableCount w →
    (Exists isDisqualify t0 ∧ needsClearRelationships v = true
     ∧ needsCalculateRelationships v = true
     ∨ ¬ Exists isDisqualify t0
       ∧ needsClearRelationships v = needsClearRelationships w
       ∧ needsCalculateRelationships v = needsCalculateRelationships w) →
    let r := authenticateKexts authenticate rest result2 i v in
    ∃ t, trace r.2 = trace w ++ t
         ∧ Forall (fun e => ¬ isClear e) t
         ∧ candidateKexts r.2 = candidateKexts w
         ∧ kextsWithMissingDependencies r.2 = kextsWithMissingDependencies w
         ∧ clearRelationshipsDisableCount r.2
           = clearRelationshipsDisableCount w
         ∧ (Exists isDisqualify t →
            needsClearRelationships r.2 = true
            ∧ needsCalculateRelationships r.2 = true)
         ∧ (needsClearRelationships w = true →
            needsCalculateRelationships w = true →
            needsClearRelationships r.2 = true
            ∧ needsCalculateRelationships r.2 = true)
         ∧ (¬ Exists isDisqualify t →
            needsClearRelationships r.2 = needsClearRelationships w
            ∧ needsCalculateRelationships r.2
              = needsCalculateRelationships w)).
  { intros result2 i v t0 Ht0 Hc0 Hcand Hmiss Hcount Hflag r. subst r.
    destruct (IH result2 i v ltac:(lia))
      as (t & Ht & Hc & H1 & H2 & H3 & H4 & H5 & H6).
    exists (t0 ++ t).
    split; [by rewrite Ht, Ht0, <- app_assoc |].
    split; [by apply Forall_app |].
    split; [congruence |]. split; [congruence |]. split; [congruence |].
    split.
    { intros [Hex | Hex]%Exists_app.
      - destruct Hflag as [(_ & Hn1 & Hn2) | [Hno _]]; [| done].
        by apply H5.
      - by apply H4. }
    split.
    { intros Hn1 Hn2. apply H5.
      - destruct Hflag as [(_ & ? & _) | (_ & ? & _)]; congruence.
      - destruct Hflag as [(_ & _ & ?) | (_ & _ & ?)]; congruence. }
    intros Hno.
    destruct Hflag as [(Hex & _) | (_ & Hn1 & Hn2)].
    - destruct Hno. apply Exists_app. by left.
    - destruct H6 as [-> ->]; [| done].
      intros Hex. apply Hno, Exists_app. by right. }
  cbn [authenticateKexts].
  destruct (KXKextOtherVersionIsLoaded (kexts w) thisKext
            && negb (performsFullTests w)); [exact Hstop |].
  destruct (negb (KXKextIsAuthentic (kexts w) thisKext)).
  2:{ apply (Hgo _ _ w []); try done; [by rewrite app_nil_r |].
      right. split; [by intros ?%Exists_nil | done]. }
  unfold KXKextAuthenticate.
  set (auth_result := authenticate w thisKext).
  set (w1 := set_kexts _ (emit (EvAuthenticate thisKext) w)).
  assert (Hno1 : ¬ Exists isDisqualify [EvAuthenticate thisKext])
    by (by intros [? | ?%Exists_nil]%Exists_cons).
  assert (Hc1 : Forall (fun e => ¬ isClear e) [EvAuthenticate thisKext])
    by (constructor; [by intros ? | constructor]).
  destruct (bool_decide (auth_result = kKXKextManagerErrorAuthentication)).
  2:{ apply (Hgo _ _ w1 [EvAuthenticate thisKext]); try done. by right. }
  destruct inauth as [l |].
  { apply (Hgo _ _ w1 [EvAuthenticate thisKext]); try done. by right. }
  destruct (disqualify_pending w1 thisKext Hd)
    as (D1 & D2 & D3 & D4 & D5 & D6).
  set (w2 := KXKextManagerDisqualifyKext w1 thisKext) in *.
  assert (Hex2 : Exists isDisqualify
                   [EvAuthenticate thisKext; EvDisqualify thisKext])
    by (apply Exists_cons; right; by apply Exists_cons; left).
  assert (Hc2 : Forall (fun e => ¬ isClear e)
                  [EvAuthenticate thisKext; EvDisqualify thisKext])
    by (repeat constructor; by intros ?).
  assert (Ht2 : trace w2 = trace w
                           ++ [EvAuthenticate thisKext; EvDisqualify thisKext])
    by (rewrite D1; subst w1; cbn; by rewrite <- app_assoc).
  destruct (negb (performsFullTests w2)).
  - cbn [fst snd].
    exists [EvAuthenticate thisKext; EvDisqualify thisKext].
    split; [done |]. split; [done |]. split; [done |]. split; [done |].
    split; [done |]. split; [done |]. split; [done |]. by intros [].
  - apply (Hgo _ _ w2 [EvAuthenticate thisKext; EvDisqualify thisKext]);
      try done. by left.
Qed.
End pending.

Section prepare_pending.
Context (VERS_parse_string : string → Z)
  (resolveDependencies : World → KXKextRef → KXKextManagerError)
  (copyAllDependencies : World → KXKextRef → option (list KXKextRef))
  (authenticate : World → KXKextRef → KXKextManagerError)
  (kmod_get_info : option (list kmod_info)).

Lemma checkLoadedModules_flags (mods : list kmod_info) (w : World) :
  needsClearRelationships w = false →
  needsClearRelationships (checkLoadedModules VERS_parse_string mods w)
  = false.
Proof.
  revert w. induction mods as [| m mods IH]; intros w Hw;
    cbn [checkLoadedModules]; [done |].
  destruct (VERS_parse_string (kmod_version m) <? 0); [by apply IH |].
  unfold KXKextManagerGetKextWithIdentifier,
    __KXKextManagerGetKextWithIdentifierAndVersionNumber.
  fold (relationshipsChecked w).
  destruct (relationshipsChecked_fields w) as (_ & Hc & _).
  set (v := relationshipsChecked w) in *.
  destruct (kmod_next m =? 0); [done | by apply IH].
Qed.

Lemma checkLoadedModules_fresh (mods : list kmod_info) (w : World) :
  needsClearRelationships w = false →
  needsCalculateRelationships w = false →
  trace (checkLoadedModules VERS_parse_string mods w) = trace w.
Proof.
  revert w. induction mods as [| m mods IH]; intros w Hc Hn;
    cbn [checkLoadedModules]; [done |].
  destruct (VERS_parse_string (kmod_version m) <? 0); [by apply IH |].
  rewrite KXKextManagerGetKextWithIdentifier_fresh by done.
  destruct (kmod_next m =? 0); [done |].
  by rewrite IH.
Qed.

(** [_KXKextManagerPrepareKextForLoading] in its parts: the request is
    turned down before the resolver is called, or the resolver is called,
    in [w5], and then the request is turned down or goes through the
    authentication loop with clearing disabled. *)
Lemma prepare_parts (w : World) (aKext : KXKextRef) (check do_load : bool)
    (inauth : option (list KXKextRef)) :
  let r := _KXKextManagerPrepareKextForLoading VERS_parse_string
             resolveDependencies copyAllDependencies authenticate
             kmod_get_info w aKext check do_load inauth in
  grows (beforeResolver w check) w r.2
  ∨ ∃ w5 res5 before,
      trace w5 = trace w ++ before ++ [EvResolveDependencies aKext]
      ∧ Forall (beforeResolver w check) before
      ∧ needsClearRelationships w5 = false
      ∧ clearRelationshipsDisableCount w5 = clearRelationshipsDisableCount w
      ∧ (trace r.2 = trace w5
         ∨ ∃ kextList,
             r.2 = KXKextManagerEnableClearRelationships
                     (authenticateKexts authenticate kextList res5 inauth
                        (KXKextManagerDisableClearRelationships w5)).2).
Proof.
  unfold _KXKextManagerPrepareKextForLoading.
  destruct (negb (KXKextIsValid (kexts w) aKext));
    [left; apply grows_refl |].
  destruct (safeBoot w && negb (KXKextIsEligibleDuringSafeBoot (kexts w) aKext));
    [left; apply grows_refl |].
  destruct (negb (KXKextIsEnabled (kexts w) aKext));
    [left; apply grows_refl |].
  assert (Hclear : stale w → ∀ e, isClear e → beforeResolver w check e)
    by (intros ? [] ?; done).
  set (w1 := if needsClearRelationships w then _ else w).
  assert (H1 : grows (beforeResolver w check) w w1
               ∧ needsClearRelationships w1 = false
               ∧ (needsCalculateRelationships w1 = true → stale w)
               ∧ clearRelationshipsDisableCount w1
                 = clearRelationshipsDisableCount w).
  { subst w1. destruct (needsClearRelationships w) eqn:Hn.
    - split; [| split; [done | split; [by left | done]]].
      eapply grows_trans;
        [eapply grows_impl; [apply Hclear; by left |];
         apply __KXKextManagerClearRelationships_grows |].
      by apply grows_same_trace.
    - split; [apply grows_refl |]. split; [done |].
      split; [by right | done]. }
  destruct H1 as (G1 & N1 & S1 & C1).
  set (w2 := if needsCalculateRelationships w1 then _ else w1).
  assert (H2 : grows (beforeResolver w check) w w2
               ∧ needsClearRelationships w2 = false
               ∧ needsCalculateRelationships w2 = false
               ∧ clearRelationshipsDisableCount w2
                 = clearRelationshipsDisableCount w).
  { subst w2. destruct (needsCalculateRelationships w1) eqn:Hn; [| done].
    destruct (KXKextManagerCalculateVersionRelationships_fields w1)
      as ((_ & Hc & _) & Hn1 & Hn2 & _).
    split; [| split; [done | split; [done | congruence]]].
    eapply grows_trans; [exact G1 |].
    eapply grows_impl; [apply Hclear; by apply S1 |].
    apply KXKextManagerCalculateVersionRelationships_grows. }
  destruct H2 as (G2 & N2 & F2 & C2). clearbody w2. clear w1 G1 N1 S1 C1.
  set (p := if negb check then (kKXKextManagerErrorNone, w2) else _).
  assert (Hp : grows (beforeResolver w check) w p.2
               ∧ needsClearRelationships p.2 = false
               ∧ clearRelationshipsDisableCount p.2
                 = clearRelationshipsDisableCount w).
  { subst p. destruct check; cbn [negb]; [| done].
    pose proof (KXKextManagerCheckForLoadedKexts_steady VERS_parse_string
                  kmod_get_info w2) as [_ (_ & S3 & _)].
    assert (T3 : trace (KXKextManagerCheckForLoadedKexts VERS_parse_string
                          kmod_get_info w2).2
                 = trace w2 ++ [EvKmodGetInfo]
                 ∧ needsClearRelationships
                     (KXKextManagerCheckForLoadedKexts VERS_parse_string
                        kmod_get_info w2).2 = false).
    { unfold KXKextManagerCheckForLoadedKexts.
      destruct kmod_get_info as [mods |]; cbn [snd]; [| done].
      split; [by rewrite checkLoadedModules_fresh |].
      by apply checkLoadedModules_flags. }
    destruct T3 as [T3 N3].
    destruct (KXKextManagerCheckForLoadedKexts _ _ w2) as [res v].
    cbn [snd] in *.
    assert (H : grows (beforeResolver w true) w v
                ∧ needsClearRelationships v = false
                ∧ clearRelationshipsDisableCount v
                  = clearRelationshipsDisableCount w).
    { split; [| split; [done | congruence]].
      eapply grows_trans; [exact G2 |].
      exists [EvKmodGetInfo]. split; [done |]. by repeat constructor. }
    repeat case_match; done. }
  clearbody p. destruct p as [res w3]. cbn [snd] in Hp.
  destruct Hp as (G3 & N3 & C3). cbv beta iota zeta.
  destruct (bool_decide (res = kKXKextManagerErrorNone)); [| by left].
  set (w4 := __KXKextManagerClearDependencyRelationships w3).
  unfold KXKextResolveDependencies.
  set (res5 := resolveDependencies w4 aKext).
  set (w5 := set_kexts _ (emit (EvResolveDependencies aKext) w4)).
  right. destruct G3 as (before & Hb & Fb).
  exists w5, res5, before.
  split; [subst w5 w4; cbn; by rewrite Hb, <- app_assoc |].
  split; [done |]. split; [exact N3 |]. split; [exact C3 |].
  destruct (bool_decide (res5 = kKXKextManagerErrorNone)); [| by left].
  right.
  set (w6 := KXKextManagerDisableClearRelationships w5).
  set (kextList := default [] (copyAllDependencies w6 aKext) ++ [aKext]).
  exists kextList.
  by destruct (authenticateKexts authenticate kextList res5 inauth w6)
    as [[? ?] ?].
Qed.

Lemma beforeResolver_spec (w : World) (check : bool) (e : Event) :
  beforeResolver w check e →
  ¬ isDisqualify e ∧ ¬ isWalkStep e ∧ (¬ stale w → ¬ isClear e).
Proof. destruct e; cbn; tauto. Qed.

Lemma isWalkStep_spec (e : Event) : isWalkStep e → ¬ isClear e.
Proof. destruct e; cbn; tauto. Qed.

Lemma walkEvent_isWalkStep (kextList : list KXKextRef)
    (inauth : option (list KXKextRef)) (e : Event) :
  walkEvent kextList inauth e → ¬ isClear e → isWalkStep e.
Proof. destruct e; cbn; tauto. Qed.

Lemma filter_nil_Forall {A} (P : A → Prop) `{∀ x, Decision (P x)}
    (l : list A) :
  Forall (fun x => ¬ P x) l → filter P l = [].
Proof.
  induction 1 as [| x l Hx _ IH]; [done |].
  by rewrite filter_cons_False.
Qed.

Lemma Exists_Forall_not {A} (P : A → Prop) (l : list A) :
  Forall (fun x => ¬ P x) l → ¬ Exists P l.
Proof. intros HF HE. apply Exists_exists in HE as (x & Hx & HP).
  rewrite Forall_forall in HF. by apply (HF x). Qed.

(** X18.  Disqualification and the deferred clear in
    [_KXKextManagerPrepareKextForLoading], on a manager whose clearing is
    not disabled.  What the call adds to the trace is the query of the
    kernel and the clears of a stale structure only, when the request is
    turned down before the resolver is called.  Otherwise it is, in this
    order: such events; the call of the resolver for the kext; the
    authentications and disqualifications of the loop, between which
    nothing is torn down; and, exactly when the loop has disqualified a
    kext, one structural clear at disable count 0.  After a
    disqualification the candidate set is empty and the relationships are
    to be rebuilt.  On a manager whose relationships were up to date, this
    one clear is the only one of the call, and there is none when nothing
    was disqualified. *)
Theorem prepare_defers_clear (w : World) (aKext : KXKextRef)
    (check do_load : bool) (inauth : option (list KXKextRef)) :
  clearRelationshipsDisableCount w = 0 →
  let r := _KXKextManagerPrepareKextForLoading VERS_parse_string
             resolveDependencies copyAllDependencies authenticate
             kmod_get_info w aKext check do_load inauth in
  let t := drop (length (trace w)) (trace r.2) in
  trace r.2 = trace w ++ t
  ∧ (Forall (beforeResolver w check) t
     ∨ ∃ before loop,
         t = before ++ EvResolveDependencies aKext :: loop
               ++ (if decide (Exists isDisqualify loop)
                   then [EvClearRelationships 0] else [])
         ∧ Forall (beforeResolver w check) before
         ∧ Forall isWalkStep loop)
  ∧ (Exists isDisqualify t →
     candidateKexts r.2 = ∅
     ∧ kextsWithMissingDependencies r.2 = []
     ∧ needsClearRelationships r.2 = false
     ∧ needsCalculateRelationships r.2 = true)
  ∧ (¬ stale w →
     filter isClear t
     = if decide (Exists isDisqualify t)
       then [EvClearRelationships 0] else []).
Proof.
  intros Hcount r t.
  assert (Hquiet : ∀ l, Forall (beforeResolver w check) l →
            ¬ Exists isDisqualify l
            ∧ (¬ stale w → filter isClear l = [])).
  { intros l Hl. split.
    - apply Exists_Forall_not. eapply Forall_impl; [exact Hl |].
      intros e He. by apply (beforeResolver_spec w check e).
    - intros Hs. apply filter_nil_Forall. eapply Forall_impl; [exact Hl |].
      intros e He. by apply (beforeResolver_spec w check e). }
  destruct (prepare_parts w aKext check do_load inauth)
    as [(t0 & Ht & Hq)
       | (w5 & res5 & before & T5 & Fb & N5 & C5 & Hr)];
    fold r in Ht || fold r in Hr.
  { assert (Et : t = t0) by (subst t; by rewrite Ht, drop_app_length).
    rewrite Et. destruct (Hquiet t0 Hq) as [Hnd Hnc].
    split; [done |]. split; [by left |].
    split; [done |]. intros Hs. rewrite decide_False by done. by apply Hnc. }
  destruct (Hquiet before Fb) as [Hnd Hnc].
  assert (Hshape : ∀ loop after,
            Forall isWalkStep loop →
            after = (if decide (Exists isDisqualify loop)
                     then [EvClearRelationships 0] else []) →
            (Exists isDisqualify
               (before ++ EvResolveDependencies aKext :: loop ++ after)
             ↔ Exists isDisqualify loop)
            ∧ (¬ stale w →
               filter isClear
                 (before ++ EvResolveDependencies aKext :: loop ++ after)
               = after)).
  { intros loop after Hl ->. split.
    - rewrite Exists_app, Exists_cons, Exists_app. split; [| tauto].
      intros [? | [[] | [? | Hex]]]; [done | done |].
      destruct (decide _); [done | by apply Exists_nil in Hex].
    - intros Hs. rewrite filter_app, Hnc by done. cbn [app].
      rewrite filter_cons_False by (by intros ?). rewrite filter_app.
      rewrite (filter_nil_Forall isClear loop)
        by (eapply Forall_impl; [exact Hl | apply isWalkStep_spec]).
      cbn [app]. by destruct (decide _). }
  destruct Hr as [Hr | (kextList & Hr)].
  { (* the resolver has failed *)
    assert (Et : t = before ++ [EvResolveDependencies aKext]).
    { subst t. by rewrite Hr, T5, drop_app_length. }
    destruct (Hshape [] [] ltac:(constructor)) as [Hex Hcl].
    { by rewrite decide_False by (by intros ?%Exists_nil). }
    cbn [app] in Hex, Hcl.
    assert (Hno : ¬ Exists isDisqualify t)
      by (rewrite Et; intros ?%Hex; by apply Exists_nil in H).
    split; [by rewrite Hr, T5, Et |].
    split.
    { right. exists before, []. rewrite Et.
      rewrite decide_False by (by intros ?%Exists_nil). done. }
    split; [done |]. intros Hs. rewrite decide_False by done.
    rewrite Et. by apply Hcl. }
  set (w6 := KXKextManagerDisableClearRelationships w5) in Hr.
  assert (C6 : clearRelationshipsDisableCount w6 = 1).
  { subst w6. cbn. by rewrite C5, Hcount. }
  destruct (authenticateKexts_pending authenticate kextList res5 inauth w6
              ltac:(lia))
    as (tw & Hw & Hc & P1 & P2 & P3 & P4 & _ & P6).
  destruct (authenticateKexts_frame authenticate kextList res5 inauth w6)
    as (_ & _ & (tw' & Hw' & Hwalk) & _).
  set (w7 := (authenticateKexts authenticate kextList res5 inauth w6).2) in *.
  assert (tw' = tw) as -> by (rewrite Hw in Hw'; by apply app_inv_head in Hw').
  assert (Hloop : Forall isWalkStep tw).
  { rewrite Forall_forall in Hc, Hwalk. apply Forall_forall. intros e He.
    eapply walkEvent_isWalkStep; [by apply Hwalk | by apply Hc]. }
  assert (T7 : trace w7
               = trace w ++ before ++ EvResolveDependencies aKext :: tw).
  { rewrite Hw. subst w6. cbn. rewrite T5, <- !app_assoc. done. }
  destruct (Hshape tw _ Hloop eq_refl) as [Hex Hcl].
  destruct (decide (Exists isDisqualify tw)) as [Hd | Hno].
  - destruct (P4 Hd) as [N7 _].
    rewrite enable_fires in Hr by (done || congruence).
    destruct (clear_structural (set_clearRelationshipsDisableCount 0 w7))
      as (E1 & E2 & E3 & E4 & E5 & _); [done |].
    assert (Tr : trace r.2
                 = trace w ++ before ++ EvResolveDependencies aKext :: tw
                     ++ [EvClearRelationships 0]).
    { rewrite Hr, E1. cbn. rewrite T7, <- !app_assoc. done. }
    assert (Et : t = before ++ EvResolveDependencies aKext :: tw
                       ++ [EvClearRelationships 0])
      by (subst t; by rewrite Tr, drop_app_length).
    split; [by rewrite Tr, Et |].
    split.
    { right. exists before, tw. rewrite decide_True by done. done. }
    split; [intros _; by rewrite Hr |].
    intros Hs. rewrite Et, decide_True by (by apply Hex). by apply Hcl.
  - destruct (P6 Hno) as [N7 _].
    assert (Hr' : r.2 = set_clearRelationshipsDisableCount 0 w7).
    { assert (N7' : needsClearRelationships w7 = false)
        by (rewrite N7; exact N5).
      rewrite Hr. unfold KXKextManagerEnableClearRelationships.
      rewrite P3, C6. cbn. by rewrite N7'. }
    assert (Tr : trace r.2
                 = trace w ++ before ++ EvResolveDependencies aKext :: tw ++ [])
      by (rewrite Hr'; cbn; by rewrite T7, app_nil_r).
    assert (Et : t = before ++ EvResolveDependencies aKext :: tw ++ [])
      by (subst t; by rewrite Tr, drop_app_length).
    split; [by rewrite Tr, Et |].
    split.
    { right. exists before, tw. rewrite decide_False by done. done. }
    assert (Hno' : ¬ Exists isDisqualify t) by (rewrite Et; tauto).
    split; [done |].
    intros Hs. rewrite Et, decide_False by (by rewrite <- Et). by apply Hcl.
Qed.
End prepare_pending.

Lemma prepare_defers_clear_witness :
  clearRelationshipsDisableCount chain54321 = 0
  ∧ trace (_KXKextManagerPrepareKextForLoading parseExampleVersion
             (resolveAllBut 1) noDependencies (authenticateAllBut 3) None
             chain54321 3 false true None).2
    = [EvResolveDependencies 3; EvAuthenticate 3; EvDisqualify 3;
       EvClearRelationships 0]
  ∧ candidateKexts
      (_KXKextManagerPrepareKextForLoading parseExampleVersion
         (resolveAllBut 1) noDependencies (authenticateAllBut 3) None
         chain54321 3 false true None).2 = ∅.
Proof.
  split; [reflexivity |]. split; [vm_compute; reflexivity |].
  destruct (prepare_defers_clear parseExampleVersion (resolveAllBut 1)
              noDependencies (authenticateAllBut 3) None
              chain54321 3 false true None eq_refl)
    as (_ & _ & H & _).
  apply H. vm_compute. do 2 apply Exists_cons_tl. apply Exists_cons_hd.
  exact I.
Defined.

(** ** A manager that has just been initialised *)

(** X19.  [KXKextManagerInit] succeeds and leaves a manager that knows no
    kext: the list of all kexts is empty, and a lookup by identifier,
    whatever the identifier, rebuilds the (empty) relationships without
    tearing anything else down, finds nothing, and leaves the relationships
    up to date. *)
Theorem init_knows_no_kext (loadInTaskFlag safeBootFlag : bool) (w : World)
    (identifier : string) :
  let i := KXKextManagerInit loadInTaskFlag safeBootFlag w in
  let r := KXKextManagerGetKextWithIdentifier i.2 identifier in
  i.1 = kKXKextManagerErrorNone
  ∧ KXKextManagerCopyAllKexts i.2 = []
  ∧ r.1 = None
  ∧ needsCalculateRelationships r.2 = false
  ∧ candidateKexts r.2 = ∅
  ∧ trace r.2 = trace w ++ [EvClearRelationships 0].
Proof.
  intros i r. split; [done |].
  split.
  { unfold KXKextManagerCopyAllKexts. cbn [i KXKextManagerInit snd
      candidateKexts repositoryList].
    by rewrite map_to_list_empty. }
  assert (Hstale : stale i.2) by (by right).
  destruct (stale_heads i.2 identifier Hstale) as [H1 _].
  split.
  { subst r. unfold KXKextManagerGetKextWithIdentifier,
      __KXKextManagerGetKextWithIdentifierAndVersionNumber.
    fold (relationshipsChecked i.2). cbn [fst].
    destruct (candidateKexts (relationshipsChecked i.2) !! identifier)
      as [k |]; [| done].
    destruct (H1 k eq_refl) as [Hin _]. by apply elem_of_nil in Hin. }
  subst r. unfold KXKextManagerGetKextWithIdentifier,
    __KXKextManagerGetKextWithIdentifierAndVersionNumber.
  cbn [i KXKextManagerInit snd needsClearRelationships
       needsCalculateRelationships].
  unfold KXKextManagerCalculateVersionRelationships,
    __KXKextManagerClearDependencyRelationships,
    __KXKextManagerClearRelationships.
  cbn. done.
Qed.

(** ** Switching to safe boot *)

(** X20.  [KXKextManagerSetSafeBootMode] does not invalidate the
    relationships.  On a manager whose relationships are up to date, after
    the switch to safe boot a lookup still returns the entry of the
    candidate set as it was built, also when this kext is not eligible
    during safe boot, although the rebuild in the new mode would not have it
    as the entry. *)
Theorem safeBoot_switch_not_rebuilt (w : World) (identifier : string)
    (k : KXKextRef) :
  needsClearRelationships w = false →
  needsCalculateRelationships w = false →
  candidateKexts w !! identifier = Some k →
  KXKextIsEligibleDuringSafeBoot (kexts w) k = false →
  let w' := KXKextManagerSetSafeBootMode w true in
  KXKextManagerGetKextWithIdentifier w' identifier = (Some k, w')
  ∧ candidateKexts (KXKextManagerCalculateVersionRelationships w')
      !! identifier ≠ Some k.
Proof.
  intros Hc Hn Hk Hel w'. split.
  - unfold KXKextManagerGetKextWithIdentifier,
      __KXKextManagerGetKextWithIdentifierAndVersionNumber.
    change (needsClearRelationships w') with (needsClearRelationships w).
    rewrite Hc.
    change (needsCalculateRelationships w')
      with (needsCalculateRelationships w).
    rewrite Hn. by rewrite <- Hk.
  - intros Hhead.
    destruct (rebuilt_heads w' w' identifier (steady_refl w')) as [H1 _].
    destruct (H1 k Hhead) as (_ & Hp & _).
    unfold passesTests in Hp.
    change (safeBoot w') with true in Hp.
    change (kexts w') with (kexts w) in Hp.
    rewrite Hel in Hp. cbn in Hp.
    by rewrite andb_false_r in Hp.
Qed.

Lemma safeBoot_switch_not_rebuilt_witness :
  (KXKextManagerGetKextWithIdentifier
     (KXKextManagerSetSafeBootMode debugDriver true) "com.example.debug").1
  = Some 9%nat
  ∧ candidateKexts
      (KXKextManagerCalculateVersionRelationships
         (KXKextManagerSetSafeBootMode debugDriver true))
      !! "com.example.debug" ≠ Some 9%nat.
Proof.
  destruct (safeBoot_switch_not_rebuilt debugDriver "com.example.debug" 9
              eq_refl eq_refl ltac:(vm_compute; reflexivity)
              ltac:(vm_compute; reflexivity)) as [H1 H2].
  split; [by rewrite H1 | exact H2].
Defined.
(** ** Sending personalities to the catalogue *)

Lemma safeForSafeBoot_check (p : Personality) :
  (__KXKextManagerCheckPersonalityForSafeBoot p = 1 ∧ safeForSafeBoot p)
  ∨ (__KXKextManagerCheckPersonalityForSafeBoot p = 0 ∧ ¬ safeForSafeBoot p).
Proof.
  unfold __KXKextManagerCheckPersonalityForSafeBoot, safeForSafeBoot.
  destruct (IOKitDebug p) as [| |n].
  - left. auto.
  - right. split; [done |]. by intros [|].
  - destruct (Z.eqb_spec n 0) as [-> | Hn]; [left; auto | right].
    split; [done |]. intros [[=] | [=]]. done.
Qed.

Lemma choosePersonalities_spec (CFStringGetCString : string → bool)
    (user_veto_func : string → Z) (interactive safeBoot : bool)
    (entries : list (string * Personality))
    (toSend : list Personality) (names : list string) :
  let r := choosePersonalities CFStringGetCString user_veto_func
             interactive safeBoot entries toSend names in
  ∃ seen, r.2 = names ++ (filter (askedAbout interactive safeBoot) seen).*1
    ∧ seen `prefix_of` entries
    ∧ match r.1 with
      | inr l =>
          seen = entries
          ∧ l = toSend
                ++ (filter (chosen user_veto_func interactive safeBoot)
                      entries).*2
          ∧ Forall (fun e => askedAbout interactive safeBoot e
                             → 0 ≤ user_veto_func e.1) entries
      | inl result => result = kKXKextManagerErrorUnspecified
      end.
Proof.
  revert toSend names.
  induction entries as [| [key p] rest IH]; intros toSend names.
  { exists []. cbn. rewrite !app_nil_r. done. }
  remember (filter (chosen user_veto_func interactive safeBoot)
              ((key, p) :: rest)) as ch eqn:Ech.
  remember (Forall (fun e => askedAbout interactive safeBoot e
                             → 0 ≤ user_veto_func e.1) ((key, p) :: rest))
    as fa eqn:Efa.
  cbn.
  destruct (CFStringGetCString key); cbn.
  2: { exists []. cbn. rewrite app_nil_r. split; [done |].
       split; [apply prefix_nil | done]. }
  set (ok0 := if safeBoot then _ else 1).
  assert (Hok0 : (ok0 = 1 ∧ (safeBoot = true → safeForSafeBoot p))
                 ∨ (ok0 = 0 ∧ ¬ (safeBoot = true → safeForSafeBoot p))).
  { subst ok0. destruct safeBoot; [| left; done].
    destruct (safeForSafeBoot_check p) as [[-> H] | [-> H]];
      [left | right]; auto. }
  destruct Hok0 as [[-> Hsafe] | [-> Hsafe]]; cbn.
  - destruct interactive eqn:Ei; cbn.
    + (* asked *)
      assert (Ha : askedAbout true safeBoot (key, p)) by done.
      destruct (Z.gtb_spec (user_veto_func key) 0) as [Hv | Hv].
      * destruct (IH (toSend ++ [p]) (names ++ [key]))
          as (seen & E1 & E2 & E3).
        exists ((key, p) :: seen). rewrite E1.
        rewrite filter_cons_True by done. cbn.
        split; [by rewrite <- app_assoc |].
        split; [by apply prefix_cons |].
        destruct (choosePersonalities _ _ _ _ _ _ _).1 as [e | l]; [done |].
        destruct E3 as (-> & -> & E3).
        split; [done |]. subst ch fa.
        rewrite (filter_cons_True (chosen user_veto_func true safeBoot))
          by (split; [done | cbn; lia]).
        cbn. split; [by rewrite <- app_assoc |].
        constructor; [cbn; lia | done].
      * destruct (Z.ltb_spec (user_veto_func key) 0) as [Hn | Hn]; cbn.
        { exists [(key, p)]. rewrite filter_cons_True by done. cbn.
          split; [done |]. split; [| done].
          by apply prefix_cons, prefix_nil. }
        destruct (IH toSend (names ++ [key])) as (seen & E1 & E2 & E3).
        exists ((key, p) :: seen). rewrite E1.
        rewrite filter_cons_True by done. cbn.
        split; [by rewrite <- app_assoc |].
        split; [by apply prefix_cons |].
        destruct (choosePersonalities _ _ _ _ _ _ _).1 as [e | l]; [done |].
        destruct E3 as (-> & -> & E3).
        split; [done |]. subst ch fa.
        rewrite (filter_cons_False (chosen user_veto_func true safeBoot))
          by (intros [_ H]; cbn in H; specialize (H eq_refl); lia).
        split; [done |]. constructor; [cbn; lia | done].
    + destruct (IH (toSend ++ [p]) names) as (seen & E1 & E2 & E3).
      exists ((key, p) :: seen). rewrite E1.
      rewrite filter_cons_False by (by intros [? _]).
      split; [done |]. split; [by apply prefix_cons |].
      destruct (choosePersonalities _ _ _ _ _ _ _).1 as [e | l]; [done |].
      destruct E3 as (-> & -> & E3).
      split; [done |]. subst ch fa.
      rewrite (filter_cons_True (chosen user_veto_func false safeBoot))
        by (split; [done | done]).
      cbn. split; [by rewrite <- app_assoc |].
      constructor; [by intros [? _] | done].
  - destruct (IH toSend names) as (seen & E1 & E2 & E3).
    exists ((key, p) :: seen). rewrite E1.
    rewrite filter_cons_False by (by intros [_ ?]).
    split; [done |]. split; [by apply prefix_cons |].
    destruct (choosePersonalities _ _ _ _ _ _ _).1 as [e | l]; [done |].
    destruct E3 as (-> & -> & E3).
    split; [done |]. subst ch fa.
    rewrite (filter_cons_False (chosen user_veto_func interactive safeBoot))
      by (by intros [? _]).
    split; [done |]. constructor; [by intros [_ ?] | done].
Qed.
Lemma namedPersonalities_lookup (kextPersonalities : gmap string Personality)
    (personalityNames : list string) (acc m : gmap string Personality) :
  namedPersonalities kextPersonalities personalityNames acc = Some m →
  ∀ name, m !! name = if decide (name ∈ personalityNames)
                      then kextPersonalities !! name else acc !! name.
Proof.
  revert acc. induction personalityNames as [| n rest IH]; intros acc; cbn.
  { intros [= <-] name. by rewrite decide_False by apply not_elem_of_nil. }
  destruct (kextPersonalities !! n) as [p |] eqn:En; [| done].
  intros H name. rewrite (IH _ H name).
  destruct (decide (name ∈ rest)) as [Hr | Hr].
  { by rewrite decide_True by by apply list_elem_of_further. }
  destruct (decide (name = n)) as [-> | Hn].
  - rewrite lookup_insert_eq, decide_True by apply list_elem_of_here. done.
  - rewrite lookup_insert_ne by done.
    rewrite decide_False; [done |]. by intros [| ]%elem_of_cons.
Qed.

(** X21.  What [KXKextManagerSendKextPersonalitiesToCatalog] asks and
    sends.  A kext without personalities gives
    [kKXKextManagerErrorInvalidArgument], nobody asked and nothing sent.
    Otherwise the candidates are the personalities of the kext whose names
    are wanted.  The user is asked at most once about a name, only in an
    interactive request, and only about candidates that safe boot does not
    exclude; a negative answer makes the request fail with nothing sent.
    What is handed to [KXKextManagerSendPersonalitiesToCatalog] is never
    empty and holds exactly the candidates that safe boot does not exclude
    and that the user, when asked, agreed to, and its result is the result
    of the request.  When nothing is sent, the kext had no personalities,
    or the request failed with [kKXKextManagerErrorUnspecified], or no
    candidate qualified and the result is [kKXKextManagerErrorNone]. *)
Theorem send_kext_personalities
    (KXKextCopyPersonalities : KXKextRef → option (gmap string Personality))
    (CFDictionaryGetKeysAndValues
       : gmap string Personality → list (string * Personality))
    (CFStringGetCString : string → bool) (user_veto_func : string → Z)
    (KXKextManagerSendPersonalitiesToCatalog
       : list Personality → KXKextManagerError)
    (aKext : KXKextRef) (personalityNames : option (list string))
    (interactive safeBoot : bool) (o : SendOutcome) :
  (∀ m, CFDictionaryGetKeysAndValues m ≡ₚ map_to_list m) →
  KXKextManagerSendKextPersonalitiesToCatalog KXKextCopyPersonalities
    CFDictionaryGetKeysAndValues CFStringGetCString user_veto_func
    KXKextManagerSendPersonalitiesToCatalog aKext personalityNames
    interactive safeBoot = Some o →
  let candidate name p :=
    ∃ kextPersonalities,
      KXKextCopyPersonalities aKext = Some kextPersonalities
      ∧ kextPersonalities !! name = Some p
      ∧ wanted personalityNames name in
  (KXKextCopyPersonalities aKext = None →
   o = mkSendOutcome kKXKextManagerErrorInvalidArgument [] None)
  ∧ NoDup (asked o)
  ∧ (∀ name, name ∈ asked o →
       ∃ p, candidate name p ∧ askedAbout interactive safeBoot (name, p))
  ∧ (∀ name, name ∈ asked o → user_veto_func name < 0 →
       sent o = None ∧ sendResult o = kKXKextManagerErrorUnspecified)
  ∧ (∀ l, sent o = Some l →
       l ≠ []
       ∧ sendResult o = KXKextManagerSendPersonalitiesToCatalog l
       ∧ ∀ p, p ∈ l ↔
              ∃ name, candidate name p
                      ∧ chosen user_veto_func interactive safeBoot (name, p))
  ∧ (sent o = None →
       (sendResult o = kKXKextManagerErrorInvalidArgument
        ∧ KXKextCopyPersonalities aKext = None)
       ∨ (sendResult o = kKXKextManagerErrorUnspecified
          ∧ KXKextCopyPersonalities aKext ≠ None)
       ∨ (sendResult o = kKXKextManagerErrorNone
          ∧ KXKextCopyPersonalities aKext ≠ None
          ∧ ∀ name p, candidate name p →
              ¬ chosen user_veto_func interactive safeBoot (name, p))).
Proof.
  intros Henum. unfold KXKextManagerSendKextPersonalitiesToCatalog.
  destruct (KXKextCopyPersonalities aKext) as [kextPersonalities |] eqn:HKP.
  2: { intros [= <-]. cbn.
       split; [done |]. split; [constructor |].
       split; [by intros ? ?%elem_of_nil |].
       split; [by intros ? ?%elem_of_nil |].
       split; [done |]. intros _. by left. }
  set (cand := match personalityNames with
               | Some (thisName :: rest) => _ | _ => _ end).
  destruct cand as [m |] eqn:Em; [| done].
  assert (Hm : ∀ name p,
             m !! name = Some p
             ↔ kextPersonalities !! name = Some p
               ∧ wanted personalityNames name).
  { intros name p. subst cand. unfold wanted.
    destruct personalityNames as [[| n rest] |];
      try (injection Em as <-; tauto).
    rewrite (namedPersonalities_lookup _ _ _ _ Em name).
    case_decide; [tauto |]. rewrite lookup_empty. split; [done | tauto]. }
  clear Em cand.
  assert (Hin : ∀ e, e ∈ CFDictionaryGetKeysAndValues m
                     ↔ m !! e.1 = Some e.2).
  { intros [name p]. rewrite (Henum m). apply elem_of_map_to_list. }
  assert (Hnd : NoDup (CFDictionaryGetKeysAndValues m).*1).
  { rewrite (Henum m). apply NoDup_fst_map_to_list. }
  pose proof (choosePersonalities_spec CFStringGetCString user_veto_func
                interactive safeBoot (CFDictionaryGetKeysAndValues m) [] [])
    as (seen & E1 & E2 & E3).
  cbn in E1, E3.
  destruct (choosePersonalities _ _ _ _ _ [] []) as [r names].
  cbn in E1, E3. subst names.
  assert (Hnames : NoDup (filter (askedAbout interactive safeBoot) seen).*1).
  { eapply sublist_NoDup; [exact Hnd |].
    apply fmap_sublist. etrans; [apply sublist_filter |].
    destruct E2 as [k ->]. by apply sublist_inserts_r. }
  assert (Hasked : ∀ name,
             name ∈ (filter (askedAbout interactive safeBoot) seen).*1 →
             ∃ p, (name, p) ∈ seen ∧ askedAbout interactive safeBoot (name, p)).
  { intros name ([n p] & -> & [Ha He]%list_elem_of_filter)%list_elem_of_fmap.
    by exists p. }
  assert (Hseen : ∀ e, e ∈ seen → e ∈ CFDictionaryGetKeysAndValues m).
  { intros e He. destruct E2 as [k E2]. rewrite E2. apply elem_of_app.
    by left. }
  intros Ho.
  pose (candidate := fun (name : string) (p : Personality) =>
          ∃ kp, Some kextPersonalities = Some kp
                ∧ kp !! name = Some p
                ∧ wanted personalityNames name).
  assert (Hc : ∀ name p, candidate name p ↔ m !! name = Some p).
  { intros name p. rewrite Hm. split.
    - by intros (kp & [= <-] & ? & ?).
    - intros [? ?]. by exists kextPersonalities. }
  assert (Hcand : ∀ name,
             name ∈ (filter (askedAbout interactive safeBoot) seen).*1 →
             ∃ p, candidate name p
                  ∧ askedAbout interactive safeBoot (name, p)).
  { intros name (p & Hp & Ha)%Hasked. exists p. split; [| done].
    by apply Hc, (Hin (name, p)), Hseen. }
  split; [done |].
  destruct r as [result | l].
  - injection Ho as <-. subst result. cbn.
    split; [done |]. split; [done |]. split; [done |].
    split; [done |]. intros _. right. by left.
  - destruct E3 as (-> & -> & E3). cbn in *.
    assert (Hl : ∀ p,
               p ∈ (filter (chosen user_veto_func interactive safeBoot)
                      (CFDictionaryGetKeysAndValues m)).*2
               ↔ ∃ name, candidate name p
                         ∧ chosen user_veto_func interactive safeBoot
                             (name, p)).
    { intros p. rewrite list_elem_of_fmap. split.
      - intros ([n q] & -> & [Hch He]%list_elem_of_filter).
        exists n. split; [| done]. by apply Hc, (Hin (n, q)).
      - intros (name & Hcn & Hch). exists (name, p). split; [done |].
        apply list_elem_of_filter. split; [done |]. by apply Hin, Hc. }
    assert (Hveto : ∀ name,
               name ∈ (filter (askedAbout interactive safeBoot)
                         (CFDictionaryGetKeysAndValues m)).*1 →
               ¬ user_veto_func name < 0).
    { intros name (p & Hp & Ha)%Hasked.
      rewrite Forall_forall in E3. specialize (E3 _ Hp Ha). cbn in E3. lia. }
    destruct (filter (chosen user_veto_func interactive safeBoot)
                (CFDictionaryGetKeysAndValues m)).*2 as [| p l] eqn:El.
    + injection Ho as <-. cbn.
      split; [done |]. split; [done |].
      split; [intros name Hn Hv; by destruct (Hveto name) |].
      split; [done |]. intros _. right. right.
      split; [done |]. split; [done |].
      intros name p Hcn Hch.
      eapply not_elem_of_nil, Hl. eauto.
    + injection Ho as <-. cbn.
      split; [done |]. split; [done |].
      split; [intros name Hn Hv; by destruct (Hveto name) |].
      split; [| done]. intros l' [= <-]. done.
Qed.

Lemma send_kext_personalities_witness :
  ∃ o, KXKextManagerSendKextPersonalitiesToCatalog examplePersonalities
         map_to_list (fun _ => true) (fun _ => 1)
         (fun _ => kKXKextManagerErrorNone) 1%nat None true true = Some o
       ∧ asked o = ["Driver"]
       ∧ sent o = Some [mkPersonality "Driver" DebugAbsent]
       ∧ ∀ p, p ∈ [mkPersonality "Driver" DebugAbsent] →
           ∃ name, (∃ kp, examplePersonalities 1%nat = Some kp
                          ∧ kp !! name = Some p ∧ wanted None name)
                   ∧ chosen (fun _ => 1) true true (name, p).
Proof.
  eexists. split; [vm_compute; reflexivity |].
  split; [reflexivity |]. split; [reflexivity |].
  intros p Hp.
  eapply (send_kext_personalities examplePersonalities map_to_list
            (fun _ => true) (fun _ => 1) (fun _ => kKXKextManagerErrorNone)
            1%nat None true true);
    [reflexivity | vm_compute; reflexivity | reflexivity | exact Hp].
Defined.

(** X22.  [KXKextManagerCopyAllKextPersonalities] on a manager whose
    relationships are stale rebuilds them first.  Every personality it
    returns is one of a candidate kext that passes the tests and that no
    other such kext with the same identifier exceeds in version: the
    personalities of older versions are not offered.  Conversely, for every
    candidate kext that passes the tests, the personalities of one such
    kext of its identifier are all returned. *)
Theorem copyAllKextPersonalities_heads
    (CFDictionaryGetValues : gmap string KXKextRef → list KXKextRef)
    (KXKextCopyPersonalitiesArray : KXKextRef → option (list Personality))
    (w : World) :
  (∀ m, CFDictionaryGetValues m ≡ₚ (map_to_list m).*2) →
  stale w →
  let r := KXKextManagerCopyAllKextPersonalities CFDictionaryGetValues
             KXKextCopyPersonalitiesArray w in
  r.2 = relationshipsChecked w
  ∧ (∀ p, p ∈ r.1 →
       ∃ id k personalities,
         headOf w id (allCandidates w) k
         ∧ KXKextCopyPersonalitiesArray k = Some personalities
         ∧ p ∈ personalities)
  ∧ (∀ k, k ∈ allCandidates w → passesTests w k = true →
       ∃ k', headOf w (KXKextGetBundleIdentifier (kexts w) k)
               (allCandidates w) k'
             ∧ ∀ personalities p,
                 KXKextCopyPersonalitiesArray k' = Some personalities →
                 p ∈ personalities → p ∈ r.1).
Proof.
  intros Henum Hstale r. subst r.
  unfold KXKextManagerCopyAllKextPersonalities. cbv zeta.
  fold (relationshipsChecked w). cbn [fst snd].
  split; [done |].
  assert (Hin : ∀ k, k ∈ CFDictionaryGetValues
                           (candidateKexts (relationshipsChecked w))
                     ↔ ∃ id, candidateKexts (relationshipsChecked w) !! id
                             = Some k).
  { intros k. rewrite (Henum _), list_elem_of_fmap. split.
    - intros ([id k'] & -> & H%elem_of_map_to_list). by exists id.
    - intros [id H]. exists (id, k). split; [done |].
      by apply elem_of_map_to_list. }
  split.
  - intros p (k & Hk & Hp)%list_elem_of_In%in_flat_map.
    apply list_elem_of_In, Hin in Hk as [id Hid].
    destruct (KXKextCopyPersonalitiesArray k) as [l |] eqn:El;
      [| by destruct Hp].
    exists id, k, l. split; [| split; [done | by apply list_elem_of_In]].
    by apply (stale_heads w id Hstale).
  - intros k Hk Hp.
    set (id := KXKextGetBundleIdentifier (kexts w) k).
    destruct (candidateKexts (relationshipsChecked w) !! id) as [k' |]
      eqn:Eid.
    2: { by destruct (proj2 (stale_heads w id Hstale) Eid k Hk Hp). }
    exists k'. split; [by apply (stale_heads w id Hstale) |].
    intros l p El Hl. apply list_elem_of_In, in_flat_map.
    exists k'. split.
    + apply list_elem_of_In, Hin. by exists id.
    + rewrite El. by apply list_elem_of_In.
Qed.

Lemma copyAllKextPersonalities_heads_witness :
  stale chain54321Stale
  ∧ (KXKextManagerCopyAllKextPersonalities valuesInKeyOrder
       examplePersonalitiesArray chain54321Stale).1
    = [mkPersonality "Driver" DebugAbsent]
  ∧ (KXKextManagerCopyAllKextPersonalities valuesInKeyOrder
       examplePersonalitiesArray chain54321Stale).2
    = relationshipsChecked chain54321Stale.
Proof.
  assert (H : stale chain54321Stale) by (by right).
  split; [exact H |]. split; [vm_compute; reflexivity |].
  apply (copyAllKextPersonalities_heads valuesInKeyOrder
           examplePersonalitiesArray chain54321Stale); [| exact H].
  reflexivity.
Defined.

(** ** Rejecting a target that the kernel lists *)


Section load_rejection.
Context (VERS_parse_string : string → Z)
  (resolveDependencies : World → KXKextRef → KXKextManagerError)
  (copyAllDependencies : World → KXKextRef → option (list KXKextRef))
  (authenticate : World → KXKextRef → KXKextManagerError)
  (loaded_modules : list kmod_info).

End load_rejection.



(** ** What a rebuild holds *)

Lemma linksWithin_alter_prior (P : KXKextRef → Prop)
    (heap : gmap nat KXKext) (k : KXKextRef) (o : option KXKextRef) :
  (∀ p, o = Some p → P p) →
  linksWithin P heap →
  linksWithin P (_KXKextSetPriorVersionKext k o heap).
Proof.
  intros Ho Hin j x Hj. unfold _KXKextSetPriorVersionKext.
  destruct (decide (j = k)) as [-> | Hne].
  - rewrite lookup_alter_eq. destruct (heap !! k) as [y |] eqn:Hy; [| done].
    intros [= <-]. cbn. split; [done |]. by apply (Hin k y).
  - rewrite lookup_alter_ne by done. by apply Hin.
Qed.

Lemma linksWithin_alter_duplicate (P : KXKextRef → Prop)
    (heap : gmap nat KXKext) (k : KXKextRef) (o : option KXKextRef) :
  (∀ p, o = Some p → P p) →
  linksWithin P heap →
  linksWithin P (_KXKextSetDuplicateVersionKext k o heap).
Proof.
  intros Ho Hin j x Hj. unfold _KXKextSetDuplicateVersionKext.
  destruct (decide (j = k)) as [-> | Hne].
  - rewrite lookup_alter_eq. destruct (heap !! k) as [y |] eqn:Hy; [| done].
    intros [= <-]. cbn. split; [| done]. by apply (Hin k y).
  - rewrite lookup_alter_ne by done. by apply Hin.
Qed.

Lemma addDuplicateVersionKext_within (P : KXKextRef → Prop) (fuel : nat) :
  ∀ (aKext newKext : KXKextRef) (heap : gmap nat KXKext),
    P newKext → linksWithin P heap →
    linksWithin P (addDuplicateVersionKext fuel aKext newKext heap).
Proof.
  induction fuel as [| fuel IH]; intros aKext newKext heap Hn Hin; cbn;
    [done |].
  destruct (KXKextGetDuplicateVersionKext heap aKext) as [d |].
  - by apply IH.
  - apply linksWithin_alter_duplicate; [| done]. by intros ? [= <-].
Qed.

Lemma addPriorOrDuplicateVersionKext_within (P : KXKextRef → Prop)
    (fuel : nat) :
  ∀ (thisKext : KXKextRef) (lastKext : option KXKextRef)
    (priorKext : KXKextRef) (heap : gmap nat KXKext),
    P thisKext → P priorKext → linksWithin P heap →
    linksWithin P
      (addPriorOrDuplicateVersionKext fuel thisKext lastKext priorKext heap).
Proof.
  induction fuel as [| fuel IH];
    intros thisKext lastKext priorKext heap Ht Hp Hin;
    cbn [addPriorOrDuplicateVersionKext]; [done |].
  destruct (_ =? _); [by apply addDuplicateVersionKext_within |].
  destruct (_ >? _).
  { apply linksWithin_alter_prior; [by intros ? [= <-] |].
    destruct lastKext as [l |]; [| done].
    apply linksWithin_alter_prior; [by intros ? [= <-] | done]. }
  destruct (KXKextGetPriorVersionKext heap thisKext) as [nextKext |] eqn:Hn.
  - apply IH; [| done | done].
    unfold KXKextGetPriorVersionKext in Hn.
    destruct (heap !! thisKext) as [x |] eqn:Hx; [| done]. cbn in Hn.
    destruct (Hin thisKext x Ht Hx) as [H1 _]. by apply H1.
  - apply linksWithin_alter_prior; [by intros ? [= <-] | done].
Qed.

Lemma calculateKext_within (P : KXKextRef → Prop) (w : World)
    (thisKext : KXKextRef) :
  (passesTests w thisKext = true → P thisKext) →
  structureWithin P w → structureWithin P (calculateKext w thisKext).
Proof.
  intros Hp [Hheads Hlinks].
  destruct (passesTests w thisKext) eqn:Hpass;
    [| by rewrite calculateKext_passes].
  specialize (Hp eq_refl).
  split.
  - rewrite calculateKext_candidates by done. intros id head.
    destruct (candidateKexts w !! _) as [alreadyKext |] eqn:Ha.
    + destruct (_ >? _); [| by apply Hheads].
      destruct (decide (KXKextGetBundleIdentifier (kexts w) thisKext = id))
        as [<- | Hne].
      * rewrite lookup_insert_eq. by intros [= <-].
      * rewrite lookup_insert_ne by done. by apply Hheads.
    + destruct (decide (KXKextGetBundleIdentifier (kexts w) thisKext = id))
        as [<- | Hne].
      * rewrite lookup_insert_eq. by intros [= <-].
      * rewrite lookup_insert_ne by done. by apply Hheads.
  - revert Hpass. unfold passesTests, calculateKext.
    destruct (KXKextIsValid (kexts w) thisKext); [| done].
    destruct (KXKextGetLoadFailed (kexts w) thisKext); [done |].
    destruct (safeBoot w
              && negb (KXKextIsEligibleDuringSafeBoot (kexts w) thisKext));
      [done |].
    destruct (KXKextIsEnabled (kexts w) thisKext); [| done]. intros _.
    cbn [negb].
    destruct (candidateKexts w !! _) as [alreadyKext |] eqn:Ha; [| done].
    destruct (_ >? _); cbn [kexts set_kexts set_candidateKexts].
    + apply linksWithin_alter_prior; [| done].
      intros ? [= <-]. by eapply Hheads.
    + apply addPriorOrDuplicateVersionKext_within; [| done | done].
      by eapply Hheads.
Qed.

Lemma structureWithin_fold (P : KXKextRef → Prop) (w : World)
    (ks : list KXKextRef) :
  ∀ u : World,
    steady w u →
    (∀ k, k ∈ ks → passesTests w k = true → P k) →
    structureWithin P u →
    structureWithin P (fold_left calculateKext ks u).
Proof.
  induction ks as [| k ks IH]; intros u Hs HP Hin; cbn; [done |].
  apply IH.
  - eapply steady_trans; [exact Hs | apply calculateKext_steady].
  - intros j Hj. apply HP. by apply list_elem_of_further.
  - apply calculateKext_within; [| done].
    rewrite (passesTests_steady w u k Hs). apply HP, list_elem_of_here.
Qed.

Lemma foldr_alter_establishes (f : KXKext → KXKext) (Q : KXKext → Prop)
    (l : list nat) (heap : gmap nat KXKext) (k : nat) (x' : KXKext) :
  (∀ x, Q (f x)) →
  k ∈ l ∨ (∀ x, heap !! k = Some x → Q x) →
  foldr (alter f) heap l !! k = Some x' → Q x'.
Proof.
  intros Hf. revert x'.
  induction l as [| j l IH]; intros x' Hin; cbn.
  - destruct Hin as [Hin | Hheap]; [by apply elem_of_nil in Hin | by apply Hheap].
  - destruct (decide (j = k)) as [-> | Hne].
    + rewrite lookup_alter_eq. destruct (foldr _ heap l !! k); [| done].
      intros [= <-]. apply Hf.
    + rewrite lookup_alter_ne by done. apply IH.
      destruct Hin as [Hin | Hheap]; [| by right].
      apply elem_of_cons in Hin as [-> | Hin]; [done | by left].
Qed.

Lemma clear_repositories_links (rs : list KXKextRepository) :
  ∀ (heap : gmap nat KXKext) (k : KXKextRef) (x' : KXKext),
    k ∈ flat_map repoKexts rs
    ∨ (∀ x, heap !! k = Some x →
         priorVersionKext x = None ∧ duplicateVersionKext x = None) →
    fold_left (fun heap r => _KXKextRepositoryClearRelationships r heap)
      rs heap !! k = Some x' →
    priorVersionKext x' = None ∧ duplicateVersionKext x' = None.
Proof.
  induction rs as [| r rs IH]; intros heap k x' Hin; cbn.
  - destruct Hin as [Hin | Hheap]; [by apply elem_of_nil in Hin | by apply Hheap].
  - apply IH. destruct Hin as [Hin | Hheap].
    + cbn in Hin. apply elem_of_app in Hin as [Hin | Hin]; [| by left].
      right. intros x.
      apply (foldr_alter_establishes clearVersionRelationships
               (fun y => priorVersionKext y = None
                         ∧ duplicateVersionKext y = None)); [done |].
      by left.
    + right. intros x.
      apply (foldr_alter_establishes clearVersionRelationships
               (fun y => priorVersionKext y = None
                         ∧ duplicateVersionKext y = None)); [done |].
      by right.
Qed.

Lemma clear_dependencies_links (rs : list KXKextRepository)
    (h : gmap nat KXKext) :
  heap_rel same_links h
    (fold_left
       (fun heap r => _KXKextRepositoryClearDependencyRelationships r heap)
       rs h).
Proof.
  apply heap_rel_fold_left; [apply _ ..|]. intros h0 r.
  by apply heap_rel_foldr_alter; [apply _ ..|].
Qed.

(** What [KXKextManagerCalculateVersionRelationships] builds holds
    candidate kexts that pass the tests, and nothing else. *)
Lemma rebuilt_within (w v : World) :
  steady w v →
  structureWithin
    (fun k => k ∈ allCandidates w ∧ passesTests w k = true)
    (KXKextManagerCalculateVersionRelationships v).
Proof.
  intros Hwv.
  unfold KXKextManagerCalculateVersionRelationships. cbv zeta.
  set (u := __KXKextManagerClearDependencyRelationships
              (__KXKextManagerClearRelationships v)).
  assert (Hs : steady v u).
  { eapply steady_trans; [apply __KXKextManagerClearRelationships_steady |].
    apply __KXKextManagerClearDependencyRelationships_steady. }
  assert (Hr : repositoryList u = repositoryList v) by apply Hs.
  assert (Hrw : repositoryList v = repositoryList w) by apply Hwv.
  rewrite Hr, fold_left_flat_map. fold (allCandidates v).
  assert (Hc : allCandidates v = allCandidates w)
    by (unfold allCandidates; by rewrite Hrw).
  set (P := fun k => k ∈ allCandidates w ∧ passesTests w k = true).
  assert (Hu : structureWithin P u).
  { split; [done |]. intros k x [Hk _] Hx.
    assert (Hnone : priorVersionKext x = None ∧ duplicateVersionKext x = None).
    { subst u. cbn in Hx.
      match type of Hx with
      | fold_left _ _ ?h !! k = Some x =>
          destruct (heap_rel_lookup_r same_links h _ k x
                      (clear_dependencies_links _ h) Hx)
            as (y & Hy & [E1 E2])
      end.
      rewrite <- E1, <- E2.
      eapply (clear_repositories_links (repositoryList v)); [| exact Hy].
      left. rewrite Hrw. unfold allCandidates in Hk.
      apply list_elem_of_In, in_flat_map in Hk as (r & Hr1 & Hr2).
      apply list_elem_of_In, in_flat_map. exists r. split; [done |].
      unfold repoKexts. apply in_or_app. by left. }
    destruct Hnone as [-> ->]. done. }
  pose proof (structureWithin_fold P w (allCandidates v) u
                (steady_trans _ _ _ Hwv Hs)) as H.
  rewrite Hc in H |- *.
  by apply H.
Qed.

Lemma linked_within (P : KXKextRef → Prop) (heap : gmap nat KXKext)
    (k j : KXKextRef) :
  linksWithin P heap → linked heap k j → P k → P j.
Proof.
  intros Hin. induction 1 as [| k x p j Hk Hp _ IH | k x d j Hk Hd _ IH];
    intros Pk; [done | |]; apply IH.
  - destruct (Hin k x Pk Hk) as [H1 _]. by apply H1.
  - destruct (Hin k x Pk Hk) as [_ H2]. by apply H2.
Qed.

Lemma rebuilt_reachable (w v : World) (k : KXKextRef) :
  steady w v →
  reachable (KXKextManagerCalculateVersionRelationships v) k →
  k ∈ allCandidates w ∧ passesTests w k = true.
Proof.
  intros Hs (id & head & Hh & Hl).
  destruct (rebuilt_within w v Hs) as [Hheads Hlinks].
  eapply (linked_within _ _ _ _ Hlinks Hl). by eapply Hheads.
Qed.

(** The candidate structure after the check of stale relationships. *)
Lemma stale_reachable (w : World) (k : KXKextRef) :
  stale w →
  reachable (relationshipsChecked w) k →
  k ∈ allCandidates w ∧ passesTests w k = true.
Proof.
  intros Hstale.
  destruct (relationshipsChecked_stale w Hstale) as (v & Hs & ->).
  by apply rebuilt_reachable.
Qed.

Lemma linkChain_linked (heap : gmap nat KXKext)
    (next : KXKext → option KXKextRef) (o : option KXKextRef)
    (l : list KXKextRef) :
  (∀ k x p j, heap !! k = Some x → next x = Some p →
     linked heap p j → linked heap k j) →
  linkChain next heap o l →
  ∀ k j, o = Some k → j ∈ l → linked heap k j.
Proof.
  intros Hnext. induction 1 as [| k x l Hk Hl IH]; intros k0 j Ho Hj.
  - by apply elem_of_nil in Hj.
  - injection Ho as <-. apply elem_of_cons in Hj as [-> | Hj];
      [constructor |].
    destruct (next x) as [p |] eqn:Hp.
    + eapply Hnext; [done | done |]. by apply IH.
    + inversion Hl; subst. by apply elem_of_nil in Hj.
Qed.

(** A member of a tree under an entry of the candidate set is in the
    candidate structure. *)
Lemma memberUnder_reachable (w : World) (id : string) (k : KXKextRef) :
  memberUnder w id k → reachable w k.
Proof.
  intros (head & ll & Hh & Ht & Hk). exists id, head. split; [done |].
  clear Hh. remember (Some head) as o eqn:Ho. revert head Ho.
  induction Ht as [| k0 x dl ll Hk0 Hd Ht IH]; intros head Ho;
    [done |].
  injection Ho as <-. cbn in Hk. apply elem_of_app in Hk as [Hk | Hk].
  - eapply (linkChain_linked _ duplicateVersionKext); [| exact Hd | done | done].
    intros. by eapply linked_duplicate.
  - destruct (priorVersionKext x) as [p |] eqn:Hp.
    + eapply linked_prior; [done | done |]. by apply IH.
    + inversion Ht; subst. by apply elem_of_nil in Hk.
Qed.


(** ** Reading a stale candidate set *)

(** C2.  On the example chain after a structural clear the relationships
    are to be rebuilt and the candidate set is empty.
    [KXKextManagerCopyAllKexts] and
    [KXKextManagerResolveAllKextDependencies] read the candidate set as it
    is, without the check of the stale flags: the first returns no kext,
    where it returns the five kexts once the relationships are checked;
    the second asks no kext to resolve its dependencies and leaves the
    manager as it is, the rebuild still to be done.
    [KXKextManagerCopyKextsWithIdentifier], which makes the check, returns
    the five kexts. *)
Theorem C2_stale_structure_read :
  needsCalculateRelationships chain54321Cleared = true
  ∧ candidateKexts chain54321Cleared = ∅
  ∧ KXKextManagerCopyAllKexts chain54321Cleared = []
  ∧ KXKextManagerCopyAllKexts (relationshipsChecked chain54321Cleared)
    = [5; 4; 3; 2; 1]%nat
  ∧ (KXKextManagerCopyKextsWithIdentifier chain54321Cleared
       "com.example.driver").1 = [5; 4; 3; 2; 1]%nat
  ∧ KXKextManagerResolveAllKextDependencies (resolveAllBut 3)
      chain54321Cleared = chain54321Cleared.
Proof. vm_compute. repeat split. Qed.

(** ** A kext that fails authentication *)

Lemma shrunk_refl (rs : list KXKextRepository) : shrunk rs rs.
Proof. split; [done |]. intros i repo repo' H [= <-]%(eq_trans (eq_sym H)). done. Qed.

Lemma shrunk_trans (rs1 rs2 rs3 : list KXKextRepository) :
  shrunk rs1 rs2 → shrunk rs2 rs3 → shrunk rs1 rs3.
Proof.
  intros [L1 H1] [L2 H2]. split; [congruence |].
  intros i repo repo3 Hi H3.
  destruct (lookup_lt_is_Some_2 rs2 i) as [repo2 Hi2].
  { rewrite L1. by eapply lookup_lt_Some. }
  destruct (H1 i repo repo2 Hi Hi2) as [A1 B1].
  destruct (H2 i repo2 repo3 Hi2 H3) as [A2 B2].
  split; [by etrans | by etrans].
Qed.

Lemma KXKextManagerClearRelationships_repositories (w : World) :
  repositoryList (KXKextManagerClearRelationships w) = repositoryList w.
Proof. unfold KXKextManagerClearRelationships. by case_match. Qed.

Lemma KXKextManagerDisqualifyKext_shrunk (w : World) (k : KXKextRef) :
  shrunk (repositoryList w)
    (repositoryList (KXKextManagerDisqualifyKext w k)).
Proof.
  unfold KXKextManagerDisqualifyKext, _KXKextRepositoryDisqualifyKext.
  rewrite KXKextManagerClearRelationships_repositories. cbn [kexts emit].
  set (r := KXKextGetRepository (kexts w) k).
  cbn [repositoryList emit].
  destruct (repositoryList w !! r) as [repo |] eqn:Hr; cbn;
    [| apply shrunk_refl].
  split; [by rewrite length_insert |].
  intros i repo0 repo' Hi.
  destruct (decide (i = r)) as [-> | Hne].
  - rewrite list_lookup_insert_eq by (by eapply lookup_lt_Some).
    intros [= <-]. cbn. rewrite Hr in Hi. injection Hi as <-.
    split.
    + intros x [_ ?]%list_elem_of_filter. done.
    + intros x Hx. apply elem_of_app. by left.
  - rewrite list_lookup_insert_ne by done. rewrite Hi. by intros [= <-].
Qed.

Section walk_repositories.
Context (authenticate : World → KXKextRef → KXKextManagerError).

(** Along the authentication loop kexts only leave the candidates of
    their repositories, and a rebuild once asked for stays asked for. *)
Lemma authenticateKexts_shrunk (kextList : list KXKextRef) :
  ∀ (result : KXKextManagerError) (inauth : option (list KXKextRef))
    (w : World),
    let r := authenticateKexts authenticate kextList result inauth w in
    shrunk (repositoryList w) (repositoryList r.2)
    ∧ (needsCalculateRelationships w = true →
       needsCalculateRelationships r.2 = true).
Proof.
  induction kextList as [| thisKext rest IH]; intros result inauth w r;
    subst r.
  { cbn. split; [apply shrunk_refl | done]. }
  cbn [authenticateKexts].
  destruct (KXKextOtherVersionIsLoaded (kexts w) thisKext
            && negb (performsFullTests w));
    [split; [apply shrunk_refl | done] |].
  destruct (negb (KXKextIsAuthentic (kexts w) thisKext)); [| apply IH].
  unfold KXKextAuthenticate.
  set (w1 := set_kexts _ (emit (EvAuthenticate thisKext) w)).
  assert (H1 : repositoryList w1 = repositoryList w
               ∧ needsCalculateRelationships w1
                 = needsCalculateRelationships w) by done.
  destruct H1 as [R1 N1].
  assert (Hgo : ∀ result2 i,
            let r := authenticateKexts authenticate rest result2 i w1 in
            shrunk (repositoryList w) (repositoryList r.2)
            ∧ (needsCalculateRelationships w = true →
               needsCalculateRelationships r.2 = true)).
  { intros result2 i. rewrite <- R1, <- N1. apply IH. }
  destruct (bool_decide (_ = kKXKextManagerErrorAuthentication));
    [| apply Hgo].
  destruct inauth as [l |]; [apply Hgo |].
  set (w2 := KXKextManagerDisqualifyKext w1 thisKext).
  assert (H2 : shrunk (repositoryList w) (repositoryList w2)
               ∧ needsCalculateRelationships w2 = true).
  { split.
    - rewrite <- R1. apply KXKextManagerDisqualifyKext_shrunk.
    - by destruct (KXKextManagerDisqualifyKext_spec w1 thisKext)
        as (_ & _ & _ & ? & _). }
  destruct H2 as [S2 N2].
  destruct (negb (performsFullTests w2)); [done |].
  match goal with |- context [authenticateKexts _ rest ?res None w2] =>
    destruct (IH res None w2) as [S3 N3]
  end.
  split; [by eapply shrunk_trans | auto].
Qed.

(** With a container for the inauthentic kexts the loop only calls the
    authenticator. *)
Lemma authenticateKexts_container (kextList : list KXKextRef) :
  ∀ (result : KXKextManagerError) (l : list KXKextRef) (w : World),
    let r := authenticateKexts authenticate kextList result (Some l) w in
    candidateKexts r.2 = candidateKexts w
    ∧ kextsWithMissingDependencies r.2 = kextsWithMissingDependencies w
    ∧ needsClearRelationships r.2 = needsClearRelationships w
    ∧ needsCalculateRelationships r.2 = needsCalculateRelationships w
    ∧ ∃ t, trace r.2 = trace w ++ t
           ∧ Forall (fun e => ∃ k, e = EvAuthenticate k ∧ k ∈ kextList) t.
Proof.
  induction kextList as [| thisKext rest IH]; intros result l w r; subst r.
  { cbn. do 4 (split; [done |]). exists []. by rewrite app_nil_r. }
  assert (Hfurther : ∀ t : list Event,
            Forall (fun e => ∃ k, e = EvAuthenticate k ∧ k ∈ rest) t →
            Forall (fun e => ∃ k, e = EvAuthenticate k
                                  ∧ k ∈ thisKext :: rest) t).
  { intros t Ht. eapply Forall_impl; [exact Ht |]. intros e (k & -> & Hk).
    exists k. split; [done | by apply list_elem_of_further]. }
  cbn [authenticateKexts].
  destruct (KXKextOtherVersionIsLoaded (kexts w) thisKext
            && negb (performsFullTests w)).
  { cbn. do 4 (split; [done |]). exists []. by rewrite app_nil_r. }
  destruct (negb (KXKextIsAuthentic (kexts w) thisKext)).
  2:{ match goal with |- context [authenticateKexts _ rest ?res (Some l) w] =>
        destruct (IH res l w) as (? & ? & ? & ? & t & ? & ?)
      end.
      do 4 (split; [done |]). exists t. split; [done | by apply Hfurther]. }
  unfold KXKextAuthenticate.
  set (w1 := set_kexts _ (emit (EvAuthenticate thisKext) w)).
  assert (Hgo : ∀ result2 l2,
            let r := authenticateKexts authenticate rest result2 (Some l2)
                       w1 in
            candidateKexts r.2 = candidateKexts w
            ∧ kextsWithMissingDependencies r.2
              = kextsWithMissingDependencies w
            ∧ needsClearRelationships r.2 = needsClearRelationships w
            ∧ needsCalculateRelationships r.2 = needsCalculateRelationships w
            ∧ ∃ t, trace r.2 = trace w ++ t
                   ∧ Forall (fun e => ∃ k, e = EvAuthenticate k
                                           ∧ k ∈ thisKext :: rest) t).
  { intros result2 l2.
    destruct (IH result2 l2 w1) as (H1 & H2 & H3 & H4 & t & H5 & H6).
    do 4 (split; [done |]). exists (EvAuthenticate thisKext :: t).
    split; [rewrite H5; subst w1; cbn; by rewrite <- app_assoc |].
    constructor; [| by apply Hfurther].
    exists thisKext. split; [done | apply list_elem_of_here]. }
  destruct (bool_decide (_ = kKXKextManagerErrorAuthentication));
    apply Hgo.
Qed.

(** The loop at a kext that it does not pass over calls the authenticator
    for it first. *)
Lemma authenticateKexts_head_event (thisKext : KXKextRef)
    (rest : list KXKextRef) (result : KXKextManagerError)
    (inauth : option (list KXKextRef)) (w : World) :
  KXKextOtherVersionIsLoaded (kexts w) thisKext && negb (performsFullTests w)
    = false →
  KXKextIsAuthentic (kexts w) thisKext = false →
  ∃ t, trace (authenticateKexts authenticate (thisKext :: rest) result
                inauth w).2
       = trace w ++ EvAuthenticate thisKext :: t.
Proof.
  intros Hreach Hauth. cbn [authenticateKexts].
  rewrite Hreach, Hauth. cbn [negb].
  unfold KXKextAuthenticate.
  set (w1 := set_kexts _ (emit (EvAuthenticate thisKext) w)).
  assert (T1 : trace w1 = trace w ++ [EvAuthenticate thisKext]) by done.
  assert (Hgo : ∀ result2 i v,
            (∃ t, trace v = trace w1 ++ t) →
            ∃ t, trace (authenticateKexts authenticate rest result2 i v).2
                 = trace w ++ EvAuthenticate thisKext :: t).
  { intros result2 i v [t0 Hv].
    destruct (authenticateKexts_frame authenticate rest result2 i v)
      as (_ & _ & (t & Ht & _) & _).
    exists (t0 ++ t). rewrite Ht, Hv, T1, <- !app_assoc. done. }
  assert (H1 : ∃ t, trace w1 = trace w1 ++ t)
    by (exists []; by rewrite app_nil_r).
  destruct (bool_decide (_ = kKXKextManagerErrorAuthentication));
    [| by apply Hgo].
  destruct inauth as [l |]; [by apply Hgo |].
  set (w2 := KXKextManagerDisqualifyKext w1 thisKext).
  assert (H2 : ∃ t, trace w2 = trace w1 ++ t).
  { destruct (KXKextManagerDisqualifyKext_spec w1 thisKext)
      as (_ & _ & _ & _ & _ & t & Ht & _). eauto. }
  destruct (negb (performsFullTests w2)); [| by apply Hgo].
  cbn. destruct H2 as [t Ht]. exists t. by rewrite Ht, T1, <- app_assoc.
Qed.
End walk_repositories.

Section authentication_failure.
Context (authenticate : World → KXKextRef → KXKextManagerError).

(** C8.  The walk is at [thisKext], which is not yet authentic, has not
    been stopped by a version conflict, and fails authentication with
    [kKXKextManagerErrorAuthentication]; [out] is what the walk over
    [thisKext] and the rest of the list returns in the end.  The result is
    an error.  With a container for inauthentic kexts, the kext is in the
    container that is returned, right after what the container held,
    followed by kexts of the rest of the list only; no repository, nor the
    candidate set, nor a stale flag has changed, nothing is disqualified,
    and the walk has gone on: when the next kext of the list is not
    authentic and not passed over, the authenticator is called for it
    next.  Without a container, the kext is disqualified right after the
    call of the authenticator; when the walk returns it is among the bad
    kexts of its repository and not among its candidates, a rebuild of the
    relationships is asked for, and, the kext being a candidate of no other
    repository, it is no candidate at all and the links lead to it from no
    entry of the candidate set that the next lookup rebuilds; the walk has
    stopped there when full tests are off, adding nothing but a structural
    clear, and has gone on with the rest of the list when they are on. *)
Theorem C8_authentication_failure (thisKext : KXKextRef)
    (rest : list KXKextRef) (result : KXKextManagerError)
    (inauthenticKexts : option (list KXKextRef)) (w : World) :
  KXKextOtherVersionIsLoaded (kexts w) thisKext && negb (performsFullTests w)
    = false →
  KXKextIsAuthentic (kexts w) thisKext = false →
  authenticate w thisKext = kKXKextManagerErrorAuthentication →
  let result1 :=
    if KXKextOtherVersionIsLoaded (kexts w) thisKext then
      if bool_decide
           (result = kKXKextManagerErrorNone
            ∨ result = kKXKextManagerErrorDependencyLoadedVersionDiffers)
      then kKXKextManagerErrorDependencyLoadedVersionDiffers
      else kKXKextManagerErrorUnspecified
    else result in
  let result2 :=
    if bool_decide
         (result1 = kKXKextManagerErrorNone
          ∨ result1 = kKXKextManagerErrorAuthentication)
    then kKXKextManagerErrorAuthentication
    else kKXKextManagerErrorUnspecified in
  let w1 := (KXKextAuthenticate authenticate w thisKext).2 in
  let w2 := KXKextManagerDisqualifyKext w1 thisKext in
  let r := KXKextGetRepository (kexts w) thisKext in
  let out :=
    authenticateKexts authenticate (thisKext :: rest) result
      inauthenticKexts w in
  out.1.1 ≠ kKXKextManagerErrorNone
  ∧ match inauthenticKexts with
    | Some l =>
        out = authenticateKexts authenticate rest result2
                (Some (l ++ [thisKext])) w1
        ∧ (∃ l2, out.1.2 = Some (l ++ thisKext :: l2) ∧ l2 ⊆ rest)
        ∧ repositoryList out.2 = repositoryList w
        ∧ candidateKexts out.2 = candidateKexts w
        ∧ needsClearRelationships out.2 = needsClearRelationships w
        ∧ needsCalculateRelationships out.2 = needsCalculateRelationships w
        ∧ (∃ t, trace out.2 = trace w ++ EvAuthenticate thisKext :: t
                ∧ Forall (fun e => ∃ k, e = EvAuthenticate k ∧ k ∈ rest) t)
        ∧ (∀ next rest', rest = next :: rest' →
             KXKextOtherVersionIsLoaded (kexts w1) next
               && negb (performsFullTests w1) = false →
             KXKextIsAuthentic (kexts w1) next = false →
             ∃ t, trace out.2
                  = trace w ++ EvAuthenticate thisKext
                      :: EvAuthenticate next :: t)
    | None =>
        out.1.2 = None
        ∧ (∃ t, trace out.2
                = trace w ++ EvAuthenticate thisKext
                    :: EvDisqualify thisKext :: t
                ∧ (performsFullTests w = false → Forall isClear t))
        ∧ (∀ repo, repositoryList w !! r = Some repo →
             ∃ repo', repositoryList out.2 !! r = Some repo'
                      ∧ (thisKext ∉ repoCandidateKexts repo')
                      ∧ thisKext ∈ repoBadKexts repo')
        ∧ needsCalculateRelationships out.2 = true
        ∧ ((∀ r' repo', r' ≠ r → repositoryList w !! r' = Some repo' →
              thisKext ∉ repoCandidateKexts repo') →
           (thisKext ∉ allCandidates out.2)
           ∧ ¬ reachable (relationshipsChecked out.2) thisKext)
        ∧ (performsFullTests w = false → out = (result2, None, w2))
        ∧ (performsFullTests w = true →
           out = authenticateKexts authenticate rest result2 None w2)
    end.
Proof.
  intros Hreach Hauth Hfail result1 result2 w1 w2 r out.
  assert (Hstep : out
    = match inauthenticKexts with
      | Some l =>
          authenticateKexts authenticate rest result2
            (Some (l ++ [thisKext])) w1
      | None =>
          if negb (performsFullTests w2) then (result2, None, w2)
          else authenticateKexts authenticate rest result2 None w2
      end).
  { subst out w2 w1 result2 result1. unfold KXKextAuthenticate.
    cbn [authenticateKexts snd]. rewrite Hreach, Hauth. cbn [negb].
    unfold KXKextAuthenticate. rewrite Hfail.
    rewrite (bool_decide_eq_false_2
               (kKXKextManagerErrorAuthentication = kKXKextManagerErrorNone))
      by done.
    rewrite (bool_decide_eq_true_2
               (kKXKextManagerErrorAuthentication
                = kKXKextManagerErrorAuthentication)) by done.
    by destruct inauthenticKexts. }
  assert (Hres2 : result2 ≠ kKXKextManagerErrorNone)
    by (subst result2; by case_bool_decide).
  assert (T1 : trace w1 = trace w ++ [EvAuthenticate thisKext]) by done.
  assert (R1 : repositoryList w1 = repositoryList w) by done.
  assert (F1 : performsFullTests w1 = performsFullTests w) by done.
  assert (Hrepo : KXKextGetRepository (kexts w1) thisKext = r).
  { subst w1 r. unfold KXKextAuthenticate, KXKextGetRepository. cbn.
    rewrite lookup_alter_eq. by destruct (kexts w !! thisKext). }
  destruct inauthenticKexts as [l |].
  - (* a container *)
    destruct (authenticateKexts_frame authenticate rest result2
                (Some (l ++ [thisKext])) w1)
      as (_ & _ & _ & Hnone & _ & Hcont).
    destruct (Hcont _ eq_refl) as (Hr & l2 & Hl2 & Hsub).
    destruct (authenticateKexts_container authenticate rest result2
                (l ++ [thisKext]) w1) as (C1 & _ & C3 & C4 & t & Ht & Hev).
    rewrite <- Hstep in Hnone, Hr, Hl2, C1, C3, C4, Ht.
    split; [by intros ?%Hnone |].
    split; [done |].
    split; [exists l2; split; [by rewrite Hl2, <- app_assoc | done] |].
    split; [by rewrite Hr |].
    do 3 (split; [done |]).
    split.
    { exists t. split; [by rewrite Ht, T1, <- app_assoc | done]. }
    intros next rest' -> Hn1 Hn2.
    destruct (authenticateKexts_head_event authenticate next rest' result2
                (Some (l ++ [thisKext])) w1 Hn1 Hn2) as [t' Ht'].
    rewrite <- Hstep in Ht'. exists t'.
    by rewrite Ht', T1, <- app_assoc.
  - (* no container: the kext is disqualified *)
    destruct (KXKextManagerDisqualifyKext_spec w1 thisKext)
      as (D1 & D2 & D3 & D4 & _ & t2 & T2 & Q2).
    rewrite Hrepo in D1, D2. fold w2 in D1, D2, D3, D4, T2.
    assert (Q2' : Forall isClear t2).
    { destruct (KXKextManagerDisqualifyKext_grows w1 thisKext)
        as (t & Ht & Hq).
      fold w2 in Ht. rewrite T2 in Ht. apply app_inv_head in Ht as <-.
      apply Forall_cons in Hq as [_ Hq].
      rewrite Forall_forall in Q2, Hq. apply Forall_forall. intros e He.
      destruct (Hq e He) as [-> | ?]; [by destruct (Q2 _ He) | done]. }
    assert (S2 : shrunk (repositoryList w) (repositoryList w2)).
    { rewrite <- R1. apply KXKextManagerDisqualifyKext_shrunk. }
    assert (F2 : performsFullTests w2 = performsFullTests w)
      by (by rewrite D3).
    assert (Hout : out.1.1 ≠ kKXKextManagerErrorNone
                   ∧ out.1.2 = None
                   ∧ shrunk (repositoryList w2) (repositoryList out.2)
                   ∧ needsCalculateRelationships out.2 = true
                   ∧ ∃ t3, trace out.2 = trace w2 ++ t3
                           ∧ (performsFullTests w = false → t3 = [])).
    { rewrite Hstep, F2. destruct (performsFullTests w); cbn [negb].
      - destruct (authenticateKexts_frame authenticate rest result2 None w2)
          as (_ & _ & (t3 & Ht3 & _) & Hnone & Hcont & _).
        destruct (authenticateKexts_shrunk authenticate rest result2 None w2)
          as [S3 N3].
        split; [by intros ?%Hnone |]. split; [by apply Hcont |].
        split; [done |]. split; [by apply N3 |].
        exists t3. split; [done | discriminate].
      - cbn. split; [done |]. split; [done |].
        split; [apply shrunk_refl |]. split; [done |].
        exists []. by rewrite app_nil_r. }
    destruct Hout as (O1 & O2 & O3 & O4 & t3 & T3 & E3).
    assert (Hat : ∀ i repo', repositoryList out.2 !! i = Some repo' →
              ∃ repo2, repositoryList w2 !! i = Some repo2
                       ∧ repoCandidateKexts repo' ⊆ repoCandidateKexts repo2
                       ∧ repoBadKexts repo2 ⊆ repoBadKexts repo').
    { intros i repo' Hi. destruct O3 as [L3 H3].
      destruct (lookup_lt_is_Some_2 (repositoryList w2) i) as [repo2 Hi2].
      { rewrite <- L3. by eapply lookup_lt_Some. }
      exists repo2. split; [done |]. by apply (H3 i). }
    split; [done |]. split; [done |].
    split.
    { exists (t2 ++ t3). split.
      - rewrite T3, T2, T1, <- !app_assoc. done.
      - intros Hf. rewrite (E3 Hf), app_nil_r. done. }
    split.
    { intros repo Hr. specialize (D1 repo Hr).
      destruct (lookup_lt_is_Some_2 (repositoryList out.2) r) as [repo' Hr'].
      { destruct O3 as [-> _]. by eapply lookup_lt_Some. }
      exists repo'. split; [done |].
      destruct (Hat r repo' Hr') as (repo2 & Hr2 & Hc & Hb).
      rewrite D1 in Hr2. injection Hr2 as <-. cbn in Hc, Hb. split.
      - intros [Hne _]%Hc%list_elem_of_filter. done.
      - apply Hb, elem_of_app. right. apply list_elem_of_here. }
    split; [done |].
    split.
    { intros Hother.
      assert (Hnot : thisKext ∉ allCandidates out.2).
      { intros (repo' & Hin & Hk)%list_elem_of_In%in_flat_map.
        apply list_elem_of_In, list_elem_of_lookup in Hin as [i Hi].
        apply list_elem_of_In in Hk.
        destruct (Hat i repo' Hi) as (repo2 & Hi2 & Hc & _).
        apply Hc in Hk.
        destruct (decide (i = r)) as [-> | Hne].
        - destruct (repositoryList w !! r) as [repo |] eqn:Hr.
          + rewrite (D1 repo Hr) in Hi2. injection Hi2 as <-.
            cbn in Hk. apply list_elem_of_filter in Hk as [? _]. done.
          + apply lookup_ge_None in Hr.
            apply lookup_lt_Some in Hi2. destruct S2 as [L2 _]. lia.
        - rewrite (D2 i Hne), R1 in Hi2. by apply (Hother i repo2). }
      split; [done |]. intros Hm.
      apply Hnot. eapply stale_reachable; [| exact Hm]. by right. }
    rewrite Hstep, F2. split; intros ->; done.
Qed.
End authentication_failure.

Lemma C8_authentication_failure_witness :
  (∃ l2, (authenticateKexts (authenticateAllBut 3) [3; 4]%nat
            kKXKextManagerErrorNone (Some []) chain54321).1.2
         = Some ([] ++ 3%nat :: l2)
         ∧ l2 ⊆ [4%nat])
  ∧ (3%nat ∉ allCandidates
               (authenticateKexts (authenticateAllBut 3) [3; 4]%nat
                  kKXKextManagerErrorNone None chain54321).2)
  ∧ ¬ reachable
        (relationshipsChecked
           (authenticateKexts (authenticateAllBut 3) [3; 4]%nat
              kKXKextManagerErrorNone None chain54321).2)
        3%nat.
Proof.
  split.
  - exact (proj1 (proj2 (proj2 (C8_authentication_failure (authenticateAllBut 3) 3
             [4%nat] kKXKextManagerErrorNone (Some []) chain54321
             eq_refl eq_refl eq_refl)))).
  - pose proof (C8_authentication_failure (authenticateAllBut 3) 3
             [4%nat] kKXKextManagerErrorNone None chain54321
             eq_refl eq_refl eq_refl) as (_ & _ & _ & _ & _ & H & _).
    destruct H as [H1 H2].
    { intros [| r'] repo' Hne Hr; [done | discriminate Hr]. }
    split; [exact H1 | exact H2].
Defined.

(** ** The loaded flags on any manager *)

Lemma addDuplicateVersionKext_loaded (fuel : nat) :
  ∀ (aKext newKext : KXKextRef) (heap : gmap nat KXKext),
    heap_rel same_loaded heap (addDuplicateVersionKext fuel aKext newKext heap).
Proof.
  induction fuel as [| fuel IH]; intros aKext newKext heap; cbn.
  - apply heap_rel_refl; apply _.
  - case_match; [apply IH |]. by apply heap_rel_alter; [apply _ |].
Qed.

Lemma addPriorOrDuplicateVersionKext_loaded (fuel : nat) :
  ∀ (thisKext : KXKextRef) (lastKext : option KXKextRef)
    (priorKext : KXKextRef) (heap : gmap nat KXKext),
    heap_rel same_loaded heap
      (addPriorOrDuplicateVersionKext fuel thisKext lastKext priorKext heap).
Proof.
  induction fuel as [| fuel IH]; intros thisKext lastKext priorKext heap;
    cbn [addPriorOrDuplicateVersionKext].
  - apply heap_rel_refl; apply _.
  - repeat case_match; try apply IH.
    + apply addDuplicateVersionKext_loaded.
    + eapply heap_rel_trans; [apply _ | |];
        by apply heap_rel_alter; [apply _ |].
    + by apply heap_rel_alter; [apply _ |].
    + by apply heap_rel_alter; [apply _ |].
Qed.

Lemma calculateKext_loaded (w : World) (k : KXKextRef) :
  heap_rel same_loaded (kexts w) (kexts (calculateKext w k)).
Proof.
  unfold calculateKext, _KXKextAddPriorOrDuplicateVersionKext.
  repeat case_match; cbn [kexts set_kexts set_candidateKexts];
    try (apply heap_rel_refl; apply _).
  - by apply heap_rel_alter; [apply _ |].
  - apply addPriorOrDuplicateVersionKext_loaded.
Qed.

Lemma __KXKextManagerClearRelationships_loaded (w : World) :
  heap_rel same_loaded (kexts w) (kexts (__KXKextManagerClearRelationships w)).
Proof.
  cbn. apply heap_rel_fold_left; [apply _ ..|]. intros h0 r.
  by apply heap_rel_foldr_alter; [apply _ ..|].
Qed.

Lemma KXKextManagerCalculateVersionRelationships_loaded (w : World) :
  heap_rel same_loaded (kexts w)
    (kexts (KXKextManagerCalculateVersionRelationships w)).
Proof.
  unfold KXKextManagerCalculateVersionRelationships. cbv zeta.
  eapply heap_rel_trans;
    [apply _ | apply __KXKextManagerClearRelationships_loaded |].
  set (v := __KXKextManagerClearRelationships w).
  eapply (heap_rel_trans _ _ (kexts (__KXKextManagerClearDependencyRelationships v))).
  { cbn. apply heap_rel_fold_left; [apply _ ..|]. intros h0 r.
    by apply heap_rel_foldr_alter; [apply _ ..|]. }
  set (u := __KXKextManagerClearDependencyRelationships v).
  cbn [kexts set_needsCalculateRelationships].
  generalize (repositoryList u). intros rs. generalize u. clear.
  induction rs as [| r rs IH]; intros u; cbn [fold_left].
  { apply heap_rel_refl; apply _. }
  eapply heap_rel_trans; [apply _ | | apply IH].
  generalize (repoCandidateKexts r). intros ks. generalize u. clear.
  induction ks as [| k ks IH]; intros u; cbn [fold_left].
  { apply heap_rel_refl; apply _. }
  eapply heap_rel_trans; [apply _ | apply calculateKext_loaded | apply IH].
Qed.

Lemma relationshipsChecked_loaded (w : World) :
  heap_rel same_loaded (kexts w) (kexts (relationshipsChecked w)).
Proof.
  unfold relationshipsChecked. cbv zeta.
  set (v := if needsClearRelationships w then _ else w).
  assert (H1 : heap_rel same_loaded (kexts w) (kexts v)).
  { subst v. destruct (needsClearRelationships w);
      [apply __KXKextManagerClearRelationships_loaded
      | apply heap_rel_refl; apply _]. }
  destruct (needsCalculateRelationships v); [| done].
  eapply heap_rel_trans;
    [apply _ | exact H1
    | apply KXKextManagerCalculateVersionRelationships_loaded].
Qed.

Lemma markDuplicates_shape (fuel : nat) :
  ∀ (o : option KXKextRef) (a v : Z) (heap : gmap nat KXKext),
    heap_rel same_shape heap (markDuplicates fuel o a v heap).
Proof.
  induction fuel as [| fuel IH]; intros o a v heap; destruct o as [d |];
    cbn [markDuplicates]; try (apply heap_rel_refl; apply _).
  eapply heap_rel_trans; [apply _ | | apply IH].
  eapply heap_rel_trans; [apply _ | |].
  - by apply (heap_rel_alter _ (set_startAddress a) d).
  - case_match; by apply heap_rel_alter; [apply _ |].
Qed.

Lemma markChain_shape (fuel : nat) :
  ∀ (o : option KXKextRef) (a v : Z) (heap : gmap nat KXKext),
    heap_rel same_shape heap (markChain fuel o a v heap).
Proof.
  induction fuel as [| fuel IH]; intros o a v heap; destruct o as [k |];
    cbn [markChain]; try (apply heap_rel_refl; apply _).
  eapply heap_rel_trans; [apply _ | apply markDuplicates_shape | apply IH].
Qed.

Section loaded_kexts_stale.
Context (VERS_parse_string : string → Z).

(** On a manager whose relationships are up to date the loop over the module
    table changes neither a link nor the candidate set. *)
Lemma checkLoadedModules_shape (mods : list kmod_info) :
  ∀ w : World,
    needsClearRelationships w = false →
    needsCalculateRelationships w = false →
    let w' := checkLoadedModules VERS_parse_string mods w in
    heap_rel same_shape (kexts w) (kexts w')
    ∧ candidateKexts w' = candidateKexts w
    ∧ repositoryList w' = repositoryList w.
Proof.
  induction mods as [| m mods IH]; intros w Hc Hn; cbn [checkLoadedModules].
  { split; [apply heap_rel_refl; apply _ | done]. }
  destruct (VERS_parse_string (kmod_version m) <? 0); [by apply IH |].
  rewrite KXKextManagerGetKextWithIdentifier_fresh by done.
  set (v := set_kexts _ w).
  assert (Hv : heap_rel same_shape (kexts w) (kexts v))
    by apply markChain_shape.
  destruct (kmod_next m =? 0); [done |].
  destruct (IH v Hc Hn) as (H1 & H2 & H3).
  split; [eapply heap_rel_trans; [apply _ | done ..] | done].
Qed.

(** A table of which the loop reads no entry leaves the manager alone. *)
Lemma checkLoadedModules_unread (mods : list kmod_info) (w : World) :
  readModules VERS_parse_string mods = [] →
  checkLoadedModules VERS_parse_string mods w = w.
Proof.
  induction mods as [| m mods IH]; cbn [checkLoadedModules readModules];
    [done |].
  destruct (VERS_parse_string (kmod_version m) <? 0); [exact IH |].
  by destruct (kmod_next m =? 0).
Qed.

(** The first entry that the loop reads has the relationships checked. *)
Lemma checkLoadedModules_checked (mods : list kmod_info) (w : World) :
  readModules VERS_parse_string mods ≠ [] →
  checkLoadedModules VERS_parse_string mods w
  = checkLoadedModules VERS_parse_string mods (relationshipsChecked w).
Proof.
  induction mods as [| m mods IH]; cbn [checkLoadedModules readModules];
    [done |].
  destruct (VERS_parse_string (kmod_version m) <? 0); [exact IH |].
  intros _.
  destruct (relationshipsChecked_fields w) as (_ & Hc & Hn).
  rewrite (KXKextManagerGetKextWithIdentifier_fresh (relationshipsChecked w))
    by done.
  unfold KXKextManagerGetKextWithIdentifier,
    __KXKextManagerGetKextWithIdentifierAndVersionNumber.
  fold (relationshipsChecked w). done.
Qed.

(** C9 (amended).  [KXKextManagerCheckForLoadedKexts] on any manager, the
    kernel answering the query, read against the candidate structure as it
    is on return, which is well formed.  The function succeeds, and for
    every kext of the repositories: if it is a member of the candidate
    structure, it is marked loaded exactly when an entry that the loop
    reads has its identifier and its version, and marked as having another
    version loaded exactly when such an entry has its identifier and a
    different version; if it is not a member, it is left not loaded on both
    counts.  What an earlier query has marked does not stay. *)
Theorem C9_loaded_flags_of_candidates (w : World)
    (loaded_modules : list kmod_info) :
  let r :=
    KXKextManagerCheckForLoadedKexts VERS_parse_string (Some loaded_modules)
      w in
  candidatesWellFormed r.2 →
  r.1 = kKXKextManagerErrorNone
  ∧ ∀ k, k ∈ allKexts w →
      (candidateMember r.2 k →
       (KXKextIsLoaded (kexts r.2) k = true
        ↔ ∃ m, m ∈ readModules VERS_parse_string loaded_modules
               ∧ kmod_name m = KXKextGetBundleIdentifier (kexts w) k
               ∧ VERS_parse_string (kmod_version m)
                 = _KXKextGetVersion (kexts w) k)
       ∧ (KXKextOtherVersionIsLoaded (kexts r.2) k = true
          ↔ ∃ m, m ∈ readModules VERS_parse_string loaded_modules
                 ∧ kmod_name m = KXKextGetBundleIdentifier (kexts w) k
                 ∧ VERS_parse_string (kmod_version m)
                   ≠ _KXKextGetVersion (kexts w) k))
      ∧ (¬ candidateMember r.2 k →
         KXKextIsLoaded (kexts r.2) k = false
         ∧ KXKextOtherVersionIsLoaded (kexts r.2) k = false).
Proof.
  intros r. subst r. unfold KXKextManagerCheckForLoadedKexts.
  cbn [fst snd]. intros Hwf. split; [done |].
  set (w0 := emit EvKmodGetInfo _) in *.
  assert (Hrel0 : heap_rel same_shape (kexts w) (kexts w0))
    by apply markKextsNotLoaded_shape.
  assert (Hoff : ∀ k x0, k ∈ allKexts w → kexts w0 !! k = Some x0 →
            isLoaded x0 = false ∧ otherVersionIsLoaded x0 = false).
  { intros k x0 Hin Hk0.
    by apply (markKextsNotLoaded_all (repositoryList w) (kexts w) k x0
                (or_introl Hin)). }
  destruct (decide (readModules VERS_parse_string loaded_modules = []))
    as [Hnil | Hread].
  { (* nothing is read: every kext of the repositories stays unmarked *)
    rewrite checkLoadedModules_unread in * by done. rewrite Hnil.
    intros k Hin.
    assert (Hk : KXKextIsLoaded (kexts w0) k = false
                 ∧ KXKextOtherVersionIsLoaded (kexts w0) k = false).
    { unfold KXKextIsLoaded, KXKextOtherVersionIsLoaded.
      destruct (kexts w0 !! k) as [x0 |] eqn:Hk0; [| done]. cbn.
      by apply (Hoff k x0). }
    destruct Hk as [-> ->]. split; [| done]. intros _.
    split; (split; [done | by intros (m & ?%elem_of_nil & _)]). }
  rewrite checkLoadedModules_checked in * by done.
  set (u := relationshipsChecked w0) in *.
  destruct (relationshipsChecked_fields w0) as (Hset & Hc & Hn).
  fold u in Hset, Hc, Hn.
  destruct (checkLoadedModules_shape loaded_modules u Hc Hn)
    as (Hshape & Hcand & Hrepo).
  set (w' := checkLoadedModules VERS_parse_string loaded_modules u) in *.
  assert (Hwfu : candidatesWellFormed u).
  { apply (candidatesWellFormed_heap_rel w' u); [| done | done | done].
    apply heap_rel_sym; [apply same_shape_sym | done]. }
  destruct (checkLoadedModules_spec VERS_parse_string loaded_modules u
              Hc Hn Hwfu) as [_ Hspec].
  fold w' in Hspec.
  assert (Hmem : ∀ id j, memberUnder w' id j ↔ memberUnder u id j)
    by (intros id j; symmetry; by apply memberUnder_heap_rel).
  assert (Hsteady : steady w0 u) by apply relationshipsChecked_steady.
  assert (Hloaded : heap_rel same_loaded (kexts w0) (kexts u))
    by apply relationshipsChecked_loaded.
  intros k Hin.
  destruct (kexts w !! k) as [x |] eqn:Hk.
  2:{ (* a handle that names no kext reads as not loaded *)
    assert (Hk' : kexts w' !! k = None).
    { eapply heap_rel_None; [exact Hshape |].
      eapply heap_rel_None; [exact (proj1 Hsteady) |].
      by eapply heap_rel_None. }
    split.
    - intros (id & head & ll & _ & Ht & Hink).
      destruct (kextTree_lookup _ _ _ _ Ht Hink) as [? ?]. congruence.
    - intros _. unfold KXKextIsLoaded, KXKextOtherVersionIsLoaded.
      by rewrite Hk'. }
  destruct (heap_rel_lookup same_shape _ _ _ _ Hrel0 Hk)
    as (x0 & Hk0 & [_ (Hid0 & Hv0 & _)]).
  destruct (Hoff k x0 Hin Hk0) as [Hl0 Ho0].
  destruct (heap_rel_lookup same_static _ _ _ _ (proj1 Hsteady) Hk0)
    as (xu & Hku & (Hidu & Hvu & _)).
  destruct (heap_rel_lookup same_loaded _ _ _ _ Hloaded Hk0)
    as (xu' & Hku' & (Hlu & Hou)).
  rewrite Hku in Hku'. injection Hku' as <-.
  destruct (Hspec k xu Hku) as (x' & Hk' & Hl & Ho).
  unfold KXKextIsLoaded, KXKextOtherVersionIsLoaded,
    KXKextGetBundleIdentifier, _KXKextGetVersion.
  rewrite Hk', Hk. cbn. rewrite Hl, Ho, <- Hlu, <- Hou, Hl0, Ho0.
  rewrite <- Hvu, <- Hv0.
  assert (Hxid : bundleIdentifier xu = bundleIdentifier x) by congruence.
  split.
  - intros (id & Hunder%Hmem).
    assert (Hname : ∀ name, memberUnder u name k ↔ name = bundleIdentifier x).
    { assert (Hident : ∀ name, memberUnder u name k →
                name = bundleIdentifier x).
      { intros name (head & ll & Hh & Ht & Hink).
        destruct (Hwfu name head Hh) as (ll' & Ht' & _ & Hall).
        rewrite (kextTree_functional _ _ _ _ Ht Ht') in Hink.
        destruct (Hall k Hink) as [<- _].
        unfold KXKextGetBundleIdentifier. by rewrite Hku. }
      intros name. split; [apply Hident |].
      intros ->. by rewrite <- (Hident id Hunder). }
    split; (split;
      [ intros [? | (m & Hm & Hu & Hv)]; [done |];
        exists m; split; [done |]; split; [| done];
        by apply Hname
      | intros (m & Hm & Hnm & Hv); right; exists m; split; [done |];
        split; [| done]; by apply Hname ]).
  - intros Hnot.
    split; (apply not_true_is_false; intros H;
            first [apply Hl in H | apply Ho in H];
            destruct H as [H | (m & _ & Hu & _)]; [congruence |];
            apply Hnot; exists (kmod_name m); by apply Hmem).
Qed.
End loaded_kexts_stale.

Lemma version4MarkedAfterClear_eq :
  (KXKextManagerCheckForLoadedKexts parseExampleVersion (Some version4Loaded)
     chain54321Cleared).2 = version4MarkedAfterClear.
Proof. vm_compute. reflexivity. Qed.

Lemma version4MarkedAfterClear_tree :
  kextTree (kexts version4MarkedAfterClear) (Some 5%nat)
    [[5]; [4]; [3]; [2]; [1]]%nat.
Proof.
  repeat (eapply kextTree_cons;
            [ vm_compute; reflexivity
            | eapply linkChain_cons;
                [vm_compute; reflexivity | cbn; apply linkChain_nil]
            | cbn ]).
  apply kextTree_nil.
Qed.

(** The query has rebuilt the chain of the five versions. *)
Lemma version4MarkedAfterClear_wellFormed :
  candidatesWellFormed version4MarkedAfterClear.
Proof.
  intros id head H.
  assert (E : candidateKexts version4MarkedAfterClear
              = ({[ "com.example.driver" := 5%nat ]} : gmap string nat))
    by (vm_compute; reflexivity).
  rewrite E in H.
  apply lookup_singleton_Some in H as [<- <-].
  exists [[5]; [4]; [3]; [2]; [1]]%nat. split; [| split].
  - apply version4MarkedAfterClear_tree.
  - cbn. apply NoDup_ListNoDup. repeat constructor; cbn; lia.
  - cbn. intros k Hin.
    repeat (apply elem_of_cons in Hin as [-> | Hin]);
      try (by apply elem_of_nil in Hin);
      (split; [vm_compute; reflexivity |]);
      vm_compute; repeat (first [apply list_elem_of_here
                                | apply list_elem_of_further]).
Qed.

Lemma C9_loaded_flags_of_candidates_witness :
  needsCalculateRelationships chain54321Cleared = true
  ∧ (KXKextIsLoaded (kexts version4MarkedAfterClear) 4 = true
     ↔ ∃ m, m ∈ readModules parseExampleVersion version4Loaded
            ∧ kmod_name m
              = KXKextGetBundleIdentifier (kexts chain54321Cleared) 4
            ∧ parseExampleVersion (kmod_version m)
              = _KXKextGetVersion (kexts chain54321Cleared) 4).
Proof.
  split; [reflexivity |].
  pose proof (C9_loaded_flags_of_candidates parseExampleVersion
                chain54321Cleared version4Loaded) as H.
  cbv zeta in H. rewrite version4MarkedAfterClear_eq in H.
  destruct (H version4MarkedAfterClear_wellFormed) as [_ Hk].
  destruct (Hk 4%nat) as [Hmember _].
  { vm_compute. do 1 apply list_elem_of_further. apply list_elem_of_here. }
  apply Hmember.
  exists "com.example.driver", 5%nat, [[5]; [4]; [3]; [2]; [1]]%nat.
  split; [vm_compute; reflexivity |].
  split; [apply version4MarkedAfterClear_tree |].
  cbn. apply list_elem_of_further, list_elem_of_here.
Defined.
